(* ===== verification/_CoqProject ===== *)
-Q . S2P
Prelude.v
Wire.v
OrdMap.v
Queue.v
QueueConc.v
Stream.v
Program.v
Platform.v
Factory.v
Pool.v
Interfaces.v
Strings.v
Concrete.v
State.v
Gateway.v
Presentation.v
Chunks.v
Session.v
StateMachine.v
SessionFacts.v
Window.v
ClientRun.v
WindowProps.v
ServerRun.v
Handshake.v
Network.v
Transfer.v
UserApi.v
Main.v
SessionProps.v
Addresses.v
Safety.v
Status.v
