(* ===== verification/Prelude.v ===== *)
(** * UDM: a file transfer over UDP, verified

    ** The program

    UDM sends one file from a server to a client in datagrams, which it calls
    capsules: a packed header of 14 bytes and a payload.  A session opens with a
    hello of the client, an answer of the server and an acknowledgement of the
    client; the last two carry the lists of the hosts' interface addresses.
    Then the server sends windows of five chunks, the client sorts each window
    by the capsules' identifiers, appends it to its file and answers, until a
    capsule carries the flag FIN.  The parts, with their files under src/:

    - circular_pipeline.hpp: [threadsafe_queue], a linked list with two mutexes;
    - worker_pool.hpp: [thread_pool], tasks in such a queue;
    - datafactory.h: the header, [DataSource] (a file stream), [DataFactory]
      (the queue of buffers between the stream and the network);
    - gateway.h, interfaces.h: sockets, and the addresses of both hosts;
    - presentation.h: what is written to the client's file;
    - session.h: [SessionProcessor], the eight state functions, [Session::start];
    - userclass.h, connection.h: contexts, name resolution, sockets, and the two
      calls that run a session; the two programs are udmuser_srv.cpp and
      udmuser_cl.cpp.

    The state functions call the presentation stage and the gateway, which work
    on the buffers of the two factories; the only interaction of the two
    processes is by datagrams.

    ** The model

    A shallow embedding: every method is a function with the name it has in the
    source.  Integers are [Z] with the conversions of the C types written out
    ([u8], [u16], [i32], ...).  Memory that is shared by pointer is a store of
    buffers ([Factory.store]); an access to a freed buffer, outside a block or
    through a null pointer is a [Program.fault].  The bytes of a fresh block are
    a parameter ([Malloc]).  Code without system calls returns a [Program.res];
    the session's code is in the monad [Program.M] over the process state
    [State.proc], whose programs stop at [sendto] and [recvfrom], end the
    process with a status, or fault.

    Files, in the order of their dependence:

    - Prelude.v: conversions of integers, field updates, memory blocks, tactics;
    - Wire.v: header, enumerations, [struct params];
    - OrdMap.v: the [std::map] of the receive window;
    - Queue.v: [threadsafe_queue] on its heap of nodes, and the interface
      ([Fifo], [FifoLaws]) that all clients of the queue are proved against;
    - QueueConc.v: the same methods as atomic actions of several threads;
    - Stream.v: [std::fstream] and [DataSource];
    - Program.v: programs with system calls, their steps, their dialogues
      ([plays], [exec]), and what holds however the calls end ([ends], [triple]);
    - Platform.v: what an access behind a block and a call through a null pointer
      do, a parameter;
    - Factory.v: buffers, capsules, [DataFactory];
    - Pool.v: [thread_pool], [join_threads];
    - Interfaces.v: address lists and the choice of an address;
    - Strings.v: numerals, [atoi], [strcpy] into a block of [size()] bytes;
    - Concrete.v: an allocator and an operating system for the examples;
    - State.v: the state of a process;
    - Gateway.v, Presentation.v: [Gateway], [PresentationProcessor], [Compositor];
    - Chunks.v: a file in chunks, a chunk on the wire;
    - Session.v: [SessionProcessor], the state functions, [Session::start];
    - StateMachine.v: the order of the states, whatever the network does;
    - SessionFacts.v: lemmas on the operations that the states share;
    - Window.v, ClientRun.v, WindowProps.v: the client's side of a window;
    - ServerRun.v: the server's side;
    - Handshake.v: the first three states of both sides;
    - Network.v: two processes on two hosts and the datagrams between them;
    - Transfer.v: a whole session of the two;
    - UserApi.v: contexts, addresses, sockets, and the two calls;
    - Main.v: [main] of the server and of the client, and the two processes joined;
    - SessionProps.v: agreement, losses, and what the states leave behind;
    - Addresses.v: address lists from one kernel to the other host's sockets;
    - Safety.v: what is well formed, that it stays so, and the faults that remain;
    - Status.v: the branches and the exit statuses of the client's [main].

    ** What is shown

    - The transfer (Main.v: [main_transfer_correct], [main_transfer_multiple],
      [main_transfer_large]): two hosts that reach each other, and a network that
      loses nothing that is sent to the socket of the other process; every
      interleaving of the two programs ends.  The file is in the client's sink
      then, unless it fills its last chunk or has 43704 full chunks or more: then
      the server has exited with status 1 and the client is blocked.  The three
      cover every file that is not empty.  That the datagrams are sent to the
      right address is a part of it: Network.v loses a datagram whose destination
      is not an address and a port of the other socket, and the choice of the
      address from the lists of the handshake is the program's.
    - The programs (Main.v: [server_main_branches], [port_roundtrip]; Status.v:
      [client_main_branches]): the arguments, the files, the exit statuses, and
      the ports that a [short] does not hold.
    - Safety (Safety.v): for every behaviour of the network the process stays well
      formed, with queues of buffers that have not been freed ([states_keep_ok]), a
      session faults in four ways only
      ([session_faults]), and a network can provoke each of them
      ([fault_reached]); where a call through a null pointer faults, no session
      returns ([strict_never_returns]).
    - The window (WindowProps.v, SessionProps.v): any
      order of arrival is sorted; a lost capsule stops both sides for ever; the
      flag FIN ends the session too early when it overtakes.
    - The state machine (StateMachine.v), for every behaviour of the network: the
      order of the states, their successors, the end of the loop of
      [closedState].
    - The handshake (SessionProps.v): what both sides agree on, and the source
      identifier that the hello does not carry.
    - The queue (Queue.v, QueueConc.v): a list for one thread; for any number of
      threads first in first out, no access to freed nodes, no deadlock, no call
      that spins; the race on [count].
    - Capsules and chunks (Wire.v, Chunks.v, Presentation.v): round trips, reading
      a source, writing a sink, short and long datagrams.
    - Addresses (Addresses.v, UserApi.v): the lists that arrive, the rotation of
      the addresses, the bounds of the reads, and the inputs without a defined
      behaviour.
    - The thread pool (Pool.v) and the session's leftovers (SessionProps.v).

    ** Bounds and fuel

    [Session.start_loop] takes fuel, one unit for each state that is visited: the
    handshake needs three, every window two.  The theorems on the transfer hold
    for all fuel from the number of states of the session on, and [OutOfFuel] is a
    result of its own, which no theorem counts as an end.  [Session.closed_loop] is
    given [winSize] as its fuel by [closedState], and
    [StateMachine.closed_terminates] shows that this is enough.  The doubling of
    [_noOfInterfaces] gets the number of interfaces plus two;
    [Addresses.noOfInterfaces_complete] shows that its logarithm is enough, and that
    from 2^25 interfaces on the [int] that holds the length overflows instead.  The
    destructor of the pool and [worker_thread] need as many iterations as there
    are tasks.

    [Factory.read_limit] is the number of bytes after which [curSize], an [int],
    is out of range, [UserApi.FILE_LIMIT] its value for the program's chunks.  The
    model wraps around there, as compilers emit the addition when they do not rely
    on its being undefined; so do [curWritePos] and the counters of the client.
    The capsules of a file within the limit are fewer than 65536, so their
    identifiers are distinct.  The hosts of the transfer ([UserApi.host_os],
    [UserApi.reachable]) have fewer than 2048 interfaces, whose addresses have at
    most 14 characters; one at most is the loopback address, and the other host
    reaches all others.  Both sockets exist, and the server's is bound, when the
    first datagram is sent.

    ** What the platform decides

    [resolve] and [fetch_addresses] write the null byte of a string behind the
    block they ask for, [resolve] reads behind the address it gets, and [destroy]
    calls an empty member function through a null pointer.  All of it is undefined
    in C++, and every complete run comes to it.  [Platform] says how large the
    blocks of the allocator are and whether the other two go well; under
    [strict_platform] they are faults ([UserApi.address_strings_overflow],
    [Safety.strict_never_returns]).  The allocator decides two more things, and
    [Malloc] says how: the gateway hands [realloc] a pointer that it has not
    initialised, a fault unless its bytes happen to be null ([Interfaces.ifc_new]);
    and the loop that removes the loopback address reads the element behind its
    array, a fault unless the bytes behind the block can be read ([Prelude.behind],
    [Interfaces.read_past], [Addresses.peer_list_bounds]).  The theorems on the
    transfer assume a platform and an allocator that let them pass
    ([UserApi.host_memory]), and are instantiated with [rounding_platform], whose
    allocator works like that of the GNU C library.  Every other access outside a
    block is a fault.

    ** What is not modelled

    - The kernel and the C library: [sendto] and [recvfrom] are events with any
      result; SIOCGIFCONF, [inet_ntop], [inet_addr], [getnameinfo], [getaddrinfo],
      [socket], [bind], the file system and [malloc]'s bytes are parameters ([OS],
      [Net], [Files], [Malloc]).
    - Errors of a file stream that is open, failures of [malloc], and the freeing
      of bodies, which the program never does ([disposeAllocedBody] is not called).
    - Networks that duplicate or reorder: the two processes of Network.v are joined by
      two queues.  The theorems on one process (Safety.v, StateMachine.v,
      WindowProps.v) hold for any datagrams in any order.
    - Weak memory: the threads of QueueConc.v are sequentially consistent.
    - Messages on the terminal and the measurement of time.
    - The destruction of global objects after [main]: they hold no thread, and an
      empty queue of tasks.
    - Classes without behaviour (Compressor, Timer, acceptor, u_socket and
      others), and functions that are declared and never defined. *)
From coqutil Require Export Byte.
From coqutil Require Export Word.LittleEndianList.
From stdpp Require Export base tactics option list sorting gmap.
From Stdlib Require Export ZArith Lia.

#[global] Open Scope Z_scope.

Declare Scope udm_scope.
Delimit Scope udm_scope with udm.
#[global] Open Scope udm_scope.

(** ** Fixed-width integers

    The C types of the program, as [Z] with the conversion written out.
    [u8], [u16], [u32], [u64] are the conversions to the unsigned types,
    [i32] the conversion to [int] (two's complement, as g++ emits it). *)

Definition u8 (z : Z) : Z := z mod 2 ^ 8.
Definition u16 (z : Z) : Z := z mod 2 ^ 16.
Definition u32 (z : Z) : Z := z mod 2 ^ 32.
Definition u64 (z : Z) : Z := z mod 2 ^ 64.
Definition i32 (z : Z) : Z := (z + 2 ^ 31) mod 2 ^ 32 - 2 ^ 31.
(** a bit-field of [w] bits *)
Definition bitf (w z : Z) : Z := z mod 2 ^ w.

Arguments u8 _ : simpl never.
Arguments u16 _ : simpl never.
Arguments u32 _ : simpl never.
Arguments u64 _ : simpl never.
Arguments i32 _ : simpl never.
Arguments bitf _ _ : simpl never.

Ltac mod_lia := Z.to_euclidean_division_equations; lia.

Create Rewrite HintDb ints.
Create HintDb udm.
Create HintDb safety.
Create Rewrite HintDb udm.

Lemma u8_range z : 0 <= u8 z < 256.
Proof. unfold u8; mod_lia. Qed.
Lemma u16_range z : 0 <= u16 z < 65536.
Proof. unfold u16; mod_lia. Qed.
Lemma u32_range z : 0 <= u32 z < 2 ^ 32.
Proof. unfold u32; mod_lia. Qed.
Lemma bitf_range w z : 0 <= w -> 0 <= bitf w z < 2 ^ w.
Proof. intros. apply Z.mod_pos_bound. lia. Qed.
Lemma u8_small z : 0 <= z < 256 -> u8 z = z.
Proof. intros. apply Z.mod_small. lia. Qed.
Lemma u16_small z : 0 <= z < 65536 -> u16 z = z.
Proof. intros. apply Z.mod_small. lia. Qed.
Lemma u32_small z : 0 <= z < 2 ^ 32 -> u32 z = z.
Proof. intros. apply Z.mod_small. lia. Qed.
Lemma u64_small z : 0 <= z < 2 ^ 64 -> u64 z = z.
Proof. intros. apply Z.mod_small. lia. Qed.
Lemma i32_small z : - 2 ^ 31 <= z < 2 ^ 31 -> i32 z = z.
Proof. intros. unfold i32. rewrite Z.mod_small; lia. Qed.
Lemma i32_range z : - 2 ^ 31 <= i32 z < 2 ^ 31.
Proof. unfold i32. pose proof (Z.mod_pos_bound (z + 2 ^ 31) (2 ^ 32)). lia. Qed.
Lemma bitf_small w z : 0 <= z < 2 ^ w -> bitf w z = z.
Proof. intros. by apply Z.mod_small. Qed.

Lemma i32_add_l a b : i32 (i32 a + b) = i32 (a + b).
Proof.
  unfold i32. apply (f_equal (fun z => z - 2 ^ 31)).
  replace ((a + 2 ^ 31) mod 2 ^ 32 - 2 ^ 31 + b + 2 ^ 31)
    with ((a + 2 ^ 31) mod 2 ^ 32 + b) by lia.
  rewrite Zplus_mod_idemp_l. f_equal. lia.
Qed.

#[export] Hint Rewrite u8_small u16_small u32_small u64_small i32_small
  using lia : ints.

(** [int_simpl]: remove every conversion that the context shows to be the
    identity. *)
Ltac int_simpl := autorewrite with ints in *.

(** ** Field updates

    [Update f] says how to rebuild a record with its field [f] changed; the
    notation [r <| f := v |>] reads like the assignment it models. *)

Class Update {R A : Type} (f : R -> A) := upd : (A -> A) -> R -> R.
Arguments upd {R A} f {_} _ _ /.

Notation "r <| f := v |>" := (upd f (fun _ => v) r)
  (at level 12, left associativity, f at level 9, v at level 200) : udm_scope.
Notation "r <| f ::= g |>" := (upd f g r)
  (at level 12, left associativity, f at level 9, g at level 200) : udm_scope.

(** ** Bytes *)

#[export] Instance byte_eq_dec : EqDecision byte := Byte.byte_eq_dec.

(** the bytes of a block that [malloc] returns are not initialised: [junk n i]
    is byte [i] of the [n]-th block the process allocates, or of what lies behind
    it; [behind n] tells whether the bytes behind that block can be read *)
Class Malloc := {
  junk : nat -> nat -> byte;
  behind : nat -> bool
}.

Definition malloc `{Malloc} (n : nat) (size : Z) : list byte :=
  junk n <$> seq 0 (Z.to_nat size).

Lemma length_malloc `{Malloc} n size : length (malloc n size) = Z.to_nat size.
Proof. unfold malloc. by rewrite length_fmap, length_seq. Qed.
#[export] Hint Rewrite @length_malloc : udm.

(** ** Lists *)

(** Overwrite the [length bs] elements of [l] that start at [pos]: [memcpy].
    Out of range is undefined behaviour, [None] here. *)
Definition splice {A} (l : list A) (pos : nat) (bs : list A) : option (list A) :=
  if decide (pos + length bs <= length l)%nat
  then Some (take pos l ++ bs ++ drop (pos + length bs) l)
  else None.

(** Read [n] elements that start at [pos]. *)
Definition slice {A} (l : list A) (pos n : nat) : option (list A) :=
  if decide (pos + n <= length l)%nat then Some (take n (drop pos l)) else None.

#[global] Arguments malloc : simpl never.
#[global] Arguments splice : simpl never.
#[global] Arguments slice : simpl never.

Section Lists.
Context {A : Type}.
Implicit Types l bs : list A.

Lemma splice_Some l pos bs :
  (pos + length bs <= length l)%nat ->
  splice l pos bs = Some (take pos l ++ bs ++ drop (pos + length bs) l).
Proof. intros. unfold splice. by rewrite decide_True by lia. Qed.

Lemma length_splice l pos bs l' : splice l pos bs = Some l' -> length l' = length l.
Proof.
  unfold splice. case_decide; [|done]. intros [= <-].
  rewrite !length_app, length_take, length_drop. lia.
Qed.

Lemma length_slice l pos n r : slice l pos n = Some r -> length r = n.
Proof.
  unfold slice. case_decide; [|done]. intros [= <-].
  rewrite length_take, length_drop. lia.
Qed.

Lemma slice_Some l pos n :
  (pos + n <= length l)%nat -> slice l pos n = Some (take n (drop pos l)).
Proof. intros. unfold slice. by rewrite decide_True by lia. Qed.

Lemma take_app_exact (l1 l2 : list A) n : n = length l1 -> take n (l1 ++ l2) = l1.
Proof. intros ->. by rewrite take_app_length. Qed.

Lemma drop_app_exact (l1 l2 : list A) n : n = length l1 -> drop n (l1 ++ l2) = l2.
Proof. intros ->. by rewrite drop_app_length. Qed.

(** what was just copied in is what is read back *)
Lemma slice_splice_same l pos bs l' :
  splice l pos bs = Some l' -> slice l' pos (length bs) = Some bs.
Proof.
  intros H. pose proof (length_splice _ _ _ _ H) as Hl. revert H.
  unfold splice. case_decide; [|done]. intros [= <-].
  rewrite slice_Some by lia.
  rewrite drop_app_exact by (rewrite length_take; lia).
  by rewrite take_app_length.
Qed.

(** an access that does not meet the copied range is not changed by it *)
Lemma slice_splice_before l pos bs l' p n :
  splice l pos bs = Some l' -> (p + n <= pos)%nat -> slice l' p n = slice l p n.
Proof.
  intros H Hp. pose proof (length_splice _ _ _ _ H) as Hl. revert H.
  unfold splice. case_decide; [|done]. intros [= <-].
  rewrite !slice_Some by lia. f_equal.
  rewrite drop_app_le by (rewrite length_take; lia).
  rewrite take_app_le by (rewrite length_drop, length_take; lia).
  rewrite <- (take_drop pos l) at 2.
  rewrite drop_app_le by (rewrite length_take; lia).
  by rewrite take_app_le by (rewrite length_drop, length_take; lia).
Qed.

Lemma slice_splice_after l pos bs l' p n :
  splice l pos bs = Some l' -> (pos + length bs <= p)%nat -> slice l' p n = slice l p n.
Proof.
  intros H Hp. pose proof (length_splice _ _ _ _ H) as Hl. revert H.
  unfold splice. case_decide; [|done]. intros [= <-].
  unfold slice. rewrite Hl. case_decide; [|done]. f_equal.
  rewrite !drop_app, length_take, drop_drop.
  rewrite (drop_ge (take pos l)) by (rewrite length_take; lia).
  rewrite (drop_ge bs) by lia. simpl. do 2 f_equal. lia.
Qed.

End Lists.

(** ** Tactics *)

(** split a conjunction goal and close the parts that are easy *)
Ltac split_all := repeat split; eauto with udm; try done; try lia.

(** case analysis on the first [match] or [if] of the goal *)
Ltac case_match_goal :=
  match goal with
  | |- context [match ?x with _ => _ end] => destruct x eqn:?
  end.
