(* ===== verification/Wire.v ===== *)
(** * The wire format: enumerations, capsule header, parameters

    The types that datafactory.h declares before its classes, and the bytes a
    [capsuleHdr] occupies.  The structure is packed, so its 14 bytes follow
    each other without padding, little-endian as on the x86-64 machines the
    program is written for; g++ lays the four bit-fields out from the least
    significant bit of their 16-bit unit.  The program never serialises a
    header field by field: it copies the structure ([memcpy] in
    [Gateway.chunkWrite], [Gateway.send], the two [setCapParams]) and casts
    the received bytes back ([stripHeader]); [encode_hdr] and [decode_hdr]
    are those two views. *)

From S2P Require Import Prelude.

(** ** Enumerations *)

Inductive sourceMode := IN | OUT.

Definition sourceMode_val (m : sourceMode) : Z :=
  match m with IN => 8 | OUT => 16 end.

Inductive capsuleType := CTRL | PIGGY | INQ | PAYLD.

Definition capsuleType_val (t : capsuleType) : Z :=
  match t with CTRL => 0 | PIGGY => 1 | INQ => 2 | PAYLD => 3 end.

Inductive flags := FIN | DON | OK | RST | ACK.

Definition flags_val (f : flags) : Z :=
  match f with FIN => 1 | DON => 2 | OK => 4 | RST => 8 | ACK => 16 end.

Inductive stateCodes :=
  s_open | s_setup | s_connected | s_closed | s_done | s_inq | s_send | s_recv.

Definition stateCodes_val (s : stateCodes) : Z :=
  match s with
  | s_open => 0 | s_setup => 1 | s_connected => 2 | s_closed => 3
  | s_done => 4 | s_inq => 5 | s_send => 6 | s_recv => 7
  end.

Inductive stateDirection := TX | RX.

#[export] Instance sourceMode_eq_dec : EqDecision sourceMode.
Proof. solve_decision. Defined.
#[export] Instance capsuleType_eq_dec : EqDecision capsuleType.
Proof. solve_decision. Defined.
#[export] Instance flags_eq_dec : EqDecision flags.
Proof. solve_decision. Defined.
#[export] Instance stateCodes_eq_dec : EqDecision stateCodes.
Proof. solve_decision. Defined.
#[export] Instance stateDirection_eq_dec : EqDecision stateDirection.
Proof. solve_decision. Defined.

(** ** The header *)

Record capsuleHdr := mkHdr {
  srcid : Z;
  destid : Z;
  connid : Z;
  capid : Z;
  capSize : Z;
  capType : Z;
  capPriority : Z;
  capWinSiz : Z;
  capFlags : Z;
  capopts : Z
}.

#[export] Instance capsuleHdr_eq_dec : EqDecision capsuleHdr.
Proof. solve_decision. Defined.

(** what value-initialisation ([new capsule()], [make_unique<capsule>()])
    leaves in a header *)
Definition hdr_zero : capsuleHdr := mkHdr 0 0 0 0 0 0 0 0 0 0.

(** assignments to the fields convert to the field's width *)
#[export] Instance upd_srcid : Update srcid := fun g h =>
  mkHdr (u8 (g (srcid h))) (destid h) (connid h) (capid h) (capSize h)
    (capType h) (capPriority h) (capWinSiz h) (capFlags h) (capopts h).
#[global] Arguments upd_srcid _ _ /.
#[export] Instance upd_destid : Update destid := fun g h =>
  mkHdr (srcid h) (u8 (g (destid h))) (connid h) (capid h) (capSize h)
    (capType h) (capPriority h) (capWinSiz h) (capFlags h) (capopts h).
#[global] Arguments upd_destid _ _ /.
#[export] Instance upd_connid : Update connid := fun g h =>
  mkHdr (srcid h) (destid h) (u16 (g (connid h))) (capid h) (capSize h)
    (capType h) (capPriority h) (capWinSiz h) (capFlags h) (capopts h).
#[global] Arguments upd_connid _ _ /.
#[export] Instance upd_capid : Update capid := fun g h =>
  mkHdr (srcid h) (destid h) (connid h) (u16 (g (capid h))) (capSize h)
    (capType h) (capPriority h) (capWinSiz h) (capFlags h) (capopts h).
#[global] Arguments upd_capid _ _ /.
#[export] Instance upd_capSize : Update capSize := fun g h =>
  mkHdr (srcid h) (destid h) (connid h) (capid h) (u16 (g (capSize h)))
    (capType h) (capPriority h) (capWinSiz h) (capFlags h) (capopts h).
#[global] Arguments upd_capSize _ _ /.
#[export] Instance upd_capType : Update capType := fun g h =>
  mkHdr (srcid h) (destid h) (connid h) (capid h) (capSize h)
    (bitf 2 (g (capType h))) (capPriority h) (capWinSiz h) (capFlags h) (capopts h).
#[global] Arguments upd_capType _ _ /.
#[export] Instance upd_capPriority : Update capPriority := fun g h =>
  mkHdr (srcid h) (destid h) (connid h) (capid h) (capSize h)
    (capType h) (bitf 2 (g (capPriority h))) (capWinSiz h) (capFlags h) (capopts h).
#[global] Arguments upd_capPriority _ _ /.
#[export] Instance upd_capWinSiz : Update capWinSiz := fun g h =>
  mkHdr (srcid h) (destid h) (connid h) (capid h) (capSize h)
    (capType h) (capPriority h) (bitf 4 (g (capWinSiz h))) (capFlags h) (capopts h).
#[global] Arguments upd_capWinSiz _ _ /.
#[export] Instance upd_capFlags : Update capFlags := fun g h =>
  mkHdr (srcid h) (destid h) (connid h) (capid h) (capSize h)
    (capType h) (capPriority h) (capWinSiz h) (bitf 8 (g (capFlags h))) (capopts h).
#[global] Arguments upd_capFlags _ _ /.

(** every field is within its declared width *)
Definition hdr_ok (h : capsuleHdr) : Prop :=
  0 <= srcid h < 2 ^ 8 /\ 0 <= destid h < 2 ^ 8 /\ 0 <= connid h < 2 ^ 16 /\
  0 <= capid h < 2 ^ 16 /\ 0 <= capSize h < 2 ^ 16 /\ 0 <= capType h < 2 ^ 2 /\
  0 <= capPriority h < 2 ^ 2 /\ 0 <= capWinSiz h < 2 ^ 4 /\
  0 <= capFlags h < 2 ^ 8 /\ 0 <= capopts h < 2 ^ 32.

#[export] Instance hdr_ok_dec h : Decision (hdr_ok h).
Proof. unfold hdr_ok. apply _. Defined.

(** [HEADER_SPACE], [sizeof(capsuleHdr)] *)
Definition HEADER_SPACE : Z := 14.

(** [sizeof(struct capsule)]: the packed header and a pointer *)
Definition sizeof_capsule : Z := HEADER_SPACE + 8.

(** the 16-bit unit that holds the four bit-fields *)
Definition pack_bits (h : capsuleHdr) : Z :=
  capType h + capPriority h * 2 ^ 2 + capWinSiz h * 2 ^ 4 + capFlags h * 2 ^ 8.

(** the bytes of the structure: [memcpy(dst, &header, HEADER_SPACE)] *)
Definition encode_hdr (h : capsuleHdr) : list byte :=
  le_split 1 (srcid h) ++ le_split 1 (destid h) ++ le_split 2 (connid h) ++
  le_split 2 (capid h) ++ le_split 2 (capSize h) ++ le_split 2 (pack_bits h) ++
  le_split 4 (capopts h).

(** the unsigned integer stored little-endian in [n] bytes at [pos] *)
Definition field (bs : list byte) (pos n : nat) : Z := le_combine (take n (drop pos bs)).

(** the structure those bytes are: [*(capsuleHdr * )bytes] *)
Definition decode_hdr (bs : list byte) : capsuleHdr :=
  let bits := field bs 8 2 in
  mkHdr (field bs 0 1) (field bs 1 1) (field bs 2 2) (field bs 4 2) (field bs 6 2)
    (bits mod 2 ^ 2) (bits / 2 ^ 2 mod 2 ^ 2) (bits / 2 ^ 4 mod 2 ^ 4)
    (bits / 2 ^ 8 mod 2 ^ 8) (field bs 10 4).

(** ** [struct params]: what the states hand to [setCapParams] *)

Record params := mkParams {
  p_srcid : Z;
  p_destid : Z;
  p_connid : Z;
  p_capid : Z;
  p_capSize : Z;
  p_capType : Z;
  p_capPriority : Z;
  p_capWinSiz : Z;
  p_capFlags : Z;
  p_capopts : Z
}.

(** the tests the code writes on the type and flag fields *)
Definition type_bits (h : capsuleHdr) (t : capsuleType) : Z :=
  Z.land (capType h) (capsuleType_val t).
Definition is_payld (h : capsuleHdr) : bool := negb (type_bits h PAYLD =? 0).
Definition has_flag (h : capsuleHdr) (f : flags) : bool :=
  negb (Z.land (capFlags h) (flags_val f) =? 0).

#[global] Arguments encode_hdr : simpl never.
#[global] Arguments decode_hdr : simpl never.
#[global] Arguments type_bits : simpl never.
#[global] Arguments is_payld : simpl never.
#[global] Arguments has_flag : simpl never.

(** ** Lemmas *)

Section Encoding.

Lemma field_here n z r : field (le_split n z ++ r) 0 n = z mod 2 ^ (Z.of_nat n * 8).
Proof.
  unfold field. rewrite drop_0, take_app_exact by by rewrite length_le_split.
  apply le_combine_split.
Qed.

Lemma field_there n z r p m : field (le_split n z ++ r) (n + p) m = field r p m.
Proof.
  unfold field. f_equal. f_equal.
  rewrite <- drop_drop, drop_app_exact by by rewrite length_le_split. done.
Qed.

Lemma field_here_nil n z : field (le_split n z) 0 n = z mod 2 ^ (Z.of_nat n * 8).
Proof. rewrite <- (app_nil_r (le_split n z)). apply field_here. Qed.

Lemma field_bound bs p n : 0 <= field bs p n < 2 ^ (8 * Z.of_nat n).
Proof.
  unfold field. pose proof (le_combine_bound (take n (drop p bs))) as [? Hlt].
  split; [done|]. eapply Z.lt_le_trans; [exact Hlt|].
  apply Z.pow_le_mono_r; [lia|]. rewrite length_take. lia.
Qed.

Lemma length_encode_hdr h : length (encode_hdr h) = 14%nat.
Proof. unfold encode_hdr. by rewrite !length_app, !length_le_split. Qed.

Lemma pack_bits_range h : hdr_ok h -> 0 <= pack_bits h < 2 ^ 16.
Proof. unfold hdr_ok, pack_bits. lia. Qed.

(** the bit-fields come back from the 16-bit unit *)
Lemma unpack_bits h : hdr_ok h ->
  pack_bits h mod 2 ^ 2 = capType h /\ pack_bits h / 2 ^ 2 mod 2 ^ 2 = capPriority h /\
  pack_bits h / 2 ^ 4 mod 2 ^ 4 = capWinSiz h /\ pack_bits h / 2 ^ 8 mod 2 ^ 8 = capFlags h.
Proof. unfold hdr_ok, pack_bits. intros. repeat split; mod_lia. Qed.

(** only the first 14 bytes are read *)
Lemma decode_hdr_app bs r : length bs = 14%nat -> decode_hdr (bs ++ r) = decode_hdr bs.
Proof.
  intros H. unfold decode_hdr, field.
  rewrite !drop_app_le by lia. by rewrite !take_app_le by (rewrite length_drop; lia).
Qed.

Lemma decode_encode h : hdr_ok h -> decode_hdr (encode_hdr h) = h.
Proof.
  intros Hok. unfold decode_hdr, encode_hdr.
  rewrite (field_there 1 _ _ 0 1).
  rewrite (field_there 1 _ _ 1 2), (field_there 1 _ _ 0 2).
  rewrite (field_there 1 _ _ 3 2), (field_there 1 _ _ 2 2), (field_there 2 _ _ 0 2).
  rewrite (field_there 1 _ _ 5 2), (field_there 1 _ _ 4 2), (field_there 2 _ _ 2 2),
    (field_there 2 _ _ 0 2).
  rewrite (field_there 1 _ _ 7 2), (field_there 1 _ _ 6 2), (field_there 2 _ _ 4 2),
    (field_there 2 _ _ 2 2), (field_there 2 _ _ 0 2).
  rewrite (field_there 1 _ _ 9 4), (field_there 1 _ _ 8 4), (field_there 2 _ _ 6 4),
    (field_there 2 _ _ 4 4), (field_there 2 _ _ 2 4), (field_there 2 _ _ 0 4).
  rewrite !field_here, field_here_nil.
  destruct (unpack_bits h Hok) as (Ht & Hp & Hw & Hf).
  pose proof (pack_bits_range h Hok).
  rewrite (Z.mod_small (pack_bits h)) by done.
  rewrite Ht, Hp, Hw, Hf. destruct h; unfold hdr_ok in Hok; cbn in *.
  rewrite !Z.mod_small by lia. done.
Qed.

Lemma decode_hdr_ok bs : hdr_ok (decode_hdr bs).
Proof.
  pose proof (field_bound bs 0 1). pose proof (field_bound bs 1 1).
  pose proof (field_bound bs 2 2). pose proof (field_bound bs 4 2).
  pose proof (field_bound bs 6 2). pose proof (field_bound bs 10 4).
  unfold hdr_ok, decode_hdr; cbn [srcid destid connid capid capSize capType
    capPriority capWinSiz capFlags capopts].
  repeat split; try lia; try (apply Z.mod_pos_bound; lia).
Qed.

Lemma pack_decode bs : pack_bits (decode_hdr bs) = field bs 8 2.
Proof.
  unfold pack_bits, decode_hdr; cbn [capType capPriority capWinSiz capFlags].
  pose proof (field_bound bs 8 2) as H. change (2 ^ (8 * Z.of_nat 2)) with 65536 in H.
  mod_lia.
Qed.

Lemma split_field bs p n : (p + n <= length bs)%nat ->
  le_split n (field bs p n) = take n (drop p bs).
Proof.
  intros. unfold field. apply split_le_combine'. rewrite length_take, length_drop. lia.
Qed.

Lemma encode_decode bs : length bs = 14%nat -> encode_hdr (decode_hdr bs) = bs.
Proof.
  intros H. unfold encode_hdr. rewrite pack_decode. unfold decode_hdr.
  cbn [srcid destid connid capid capSize capopts].
  rewrite !split_field by lia.
  do 15 (destruct bs as [|? bs]; [done|]; try done).
Qed.

End Encoding.

Lemma hdr_zero_ok : hdr_ok hdr_zero.
Proof. unfold hdr_ok, hdr_zero; cbn. lia. Qed.

#[export] Hint Resolve hdr_zero_ok decode_hdr_ok : udm.

(** ** Properties *)

(** C19: a header that is within its field widths survives the wire: the bytes
    the sender copies out of the structure decode to the same header, and any
    payload that follows them is not looked at. *)
Theorem hdr_roundtrip h payload : hdr_ok h -> decode_hdr (encode_hdr h ++ payload) = h.
Proof.
  intros H. rewrite decode_hdr_app by apply length_encode_hdr. by apply decode_encode.
Qed.

Lemma hdr_roundtrip_witness :
  decode_hdr (encode_hdr (mkHdr 1 2 3 65535 49138 3 0 5 1 0) ++ [Byte.x41]) =
    mkHdr 1 2 3 65535 49138 3 0 5 1 0.
Proof. apply hdr_roundtrip. unfold hdr_ok; cbn. lia. Defined.
