(* ===== verification/OrdMap.v ===== *)
(** * [std::map] with integer keys

    The receive window [rxcurrentWindow] (session.h) is a
    [std::map<uint16_t, memBuff *>].  What the code uses of it is its order:
    [doneState] writes the buffers in the order of the keys and [submitTask]
    looks at the last entry.  The map is the list of its entries in ascending
    key order. *)

From S2P Require Import Prelude.

Section OrdMap.
Context {V : Type}.
Implicit Types (m : list (Z * V)) (k : Z) (v : V).

(** [m[k] = v] *)
Fixpoint om_insert k v m : list (Z * V) :=
  match m with
  | [] => [(k, v)]
  | (k', v') :: m' =>
      if k <? k' then (k, v) :: m
      else if k =? k' then (k, v) :: m'
      else (k', v') :: om_insert k v m'
  end.

(** [m.rbegin()->second], when [m.rbegin() != m.rend()] *)
Definition om_rbegin m : option V := snd <$> last m.

(** the invariant of the container *)
Definition om_ok m : Prop := StronglySorted Z.lt (m.*1).

Lemma om_insert_fst k v m x :
  x ∈ (om_insert k v m).*1 <-> x = k \/ x ∈ m.*1.
Proof.
  induction m as [|[k' v'] m IH]; cbn.
  - rewrite list_elem_of_singleton. set_solver.
  - destruct (Z.ltb_spec k k'); [cbn; set_solver|].
    destruct (Z.eqb_spec k k'); [subst; cbn; set_solver|]. cbn. set_solver.
Qed.

Lemma om_insert_ok k v m : om_ok m -> om_ok (om_insert k v m).
Proof.
  unfold om_ok. induction m as [|[k' v'] m IH]; cbn; intros Hs.
  - repeat constructor.
  - inversion Hs as [|? ? Hm Hall]; subst.
    destruct (Z.ltb_spec k k').
    { constructor; [done|]. constructor; [done|].
      eapply Forall_impl; [exact Hall|]. cbn. lia. }
    destruct (Z.eqb_spec k k'); [subst; by constructor|].
    cbn. constructor; [by apply IH|]. apply Forall_forall. intros x Hx.
    apply om_insert_fst in Hx. rewrite Forall_forall in Hall.
    destruct Hx as [->|Hx]; [lia|by apply Hall].
Qed.

(** a new key: one more entry, somewhere *)
Lemma om_insert_perm k v m : k ∉ m.*1 -> om_insert k v m ≡ₚ (k, v) :: m.
Proof.
  induction m as [|[k' v'] m IH]; [done|]. cbn. intros Hk.
  destruct (Z.ltb_spec k k'); [done|]. destruct (Z.eqb_spec k k'); [set_solver|].
  rewrite IH by set_solver. apply Permutation_swap.
Qed.

(** storing the last entry again *)
Lemma om_insert_rbegin k v m : om_ok m -> last m = Some (k, v) -> om_insert k v m = m.
Proof.
  unfold om_ok. induction m as [|[k' v'] m IH]; [done|]. cbn [fmap list_fmap fst]. intros Hs Hl.
  inversion Hs as [|? ? Hm Hall]; subst. destruct m as [|e m].
  - injection Hl as -> ->. cbn. by rewrite Z.ltb_irrefl, Z.eqb_refl.
  - assert (k' < k) as Hlt.
    { rewrite Forall_forall in Hall. apply Hall. apply list_elem_of_fmap. exists (k, v).
      split; [done|]. by apply last_Some_elem_of. }
    cbn [om_insert]. destruct (Z.ltb_spec k k'); [lia|]. destruct (Z.eqb_spec k k'); [lia|].
    f_equal. by apply IH.
Qed.

End OrdMap.

#[export] Hint Resolve om_insert_ok : udm.
