(* ===== verification/Queue.v ===== *)
(** * [threadsafe_queue] (circular_pipeline.hpp), one thread at a time

    The queue is a singly linked list of heap nodes with a dummy last node:
    [head] owns the first node, [tail] points at the dummy.  [nodes] is the
    part of the C++ heap the queue owns; an access through a pointer to a node
    that is not there is undefined behaviour, [None].  The elements are the
    [std::shared_ptr<T>] the nodes hold.  What a client may rely on is the
    interface [Fifo]: the queue is a first-in first-out list.  [Linked] is the
    code, and its theorems discharge the interface.  QueueConc.v models the
    same methods with several threads and the two mutexes. *)

From S2P Require Import Prelude.

(** ** The interface *)

(** operations of a queue of [A]s; [None]: undefined behaviour *)
Class Fifo (Q A : Type) := {
  q_new : Z -> Q;
  q_push : A -> Q -> option Q;
  q_pushWithRef : A -> Q -> option (A * Q);
  q_try_pop : Q -> option (option A * Q);
  q_peek : Q -> option (bool * Q);
  q_isEmpty : Q -> option bool;
  q_getCount : Q -> Z;
  (** [q_rep q l]: [q] is well formed and holds [l], oldest first *)
  q_rep : Q -> list A -> Prop
}.

Class FifoLaws (Q A : Type) `{Fifo Q A} : Prop := {
  q_new_rep siz : q_rep (q_new siz) [];
  q_push_rep q l x : q_rep q l -> exists q', q_push x q = Some q' /\ q_rep q' (l ++ [x]);
  q_pushWithRef_rep q l x :
    q_rep q l -> exists q', q_pushWithRef x q = Some (x, q') /\ q_rep q' (l ++ [x]);
  q_try_pop_nil q : q_rep q [] -> q_try_pop q = Some (None, q);
  q_try_pop_cons q x l :
    q_rep q (x :: l) -> exists q', q_try_pop q = Some (Some x, q') /\ q_rep q' l;
  q_peek_rep q l :
    q_rep q l -> exists q', q_peek q = Some (bool_decide (l <> []), q') /\ q_rep q' (tail l);
  q_isEmpty_rep q l : q_rep q l -> q_isEmpty q = Some (bool_decide (l = []));
  q_getCount_rep q l : q_rep q l -> q_getCount q = i32 (Z.of_nat (length l))
}.

(** a queue holds one list only: what popping it yields *)
Lemma q_rep_unique `{FifoLaws Q A} (q : Q) (l1 l2 : list A) : q_rep q l1 -> q_rep q l2 -> l1 = l2.
Proof.
  revert q l2. induction l1 as [|x l1 IH]; intros q [|y l2] H1 H2; [done|..].
  - destruct (q_try_pop_cons _ _ _ H2) as (? & E & _). by rewrite (q_try_pop_nil _ H1) in E.
  - destruct (q_try_pop_cons _ _ _ H1) as (? & E & _). by rewrite (q_try_pop_nil _ H2) in E.
  - destruct (q_try_pop_cons _ _ _ H1) as (q1 & E1 & R1), (q_try_pop_cons _ _ _ H2) as (q2 & E2 & R2).
    rewrite E1 in E2. injection E2 as <- <-. f_equal. by apply (IH q1).
Qed.

Module Linked.

(** ** The nodes *)

Record node (A : Type) := mkNode { data : option A; next : option nat }.
#[global] Arguments mkNode {A} _ _.
#[global] Arguments data {A} _.
#[global] Arguments next {A} _.

(** [new node]: no data, no successor *)
Definition node_new {A} : node A := mkNode None None.

Record queue (A : Type) := mkQueue {
  nodes : gmap nat (node A);
  head : option nat;
  tail : nat;
  count : Z;
  size : Z;
  next_addr : nat
}.
#[global] Arguments mkQueue {A} _ _ _ _ _ _.
#[global] Arguments nodes {A} _.
#[global] Arguments head {A} _.
#[global] Arguments tail {A} _.
#[global] Arguments count {A} _.
#[global] Arguments size {A} _.
#[global] Arguments next_addr {A} _.

Section Operations.
Context {A : Type}.
Implicit Types (q : queue A) (x : A).

(** [threadsafe_queue(int siz) : head(new node), tail(head.get()), size(siz)] *)
Definition threadsafe_queue (siz : Z) : queue A :=
  mkQueue {[ 0%nat := node_new ]} (Some 0%nat) 0%nat 0 siz 1%nat.

Definition get_tail q : nat := tail q.

(** [std::unique_ptr<node> pop_head()]: the node is returned by value, which
    also deletes it from the heap: no caller keeps the pointer *)
Definition pop_head q : option (option (node A) * queue A) :=
  if decide (head q = Some (get_tail q)) then Some (None, q)
  else
    match head q with
    | None => None
    | Some h =>
        match nodes q !! h with
        | None => None
        | Some old_head =>
            Some (Some old_head,
                  mkQueue (delete h (nodes q)) (next old_head) (tail q)
                    (i32 (count q - 1)) (size q) (next_addr q))
        end
    end.

(** [std::shared_ptr<T> try_pop()] *)
Definition try_pop q : option (option A * queue A) :=
  match pop_head q with
  | None => None
  | Some (Some old_head, q') => Some (data old_head, q')
  | Some (None, q') => Some (None, q')
  end.

(** [bool try_pop(T &value)]: [value] is the argument and its new content *)
Definition try_pop_into (value : A) q : option (bool * A * queue A) :=
  match pop_head q with
  | None => None
  | Some (Some old_head, q') =>
      match data old_head with
      | None => None
      | Some d => Some (true, d, q')
      end
  | Some (None, q') => Some (false, value, q')
  end.

(** [bool peek()]: it pops *)
Definition peek q : option (bool * queue A) :=
  match pop_head q with
  | None => None
  | Some (Some _, q') => Some (true, q')
  | Some (None, q') => Some (false, q')
  end.

Definition isEmpty q : option bool := Some (bool_decide (head q = Some (get_tail q))).

(** [void push(T)]: [new_data] goes into the dummy, a new dummy follows *)
Definition push x q : option (queue A) :=
  let new_tail := next_addr q in
  match nodes q !! tail q with
  | None => None
  | Some _ =>
      Some (mkQueue (<[tail q := mkNode (Some x) (Some new_tail)]>
                       (<[new_tail := node_new]> (nodes q)))
              (head q) new_tail (i32 (count q + 1)) (size q) (S (next_addr q)))
  end.

(** [T *pushWithRef(T)]: the same, and returns [tail->data.get()] *)
Definition pushWithRef x q : option (A * queue A) :=
  let new_tail := next_addr q in
  match nodes q !! tail q with
  | None => None
  | Some _ =>
      let n := mkNode (Some x) (Some new_tail) in
      match data n with
      | None => None
      | Some tailRef =>
          Some (tailRef,
                mkQueue (<[tail q := n]> (<[new_tail := node_new]> (nodes q)))
                  (head q) new_tail (i32 (count q + 1)) (size q) (S (next_addr q)))
      end
  end.

Definition getCount q : Z := count q.

End Operations.

(** ** The invariant: a list segment *)

Section Segment.
Context {A : Type}.
Implicit Types (ns : gmap nat (node A)) (h t : nat) (ls : list nat) (xs : list A).

(** from node [h], the nodes at [ls] hold [xs] and lead to node [t] *)
Fixpoint lseg ns h ls xs t : Prop :=
  match ls, xs with
  | [], [] => h = t
  | l :: ls, x :: xs =>
      l = h /\ exists n, ns !! h = Some (mkNode (Some x) (Some n)) /\ lseg ns n ls xs t
  | _, _ => False
  end.

Lemma lseg_length ns h ls xs t : lseg ns h ls xs t -> length ls = length xs.
Proof.
  revert h xs. induction ls as [|l ls IH]; intros h [|x xs]; cbn; try done.
  intros (-> & n & _ & H). f_equal. by eapply IH.
Qed.

(** the segment only depends on its own nodes *)
Lemma lseg_frame ns ns' h ls xs t :
  (forall l, l ∈ ls -> ns' !! l = ns !! l) -> lseg ns h ls xs t -> lseg ns' h ls xs t.
Proof.
  revert h xs. induction ls as [|l ls IH]; intros h [|x xs] Hf; cbn; try done.
  intros (-> & n & Hn & H). split; [done|]. exists n. split.
  - rewrite Hf; [done|]. apply list_elem_of_here.
  - eapply IH; [|done]. intros l Hl. apply Hf. by apply list_elem_of_further.
Qed.

Lemma lseg_snoc ns h ls xs t x n :
  lseg ns h ls xs t -> ns !! t = Some (mkNode (Some x) (Some n)) ->
  lseg ns h (ls ++ [t]) (xs ++ [x]) n.
Proof.
  revert h xs. induction ls as [|l ls IH]; intros h [|y xs]; cbn; try done.
  - intros -> Ht. split; [done|]. by exists n.
  - intros (-> & m & Hm & H) Ht. split; [done|]. exists m. split; [done|]. by apply IH.
Qed.

Lemma lseg_nil_inv ns h xs t : lseg ns h [] xs t -> xs = [] /\ h = t.
Proof. by destruct xs. Qed.

Lemma lseg_nodes ns h ls xs t l : lseg ns h ls xs t -> l ∈ ls -> is_Some (ns !! l).
Proof.
  revert h xs. induction ls as [|l' ls IH]; intros h [|x xs]; cbn; try done.
  { intros _ Hl. by apply not_elem_of_nil in Hl. }
  intros (-> & n & Hn & H) Hl. apply elem_of_cons in Hl as [->|Hl]; [by eexists|].
  by eapply IH.
Qed.

End Segment.

Section Refinement.
Context {A : Type}.
Implicit Types (q : queue A) (x : A) (xs : list A).

(** the queue holds [xs]: a segment from [head] to the dummy [tail], no other
    node on the heap, and [count] the number of elements as an [int] *)
Definition rep q xs : Prop :=
  exists h ls,
    head q = Some h /\ lseg (nodes q) h ls xs (tail q) /\ NoDup (ls ++ [tail q]) /\
    nodes q !! tail q = Some node_new /\
    dom (nodes q) = list_to_set (ls ++ [tail q]) /\
    Forall (fun l => (l < next_addr q)%nat) (ls ++ [tail q]) /\
    count q = i32 (Z.of_nat (length xs)).

Lemma threadsafe_queue_rep siz : rep (threadsafe_queue siz) [].
Proof.
  exists 0%nat, []. cbn.
  repeat split; try done; try apply NoDup_singleton; try set_solver.
Qed.

(** the new dummy's address is not in use *)
Lemma rep_fresh q xs : rep q xs -> nodes q !! next_addr q = None /\ tail q <> next_addr q.
Proof.
  intros (h & ls & _ & _ & _ & _ & Hdom & Hb & _). rewrite Forall_forall in Hb. split.
  - apply not_elem_of_dom. rewrite Hdom. intros Hin.
    apply elem_of_list_to_set in Hin. apply Hb in Hin. lia.
  - intros Heq. assert (tail q ∈ ls ++ [tail q]) as Hin by set_solver.
    apply Hb in Hin. lia.
Qed.

Lemma push_rep q xs x : rep q xs -> exists q', push x q = Some q' /\ rep q' (xs ++ [x]).
Proof.
  intros Hrep. destruct (rep_fresh _ _ Hrep) as [Hfr Hne].
  destruct Hrep as (h & ls & Hh & Hseg & Hnd & Ht & Hdom & Hb & Hc).
  unfold push. rewrite Ht. eexists. split; [done|].
  exists h, (ls ++ [tail q]). cbn.
  apply NoDup_app in Hnd as (Hnd & Hdisj & _).
  assert (next_addr q ∉ ls ++ [tail q]) as Hfr'.
  { intros Hin. rewrite Forall_forall in Hb. apply Hb in Hin. lia. }
  assert (tail q ∉ ls) as Htl by set_solver.
  repeat split; try done.
  - apply lseg_snoc with (t := tail q); [|by rewrite lookup_insert_eq].
    eapply lseg_frame; [|exact Hseg]. intros l Hl.
    rewrite lookup_insert_ne by set_solver. by rewrite lookup_insert_ne by set_solver.
  - apply NoDup_app. split; [|split; [|apply NoDup_singleton]].
    + apply NoDup_app. split; [done|split; [set_solver|apply NoDup_singleton]].
    + set_solver.
  - rewrite lookup_insert_ne by done. by rewrite lookup_insert_eq.
  - rewrite !dom_insert_L, Hdom. set_solver.
  - apply Forall_app. split; [|constructor; [lia|done]].
    eapply Forall_impl; [exact Hb|]. cbn. lia.
  - rewrite Hc, i32_add_l, length_app. f_equal. cbn. lia.
Qed.

Lemma pop_head_nil q : rep q [] -> pop_head q = Some (None, q).
Proof.
  intros (h & ls & Hh & Hseg & _). destruct ls; [|done]. cbn in Hseg.
  unfold pop_head, get_tail. by rewrite Hh, Hseg, decide_True.
Qed.

Lemma pop_head_cons q x xs : rep q (x :: xs) ->
  exists n q', pop_head q = Some (Some (mkNode (Some x) n), q') /\ rep q' xs.
Proof.
  intros (h & ls & Hh & Hseg & Hnd & Ht & Hdom & Hb & Hc).
  destruct ls as [|l ls]; [done|]. destruct Hseg as (-> & n & Hn & Hseg).
  cbn in Hnd. apply NoDup_cons in Hnd as [Hnl Hnd].
  unfold pop_head, get_tail. rewrite Hh.
  rewrite decide_False by (intros [= ->]; set_solver).
  rewrite Hn. do 2 eexists. split; [done|].
  exists n, ls. cbn in Hb. apply Forall_cons in Hb as [_ Hb]. cbn.
  repeat split; try done.
  - eapply lseg_frame; [|exact Hseg]. intros l Hl. rewrite lookup_delete_ne; [done|set_solver].
  - rewrite lookup_delete_ne; [done|set_solver].
  - rewrite dom_delete_L, Hdom. cbn. set_solver.
  - rewrite Hc. unfold Z.sub. rewrite i32_add_l. f_equal. cbn [length]. lia.
Qed.

Lemma isEmpty_rep q xs : rep q xs -> isEmpty q = Some (bool_decide (xs = [])).
Proof.
  intros (h & ls & Hh & Hseg & Hnd & _). unfold isEmpty, get_tail. f_equal.
  apply bool_decide_ext. rewrite Hh.
  destruct ls as [|l ls], xs as [|x xs]; cbn in Hseg; try done.
  - by rewrite Hseg.
  - destruct Hseg as (-> & _). split; [|done]. intros [= ->].
    apply NoDup_cons in Hnd as [Hnl _]. set_solver.
Qed.

(** the nodes on the heap are the elements and the dummy: nothing leaks *)
Lemma rep_no_leak q xs : rep q xs -> base.size (dom (nodes q)) = S (length xs).
Proof.
  intros (h & ls & _ & Hseg & Hnd & _ & Hdom & _). rewrite Hdom.
  rewrite size_list_to_set by done. rewrite length_app, (lseg_length _ _ _ _ _ Hseg).
  cbn. lia.
Qed.

End Refinement.

#[export] Instance linked_fifo {A} : Fifo (queue A) A := {|
  q_new := threadsafe_queue;
  q_push := push;
  q_pushWithRef := pushWithRef;
  q_try_pop := try_pop;
  q_peek := peek;
  q_isEmpty := isEmpty;
  q_getCount := getCount;
  q_rep := rep
|}.

#[export] Instance linked_laws {A} : FifoLaws (queue A) A.
Proof.
  split.
  - apply threadsafe_queue_rep.
  - intros q l x. apply push_rep.
  - intros q l x Hq. destruct (push_rep _ _ x Hq) as (q' & Hp & Hq'). exists q'.
    split; [|done]. revert Hp. cbn. unfold push, pushWithRef.
    destruct (nodes q !! tail q); [|done]. by intros [= <-].
  - intros q Hq. cbn. unfold try_pop. by rewrite pop_head_nil.
  - intros q x l Hq. destruct (pop_head_cons _ _ _ Hq) as (n & q' & Hp & Hq').
    exists q'. split; [|done]. cbn. unfold try_pop. by rewrite Hp.
  - intros q [|x l] Hq; cbn; unfold peek.
    + rewrite pop_head_nil by done. by exists q.
    + destruct (pop_head_cons _ _ _ Hq) as (n & q' & Hp & Hq'). exists q'. by rewrite Hp.
  - apply isEmpty_rep.
  - intros q l (h & ls & _ & _ & _ & _ & _ & _ & Hc). done.
Qed.

(** ** Sequences of calls

    The calls a client can make, what the code answers, and what a list that
    grows at its end answers. *)

Section Sequences.
Context {A : Type}.

Inductive op :=
| OPush (x : A) | OPushWithRef (x : A) | OTryPop | OTryPopInto (x : A)
| OPeek | OIsEmpty | OGetCount.

Inductive answer :=
| ANone
| AElem (o : option A)
| ABool (b : bool)
| AInto (b : bool) (x : A)
| ACount (n : Z).

Definition run_op (o : op) (q : queue A) : option (answer * queue A) :=
  match o with
  | OPush x => q ← push x q; Some (ANone, q)
  | OPushWithRef x => '(x, q) ← pushWithRef x q; Some (AElem (Some x), q)
  | OTryPop => '(r, q) ← try_pop q; Some (AElem r, q)
  | OTryPopInto x => '(b, x, q) ← try_pop_into x q; Some (AInto b x, q)
  | OPeek => '(b, q) ← peek q; Some (ABool b, q)
  | OIsEmpty => b ← isEmpty q; Some (ABool b, q)
  | OGetCount => Some (ACount (getCount q), q)
  end.

(** the list: what is pushed goes to its end, what is popped comes from its
    front, and [peek] pops *)
Definition spec_op (o : op) (l : list A) : answer * list A :=
  match o with
  | OPush x => (ANone, l ++ [x])
  | OPushWithRef x => (AElem (Some x), l ++ [x])
  | OTryPop => (AElem (list.head l), list.tail l)
  | OTryPopInto x => (AInto (bool_decide (l <> [])) (default x (list.head l)), list.tail l)
  | OPeek => (ABool (bool_decide (l <> [])), list.tail l)
  | OIsEmpty => (ABool (bool_decide (l = [])), l)
  | OGetCount => (ACount (i32 (Z.of_nat (length l))), l)
  end.

Fixpoint run_ops (os : list op) (q : queue A) : option (list answer * queue A) :=
  match os with
  | [] => Some ([], q)
  | o :: os => '(a, q) ← run_op o q; '(l, q) ← run_ops os q; Some (a :: l, q)
  end.

Fixpoint spec_ops (os : list op) (l : list A) : list answer * list A :=
  match os with
  | [] => ([], l)
  | o :: os =>
      let '(a, l) := spec_op o l in
      let '(r, l) := spec_ops os l in (a :: r, l)
  end.

Lemma run_op_rep o q l : rep q l ->
  exists q', run_op o q = Some ((spec_op o l).1, q') /\ rep q' (spec_op o l).2.
Proof.
  intros Hrep. pose proof (Hrep : q_rep q l) as Hq. destruct o as [x|x| |x| | |]; cbn [run_op spec_op fst snd].
  - destruct (q_push_rep _ _ x Hq) as (q' & Hp & Hr). exists q'. cbn in Hp. by rewrite Hp.
  - destruct (q_pushWithRef_rep _ _ x Hq) as (q' & Hp & Hr). exists q'. cbn in Hp. by rewrite Hp.
  - destruct l as [|y l].
    + exists q. pose proof (q_try_pop_nil _ Hq) as Hp. cbn in Hp. by rewrite Hp.
    + destruct (q_try_pop_cons _ _ _ Hq) as (q' & Hp & Hr). exists q'. cbn in Hp. by rewrite Hp.
  - unfold try_pop_into. destruct l as [|y l].
    + exists q. by rewrite (pop_head_nil _ Hrep).
    + destruct (pop_head_cons _ _ _ Hrep) as (n & q' & Hp & Hr). exists q'. by rewrite Hp.
  - destruct (q_peek_rep _ _ Hq) as (q' & Hp & Hr). exists q'. cbn in Hp. by rewrite Hp.
  - exists q. by rewrite (isEmpty_rep _ _ Hrep).
  - exists q. pose proof (q_getCount_rep _ _ Hq) as Hc. cbn in Hc. by rewrite Hc.
Qed.

Lemma run_ops_rep os : forall q l, rep q l ->
  exists q', run_ops os q = Some ((spec_ops os l).1, q') /\ rep q' (spec_ops os l).2.
Proof.
  induction os as [|o os IH]; intros q l Hq; [by exists q|]. cbn [run_ops spec_ops].
  destruct (run_op_rep o q l Hq) as (q1 & H1 & Hr1). rewrite H1. cbn [mbind option_bind].
  destruct (spec_op o l) as [a l1]. cbn [fst snd] in *.
  destruct (IH q1 l1 Hr1) as (q2 & H2 & Hr2). rewrite H2. exists q2.
  by destruct (spec_ops os l1).
Qed.

(** C23: any sequence of calls on a new queue answers like a list, oldest first,
    and none of them touches memory that the queue does not own. *)
Theorem queue_refines_list siz os :
  exists q, run_ops os (threadsafe_queue siz) = Some ((spec_ops os []).1, q) /\
    rep q (spec_ops os []).2.
Proof. apply run_ops_rep, threadsafe_queue_rep. Qed.

(** C24: nothing leaks: after any sequence of calls the heap holds one node for
    each element and the dummy, and [count] is the number of elements. *)
Theorem queue_no_leak siz os rs q :
  run_ops os (threadsafe_queue siz) = Some (rs, q) ->
  base.size (dom (nodes q)) = S (length (spec_ops os []).2) /\
  getCount q = i32 (Z.of_nat (length (spec_ops os []).2)).
Proof.
  destruct (run_ops_rep os _ [] (threadsafe_queue_rep siz)) as (q' & -> & Hr).
  intros [= _ <-]. split; [by apply rep_no_leak|]. exact (q_getCount_rep _ _ (Hr : q_rep _ _)).
Qed.

End Sequences.
Arguments op _ : clear implicits.
Arguments answer _ : clear implicits.

(** three pushes, a pop and a [peek], which pops too *)
Definition demo_ops : list (op Z) := [OPush 7; OPushWithRef 8; OTryPop; OPush 9; OPeek; OIsEmpty].

Lemma queue_no_leak_witness :
  exists rs q, run_ops demo_ops (threadsafe_queue 64) = Some (rs, q) /\
  base.size (dom (nodes q)) = S (length [9]) /\ getCount q = i32 (Z.of_nat (length [9])).
Proof.
  eexists _, _. split; [reflexivity|].
  eapply (queue_no_leak 64 demo_ops). reflexivity.
Defined.

End Linked.
