(* ===== verification/QueueConc.v ===== *)
(** * [threadsafe_queue] (circular_pipeline.hpp) with several threads

    The methods of the queue as sequences of atomic actions on the shared
    memory: locking and unlocking the two mutexes, reading and writing the
    fields.  A thread is the action it is about to do, [pc]; any number of
    threads interleave.  [cstep] is one action of one thread: it may have to
    wait for a mutex, and an access to a node that is not on the heap is
    undefined behaviour.  [count] is a plain [int], so [count++] and [count--]
    are a read and a write.  Three logs, which no action looks at, record the
    elements in the order in which they enter and leave the list, and the
    results of the threads. *)

From stdpp Require Import functions.
From S2P Require Import Prelude Queue.

Module Conc.
Import Linked.

Section Threads.
Context {A : Type}.

(** where a thread is.  [e] and the second argument of [PLinked] to [POut] are
    notes for the proofs: whether the list was empty when [tail] was read, and
    the element that was taken.  [r] tells [pushWithRef] from [push]. *)
Inductive pc :=
| Idle
(* pop_head *)
| PStart                              (* lock head_mutex *)
| PLocked                             (* get_tail: lock tail_mutex *)
| PTail                               (* get_tail: return tail, unlock *)
| PCmp (t : nat) (e : bool)           (* head.get() == t *)
| PNone (e : bool)                    (* return nullptr: unlock head_mutex *)
| PMoved (old : nat)                  (* head = move(old_head->next) *)
| PLinked (old : nat) (x : A)         (* count--: read *)
| PCount (old : nat) (x : A) (c : Z)  (* count--: write *)
| PCounted (old : nat) (x : A)        (* unlock head_mutex *)
| POut (old : nat) (x : A)            (* return old_head->data, delete the node *)
(* isEmpty *)
| EStart | ELocked | ETail
| ECmp (t : nat) (e : bool)
| EDone (b e : bool)
(* push, pushWithRef *)
| UStart (r : bool) (x : A)           (* new node *)
| UAlloc (r : bool) (x : A) (p : nat) (* lock tail_mutex *)
| ULocked (r : bool) (x : A) (p : nat) (* tail->data = new_data *)
| UData (r : bool) (x : A) (p : nat)  (* tail->next = move(p) *)
| UNext (r : bool) (x : A) (p : nat)  (* push: count++, read; pushWithRef: tail = new_tail *)
| UCnt (x : A) (p : nat) (c : Z)      (* push: count++, write *)
| UInc (x : A) (p : nat)              (* push: tail = new_tail *)
| RTail                               (* pushWithRef: count++, read *)
| RCnt (c : Z)                        (* pushWithRef: count++, write *)
| UDone.                              (* unlock tail_mutex *)

Record shared := mkShared {
  nodes : gmap nat (node A);
  head : option nat;
  tail : nat;
  count : Z;
  head_mutex : option nat;
  tail_mutex : option nat;
  fresh_addr : nat;
  pcs : nat -> pc;
  (** the logs *)
  pushed : list A;
  popped : list (nat * A);
  results : list (nat * A)
}.

#[export] Instance upd_nodes : Update nodes := fun g s => mkShared (g (nodes s)) (head s) (tail s)
  (count s) (head_mutex s) (tail_mutex s) (fresh_addr s) (pcs s) (pushed s) (popped s) (results s).
#[global] Arguments upd_nodes _ _ /.
#[export] Instance upd_head : Update head := fun g s => mkShared (nodes s) (g (head s)) (tail s)
  (count s) (head_mutex s) (tail_mutex s) (fresh_addr s) (pcs s) (pushed s) (popped s) (results s).
#[global] Arguments upd_head _ _ /.
#[export] Instance upd_tail : Update tail := fun g s => mkShared (nodes s) (head s) (g (tail s))
  (count s) (head_mutex s) (tail_mutex s) (fresh_addr s) (pcs s) (pushed s) (popped s) (results s).
#[global] Arguments upd_tail _ _ /.
#[export] Instance upd_count : Update count := fun g s => mkShared (nodes s) (head s) (tail s)
  (i32 (g (count s))) (head_mutex s) (tail_mutex s) (fresh_addr s) (pcs s) (pushed s) (popped s) (results s).
#[global] Arguments upd_count _ _ /.
#[export] Instance upd_head_mutex : Update head_mutex := fun g s => mkShared (nodes s) (head s) (tail s)
  (count s) (g (head_mutex s)) (tail_mutex s) (fresh_addr s) (pcs s) (pushed s) (popped s) (results s).
#[global] Arguments upd_head_mutex _ _ /.
#[export] Instance upd_tail_mutex : Update tail_mutex := fun g s => mkShared (nodes s) (head s) (tail s)
  (count s) (head_mutex s) (g (tail_mutex s)) (fresh_addr s) (pcs s) (pushed s) (popped s) (results s).
#[global] Arguments upd_tail_mutex _ _ /.
#[export] Instance upd_fresh_addr : Update fresh_addr := fun g s => mkShared (nodes s) (head s) (tail s)
  (count s) (head_mutex s) (tail_mutex s) (g (fresh_addr s)) (pcs s) (pushed s) (popped s) (results s).
#[global] Arguments upd_fresh_addr _ _ /.
#[export] Instance upd_pcs : Update pcs := fun g s => mkShared (nodes s) (head s) (tail s)
  (count s) (head_mutex s) (tail_mutex s) (fresh_addr s) (g (pcs s)) (pushed s) (popped s) (results s).
#[global] Arguments upd_pcs _ _ /.
#[export] Instance upd_pushed : Update pushed := fun g s => mkShared (nodes s) (head s) (tail s)
  (count s) (head_mutex s) (tail_mutex s) (fresh_addr s) (pcs s) (g (pushed s)) (popped s) (results s).
#[global] Arguments upd_pushed _ _ /.
#[export] Instance upd_popped : Update popped := fun g s => mkShared (nodes s) (head s) (tail s)
  (count s) (head_mutex s) (tail_mutex s) (fresh_addr s) (pcs s) (pushed s) (g (popped s)) (results s).
#[global] Arguments upd_popped _ _ /.
#[export] Instance upd_results : Update results := fun g s => mkShared (nodes s) (head s) (tail s)
  (count s) (head_mutex s) (tail_mutex s) (fresh_addr s) (pcs s) (pushed s) (popped s) (g (results s)).
#[global] Arguments upd_results _ _ /.

Implicit Types (s : shared) (i : nat).

Definition init : shared :=
  mkShared {[ 0%nat := node_new ]} (Some 0%nat) 0%nat 0 None None 1 (fun _ => Idle) [] [] [].

(** one action *)
Inductive action := Blocked | UB | Acted (s : shared).

Definition goto i (c : pc) s : shared := s <| pcs ::= <[i := c]> |>.

(** nothing is left of [pushed] *)
Definition no_elements s : bool := bool_decide (length (pushed s) = length (popped s)).

Definition lock_head i (c : pc) s : action :=
  match head_mutex s with
  | Some _ => Blocked
  | None => Acted (goto i c (s <| head_mutex := Some i |>))
  end.
Definition lock_tail i (c : pc) s : action :=
  match tail_mutex s with
  | Some _ => Blocked
  | None => Acted (goto i c (s <| tail_mutex := Some i |>))
  end.
(** an access to the node at [p] *)
Definition with_node (p : nat) s (f : node A -> action) : action :=
  match nodes s !! p with Some n => f n | None => UB end.

Definition cstep i s : action :=
  match pcs s i with
  | Idle => Blocked
  | PStart => lock_head i PLocked s
  | PLocked => lock_tail i PTail s
  | PTail => Acted (goto i (PCmp (tail s) (no_elements s)) (s <| tail_mutex := None |>))
  | PCmp t e =>
      if decide (head s = Some t) then Acted (goto i (PNone e) s)
      else match head s with
           | None => UB
           | Some old => Acted (goto i (PMoved old) (s <| head := None |>))
           end
  | PNone e => Acted (goto i Idle (s <| head_mutex := None |>))
  | PMoved old =>
      with_node old s (fun n =>
        match data n with
        | None => UB
        | Some x =>
            Acted (goto i (PLinked old x)
              (s <| head := next n |> <| nodes ::= <[old := mkNode (Some x) None]> |>
                 <| popped ::= fun l => l ++ [(i, x)] |>))
        end)
  | PLinked old x => Acted (goto i (PCount old x (count s)) s)
  | PCount old x c => Acted (goto i (PCounted old x) (s <| count := c - 1 |>))
  | PCounted old x => Acted (goto i (POut old x) (s <| head_mutex := None |>))
  | POut old _ =>
      with_node old s (fun n =>
        Acted (goto i Idle (s <| nodes ::= delete old |>
          <| results ::= fun l => l ++ match data n with Some x => [(i, x)] | None => [] end |>)))
  | EStart => lock_head i ELocked s
  | ELocked => lock_tail i ETail s
  | ETail => Acted (goto i (ECmp (tail s) (no_elements s)) (s <| tail_mutex := None |>))
  | ECmp t e => Acted (goto i (EDone (bool_decide (head s = Some t)) e) s)
  | EDone _ _ => Acted (goto i Idle (s <| head_mutex := None |>))
  | UStart r x =>
      let p := fresh_addr s in
      Acted (goto i (UAlloc r x p) (s <| nodes ::= <[p := node_new]> |> <| fresh_addr ::= S |>))
  | UAlloc r x p => lock_tail i (ULocked r x p) s
  | ULocked r x p =>
      with_node (tail s) s (fun n =>
        Acted (goto i (UData r x p) (s <| nodes ::= <[tail s := mkNode (Some x) (next n)]> |>)))
  | UData r x p =>
      with_node (tail s) s (fun n =>
        Acted (goto i (UNext r x p) (s <| nodes ::= <[tail s := mkNode (data n) (Some p)]> |>)))
  | UNext true x p => Acted (goto i RTail (s <| tail := p |> <| pushed ::= fun l => l ++ [x] |>))
  | UNext false x p => Acted (goto i (UCnt x p (count s)) s)
  | UCnt x p c => Acted (goto i (UInc x p) (s <| count := c + 1 |>))
  | UInc x p => Acted (goto i UDone (s <| tail := p |> <| pushed ::= fun l => l ++ [x] |>))
  | RTail => Acted (goto i (RCnt (count s)) s)
  | RCnt c => Acted (goto i UDone (s <| count := c + 1 |>))
  | UDone => Acted (goto i Idle (s <| tail_mutex := None |>))
  end.

(** the calls a thread may make *)
Definition call (c : pc) : Prop :=
  c = PStart \/ c = EStart \/ exists r x, c = UStart r x.

Definition is_call (c : pc) : bool :=
  match c with PStart | EStart | UStart _ _ => true | _ => false end.

Inductive step : shared -> shared -> Prop :=
| step_call i c s : pcs s i = Idle -> call c -> step s (goto i c s)
| step_act i s s' : cstep i s = Acted s' -> step s s'.

Definition reachable s : Prop := rtc step init s.

(** a schedule: calls and actions, executed one after the other *)
Inductive event := Call (i : nat) (c : pc) | Act (i : nat).

Fixpoint schedule (es : list event) s : option shared :=
  match es with
  | [] => Some s
  | Call i c :: es =>
      match pcs s i with
      | Idle => if is_call c then schedule es (goto i c s) else None
      | _ => None
      end
  | Act i :: es => match cstep i s with Acted s' => schedule es s' | _ => None end
  end.

(** ** The invariant *)

(** which mutex a thread holds *)
Definition in_head (c : pc) : bool :=
  match c with
  | PLocked | PTail | PCmp _ _ | PNone _ | PMoved _ | PLinked _ _ | PCount _ _ _ | PCounted _ _
  | ELocked | ETail | ECmp _ _ | EDone _ _ => true
  | _ => false
  end.
Definition in_tail (c : pc) : bool :=
  match c with
  | PTail | ETail | ULocked _ _ _ | UData _ _ _ | UNext _ _ _ | UCnt _ _ _ | UInc _ _
  | RTail | RCnt _ | UDone => true
  | _ => false
  end.

(** the node a thread has for itself: the new one of a push, the old one of a
    pop, and what it holds *)
Definition owned (c : pc) : option (nat * node A) :=
  match c with
  | UAlloc _ _ p | ULocked _ _ p | UData _ _ p | UNext _ _ p | UCnt _ p _ | UInc _ p =>
      Some (p, node_new)
  | PLinked old x | PCount old x _ | PCounted old x | POut old x => Some (old, mkNode (Some x) None)
  | _ => None
  end.

(** the dummy node while a push is at work on it *)
Definition dummy (c : pc) : node A :=
  match c with
  | UData _ x _ => mkNode (Some x) None
  | UNext _ x p | UCnt x p _ | UInc x p => mkNode (Some x) (Some p)
  | _ => node_new
  end.

(** the element a thread has taken and not yet returned *)
Definition in_flight (c : pc) : list A :=
  match c with
  | PLinked _ x | PCount _ x _ | PCounted _ x | POut _ x => [x]
  | _ => []
  end.

(** the entries of thread [i] *)
Definition by_thread i (l : list (nat * A)) : list A := (filter (fun e => e.1 = i) l).*2.

#[local] Arguments by_thread : simpl never.

(** what a thread knows: [h] is the first node, [ns] all nodes of the list *)
Definition knows (h : nat) (ns : list nat) (c : pc) : Prop :=
  match c with
  | PCmp t e | ECmp t e => t ∈ ns /\ (e = true <-> h = t)
  | PNone e => e = true
  | EDone b e => b = e
  | PMoved old => old = h /\ exists l ns', ns = old :: l :: ns'
  | _ => True
  end.

(** a mutex is held by the one thread that is in the critical section *)
Definition mutex_ok (m : option nat) (f : pc -> bool) (pcs : nat -> pc) : Prop :=
  forall i, m = Some i <-> f (pcs i) = true.

Definition tail_node (m : option nat) (pcs : nat -> pc) : node A :=
  match m with Some i => dummy (pcs i) | None => node_new end.

(** the list is at [h :: ...], with the elements [xs] *)
Record inv_at s (h : nat) (ls : list nat) (xs : list A) : Prop := {
  iv_seg : lseg (nodes s) h ls xs (tail s);
  iv_nodup : NoDup (ls ++ [tail s]);
  iv_bound : Forall (fun l => (l < fresh_addr s)%nat) (ls ++ [tail s]);
  iv_tail : nodes s !! tail s = Some (tail_node (tail_mutex s) (pcs s));
  iv_head : match head s with
            | Some h' => h' = h /\ forall i old, pcs s i <> PMoved old
            | None => exists i, pcs s i = PMoved h
            end;
  iv_logs : pushed s = (popped s).*2 ++ xs;
  iv_hm : mutex_ok (head_mutex s) in_head (pcs s);
  iv_tm : mutex_ok (tail_mutex s) in_tail (pcs s);
  iv_knows : forall i, knows h (ls ++ [tail s]) (pcs s i);
  iv_owned : forall i p n, owned (pcs s i) = Some (p, n) ->
    nodes s !! p = Some n /\ (p ∉ ls ++ [tail s]) /\ (p < fresh_addr s)%nat;
  iv_disjoint : forall i j p n n', owned (pcs s i) = Some (p, n) -> owned (pcs s j) = Some (p, n') -> i = j;
  iv_results : forall i, by_thread i (results s) ++ in_flight (pcs s i) = by_thread i (popped s)
}.

Definition inv s : Prop := exists h ls xs, inv_at s h ls xs.

Lemma inv_init : inv init.
Proof.
  exists 0%nat, [], []. split; try done.
  - apply NoDup_singleton.
  - repeat constructor.
Qed.

Ltac at_thread j i :=
  destruct (decide (i = j)) as [<-|];
  [rewrite ?fn_lookup_insert in *|rewrite ?fn_lookup_insert_ne in * by done].

Section Mutex.
Variables (f : pc -> bool) (ps : nat -> pc) (i : nat) (c : pc).

Lemma mutex_same m : mutex_ok m f ps -> f c = f (ps i) -> mutex_ok m f (<[i := c]> ps).
Proof. intros Hm Hc j. at_thread j i; [by rewrite Hc|done]. Qed.

Lemma mutex_lock : mutex_ok None f ps -> f c = true -> mutex_ok (Some i) f (<[i := c]> ps).
Proof.
  intros Hm Hc j. at_thread j i; [done|]. split; [congruence|]. intros H. by apply Hm in H.
Qed.

Lemma mutex_unlock m : mutex_ok m f ps -> f (ps i) = true -> f c = false ->
  mutex_ok None f (<[i := c]> ps).
Proof.
  intros Hm Hi Hc j. at_thread j i; [by rewrite Hc|]. split; [done|]. intros H.
  apply Hm in H, Hi. congruence.
Qed.

Lemma tail_node_same m : dummy c = dummy (ps i) -> tail_node m (<[i := c]> ps) = tail_node m ps.
Proof. intros Hc. destruct m as [j|]; [|done]. cbn. at_thread j i; done. Qed.

Lemma tail_node_lock : dummy c = node_new -> tail_node (Some i) (<[i := c]> ps) = node_new.
Proof. intros Hc. cbn. by rewrite fn_lookup_insert. Qed.

Lemma tail_node_unlock m : mutex_ok m in_tail ps -> in_tail (ps i) = true ->
  dummy (ps i) = node_new -> tail_node m ps = node_new.
Proof. intros Hm Hi Hd. apply Hm in Hi. subst m. done. Qed.

End Mutex.

(** the critical sections exclude each other *)
Lemma mutex_excl m f ps i j : mutex_ok m f ps -> f (ps i) = true -> f (ps j) = true -> i = j.
Proof. intros Hm Hi Hj. apply Hm in Hi, Hj. congruence. Qed.

(** an action that changes nothing but its thread and the mutexes *)
Lemma inv_local i c s s' h ls xs :
  inv_at s h ls xs ->
  nodes s' = nodes s -> head s' = head s -> tail s' = tail s -> fresh_addr s' = fresh_addr s ->
  pushed s' = pushed s -> popped s' = popped s -> results s' = results s ->
  pcs s' = <[i := c]> (pcs s) ->
  (forall old, c <> PMoved old) -> (forall old, pcs s i <> PMoved old) ->
  mutex_ok (head_mutex s') in_head (pcs s') -> mutex_ok (tail_mutex s') in_tail (pcs s') ->
  tail_node (tail_mutex s') (pcs s') = tail_node (tail_mutex s) (pcs s) ->
  knows h (ls ++ [tail s]) c -> owned c = owned (pcs s i) -> in_flight c = in_flight (pcs s i) ->
  inv s'.
Proof.
  intros [Hseg Hnd Hb Ht Hh Hl Hhm Htm Hk Ho Hd Hr] E1 E2 E3 E4 E5 E6 E7 E8 Hc Hi Hhm' Htm' Htn Hkc Hoc Hfc.
  exists h, ls, xs. rewrite E8 in *. split; rewrite ?E1, ?E2, ?E3, ?E4, ?E5, ?E6, ?E7, ?E8; try done.
  - by rewrite Htn.
  - destruct (head s) as [h'|].
    + destruct Hh as [-> Hh]. split; [done|]. intros j old. at_thread j i; [done|apply Hh].
    + destruct Hh as [j Hj]. exists j. at_thread j i; [by destruct (Hi h)|done].
  - intros j. at_thread j i; done.
  - intros j p n. at_thread j i; [rewrite Hoc|]; apply Ho.
  - intros j k p n n'. at_thread j i; at_thread k i; rewrite ?Hoc; try done; apply Hd.
  - intros j. at_thread j i; [rewrite Hfc|]; apply Hr.
Qed.

(** what a thread knows about the list it knows under [head_mutex] *)
Lemma knows_outside h ns c : in_head c = false -> knows h ns c.
Proof. by destruct c. Qed.

(** and appending to the list does not change it *)
Lemma knows_app h ns ns' c : knows h ns c -> knows h (ns ++ ns') c.
Proof.
  destruct c; cbn; try done.
  - intros [Ht He]. split; [set_solver|done].
  - intros (-> & l & ns1 & ->). split; [done|]. by eexists _, _.
  - intros [Ht He]. split; [set_solver|done].
Qed.

Lemma by_thread_snoc i j x l :
  by_thread i (l ++ [(j, x)]) = by_thread i l ++ (if decide (i = j) then [x] else []).
Proof.
  unfold by_thread. rewrite filter_app, fmap_app. f_equal. rewrite filter_cons. cbn [fst].
  destruct (decide (i = j)) as [->|]; [by rewrite decide_True|]. by rewrite decide_False by congruence.
Qed.

(** the head is taken: somebody else's element is in front of [t] *)
Lemma inv_take i t e old s h ls xs :
  inv_at s h ls xs -> pcs s i = PCmp t e -> head s = Some old -> old <> t ->
  inv (goto i (PMoved old) (s <| head := None |>)).
Proof.
  intros [Hseg Hnd Hb Ht Hh Hl Hhm Htm Hk Ho Hd Hr] Hpc Hhd Hne.
  rewrite Hhd in Hh. destruct Hh as [-> Hh].
  assert (exists l ns', ls ++ [tail s] = h :: l :: ns') as Hlong.
  { pose proof (Hk i) as Hki. rewrite Hpc in Hki. destruct Hki as [Hin _].
    destruct ls as [|l ls], xs as [|x xs]; cbn in Hseg; try done.
    - subst h. cbn in Hin. set_solver.
    - destruct Hseg as [-> _]. destruct ls as [|l' ls]; cbn; by eexists _, _. }
  exists h, ls, xs. split; cbn; try done.
  - rewrite Ht. f_equal. symmetry. apply tail_node_same. by rewrite Hpc.
  - exists i. by rewrite fn_lookup_insert.
  - apply mutex_same; [done|by rewrite Hpc].
  - apply mutex_same; [done|by rewrite Hpc].
  - intros j. at_thread j i; [by split|apply Hk].
  - intros j p n. at_thread j i; [done|apply Ho].
  - intros j k p n n'. at_thread j i; [done|]. at_thread k i; [done|apply Hd].
  - intros j. at_thread j i; [|apply Hr].
    pose proof (Hr i) as Hri. by rewrite Hpc in Hri.
Qed.

(** ... and the list goes on behind it *)
Lemma inv_unlink i old s s' h ls xs :
  inv_at s h ls xs -> pcs s i = PMoved old -> cstep i s = Acted s' -> inv s'.
Proof.
  intros [Hseg Hnd Hb Ht Hh Hl Hhm Htm Hk Ho Hd Hr] Hpc.
  assert (in_head (pcs s i) = true) as Hin by by rewrite Hpc.
  pose proof (Hk i) as Hki. rewrite Hpc in Hki. destruct Hki as (-> & l0 & ns0 & Hns).
  destruct ls as [|l ls], xs as [|x xs]; try done. cbn in Hns. injection Hns as -> Hns.
  destruct Hseg as (_ & n & Hn & Hseg). cbn in Hnd, Hb.
  apply NoDup_cons in Hnd as [Hhn Hnd]. apply Forall_cons in Hb as [Hhb Hb].
  assert (tail s <> h) as Hth by set_solver.
  unfold cstep. rewrite Hpc. unfold with_node. rewrite Hn. cbn [data]. intros [= <-].
  exists n, ls, xs. split; cbn; try done.
  - eapply lseg_frame; [|exact Hseg]. intros l Hl'. apply lookup_insert_ne. set_solver.
  - rewrite lookup_insert_ne by done. rewrite Ht. f_equal. symmetry.
    apply tail_node_same. by rewrite Hpc.
  - split; [done|]. intros j old. at_thread j i; [done|]. intros Hj.
    assert (i = j); [|done]. eapply (mutex_excl _ _ _ _ _ Hhm); [done|by rewrite Hj].
  - rewrite Hl, fmap_app, <- app_assoc. done.
  - apply mutex_same; [done|by rewrite Hpc].
  - apply mutex_same; [done|by rewrite Hpc].
  - intros j. at_thread j i; [done|]. apply knows_outside.
    destruct (in_head (pcs s j)) eqn:Hj; [|done]. by destruct (mutex_excl _ _ _ _ _ Hhm Hin Hj).
  - intros j p n'. at_thread j i.
    + intros [= <- <-]. by rewrite lookup_insert_eq.
    + intros Hp. destruct (Ho j p n' Hp) as (H1 & H2 & H3).
      rewrite lookup_insert_ne by set_solver. split; [done|]. split; [set_solver|done].
  - intros j k p n1 n2. at_thread j i; at_thread k i; try done.
    + intros [= <- <-] Hp. destruct (Ho k _ _ Hp) as (_ & H2 & _). set_solver.
    + intros Hp [= <- <-]. destruct (Ho j _ _ Hp) as (_ & H2 & _). set_solver.
    + apply Hd.
  - intros j. rewrite by_thread_snoc. at_thread j i.
    + rewrite decide_True by done. pose proof (Hr i) as Hri. rewrite Hpc in Hri. cbn in Hri |- *.
      rewrite <- Hri. by rewrite ?app_nil_r.
    + rewrite decide_False by congruence. rewrite app_nil_r. apply Hr.
Qed.

(** a node that is a thread's own is given back *)
Lemma inv_delete i old x s s' h ls xs :
  inv_at s h ls xs -> pcs s i = POut old x -> cstep i s = Acted s' -> inv s'.
Proof.
  intros [Hseg Hnd Hb Ht Hh Hl Hhm Htm Hk Ho Hd Hr] Hpc.
  destruct (Ho i old (mkNode (Some x) None)) as (Hn & Hout & _); [by rewrite Hpc|].
  unfold cstep. rewrite Hpc. unfold with_node. rewrite Hn. cbn [data]. intros [= <-].
  exists h, ls, xs. split; cbn; try done.
  - eapply lseg_frame; [|exact Hseg]. intros l Hl'. apply lookup_delete_ne. set_solver.
  - rewrite lookup_delete_ne by set_solver. rewrite Ht. f_equal. symmetry.
    apply tail_node_same. by rewrite Hpc.
  - destruct (head s) as [h'|].
    + destruct Hh as [-> Hh]. split; [done|]. intros j o. at_thread j i; [done|apply Hh].
    + destruct Hh as [j Hj]. exists j. at_thread j i; [congruence|done].
  - apply mutex_same; [done|by rewrite Hpc].
  - apply mutex_same; [done|by rewrite Hpc].
  - intros j. at_thread j i; [done|apply Hk].
  - intros j p n. at_thread j i; [done|]. intros Hp. destruct (Ho j p n Hp) as (H1 & H2 & H3).
    rewrite lookup_delete_ne; [done|]. intros ->.
    assert (i = j); [|done]. eapply Hd; [by rewrite Hpc|done].
  - intros j k p n n'. at_thread j i; [done|]. at_thread k i; [done|apply Hd].
  - intros j. rewrite by_thread_snoc. at_thread j i.
    + rewrite decide_True by done. pose proof (Hr i) as Hri. rewrite Hpc in Hri. cbn in Hri |- *.
      rewrite <- Hri. by rewrite ?app_nil_r.
    + rewrite decide_False by congruence. rewrite app_nil_r. apply Hr.
Qed.

(** a new node *)
Lemma inv_alloc i r x s h ls xs :
  inv_at s h ls xs -> pcs s i = UStart r x ->
  inv (goto i (UAlloc r x (fresh_addr s)) (s <| nodes ::= <[fresh_addr s := node_new]> |> <| fresh_addr ::= S |>)).
Proof.
  intros [Hseg Hnd Hb Ht Hh Hl Hhm Htm Hk Ho Hd Hr] Hpc. set (p0 := fresh_addr s).
  assert (p0 ∉ ls ++ [tail s]) as Hp0.
  { intros Hin. rewrite Forall_forall in Hb. apply Hb in Hin. unfold p0 in Hin. lia. }
  exists h, ls, xs. split; cbn; try done.
  - eapply lseg_frame; [|exact Hseg]. intros l Hl'. apply lookup_insert_ne. set_solver.
  - eapply Forall_impl; [exact Hb|]. cbn. lia.
  - rewrite lookup_insert_ne by set_solver. rewrite Ht. f_equal. symmetry.
    apply tail_node_same. by rewrite Hpc.
  - destruct (head s) as [h'|].
    + destruct Hh as [-> Hh]. split; [done|]. intros j o. at_thread j i; [done|apply Hh].
    + destruct Hh as [j Hj]. exists j. at_thread j i; [congruence|done].
  - apply mutex_same; [done|by rewrite Hpc].
  - apply mutex_same; [done|by rewrite Hpc].
  - intros j. at_thread j i; [done|apply Hk].
  - intros j p n. at_thread j i.
    + intros [= <- <-]. rewrite lookup_insert_eq. split; [done|]. split; [done|]. unfold p0. lia.
    + intros Hp. destruct (Ho j p n Hp) as (H1 & H2 & H3).
      rewrite lookup_insert_ne by (unfold p0; lia). split; [done|]. split; [done|lia].
  - intros j k p n n'. at_thread j i; at_thread k i; try done.
    + intros [= <- <-] Hp. destruct (Ho k _ _ Hp) as (_ & _ & H3). unfold p0 in H3. lia.
    + intros Hp [= <- <-]. destruct (Ho j _ _ Hp) as (_ & _ & H3). unfold p0 in H3. lia.
    + apply Hd.
  - intros j. at_thread j i; [|apply Hr].
    pose proof (Hr i) as Hri. by rewrite Hpc in Hri.
Qed.

(** a push writes to the dummy *)
Lemma inv_dummy i c s h ls xs :
  inv_at s h ls xs -> in_tail (pcs s i) = true -> in_tail c = true ->
  in_head (pcs s i) = false -> in_head c = false -> owned c = owned (pcs s i) ->
  in_flight c = [] -> in_flight (pcs s i) = [] ->
  inv (goto i c (s <| nodes ::= <[tail s := dummy c]> |>)).
Proof.
  intros [Hseg Hnd Hb Ht Hh Hl Hhm Htm Hk Ho Hd Hr] Hti Htc Hhi Hhc Hoc Hfc Hfi.
  assert (tail s ∉ ls) as Htl by (apply NoDup_app in Hnd as (_ & Hnd & _); set_solver).
  assert (forall old, c <> PMoved old) as Hc by by intros old ->.
  assert (forall old, pcs s i <> PMoved old) as Hi by (intros old E; by rewrite E in Hhi).
  exists h, ls, xs. split; cbn; try done.
  - eapply lseg_frame; [|exact Hseg]. intros l Hl'. apply lookup_insert_ne. set_solver.
  - rewrite lookup_insert_eq. f_equal. apply Htm in Hti. rewrite Hti. cbn. by rewrite fn_lookup_insert.
  - destruct (head s) as [h'|].
    + destruct Hh as [-> Hh]. split; [done|]. intros j o. at_thread j i; [done|apply Hh].
    + destruct Hh as [j Hj]. exists j. at_thread j i; [by destruct (Hi h)|done].
  - apply mutex_same; [done|by rewrite Hhc, Hhi].
  - apply mutex_same; [done|by rewrite Htc, Hti].
  - intros j. at_thread j i; [by apply knows_outside|apply Hk].
  - intros j p n Hp. assert (owned (pcs s j) = Some (p, n)) as Hp'
      by (revert Hp; at_thread j i; by rewrite ?Hoc).
    destruct (Ho j p n Hp') as (H1 & H2 & H3). by rewrite lookup_insert_ne by set_solver.
  - intros j k p n n'. at_thread j i; at_thread k i; rewrite ?Hoc; try done; apply Hd.
  - intros j. at_thread j i; [|apply Hr].
    pose proof (Hr i) as Hri. by rewrite Hfi in Hri; rewrite Hfc.
Qed.

(** ... and makes its new node the dummy: the element is in the list *)
Lemma inv_publish i c x p s h ls xs :
  inv_at s h ls xs -> in_tail (pcs s i) = true -> in_tail c = true ->
  in_head (pcs s i) = false -> in_head c = false -> owned (pcs s i) = Some (p, node_new) ->
  dummy (pcs s i) = mkNode (Some x) (Some p) -> owned c = None -> dummy c = node_new ->
  in_flight c = [] -> in_flight (pcs s i) = [] ->
  inv (goto i c (s <| tail := p |> <| pushed ::= fun l => l ++ [x] |>)).
Proof.
  intros [Hseg Hnd Hb Ht Hh Hl Hhm Htm Hk Ho Hd Hr] Hti Htc Hhi Hhc Hoi Hdi Hoc Hdc Hfc Hfi.
  assert (forall old, c <> PMoved old) as Hc by by intros old ->.
  assert (forall old, pcs s i <> PMoved old) as Hi by (intros old E; by rewrite E in Hhi).
  destruct (Ho i p node_new Hoi) as (Hp1 & Hp2 & Hp3).
  pose proof Hti as Hmi. apply Htm in Hmi. rewrite Hmi in Ht. cbn in Ht. rewrite Hdi in Ht.
  exists h, (ls ++ [tail s]), (xs ++ [x]). split; cbn; try done.
  - by eapply lseg_snoc.
  - apply NoDup_app. split; [done|]. split; [set_solver|apply NoDup_singleton].
  - apply Forall_app. split; [done|]. by repeat constructor.
  - rewrite Hp1, Hmi. cbn. by rewrite fn_lookup_insert, Hdc.
  - destruct (head s) as [h'|].
    + destruct Hh as [-> Hh]. split; [done|]. intros j o. at_thread j i; [done|apply Hh].
    + destruct Hh as [j Hj]. exists j. at_thread j i; [by destruct (Hi h)|done].
  - by rewrite Hl, app_assoc.
  - apply mutex_same; [done|by rewrite Hhc, Hhi].
  - apply mutex_same; [done|by rewrite Htc, Hti].
  - intros j. at_thread j i; [by apply knows_outside|]. apply knows_app, Hk.
  - intros j q n. at_thread j i; [by rewrite Hoc|]. intros Hq.
    destruct (Ho j q n Hq) as (H1 & H2 & H3). split; [done|]. split; [|done].
    intros Hin. apply elem_of_app in Hin as [Hin|Hin]; [done|].
    apply list_elem_of_singleton in Hin as ->. by assert (i = j) by by eapply Hd.
  - intros j k q n n'. at_thread j i; [by rewrite Hoc|]. at_thread k i; [by rewrite Hoc|apply Hd].
  - intros j. at_thread j i; [|apply Hr].
    pose proof (Hr i) as Hri. by rewrite Hfi in Hri; rewrite Hfc.
Qed.

Lemma schedule_reachable es s s' : schedule es s = Some s' -> rtc step s s'.
Proof.
  revert s. induction es as [|[i c|i] es IH]; intros s; cbn.
  - by intros [= ->].
  - destruct (pcs s i) eqn:Hpc; try done. destruct (is_call c) eqn:Hc; [|done].
    intros Hs. eapply rtc_l; [apply step_call; [exact Hpc|]|by apply IH].
    unfold call. destruct c; try done; [by left|by right; left|right; right; by eexists _, _].
  - destruct (cstep i s) eqn:Hs; try done. intros Hs'. eapply rtc_l; [by eapply step_act|by apply IH].
Qed.

(** the two ways to get a mutex *)
Lemma lock_head_acted i c s s' : lock_head i c s = Acted s' ->
  head_mutex s = None /\ s' = goto i c (s <| head_mutex := Some i |>).
Proof. unfold lock_head. destruct (head_mutex s); [done|]. by intros [= <-]. Qed.

Lemma lock_tail_acted i c s s' : lock_tail i c s = Acted s' ->
  tail_mutex s = None /\ s' = goto i c (s <| tail_mutex := Some i |>).
Proof. unfold lock_tail. destruct (tail_mutex s); [done|]. by intros [= <-]. Qed.

(** [tail] is read under its mutex: the list is empty exactly when the first
    node is the one that was read *)
Lemma knows_tail s h ls xs e : inv_at s h ls xs -> e = no_elements s ->
  tail s ∈ ls ++ [tail s] /\ (e = true <-> h = tail s).
Proof.
  intros [Hseg Hnd _ _ _ Hl _ _ _ _ _ _] ->. split; [set_solver|].
  unfold no_elements. rewrite bool_decide_eq_true, Hl, length_app, length_fmap.
  destruct ls as [|l ls], xs as [|x xs]; cbn in Hseg; try done.
  destruct Hseg as [-> _]. split; [cbn; lia|]. intros ->.
  cbn in Hnd. apply NoDup_cons in Hnd as [Hnd _]. set_solver.
Qed.

(** the positions [c] and [c'] differ at most in the mutexes held *)
Definition alike (c c' : pc) : Prop :=
  owned c = owned c' /\ in_flight c = in_flight c' /\
  (forall old, c <> PMoved old) /\ (forall old, c' <> PMoved old).

Section Local.
Variables (i : nat) (c : pc) (s : shared) (h : nat) (ls : list nat) (xs : list A).
Hypothesis Hi : inv_at s h ls xs.
Hypothesis Hal : alike c (pcs s i).
Hypothesis Hk : knows h (ls ++ [tail s]) c.

Lemma inv_quiet n : in_head c = in_head (pcs s i) -> in_tail c = in_tail (pcs s i) ->
  dummy c = dummy (pcs s i) -> inv (goto i c (s <| count := n |>)).
Proof.
  destruct Hal as (H1 & H2 & H3 & H4). intros E1 E2 E3.
  eapply (inv_local i c); try done; cbn.
  - apply mutex_same; [apply Hi|done].
  - apply mutex_same; [apply Hi|done].
  - by apply tail_node_same.
Qed.

Lemma inv_goto : in_head c = in_head (pcs s i) -> in_tail c = in_tail (pcs s i) ->
  dummy c = dummy (pcs s i) -> inv (goto i c s).
Proof.
  destruct Hal as (H1 & H2 & H3 & H4). intros E1 E2 E3.
  eapply (inv_local i c); try done; cbn.
  - apply mutex_same; [apply Hi|done].
  - apply mutex_same; [apply Hi|done].
  - by apply tail_node_same.
Qed.

Lemma inv_lock_head : head_mutex s = None -> in_head c = true -> in_tail c = in_tail (pcs s i) ->
  dummy c = dummy (pcs s i) -> inv (goto i c (s <| head_mutex := Some i |>)).
Proof.
  destruct Hal as (H1 & H2 & H3 & H4). intros E0 E1 E2 E3.
  eapply (inv_local i c); try done; cbn.
  - apply mutex_lock; [|done]. rewrite <- E0. apply Hi.
  - apply mutex_same; [apply Hi|done].
  - by apply tail_node_same.
Qed.

Lemma inv_unlock_head : in_head (pcs s i) = true -> in_head c = false ->
  in_tail c = in_tail (pcs s i) -> dummy c = dummy (pcs s i) ->
  inv (goto i c (s <| head_mutex := None |>)).
Proof.
  destruct Hal as (H1 & H2 & H3 & H4). intros E0 E1 E2 E3.
  eapply (inv_local i c); try done; cbn.
  - eapply mutex_unlock; [apply Hi|done|done].
  - apply mutex_same; [apply Hi|done].
  - by apply tail_node_same.
Qed.

Lemma inv_lock_tail : tail_mutex s = None -> in_tail c = true -> in_head c = in_head (pcs s i) ->
  dummy c = node_new -> inv (goto i c (s <| tail_mutex := Some i |>)).
Proof.
  destruct Hal as (H1 & H2 & H3 & H4). intros E0 E1 E2 E3.
  eapply (inv_local i c); try done; cbn.
  - apply mutex_same; [apply Hi|done].
  - apply mutex_lock; [|done]. rewrite <- E0. apply Hi.
  - rewrite E0, fn_lookup_insert. done.
Qed.

Lemma inv_unlock_tail : in_tail (pcs s i) = true -> in_tail c = false ->
  in_head c = in_head (pcs s i) -> dummy (pcs s i) = node_new ->
  inv (goto i c (s <| tail_mutex := None |>)).
Proof.
  destruct Hal as (H1 & H2 & H3 & H4). intros E0 E1 E2 E3.
  eapply (inv_local i c); try done; cbn.
  - apply mutex_same; [apply Hi|done].
  - eapply mutex_unlock; [apply Hi|done|done].
  - symmetry. eapply tail_node_unlock; [apply Hi|done|done].
Qed.

End Local.

(** the side conditions, from the position [Hpc] of the thread *)
Ltac at_pc Hpc :=
  try reflexivity; try (rewrite Hpc; reflexivity); try (split; [|split; [|split]]);
  rewrite ?Hpc; try reflexivity; try (intros ? ?; discriminate); try exact I.

Lemma inv_call i c s : inv s -> pcs s i = Idle -> call c -> inv (goto i c s).
Proof.
  intros (h & ls & xs & Hi) Hpc Hc.
  destruct Hc as [-> | [-> | (r & x & ->)]]; apply (inv_goto _ _ _ _ _ _ Hi); at_pc Hpc.
Qed.

Lemma inv_pop i s s' : inv s -> cstep i s = Acted s' ->
  match pcs s i with
  | PStart | PLocked | PTail | PCmp _ _ | PNone _ | PMoved _ | PLinked _ _ | PCount _ _ _
  | PCounted _ _ | POut _ _ => True | _ => False end -> inv s'.
Proof.
  intros (h & ls & xs & Hi) Hact Hc. pose proof (iv_knows _ _ _ _ Hi i) as Hk.
  destruct (pcs s i) as [| | | |t e|e|old|old x|old x c|old x|old x| | | | | | | | | | | | | | | ] eqn:Hpc;
    try done.
  all: pose proof Hact as Hact'; unfold cstep in Hact'; rewrite Hpc in Hact'; cbn in Hk.
  - apply lock_head_acted in Hact' as [Hm ->]. apply (inv_lock_head _ _ _ _ _ _ Hi); at_pc Hpc. done.
  - apply lock_tail_acted in Hact' as [Hm ->]. apply (inv_lock_tail _ _ _ _ _ _ Hi); at_pc Hpc. done.
  - injection Hact' as <-. apply (inv_unlock_tail _ _ _ _ _ _ Hi); at_pc Hpc.
    by apply (knows_tail _ _ _ _ _ Hi).
  - destruct (decide (head s = Some t)) as [Ht|Ht].
    + injection Hact' as <-. apply (inv_goto _ _ _ _ _ _ Hi); at_pc Hpc.
      pose proof (iv_head _ _ _ _ Hi) as Hh. rewrite Ht in Hh. destruct Hh as [-> _]. by apply Hk.
    + destruct (head s) as [old|] eqn:Hh; [|done]. injection Hact' as <-.
      eapply inv_take; [exact Hi|exact Hpc|done|congruence].
  - injection Hact' as <-. apply (inv_unlock_head _ _ _ _ _ _ Hi); at_pc Hpc.
  - by eapply inv_unlink.
  - injection Hact' as <-. apply (inv_goto _ _ _ _ _ _ Hi); at_pc Hpc.
  - injection Hact' as <-. apply (inv_quiet _ _ _ _ _ _ Hi); at_pc Hpc.
  - injection Hact' as <-. apply (inv_unlock_head _ _ _ _ _ _ Hi); at_pc Hpc.
  - by eapply inv_delete.
Qed.

Lemma inv_isEmpty i s s' : inv s -> cstep i s = Acted s' ->
  match pcs s i with EStart | ELocked | ETail | ECmp _ _ | EDone _ _ => True | _ => False end ->
  inv s'.
Proof.
  intros (h & ls & xs & Hi) Hact Hc. pose proof (iv_knows _ _ _ _ Hi i) as Hk.
  destruct (pcs s i) as [| | | | | | | | | | | | | |t e|b e| | | | | | | | | | ] eqn:Hpc; try done.
  all: unfold cstep in Hact; rewrite Hpc in Hact; cbn in Hk.
  - apply lock_head_acted in Hact as [Hm ->]. apply (inv_lock_head _ _ _ _ _ _ Hi); at_pc Hpc. done.
  - apply lock_tail_acted in Hact as [Hm ->]. apply (inv_lock_tail _ _ _ _ _ _ Hi); at_pc Hpc. done.
  - injection Hact as <-. apply (inv_unlock_tail _ _ _ _ _ _ Hi); at_pc Hpc.
    by apply (knows_tail _ _ _ _ _ Hi).
  - injection Hact as <-. apply (inv_goto _ _ _ _ _ _ Hi); at_pc Hpc.
    pose proof (iv_head _ _ _ _ Hi) as Hh. destruct (head s) as [h'|] eqn:Hhd.
    + destruct Hh as [-> _]. cbn. destruct Hk as [_ Hk].
      destruct (decide (h = t)) as [->|Hne].
      * rewrite bool_decide_true by done. symmetry. by apply Hk.
      * rewrite bool_decide_false by congruence. destruct e; [|done]. by destruct Hne; apply Hk.
    + destruct Hh as [j Hj]. exfalso.
      assert (i = j) as ->; [|congruence].
      eapply (mutex_excl _ _ _ _ _ (iv_hm _ _ _ _ Hi)); [by rewrite Hpc|by rewrite Hj].
  - injection Hact as <-. apply (inv_unlock_head _ _ _ _ _ _ Hi); at_pc Hpc.
Qed.

Lemma inv_push i s s' : inv s -> cstep i s = Acted s' ->
  match pcs s i with
  | UStart _ _ | UAlloc _ _ _ | ULocked _ _ _ | UData _ _ _ | UNext _ _ _ | UCnt _ _ _ | UInc _ _
  | RTail | RCnt _ | UDone => True | _ => False end -> inv s'.
Proof.
  intros (h & ls & xs & Hi) Hact Hc. pose proof (iv_knows _ _ _ _ Hi i) as Hk.
  assert (Htl : in_tail (pcs s i) = true -> nodes s !! tail s = Some (dummy (pcs s i))).
  { intros Hin. pose proof (iv_tail _ _ _ _ Hi) as Ht. apply (iv_tm _ _ _ _ Hi) in Hin.
    by rewrite Hin in Ht. }
  destruct (pcs s i) as [| | | | | | | | | | | | | | | |r x|r x p|r x p|r x p|r x p|x p c|x p| |c| ] eqn:Hpc;
    try done.
  all: unfold cstep, with_node in Hact; rewrite Hpc in Hact; try rewrite Htl in Hact by done; cbn in Hk.
  - injection Hact as <-. by eapply inv_alloc.
  - apply lock_tail_acted in Hact as [Hm ->]. apply (inv_lock_tail _ _ _ _ _ _ Hi); at_pc Hpc. done.
  - injection Hact as <-. by apply (inv_dummy i (UData r x p) s h ls xs); rewrite ?Hpc.
  - injection Hact as <-. by apply (inv_dummy i (UNext r x p) s h ls xs); rewrite ?Hpc.
  - destruct r; injection Hact as <-.
    + by apply (inv_publish i RTail x p s h ls xs); rewrite ?Hpc.
    + apply (inv_goto _ _ _ _ _ _ Hi); at_pc Hpc.
  - injection Hact as <-. apply (inv_quiet _ _ _ _ _ _ Hi); at_pc Hpc.
  - injection Hact as <-. by apply (inv_publish i UDone x p s h ls xs); rewrite ?Hpc.
  - injection Hact as <-. apply (inv_goto _ _ _ _ _ _ Hi); at_pc Hpc.
  - injection Hact as <-. apply (inv_quiet _ _ _ _ _ _ Hi); at_pc Hpc.
  - injection Hact as <-. apply (inv_unlock_tail _ _ _ _ _ _ Hi); at_pc Hpc.
Qed.

Lemma inv_step s s' : inv s -> step s s' -> inv s'.
Proof.
  intros Hi Hs. revert Hi. destruct Hs as [i c s1 Hpc Hc|i s1 s2 Hact]; intros Hi; [by apply inv_call|].
  destruct (pcs s1 i) eqn:Hpc;
    first [by eapply inv_pop; [|exact Hact|rewrite Hpc]|by eapply inv_isEmpty; [|exact Hact|rewrite Hpc]
          |by eapply inv_push; [|exact Hact|rewrite Hpc]|idtac].
  unfold cstep in Hact. by rewrite Hpc in Hact.
Qed.

Lemma inv_reachable s : reachable s -> inv s.
Proof.
  unfold reachable. generalize inv_init. generalize (@init). intros s0 H0 Hr.
  induction Hr as [|s1 s2 s3 Hs Hr IH]; [done|]. apply IH. by eapply inv_step.
Qed.

(** ** What the invariant gives *)

Lemma in_tail_acts i s : inv s -> in_tail (pcs s i) = true -> exists s', cstep i s = Acted s'.
Proof.
  intros (h & ls & xs & Hi) Hin. unfold cstep, with_node.
  pose proof (iv_tail _ _ _ _ Hi) as Ht.
  destruct (pcs s i) as [| | | | | | | | | | | | | | | | | | | |[] ? ?| | | | | ]; try done;
    rewrite ?Ht; by eexists.
Qed.

Lemma PMoved_acts i old s : inv s -> pcs s i = PMoved old -> exists s', cstep i s = Acted s'.
Proof.
  intros (h & ls & xs & Hi) Hpc. pose proof (iv_knows _ _ _ _ Hi i) as Hk. rewrite Hpc in Hk.
  destruct Hk as (-> & l & ns & Hns). unfold cstep. rewrite Hpc. unfold with_node.
  pose proof (iv_seg _ _ _ _ Hi) as Hseg. destruct ls as [|l' ls], xs as [|x xs]; try done.
  destruct Hseg as (-> & n & Hn & _). cbn in Hns. rewrite Hn. by eexists.
Qed.

(** a thread acts, or waits for a mutex that another thread holds *)
Lemma acts_or_waits i s : inv s -> pcs s i <> Idle ->
  (exists s', cstep i s = Acted s') \/
  (cstep i s = Blocked /\ exists j, head_mutex s = Some j /\ (pcs s i = PStart \/ pcs s i = EStart)) \/
  (cstep i s = Blocked /\ exists j, tail_mutex s = Some j /\
     (pcs s i = PLocked \/ pcs s i = ELocked \/ exists r x p, pcs s i = UAlloc r x p)).
Proof.
  intros Hinv Hne. destruct (in_tail (pcs s i)) eqn:Hin; [left; by apply in_tail_acts|].
  pose proof Hinv as (h & ls & xs & Hi). pose proof (iv_owned _ _ _ _ Hi i) as Ho.
  pose proof (iv_head _ _ _ _ Hi) as Hh. pose proof (iv_hm _ _ _ _ Hi) as Hhm.
  destruct (pcs s i) as [| | | |t e|e|old|old x|old x c|old x|old x| | | |t e|b e|r x|r x p| | | | | | | | ] eqn:Hpc;
    try done; try (left; by eapply PMoved_acts); unfold cstep; rewrite Hpc;
    unfold lock_head, lock_tail.
  all: try (left; by eexists).
  - destruct (head_mutex s) as [j|]; [right; left|left; by eexists]. split; [done|]. exists j. by split; [|left].
  - destruct (tail_mutex s) as [j|]; [right; right|left; by eexists]. split; [done|]. exists j. by split; [|left].
  - left. destruct (decide (head s = Some t)); [by eexists|]. destruct (head s); [by eexists|].
    destruct Hh as [k Hk]. assert (i = k) as <-; [|congruence].
    eapply (mutex_excl _ _ _ _ _ Hhm); [by rewrite Hpc|by rewrite Hk].
  - left. destruct (Ho old (mkNode (Some x) None)) as [Hn _]; [done|]. unfold with_node. rewrite Hn. by eexists.
  - destruct (head_mutex s) as [j|]; [right; left|left; by eexists]. split; [done|]. exists j. by split; [|right].
  - destruct (tail_mutex s) as [j|]; [right; right|left; by eexists]. split; [done|]. exists j.
    split; [done|]. by right; left.
  - destruct (tail_mutex s) as [j|]; [right; right|left; by eexists]. split; [done|]. exists j.
    split; [done|]. right; right. by eexists _, _, _.
Qed.

(** a thread that waits does not hold what it waits for *)
Lemma waits_for_other i s : inv s -> cstep i s = Blocked -> pcs s i <> Idle ->
  exists j, j <> i /\ (head_mutex s = Some j \/ tail_mutex s = Some j).
Proof.
  intros Hinv Hb Hne. pose proof Hinv as (h & ls & xs & Hi).
  destruct (acts_or_waits i s Hinv Hne) as [[s' Hs]|[(_ & j & Hj & Hp)|(_ & j & Hj & Hp)]];
    [congruence|exists j; split; [intros ->|auto]..].
  - apply (iv_hm _ _ _ _ Hi) in Hj. by destruct Hp as [Hp|Hp]; rewrite Hp in Hj.
  - apply (iv_tm _ _ _ _ Hi) in Hj. by destruct Hp as [Hp|[Hp|(r & x & p & Hp)]]; rewrite Hp in Hj.
Qed.

(** the holder of [tail_mutex] acts, the holder of [head_mutex] acts or waits for
    that one *)
Lemma some_acts i s : inv s -> pcs s i <> Idle -> exists j s', cstep j s = Acted s'.
Proof.
  intros Hinv Hne. pose proof Hinv as (h & ls & xs & Hi).
  assert (Htail : forall j, tail_mutex s = Some j -> exists s', cstep j s = Acted s').
  { intros j Hj. apply in_tail_acts; [done|]. by apply (iv_tm _ _ _ _ Hi). }
  destruct (acts_or_waits i s Hinv Hne) as [[s' Hs]|[(_ & j & Hj & _)|(_ & j & Hj & _)]].
  - by exists i, s'.
  - apply (iv_hm _ _ _ _ Hi) in Hj.
    assert (pcs s j <> Idle) as Hnj by (intros E; by rewrite E in Hj).
    destruct (acts_or_waits j s Hinv Hnj) as [[s' Hs]|[(_ & k & _ & Hk)|(_ & k & Hk & _)]].
    + by exists j, s'.
    + destruct Hk as [Hk|Hk]; by rewrite Hk in Hj.
    + exists k. by apply Htail.
  - exists j. by apply Htail.
Qed.

(** the number of actions a call still makes *)
Definition remaining (c : pc) : nat :=
  match c with
  | Idle => 0
  | PStart => 9 | PLocked => 8 | PTail => 7 | PCmp _ _ => 6 | PNone _ => 1 | PMoved _ => 5
  | PLinked _ _ => 4 | PCount _ _ _ => 3 | PCounted _ _ => 2 | POut _ _ => 1
  | EStart => 5 | ELocked => 4 | ETail => 3 | ECmp _ _ => 2 | EDone _ _ => 1
  | UStart _ _ => 8 | UAlloc _ _ _ => 7 | ULocked _ _ _ => 6 | UData _ _ _ => 5 | UNext _ _ _ => 4
  | UCnt _ _ _ => 3 | UInc _ _ => 2 | RTail => 3 | RCnt _ => 2 | UDone => 1
  end.

Lemma cstep_goto i s s' : cstep i s = Acted s' ->
  exists c, pcs s' = <[i := c]> (pcs s) /\ (remaining c < remaining (pcs s i))%nat.
Proof.
  unfold cstep, lock_head, lock_tail, with_node.
  destruct (pcs s i) as [| | | | | | | | | | | | | | | | | | | |[] ? ?| | | | | ] eqn:Hpc; intros Hs; try discriminate Hs;
    repeat match type of Hs with context [match ?x with _ => _ end] => destruct x; try done end;
    injection Hs as <-; (eexists; split; [reflexivity|cbn; lia]).
Qed.

End Threads.
Arguments pc _ : clear implicits.
Arguments shared _ : clear implicits.
Arguments event _ : clear implicits.

(** ** Properties *)

Section Properties.
Context {A : Type}.
Implicit Types (s : shared A) (i j : nat).

(** C25: the mutexes do their work: no two threads are in a critical section of
    [head_mutex], and none in one of [tail_mutex]. *)
Theorem mutual_exclusion s i j : reachable s ->
  (in_head (pcs s i) = true -> in_head (pcs s j) = true -> i = j) /\
  (in_tail (pcs s i) = true -> in_tail (pcs s j) = true -> i = j).
Proof.
  intros Hr. destruct (inv_reachable s Hr) as (h & ls & xs & Hi).
  split; intros H1 H2; eapply mutex_excl; try done; apply Hi.
Qed.

(** C8: the queue is first in, first out, for any number of threads: the
    elements leave in the order in which they entered, every thread gets the
    elements that left on its behalf, in that order, and what has entered and
    not left is the list from the first node to [tail]. *)
Theorem fifo_linearizable s : reachable s ->
  exists h ls xs,
    lseg (nodes s) h ls xs (tail s) /\ pushed s = (popped s).*2 ++ xs /\
    (head s = Some h \/ exists i, pcs s i = PMoved h) /\
    forall i, by_thread i (results s) ++ in_flight (pcs s i) = by_thread i (popped s).
Proof.
  intros Hr. destruct (inv_reachable s Hr) as (h & ls & xs & Hi).
  exists h, ls, xs. split; [apply Hi|]. split; [apply Hi|]. split; [|apply Hi].
  pose proof (iv_head _ _ _ _ Hi) as Hh. destruct (head s); [left; by destruct Hh as [-> _]|by right].
Qed.

(** C26: an empty answer is a true one: [pop_head] returns no element, and
    [isEmpty] true, only when the list was empty at the moment [tail] was read. *)
Theorem empty_answers s i : reachable s ->
  (forall e, pcs s i = PNone e -> e = true) /\ (forall b e, pcs s i = EDone b e -> b = e).
Proof.
  intros Hr. destruct (inv_reachable s Hr) as (h & ls & xs & Hi).
  pose proof (iv_knows _ _ _ _ Hi i) as Hk. by split; intros * E; rewrite E in Hk.
Qed.

(** C9: no thread ever touches a node that is not on the heap; every action of a
    thread inside a call brings that call nearer to its end and leaves all others
    where they are, so no call spins; a thread that cannot act is waiting for a
    mutex that another thread holds; and the queue cannot deadlock: while a call
    is under way, some thread acts. *)
Theorem progress s i : reachable s ->
  cstep i s <> UB /\
  (forall s', cstep i s = Acted s' ->
     (remaining (pcs s' i) < remaining (pcs s i))%nat /\ forall j, j <> i -> pcs s' j = pcs s j) /\
  (cstep i s = Blocked -> pcs s i <> Idle ->
     exists j, j <> i /\ (head_mutex s = Some j \/ tail_mutex s = Some j)) /\
  (pcs s i <> Idle -> exists j s', cstep j s = Acted s').
Proof.
  intros Hr. pose proof (inv_reachable s Hr) as Hinv. split; [|split; [|split]].
  - assert (pcs s i = Idle \/ pcs s i <> Idle) as [E|E] by (destruct (pcs s i); (by left) || (by right)).
    { unfold cstep. by rewrite E. }
    destruct (acts_or_waits i s Hinv E) as [[s' ->]|[[-> _]|[-> _]]]; done.
  - intros s' Hs. destruct (cstep_goto i s s' Hs) as (c & -> & Hc). rewrite fn_lookup_insert.
    split; [done|]. intros j Hj. by rewrite fn_lookup_insert_ne.
  - intros Hb Hne. by apply waits_for_other.
  - by apply some_acts.
Qed.

(** C27: [count] is not protected: [push] changes it under [tail_mutex] and
    [pop_head] under [head_mutex], and each reads it before it writes it.  A
    push and a pop can both finish and leave a [count] that is not the number
    of elements. *)
Theorem count_race (x y : A) :
  exists s, reachable s /\ (forall i, pcs s i = Idle) /\
    pushed s = [x; y] /\ (popped s).*2 = [x] /\ count s = 0.
Proof.
  set (es := [Call 0 (UStart false x)] ++ replicate 8 (Act 0) ++ [Call 1 PStart] ++
    replicate 6 (Act 1) ++ [Call 0 (UStart false y)] ++ replicate 8 (Act 0) ++ replicate 3 (Act 1)).
  assert (exists s, schedule es init = Some s /\ (forall i, pcs s i = Idle) /\
    pushed s = [x; y] /\ (popped s).*2 = [x] /\ count s = 0) as (s & Hs & H).
  { eexists. split; [vm_compute; reflexivity|]. split; [by intros [|[|i]]|done]. }
  exists s. split; [|exact H]. by eapply schedule_reachable.
Qed.

End Properties.

(** ** A concrete run

    Thread 0 has pushed 7 and 8 and is in the middle of a third push, thread 1
    has taken 7 and not yet returned it, thread 2 waits for [head_mutex]. *)

Definition demo_schedule : list (event Z) :=
  [Call 0 (UStart false 7)] ++ replicate 8 (Act 0) ++
  [Call 0 (UStart true 8)] ++ replicate 8 (Act 0) ++
  [Call 1 PStart; Call 2 PStart] ++ replicate 5 (Act 1) ++
  [Call 0 (UStart false 9)] ++ replicate 3 (Act 0).

Definition demo_state : shared Z := default init (schedule demo_schedule init).

Lemma demo_reachable : reachable demo_state.
Proof.
  unfold demo_state. destruct (schedule demo_schedule init) eqn:Hs; [|constructor].
  by eapply schedule_reachable.
Qed.

Lemma mutual_exclusion_witness :
  in_head (pcs demo_state 1) = true /\ in_tail (pcs demo_state 0) = true /\
  (in_head (pcs demo_state 1) = true -> in_head (pcs demo_state 2) = true -> 1%nat = 2%nat) /\
  (in_tail (pcs demo_state 1) = true -> in_tail (pcs demo_state 2) = true -> 1%nat = 2%nat).
Proof. split; [done|]. split; [done|]. apply mutual_exclusion. apply demo_reachable. Defined.

Lemma fifo_linearizable_witness :
  pushed demo_state = [7; 8] /\ in_flight (pcs demo_state 1) = [7] /\
  exists h ls xs,
    lseg (nodes demo_state) h ls xs (tail demo_state) /\
    pushed demo_state = (popped demo_state).*2 ++ xs /\
    (head demo_state = Some h \/ exists i, pcs demo_state i = PMoved h) /\
    forall i, by_thread i (results demo_state) ++ in_flight (pcs demo_state i) =
      by_thread i (popped demo_state).
Proof. split; [done|]. split; [done|]. apply fifo_linearizable. apply demo_reachable. Defined.

(** thread 1 asks an empty queue for an element, and is about to return none *)
Definition none_state : shared Z :=
  default init (schedule ([Call 1 PStart] ++ replicate 4 (Act 1)) init).
(** thread 1 asks it whether it is empty *)
Definition empty_state : shared Z :=
  default init (schedule ([Call 1 EStart] ++ replicate 4 (Act 1)) init).

Lemma empty_reachable : reachable none_state /\ reachable empty_state.
Proof.
  split; [eapply (schedule_reachable ([Call 1 PStart] ++ replicate 4 (Act 1)))|
          eapply (schedule_reachable ([Call 1 EStart] ++ replicate 4 (Act 1)))];
    unfold none_state, empty_state; by destruct (schedule _ _) eqn:Hs.
Qed.

Lemma empty_answers_witness :
  (exists e, pcs none_state 1 = PNone e /\ e = true) /\
  (exists b e, pcs empty_state 1 = EDone b e /\ b = e).
Proof.
  split.
  - eexists. split; [vm_compute; reflexivity|].
    apply (proj1 (empty_answers none_state 1 (proj1 empty_reachable))). vm_compute. reflexivity.
  - eexists _, _. split; [vm_compute; reflexivity|].
    apply (proj2 (empty_answers empty_state 1 (proj2 empty_reachable))). vm_compute. reflexivity.
Defined.

(** thread 2 waits for thread 1, and another thread acts *)
Lemma progress_witness :
  cstep 2 demo_state = Blocked /\
  cstep 2 demo_state <> UB /\
  (forall s', cstep 2 demo_state = Acted s' ->
     (remaining (pcs s' 2%nat) < remaining (pcs demo_state 2))%nat /\
     forall j, j <> 2%nat -> pcs s' j = pcs demo_state j) /\
  (cstep 2 demo_state = Blocked -> pcs demo_state 2 <> Idle ->
     exists j, j <> 2%nat /\ (head_mutex demo_state = Some j \/ tail_mutex demo_state = Some j)) /\
  (pcs demo_state 2 <> Idle -> exists j s', cstep j demo_state = Acted s').
Proof. split; [done|]. apply progress. apply demo_reachable. Defined.

End Conc.
