(* ===== verification/Stream.v ===== *)
(** * [DataSource] (datafactory.h) and the [std::fstream] it wraps

    A file stream as far as the program uses one: binary [read] and [write]
    in sequence, [gcount], [tellg], [tellp], [flush] and the fail state.  A
    stream is opened either for input or for output and never seeks, so one
    position is enough.  The write errors of a file that is open (a full
    disk) are not modelled; a stream that could not be opened is in the fail
    state from the start. *)

From S2P Require Import Prelude Wire.

(** ** [std::fstream] *)

Record fstream := mkStream {
  content : list byte;      (* the bytes of the file *)
  pos : nat;                (* the file position *)
  gcount : Z;               (* characters the last unformatted input took *)
  failed : bool             (* failbit or badbit is set *)
}.

#[export] Instance upd_content : Update content := fun g s =>
  mkStream (g (content s)) (pos s) (gcount s) (failed s).
#[global] Arguments upd_content _ _ /.
#[export] Instance upd_pos : Update pos := fun g s =>
  mkStream (content s) (g (pos s)) (gcount s) (failed s).
#[global] Arguments upd_pos _ _ /.
#[export] Instance upd_gcount : Update gcount := fun g s =>
  mkStream (content s) (pos s) (g (gcount s)) (failed s).
#[global] Arguments upd_gcount _ _ /.
#[export] Instance upd_failed : Update failed := fun g s =>
  mkStream (content s) (pos s) (gcount s) (g (failed s)).
#[global] Arguments upd_failed _ _ /.

(** [fs.read(buf, n)]: the characters stored to [buf], and the stream.  On a
    stream in the fail state nothing is extracted; a short read sets the fail
    state. *)
Definition fs_read (n : Z) (s : fstream) : list byte * fstream :=
  if failed s then ([], s <| gcount := 0 |>)
  else
    let bs := take (Z.to_nat n) (drop (pos s) (content s)) in
    (bs, s <| pos ::= fun p => (p + length bs)%nat |>
           <| gcount := Z.of_nat (length bs) |>
           <| failed := bool_decide (Z.of_nat (length bs) < n) |>).

(** [fs.write(buf, n)] of [n = length bs] characters, at the position *)
Definition fs_write (bs : list byte) (s : fstream) : fstream :=
  if failed s then s
  else
    s <| content := take (pos s) (content s) ++ bs ++ drop (pos s + length bs) (content s) |>
      <| pos ::= fun p => (p + length bs)%nat |>.

(** [fs.tellg()], [fs.tellp()] *)
Definition fs_tell (s : fstream) : Z := if failed s then -1 else Z.of_nat (pos s).

(** the state of a stream that opened the file [bs] *)
Definition fs_opened (bs : list byte) : fstream := mkStream bs 0 0 false.
Definition fs_unopened : fstream := mkStream [] 0 0 true.

(** ** [DataSource] *)

Record DataSource := mkSource {
  fmode : sourceMode;
  fs : fstream;
  fileSize : Z
}.

#[export] Instance upd_fs : Update fs := fun g d => mkSource (fmode d) (g (fs d)) (fileSize d).
#[global] Arguments upd_fs _ _ /.

(** [DataSource(fname, mode)].  [opened] is the content of the file when the
    stream can be opened, [size] is the answer of [std::filesystem::file_size],
    which throws ([None] here) when there is no such regular file.  A file that is
    there and cannot be read has a size and a stream in the fail state.
    [std::fstream] with [out | binary] truncates. *)
Definition DataSource_new (opened : option (list byte)) (size : option Z) (mode : sourceMode)
    : option DataSource :=
  match mode with
  | IN =>
      fileSize ← size;
      Some (mkSource IN (match opened with Some bs => fs_opened bs | None => fs_unopened end) (u64 fileSize))
  | OUT => Some (mkSource OUT (match opened with Some _ => fs_opened [] | None => fs_unopened end) 0)
  end.

Definition getoutPos (d : DataSource) : Z := i32 (fs_tell (fs d)).
Definition getinPos (d : DataSource) : Z := i32 (fs_tell (fs d)).

(** [DataFactory::getAmountRead] *)
Definition getAmountRead (amtBefore amtAfter : Z) : Z := i32 (amtAfter - amtBefore).

(** [DataFactory::readStream(data, buff, size2Read)]: the characters stored to
    [buff], the result and the source *)
Definition readStream (data : DataSource) (size2Read : Z) : list byte * Z * DataSource :=
  let gcBefore := i32 (gcount (fs data)) in
  let '(bs, fs') := fs_read size2Read (fs data) in
  let gcAfter := i32 (gcount fs' + gcBefore) in
  (bs, getAmountRead gcBefore gcAfter, data <| fs := fs' |>).

(** [DataFactory::writeStream(data, buff, size2Write)] with
    [buff] = [size2Write] characters *)
Definition writeStream (data : DataSource) (buff : list byte) : Z * DataSource :=
  let gcBefore := i32 (fs_tell (fs data)) in
  let fs' := fs_write buff (fs data) in
  let gcAfter := i32 (fs_tell fs') in
  let gcAfter := if fs_tell fs' <? 0 then i32 (u64 (fileSize data - 1)) else gcAfter in
  (getAmountRead gcBefore gcAfter, data <| fs := fs' |>).

(** ** Lemmas *)

Lemma i32_sub_add a b : i32 (i32 (a + i32 b) - i32 b) = i32 a.
Proof.
  unfold Z.sub at 1. rewrite i32_add_l. f_equal. lia.
Qed.

Lemma i32_sub_r a b : i32 (a - i32 b) = i32 (a - b).
Proof.
  unfold i32. apply (f_equal (fun z => z - 2 ^ 31)).
  replace (a - ((b + 2 ^ 31) mod 2 ^ 32 - 2 ^ 31) + 2 ^ 31)
    with (a + 2 ^ 31 + 2 ^ 31 - (b + 2 ^ 31) mod 2 ^ 32) by lia.
  rewrite Zminus_mod_idemp_r. f_equal. lia.
Qed.

(** the subtraction of the earlier [gcount] cancels: the result of
    [readStream] is the number of characters this read stored *)
Lemma readStream_spec data n bs r data' :
  0 <= n < 2 ^ 31 -> readStream data n = (bs, r, data') ->
  r = Z.of_nat (length bs) /\ fmode data' = fmode data /\ fileSize data' = fileSize data /\
  fs_read n (fs data) = (bs, fs data').
Proof.
  intros Hn. unfold readStream, getAmountRead.
  destruct (fs_read n (fs data)) as [bs0 fs'] eqn:Hr. intros [= <- <- <-].
  rewrite i32_sub_add. repeat split. revert Hr. unfold fs_read.
  destruct (failed (fs data)); intros [= <- <-]; cbn; [done|].
  rewrite length_take, length_drop. apply i32_small. lia.
Qed.

(** on a stream that is good, [readStream] returns the next bytes *)
Lemma readStream_good data n :
  0 <= n < 2 ^ 31 -> failed (fs data) = false ->
  let bs := take (Z.to_nat n) (drop (pos (fs data)) (content (fs data))) in
  readStream data n =
    (bs, Z.of_nat (length bs),
     data <| fs := mkStream (content (fs data)) (pos (fs data) + length bs)
                     (Z.of_nat (length bs)) (bool_decide (Z.of_nat (length bs) < n)) |>).
Proof.
  intros Hn Hf bs. destruct (readStream data n) as [[bs0 r] data'] eqn:Hr.
  destruct (readStream_spec _ _ _ _ _ Hn Hr) as (-> & Hm & Hz & Hfs).
  unfold fs_read in Hfs. rewrite Hf in Hfs. injection Hfs as <- Hfs.
  f_equal. destruct data', data; cbn in *. by subst.
Qed.

(** the two positions may be beyond an [int]: their difference is what was written *)
Lemma writeStream_good data bs :
  failed (fs data) = false -> Z.of_nat (length bs) < 2 ^ 31 ->
  pos (fs data) = length (content (fs data)) ->
  writeStream data bs =
    (Z.of_nat (length bs),
     data <| fs := mkStream (content (fs data) ++ bs) (pos (fs data) + length bs)
                     (gcount (fs data)) false |>).
Proof.
  intros Hf Hlt Hp. unfold writeStream, fs_write, fs_tell, getAmountRead.
  rewrite Hf; cbn. rewrite Hf. destruct (Z.ltb_spec (Z.of_nat (pos (fs data) + length bs)) 0); [lia|].
  rewrite i32_sub_r. unfold Z.sub. rewrite i32_add_l, i32_small by lia. f_equal; [lia|].
  unfold upd, upd_fs. cbn. f_equal. f_equal.
  rewrite Hp, firstn_all. rewrite drop_ge by lia.
  cbn. by rewrite ?Hp, ?Hf, app_nil_r.
Qed.

(** writing to a sink that did not open changes nothing and reports 0 *)
Lemma writeStream_failed data bs :
  failed (fs data) = true -> fileSize data = 0 -> writeStream data bs = (0, data).
Proof.
  intros Hf Hz. unfold writeStream, fs_write, fs_tell. rewrite Hf, Hf, Hz. cbn.
  by destruct data.
Qed.
