(* ===== verification/Program.v ===== *)
(** * Programs that exchange datagrams

    The code is sequential C++ over global state with two blocking system
    calls, [sendto] and [recvfrom].  [prog S A] is such a program: it ends
    with a value and a final state, stops in a system call with a continuation
    for each result, exits the process, or reaches undefined behaviour.
    [M S] is the state monad over it in which the methods are written.
    [step] gives the programs a small-step semantics, labelled with the
    datagrams that go out and come in; [runs] is its closure. *)

From S2P Require Import Prelude.

(** what goes wrong: undefined behaviour, and a loop that nothing can end *)
Inductive fault :=
| NullDeref | UseAfterFree | OutOfBounds | DivByZero | Uninitialised
| BadQueue | NegativeCount | Overflow | Spin.

#[export] Instance fault_eq_dec : EqDecision fault.
Proof. solve_decision. Defined.

(** results of code that makes no system call *)
Inductive res (A : Type) :=
| Done (a : A)
| Exits (code : Z)
| Undef (f : fault).
Arguments Done {A} _.
Arguments Exits {A} _.
Arguments Undef {A} _.

#[export] Instance res_ret : MRet res := @Done.
#[export] Instance res_bind : MBind res := fun A B f m =>
  match m with Done a => f a | Exits c => Exits c | Undef e => Undef e end.

(** [orelse f o]: the value of [o], which must be there *)
Definition orelse {A} (f : fault) (o : option A) : res A :=
  match o with Some a => Done a | None => Undef f end.

(** an IPv4 socket address, as far as the program reads one *)
Record sockaddr := mkAddr { sin_port : Z; s_addr : Z }.

#[export] Instance sockaddr_eq_dec : EqDecision sockaddr.
Proof. solve_decision. Defined.

(** an [int] product, which has no value when it is out of range *)
Definition int_mul (a b : Z) : res Z :=
  if decide (- 2 ^ 31 <= a * b < 2 ^ 31) then Done (a * b) else Undef Overflow.

(** what [recvfrom] delivers: the datagram before truncation, or -1 *)
Inductive recv_result :=
| RecvErr
| RecvOk (src : sockaddr) (dgram : list byte).

Inductive prog (S A : Type) :=
| Ret (a : A) (s : S)
| Sendto (dst : sockaddr) (bs : list byte) (k : Z -> prog S A)
| Recvfrom (k : recv_result -> prog S A)
| Exit (code : Z) (s : S)
| Fault (f : fault)
| OutOfFuel (s : S).
Arguments Ret {S A} _ _.
Arguments Sendto {S A} _ _ _.
Arguments Recvfrom {S A} _.
Arguments Exit {S A} _ _.
Arguments Fault {S A} _.
Arguments OutOfFuel {S A} _.

Fixpoint pbind {S A B} (p : prog S A) (f : A -> S -> prog S B) : prog S B :=
  match p with
  | Ret a s => f a s
  | Sendto dst bs k => Sendto dst bs (fun r => pbind (k r) f)
  | Recvfrom k => Recvfrom (fun r => pbind (k r) f)
  | Exit c s => Exit c s
  | Fault e => Fault e
  | OutOfFuel s => OutOfFuel s
  end.

Definition M (S A : Type) : Type := S -> prog S A.

#[export] Instance M_ret {S} : MRet (M S) := fun A a s => Ret a s.
#[export] Instance M_bind {S} : MBind (M S) := fun A B f m s => pbind (m s) f.

Section Operations.
Context {S : Type}.

Definition get : M S S := fun s => Ret s s.
Definition gets {A} (f : S -> A) : M S A := fun s => Ret (f s) s.
Definition modify (f : S -> S) : M S unit := fun s => Ret tt (f s).
Definition exit_ {A} (code : Z) : M S A := fun s => Exit code s.
Definition fail {A} (f : fault) : M S A := fun _ => Fault f.
Definition out_of_fuel {A} : M S A := fun s => OutOfFuel s.
Definition sendto (dst : sockaddr) (bs : list byte) : M S Z :=
  fun s => Sendto dst bs (fun r => Ret r s).
Definition recvfrom : M S recv_result := fun s => Recvfrom (fun r => Ret r s).

(** code without system calls *)
Definition lift {A} (r : res A) : M S A := fun s =>
  match r with Done a => Ret a s | Exits c => Exit c s | Undef e => Fault e end.

End Operations.

(** ** Semantics *)

Inductive io :=
| Out (dst : sockaddr) (bs : list byte) (r : Z)
| In_ (r : recv_result).

Section Semantics.
Context {S A : Type}.
Implicit Types p : prog S A.

Inductive step : prog S A -> io -> prog S A -> Prop :=
| step_send dst bs k r : step (Sendto dst bs k) (Out dst bs r) (k r)
| step_recv k r : step (Recvfrom k) (In_ r) (k r).

Inductive runs : prog S A -> list io -> prog S A -> Prop :=
| runs_refl p : runs p [] p
| runs_step p l p' tr p'' : step p l p' -> runs p' tr p'' -> runs p (l :: tr) p''.

(** no further step *)
Definition final p : bool :=
  match p with Sendto _ _ _ | Recvfrom _ => false | _ => true end.

Lemma runs_one p l p' : step p l p' -> runs p [l] p'.
Proof. intros. econstructor; [done|constructor]. Qed.

Lemma runs_app p1 tr1 p2 tr2 p3 : runs p1 tr1 p2 -> runs p2 tr2 p3 -> runs p1 (tr1 ++ tr2) p3.
Proof. induction 1; [done|]. intros. cbn. econstructor; eauto. Qed.

(** a program is deterministic: the results of its system calls decide it *)
Lemma step_det p l p1 p2 : step p l p1 -> step p l p2 -> p1 = p2.
Proof. intros H1 H2. destruct H1; by inversion H2. Qed.

Lemma runs_det p tr p1 p2 : runs p tr p1 -> runs p tr p2 -> p1 = p2.
Proof.
  intros H. revert p2. induction H as [|p l p' tr p'' Hs Hr IH]; intros p2 H2.
  - by inversion H2.
  - inversion H2 as [|? ? ? ? ? Hs' Hr']; subst.
    rewrite (step_det _ _ _ _ Hs Hs') in *. by apply IH.
Qed.

Lemma step_final p l p' : step p l p' -> final p = false.
Proof. by destruct 1. Qed.

End Semantics.

Lemma step_bind {S A B} (p p' : prog S A) l (f : A -> S -> prog S B) :
  step p l p' -> step (pbind p f) l (pbind p' f).
Proof. destruct 1; cbn; constructor. Qed.

Lemma runs_bind {S A B} (p p' : prog S A) tr (f : A -> S -> prog S B) :
  runs p tr p' -> runs (pbind p f) tr (pbind p' f).
Proof. induction 1; [constructor|]. econstructor; [by apply step_bind|done]. Qed.

(** a sequence that returns: both parts do *)
Lemma runs_bind_inv {S A B} (p : prog S A) (f : A -> S -> prog S B) tr b s' :
  runs (pbind p f) tr (Ret b s') ->
  exists tr1 tr2 a s1, tr = tr1 ++ tr2 /\ runs p tr1 (Ret a s1) /\ runs (f a s1) tr2 (Ret b s').
Proof.
  revert tr. induction p as [a s|dst bs k IH|k IH|c s|e|s]; intros tr Hr; cbn [pbind] in Hr.
  - exists [], tr, a, s. by split; [|split; [constructor|]].
  - inversion Hr as [|? l p1 tr' ? Hs Hr']; subst. inversion Hs; subst.
    destruct (IH _ _ Hr') as (tr1 & tr2 & a & s1 & -> & H1 & H2).
    eexists (_ :: tr1), tr2, a, s1. split; [done|]. split; [|done]. econstructor; [constructor|done].
  - inversion Hr as [|? l p1 tr' ? Hs Hr']; subst. inversion Hs; subst.
    destruct (IH _ _ Hr') as (tr1 & tr2 & a & s1 & -> & H1 & H2).
    eexists (_ :: tr1), tr2, a, s1. split; [done|]. split; [|done]. econstructor; [constructor|done].
  - inversion Hr as [|? l p1 tr' ? Hs Hr']; subst. inversion Hs.
  - inversion Hr as [|? l p1 tr' ? Hs Hr']; subst. inversion Hs.
  - inversion Hr as [|? l p1 tr' ? Hs Hr']; subst. inversion Hs.
Qed.

(** run [m] to its end, then the rest *)
Lemma runs_seq {S A B} (m : M S A) (f : A -> M S B) s a s' tr1 tr2 p :
  runs (m s) tr1 (Ret a s') -> runs (f a s') tr2 p -> runs ((m ≫= f) s) (tr1 ++ tr2) p.
Proof.
  intros H1 H2. eapply runs_app; [|exact H2]. apply (runs_bind _ _ _ f) in H1. done.
Qed.

(** the same when [m] makes no system call *)
Lemma runs_pure {S A B} (m : M S A) (f : A -> M S B) s a s' tr p :
  m s = Ret a s' -> runs (f a s') tr p -> runs ((m ≫= f) s) tr p.
Proof. intros H1 H2. unfold mbind, M_bind. by rewrite H1. Qed.

Lemma runs_sendto {S B} dst bs r (f : Z -> M S B) s tr p :
  runs (f r s) tr p -> runs ((sendto dst bs ≫= f) s) (Out dst bs r :: tr) p.
Proof. intros. cbn. econstructor; [constructor|done]. Qed.

Lemma runs_recvfrom {S B} r (f : recv_result -> M S B) s tr p :
  runs (f r s) tr p -> runs ((recvfrom ≫= f) s) (In_ r :: tr) p.
Proof. intros. cbn. econstructor; [constructor|done]. Qed.

#[export] Hint Constructors step runs : udm.

(** run a program with complete sends, and the given results of [recvfrom] *)
Fixpoint feed {S A} (p : prog S A) (rs : list recv_result) {struct p} : list io * prog S A :=
  match p with
  | Sendto dst bs k =>
      let '(tr, p') := feed (k (Z.of_nat (length bs))) rs in
      (Out dst bs (Z.of_nat (length bs)) :: tr, p')
  | Recvfrom k =>
      match rs with
      | [] => ([], p)
      | r :: rs => let '(tr, p') := feed (k r) rs in (In_ r :: tr, p')
      end
  | _ => ([], p)
  end.

Lemma feed_runs {S A} (p : prog S A) rs : runs p (feed p rs).1 (feed p rs).2.
Proof.
  revert rs. induction p as [a s|dst bs k IH|k IH|c s|e|s]; intros rs; cbn; try constructor.
  - specialize (IH (Z.of_nat (length bs)) rs). destruct (feed _ rs) as [tr p'].
    econstructor; [constructor|exact IH].
  - destruct rs as [|r rs]; [constructor|]. specialize (IH r rs). destruct (feed _ rs) as [tr p'].
    econstructor; [constructor|exact IH].
Qed.

(** ** Every behaviour

    [ends P p]: whatever its system calls return, [p] can only end in a way that
    [P] admits. *)

Section Ends.
Context {S : Type}.

Fixpoint ends {A} (P : prog S A -> Prop) (p : prog S A) : Prop :=
  match p with
  | Sendto _ _ k => forall r, ends P (k r)
  | Recvfrom k => forall r, ends P (k r)
  | _ => P p
  end.

(** the same with the step relation *)
Lemma ends_runs {A} (P : prog S A -> Prop) p :
  ends P p <-> forall tr p', runs p tr p' -> final p' = true -> P p'.
Proof.
  split.
  - intros He tr p' Hr. induction Hr as [p|p l p1 tr p2 Hs Hr IH]; intros Hf.
    + destruct p; done.
    + apply IH; [|done]. destruct Hs; apply He.
  - induction p as [a s|dst bs k IH|k IH|c s|e|s]; intros Hall; cbn;
      try (eapply Hall; [constructor|done]).
    + intros r. apply IH. intros tr p' Hr. eapply Hall. by econstructor; [constructor|].
    + intros r. apply IH. intros tr p' Hr. eapply Hall. by econstructor; [constructor|].
Qed.

(** it ends by itself with [R], by [exit], or in undefined behaviour: fuel is
    never short *)
Definition post {A} (R : A -> S -> Prop) (p : prog S A) : Prop :=
  match p with Ret a s => R a s | OutOfFuel _ => False | _ => True end.

Definition triple {A} (P : S -> Prop) (m : M S A) (R : A -> S -> Prop) : Prop :=
  forall s, P s -> ends (post R) (m s).

(** [m] preserves [I] *)
Definition keeps {A} (I : S -> Prop) (m : M S A) : Prop := triple I m (fun _ => I).

(** what a triple says of a run that returns *)
Lemma triple_runs {A} P (m : M S A) R s tr a s' :
  triple P m R -> P s -> runs (m s) tr (Ret a s') -> R a s'.
Proof. intros Hm Hs Hr. by apply (proj1 (ends_runs _ _) (Hm s Hs) tr (Ret a s') Hr). Qed.

Lemma ends_bind {A B} (p : prog S A) (f : A -> S -> prog S B) (R : A -> S -> Prop) (R' : B -> S -> Prop) :
  ends (post R) p -> (forall a s, R a s -> ends (post R') (f a s)) -> ends (post R') (pbind p f).
Proof. intros Hp Hf. induction p; cbn in *; auto. Qed.

Lemma triple_bind {A B} P (m : M S A) (f : A -> M S B) R R' :
  triple P m R -> (forall a, triple (R a) (f a) R') -> triple P (m ≫= f) R'.
Proof. intros Hm Hf s Hs. eapply ends_bind; [by apply Hm|]. intros a s'. apply Hf. Qed.

(** run code that preserves the precondition, then the rest *)
Lemma triple_keeps {A B} P (m : M S A) (f : A -> M S B) R :
  keeps P m -> (forall a, triple P (f a) R) -> triple P (m ≫= f) R.
Proof. apply triple_bind. Qed.

Lemma triple_weaken {A} (P P' : S -> Prop) (m : M S A) (R R' : A -> S -> Prop) :
  triple P m R -> (forall s, P' s -> P s) -> (forall a s, R a s -> R' a s) -> triple P' m R'.
Proof.
  intros Hm HP HR s Hs. specialize (Hm s (HP s Hs)). revert Hm. generalize (m s).
  intros p Hp. induction p; cbn in *; auto.
Qed.

Variable I : S -> Prop.

Lemma keeps_bind {A B} (m : M S A) (f : A -> M S B) :
  keeps I m -> (forall a, keeps I (f a)) -> keeps I (m ≫= f).
Proof. apply triple_bind. Qed.
Lemma keeps_ret {A} (a : A) : keeps I (mret a).
Proof. by intros s. Qed.
Lemma keeps_gets {A} (f : S -> A) : keeps I (gets f).
Proof. by intros s. Qed.
Lemma keeps_modify (f : S -> S) : (forall s, I s -> I (f s)) -> keeps I (modify f).
Proof. intros Hf s Hs. by apply Hf. Qed.
Lemma keeps_lift {A} (r : res A) : keeps I (lift r).
Proof. intros s Hs. by destruct r. Qed.
Lemma keeps_sendto dst bs : keeps I (sendto dst bs).
Proof. by intros s Hs r. Qed.
Lemma keeps_recvfrom : keeps I recvfrom.
Proof. by intros s Hs r. Qed.
Lemma keeps_exit {A} c : keeps I (exit_ (A:=A) c).
Proof. by intros s. Qed.
Lemma keeps_fail {A} e : keeps I (fail (A:=A) e).
Proof. by intros s. Qed.

End Ends.

Create HintDb keeps discriminated.
#[export] Hint Resolve keeps_ret keeps_gets keeps_lift keeps_sendto keeps_recvfrom keeps_exit
  keeps_fail : keeps.

(** walk through a program: binds, choices, and what the hint database knows *)
Ltac keeps_step :=
  first
    [ solve [auto 2 with keeps nocore]
    | apply keeps_bind; [|intros ?]
    | apply keeps_modify; intros ? Hkeep; exact Hkeep
    | case_match ].
Ltac keeps := repeat keeps_step.

(** ** Dialogues

    What two processes say to each other over a network that works: [Mine bs]
    is a datagram this process sends, [Theirs bs] one it receives.  [plays p D p']:
    with every [sendto] complete and every datagram sent to an address at which the
    other process receives, [p] can take part in the dialogue [D] and is then [p']. *)

(** the process at the other end: the source address of its datagrams, and the
    destinations whose datagrams its socket receives *)
Record remote := mkRemote {
  from : sockaddr;
  reached : sockaddr -> bool;
  from_reached : reached from = true
}.

Inductive msg := Mine (bs : list byte) | Theirs (bs : list byte).

Inductive plays {S A} (peer : remote) : prog S A -> list msg -> prog S A -> Prop :=
| plays_nil p : plays peer p [] p
| plays_send dst bs k D p' :
    reached peer dst = true ->
    plays peer (k (Z.of_nat (length bs))) D p' ->
    plays peer (Sendto dst bs k) (Mine bs :: D) p'
| plays_recv k bs D p' :
    plays peer (k (RecvOk (from peer) bs)) D p' ->
    plays peer (Recvfrom k) (Theirs bs :: D) p'.

Lemma plays_app {S A} peer (p1 p2 p3 : prog S A) D1 D2 :
  plays peer p1 D1 p2 -> plays peer p2 D2 p3 -> plays peer p1 (D1 ++ D2) p3.
Proof. induction 1; intros; cbn; [done|constructor; auto..]. Qed.

Lemma plays_bind {S A B} peer (p p' : prog S A) D (f : A -> S -> prog S B) :
  plays peer p D p' -> plays peer (pbind p f) D (pbind p' f).
Proof. induction 1; cbn; constructor; done. Qed.

(** [m], started in [s], takes part in [D], returns [a] and leaves [s'] *)
Definition exec {S A} peer (m : M S A) (s : S) (D : list msg) (a : A) (s' : S) : Prop :=
  plays peer (m s) D (Ret a s').

(** the same dialogue, as the peer takes part in it *)
Definition dual_msg (m : msg) : msg :=
  match m with Mine bs => Theirs bs | Theirs bs => Mine bs end.
Definition dual (D : list msg) : list msg := dual_msg <$> D.

Lemma dual_app D1 D2 : dual (D1 ++ D2) = dual D1 ++ dual D2.
Proof. apply fmap_app. Qed.

Section Exec.
Context {S : Type}.
Implicit Types s : S.

Lemma exec_ret {A} peer (a : A) s : exec peer (mret a) s [] a s.
Proof. constructor. Qed.

Lemma exec_eq {A} peer (m : M S A) s a s' : m s = Ret a s' -> exec peer m s [] a s'.
Proof. intros H. unfold exec. rewrite H. constructor. Qed.

Lemma exec_bind {A B} peer (m : M S A) (f : A -> M S B) s D1 a s1 D2 b s2 :
  exec peer m s D1 a s1 -> exec peer (f a) s1 D2 b s2 ->
  exec peer (m ≫= f) s (D1 ++ D2) b s2.
Proof.
  intros H1 H2. eapply plays_app; [|exact H2]. apply (plays_bind _ _ _ _ f) in H1. done.
Qed.

Lemma exec_bind0 {A B} peer (m : M S A) (f : A -> M S B) s a s1 D b s2 :
  exec peer m s [] a s1 -> exec peer (f a) s1 D b s2 -> exec peer (m ≫= f) s D b s2.
Proof. intros H1 H2. by apply (exec_bind _ _ _ _ [] a s1). Qed.

(** the rest does not speak *)
Lemma exec_bind1 {A B} peer (m : M S A) (f : A -> M S B) s a s1 D b s2 :
  exec peer m s D a s1 -> exec peer (f a) s1 [] b s2 -> exec peer (m ≫= f) s D b s2.
Proof. intros H1 H2. rewrite <- (app_nil_r D). by eapply exec_bind. Qed.

Lemma exec_pure {A B} peer (m : M S A) (f : A -> M S B) s a s1 D b s2 :
  m s = Ret a s1 -> exec peer (f a) s1 D b s2 -> exec peer (m ≫= f) s D b s2.
Proof. intros H1. apply exec_bind0. by apply exec_eq. Qed.

Lemma exec_lift {A B} peer (r : res A) (f : A -> M S B) s a D b s2 :
  r = Done a -> exec peer (f a) s D b s2 -> exec peer (lift r ≫= f) s D b s2.
Proof. intros ->. by apply exec_pure. Qed.

Lemma exec_sendto {B} peer dst bs (f : Z -> M S B) s D b s2 :
  reached peer dst = true ->
  exec peer (f (Z.of_nat (length bs))) s D b s2 ->
  exec peer (sendto dst bs ≫= f) s (Mine bs :: D) b s2.
Proof. intros. by constructor. Qed.

Lemma exec_recvfrom {B} peer bs (f : recv_result -> M S B) s D b s2 :
  exec peer (f (RecvOk (from peer) bs)) s D b s2 ->
  exec peer (recvfrom ≫= f) s (Theirs bs :: D) b s2.
Proof. intros. by constructor. Qed.

End Exec.

(** pass over [gets], [modify] and [mret] *)
Ltac ex_pure := eapply exec_pure; [reflexivity|]; cbv beta iota.
(** pass over code without system calls whose result a lemma or hypothesis gives *)
Ltac ex_lift H := eapply exec_lift; [eapply H|]; cbv beta iota.

(** expose the program behind the operations of the monad *)
Ltac m_unfold :=
  unfold gets, modify, mret, M_ret, mbind, M_bind; cbn [pbind lift].
