(* ===== verification/Platform.v ===== *)
(** * The platform

    Three things the program does have no meaning in C++ and a harmless one with
    most compilers and allocators: it writes the null byte of a string one past
    the block it asked for, it copies more bytes than a socket address has, and it
    calls a member function with an empty body through a null pointer.
    [Platform] says what happens then. *)

From S2P Require Import Prelude.

(** [usable n] is the size of the block that an allocation of [n] bytes returns
    (what [malloc_usable_size] reports), at least [n]; [over_read] tells whether the
    bytes behind the address that [getaddrinfo] returns can be read;
    [null_member] whether a member function that does not touch its object runs on
    a null pointer *)
Class Platform := {
  usable : nat -> nat;
  usable_ge n : (n <= usable n)%nat;
  over_read : bool;
  null_member : bool
}.

(** the platform of the C++ standard: nothing beyond a block is the program's, and
    a call through a null pointer is undefined *)
Definition strict_platform : Platform.
Proof. refine {| usable n := n; over_read := false; null_member := false |}. done. Defined.

(** an allocator that rounds a block and its header of 8 bytes up to a multiple of
    16, with at least 24 usable bytes *)
Definition rounded (n : nat) : nat := Nat.max 24 ((n + 23) / 16 * 16 - 8).

Lemma rounded_ge n : (n <= rounded n)%nat.
Proof.
  unfold rounded. pose proof (Nat.div_mod_eq (n + 23) 16).
  pose proof (Nat.mod_upper_bound (n + 23) 16). lia.
Qed.

Definition rounding_platform : Platform := {|
  usable := rounded; usable_ge := rounded_ge; over_read := true; null_member := true
|}.

(** its blocks have room for one byte more, unless the size asked for is already
    one of the sizes it hands out *)
Lemma rounded_room n : (n < rounded n)%nat <-> (n < 24 \/ n mod 16 <> 8)%nat.
Proof.
  unfold rounded. pose proof (Nat.div_mod_eq (n + 23) 16). pose proof (Nat.div_mod_eq n 16).
  pose proof (Nat.mod_upper_bound (n + 23) 16). pose proof (Nat.mod_upper_bound n 16). lia.
Qed.
