(* ===== verification/Factory.v ===== *)
(** * Capsule buffers and [DataFactory] (datafactory.h)

    [memBuff]s live on the heap and are shared by pointer: the queue of a
    factory owns them, the states and the receive window point into them.
    [store] is that heap: a pointer to a buffer that has been freed is not
    bound in [bufs].  A capsule's [body] is a pointer into a [malloc]ed block
    of its own; [cbuf] is the block and the pointer's offset in it, and every
    access is checked against the block.  The methods are functions from the
    factory and the store to their result. *)

From S2P Require Import Prelude Wire Queue Stream Program Platform.

(** ** Bodies, capsules, buffers *)

Record cbuf := mkBuf { blk : list byte; boff : nat }.

(** the null pointer: no byte can be accessed *)
Definition cbuf_null : cbuf := mkBuf [] 0.

(** [memcpy(body + p, bs, length bs)], [length] bytes read at [body] *)
Definition buf_write (b : cbuf) (p : nat) (bs : list byte) : res cbuf :=
  blk' ← orelse OutOfBounds (splice (blk b) (boff b + p) bs); Done (mkBuf blk' (boff b)).
Definition buf_read (b : cbuf) (n : nat) : res (list byte) :=
  orelse OutOfBounds (slice (blk b) (boff b) n).

Record capsule := mkCapsule { header : capsuleHdr; body : cbuf }.

#[export] Instance upd_header : Update header := fun g c => mkCapsule (g (header c)) (body c).
#[global] Arguments upd_header _ _ /.
#[export] Instance upd_body : Update body := fun g c => mkCapsule (header c) (g (body c)).
#[global] Arguments upd_body _ _ /.

(** [size] is not initialised by the code that creates a buffer; [data] is the
    [unique_ptr] *)
Record memBuff := mkMemBuff { mb_size : option Z; mb_data : option capsule }.

#[export] Instance upd_mb_size : Update mb_size := fun g b => mkMemBuff (g (mb_size b)) (mb_data b).
#[global] Arguments upd_mb_size _ _ /.
#[export] Instance upd_mb_data : Update mb_data := fun g b => mkMemBuff (mb_size b) (g (mb_data b)).
#[global] Arguments upd_mb_data _ _ /.

(** ** The heap *)

Abbreviation ptr := nat (only parsing).

(** [hdrid] is the static counter of [prepareMemBuff]; [mallocs] counts the
    blocks allocated so far *)
Record store := mkStore {
  bufs : gmap nat memBuff;
  next_ptr : nat;
  mallocs : nat;
  hdrid : Z
}.

Definition store_empty : store := mkStore ∅ 0 0 0.

#[export] Instance upd_bufs : Update bufs := fun g s =>
  mkStore (g (bufs s)) (next_ptr s) (mallocs s) (hdrid s).
#[global] Arguments upd_bufs _ _ /.
#[export] Instance upd_mallocs : Update mallocs := fun g s =>
  mkStore (bufs s) (next_ptr s) (g (mallocs s)) (hdrid s).
#[global] Arguments upd_mallocs _ _ /.
#[export] Instance upd_hdrid : Update hdrid := fun g s =>
  mkStore (bufs s) (next_ptr s) (mallocs s) (g (hdrid s)).
#[global] Arguments upd_hdrid _ _ /.

(** [std::make_shared<memBuff>(std::move(b))] *)
Definition make_shared (b : memBuff) (s : store) : ptr * store :=
  (next_ptr s, mkStore (<[next_ptr s := b]> (bufs s)) (S (next_ptr s)) (mallocs s) (hdrid s)).

(** the last [shared_ptr] to the buffer goes out of scope *)
Definition drop_shared (p : ptr) (s : store) : store := s <| bufs ::= delete p |>.

Definition load (p : ptr) (s : store) : res memBuff := orelse UseAfterFree (bufs s !! p).

(** [p->data->...], the capsule *)
Definition load_capsule (p : ptr) (s : store) : res capsule :=
  b ← load p s; orelse NullDeref (mb_data b).

(** replace the buffer at [p] *)
Definition put (p : ptr) (b : memBuff) (s : store) : store := s <| bufs ::= <[p := b]> |>.

(** replace its capsule *)
Definition put_capsule (p : ptr) (c : capsule) (s : store) : res store :=
  b ← load p s; Done (put p (b <| mb_data := Some c |>) s).

(** ** [DataFactory] *)

Record factory (Q : Type) := mkFactory {
  buffer : Q;
  fin : bool;
  allocSize : Z;
  curSize : Z;
  curPos : Z;
  curWritePos : Z;
  curReadPos : Z;
  fpos : Z;
  chunkSize : Z;
  sourceData : option DataSource
}.
Arguments mkFactory {Q} _ _ _ _ _ _ _ _ _ _.
Arguments buffer {Q} _.
Arguments fin {Q} _.
Arguments allocSize {Q} _.
Arguments curSize {Q} _.
Arguments curPos {Q} _.
Arguments curWritePos {Q} _.
Arguments curReadPos {Q} _.
Arguments fpos {Q} _.
Arguments chunkSize {Q} _.
Arguments sourceData {Q} _.

Section FactoryUpdates.
Context {Q : Type}.
#[export] Instance upd_buffer : Update (@buffer Q) := fun g f =>
  mkFactory (g (buffer f)) (fin f) (allocSize f) (curSize f) (curPos f) (curWritePos f)
    (curReadPos f) (fpos f) (chunkSize f) (sourceData f).
#[export] Instance upd_fin : Update (@fin Q) := fun g f =>
  mkFactory (buffer f) (g (fin f)) (allocSize f) (curSize f) (curPos f) (curWritePos f)
    (curReadPos f) (fpos f) (chunkSize f) (sourceData f).
#[export] Instance upd_curSize : Update (@curSize Q) := fun g f =>
  mkFactory (buffer f) (fin f) (allocSize f) (g (curSize f)) (curPos f) (curWritePos f)
    (curReadPos f) (fpos f) (chunkSize f) (sourceData f).
#[export] Instance upd_curPos : Update (@curPos Q) := fun g f =>
  mkFactory (buffer f) (fin f) (allocSize f) (curSize f) (g (curPos f)) (curWritePos f)
    (curReadPos f) (fpos f) (chunkSize f) (sourceData f).
#[export] Instance upd_curWritePos : Update (@curWritePos Q) := fun g f =>
  mkFactory (buffer f) (fin f) (allocSize f) (curSize f) (curPos f) (g (curWritePos f))
    (curReadPos f) (fpos f) (chunkSize f) (sourceData f).
#[export] Instance upd_chunkSize : Update (@chunkSize Q) := fun g f =>
  mkFactory (buffer f) (fin f) (allocSize f) (curSize f) (curPos f) (curWritePos f)
    (curReadPos f) (fpos f) (g (chunkSize f)) (sourceData f).
#[export] Instance upd_sourceData : Update (@sourceData Q) := fun g f =>
  mkFactory (buffer f) (fin f) (allocSize f) (curSize f) (curPos f) (curWritePos f)
    (curReadPos f) (fpos f) (chunkSize f) (g (sourceData f)).
End FactoryUpdates.
#[global] Arguments upd_buffer {Q} _ _ /.
#[global] Arguments upd_fin {Q} _ _ /.
#[global] Arguments upd_curSize {Q} _ _ /.
#[global] Arguments upd_curPos {Q} _ _ /.
#[global] Arguments upd_curWritePos {Q} _ _ /.
#[global] Arguments upd_chunkSize {Q} _ _ /.
#[global] Arguments upd_sourceData {Q} _ _ /.

Section DataFactory.
Context {Q : Type} `{!Fifo Q ptr} `{!Malloc}.
Implicit Types (f : factory Q) (s : store).

(** [DataFactory(uint siz) : buffer(siz), chunkSize(siz)] *)
Definition DataFactory_new (siz : Z) : factory Q :=
  mkFactory (q_new (i32 siz)) false 0 0 0 0 0 0 (i32 siz) None.

(** [std::shared_ptr<memBuff> fetchChunk()] *)
Definition fetchChunk f : res (ptr * factory Q) :=
  '(chunk, q) ← orelse BadQueue (q_try_pop (buffer f));
  match chunk with
  | Some chunk => Done (chunk, f <| buffer := q |>)
  | None => Exits 1
  end.

(** [prepareMemBuff(capsuleHolder, cap, datautil)] *)
Definition prepareMemBuff (capsuleHolder : memBuff) (cap : capsule) f s : memBuff * store :=
  let buf := mkBuf (malloc (mallocs s) (chunkSize f)) 0 in
  let cap := cap <| header ::= upd capid (fun _ => hdrid s) |> <| body := buf |> in
  (capsuleHolder <| mb_data := Some cap |>,
   s <| mallocs ::= S |> <| hdrid ::= fun h => u32 (h + 1) |>).

(** [memBuff *makeChunkforRx(DataFactory *datafac)] *)
Definition makeChunkforRx f s : res (ptr * factory Q * store) :=
  let chunk := mkMemBuff None None in
  let cap := mkCapsule hdr_zero cbuf_null in
  let '(chunk, s) := prepareMemBuff chunk cap f s in
  let '(p, s) := make_shared chunk s in
  '(tailRef, q) ← orelse BadQueue (q_pushWithRef p (buffer f));
  Done (tailRef, f <| buffer := q |>, s).

(** [_inputFromSource(data, datautil)]; the size handed to [readStream] is a
    [size_t] difference that becomes an [int] parameter *)
Definition _inputFromSource (data : DataSource) f s : res (factory Q * store) :=
  match fmode data with
  | OUT => Done (f, s)
  | IN =>
      if fileSize data <=? u64 (curSize f) then Done (f <| fin := true |>, s)
      else
        let bodylen := u64 (chunkSize f) in
        let block := mkBuf (malloc (mallocs s) bodylen) 0 in
        let s := s <| mallocs ::= S |> in
        let '(bs, readSize, data) := readStream data (i32 (u64 (bodylen - HEADER_SPACE))) in
        block ← buf_write block (Z.to_nat HEADER_SPACE) bs;
        let cap := mkCapsule (hdr_zero <| capSize := readSize |>) block in
        let short := u64 readSize <? u64 (bodylen - HEADER_SPACE) in
        let f := f <| sourceData := Some data |> in
        let f :=
          if short
          then f <| chunkSize := i32 (readSize + HEADER_SPACE) |> <| fin := true |>
          else f in
        let capsuleHolder := mkMemBuff (Some (i32 (readSize + HEADER_SPACE))) (Some cap) in
        let '(p, s) := make_shared capsuleHolder s in
        q ← orelse BadQueue (q_push p (buffer f));
        Done (f <| buffer := q |> <| curSize ::= fun c => i32 (c + readSize) |>, s)
  end.

(** [updateDataSource()], and [initDataSource()], which has the same body *)
Definition updateDataSource f s : res (factory Q * store) :=
  data ← orelse NullDeref (sourceData f); _inputFromSource data f s.
Definition initDataSource f s : res (factory Q * store) :=
  data ← orelse NullDeref (sourceData f); _inputFromSource data f s.

(** [write2Source( *sourceData, buf2Write, amt2Write)]; a negative count is
    outside the contract of [ostream::write] *)
Definition write2Source (c : capsule) (amt2Write : Z) f : res (factory Q) :=
  data ← orelse NullDeref (sourceData f);
  match fmode data with
  | IN => Done f
  | OUT =>
      let size2Write := i32 (u64 (amt2Write - HEADER_SPACE)) in
      if size2Write <? 0 then Undef NegativeCount
      else
        bs ← buf_read (body c) (Z.to_nat size2Write);
        let '(amtWritten, data) := writeStream data bs in
        Done (f <| sourceData := Some data |>
                <| curWritePos ::= fun w => i32 (w + (amtWritten + HEADER_SPACE)) |>)
  end.

(** [genDummyData(buf, size)]: the loop from index [i] on *)
Fixpoint genDummyData_loop (b : cbuf) (i n : nat) : res cbuf :=
  match n with
  | O => Done b
  | S n => b ← buf_write b i [Byte.x41]; genDummyData_loop b (S i) n
  end.
Definition genDummyData (b : cbuf) (size : Z) : res cbuf := genDummyData_loop b 0 (Z.to_nat size).

(** [destroy()]: a call of [breakdown], whose body is empty, through [sourceData] *)
Definition DataFactory_destroy `{!Platform} f : res unit :=
  match sourceData f with
  | Some _ => Done tt
  | None => if null_member then Done tt else Undef NullDeref
  end.

End DataFactory.

#[global] Arguments buf_write : simpl never.
#[global] Arguments buf_read : simpl never.
#[global] Arguments load : simpl never.
#[global] Arguments load_capsule : simpl never.
#[global] Arguments put_capsule : simpl never.
#[global] Arguments fetchChunk : simpl never.
#[global] Arguments makeChunkforRx : simpl never.
#[global] Arguments updateDataSource : simpl never.
#[global] Arguments write2Source : simpl never.

(** ** Lemmas *)

Lemma buf_write_ok b p bs : (boff b + p + length bs <= length (blk b))%nat ->
  buf_write b p bs =
    Done (mkBuf (take (boff b + p) (blk b) ++ bs ++ drop (boff b + p + length bs) (blk b)) (boff b)).
Proof. intros. unfold buf_write. by rewrite splice_Some. Qed.

Lemma buf_read_ok b n : (boff b + n <= length (blk b))%nat ->
  buf_read b n = Done (take n (drop (boff b) (blk b))).
Proof. intros. unfold buf_read. by rewrite slice_Some. Qed.

(** [genDummyData] fills the buffer with the letter A *)
Lemma genDummyData_loop_spec n : forall b i, (boff b + i + n <= length (blk b))%nat ->
  genDummyData_loop b i n =
    Done (mkBuf (take (boff b + i) (blk b) ++ replicate n Byte.x41 ++ drop (boff b + i + n) (blk b)) (boff b)).
Proof.
  induction n as [|n IH]; intros b i Hb; cbn [genDummyData_loop].
  - cbn [replicate app]. rewrite Nat.add_0_r, take_drop. by destruct b.
  - rewrite buf_write_ok by (cbn; lia). cbn [mbind res_bind length].
    assert (length (take (boff b + i) (blk b)) = boff b + i)%nat as Hl by (rewrite length_take; lia).
    rewrite IH by (cbn [blk boff]; rewrite !length_app, Hl, length_drop; cbn; lia). cbn [blk boff].
    set (a := take _ _) in *. set (d := drop _ _). f_equal. f_equal. rewrite (app_assoc a).
    rewrite take_app_length' by (rewrite length_app, Hl; cbn; lia).
    rewrite drop_app_ge by (rewrite length_app, Hl; cbn; lia).
    unfold d. rewrite length_app, Hl, drop_drop, <- app_assoc. cbn [app length replicate].
    by replace (boff b + i + 1 + (boff b + S i + n - (boff b + i + 1)))%nat with (boff b + i + S n)%nat by lia.
Qed.

Lemma genDummyData_spec b size : 0 <= size -> (boff b + Z.to_nat size <= length (blk b))%nat ->
  genDummyData b size =
    Done (mkBuf (take (boff b) (blk b) ++ replicate (Z.to_nat size) Byte.x41 ++
                 drop (boff b + Z.to_nat size) (blk b)) (boff b)).
Proof. intros Hs Hb. unfold genDummyData. rewrite genDummyData_loop_spec by lia. by rewrite Nat.add_0_r. Qed.

Section FactoryLemmas.
Context {Q : Type} {fifo : Fifo Q ptr} {laws : FifoLaws Q ptr} {mal : Malloc}.
Implicit Types (f : factory Q) (s : store).

Lemma load_lookup p b s : bufs s !! p = Some b -> load p s = Done b.
Proof. intros Hb. unfold load. by rewrite Hb. Qed.

Lemma put_capsule_lookup p c b s : bufs s !! p = Some b ->
  put_capsule p c s = Done (put p (mkMemBuff (mb_size b) (Some c)) s).
Proof. intros Hb. unfold put_capsule. by rewrite (load_lookup _ _ _ Hb). Qed.

(** the buffer [makeChunkforRx] puts on the heap *)
Definition fresh_chunk f s : memBuff :=
  mkMemBuff None
    (Some (mkCapsule (hdr_zero <| capid := hdrid s |>)
             (mkBuf (malloc (mallocs s) (chunkSize f)) 0))).

Lemma makeChunkforRx_spec f s l : q_rep (buffer f) l -> exists q,
  q_rep q (l ++ [next_ptr s]) /\
  makeChunkforRx f s =
    Done (next_ptr s, f <| buffer := q |>,
          mkStore (<[next_ptr s := fresh_chunk f s]> (bufs s)) (S (next_ptr s))
            (S (mallocs s)) (u32 (hdrid s + 1))).
Proof.
  intros Hq. destruct (q_pushWithRef_rep _ _ (next_ptr s) Hq) as (q & Hp & Hr).
  exists q. split; [done|]. unfold makeChunkforRx, prepareMemBuff. cbn.
  by rewrite Hp.
Qed.

(** the payload size of a full chunk *)
Definition payload (siz : Z) : nat := Z.to_nat (siz - HEADER_SPACE).

Lemma payload_pos siz : HEADER_SPACE < siz -> (0 < payload siz)%nat.
Proof. unfold payload, HEADER_SPACE. lia. Qed.

Lemma payload_small siz : siz < 2 ^ 16 -> Z.of_nat (payload siz) < 2 ^ 16.
Proof. unfold payload, HEADER_SPACE. lia. Qed.

(** the least multiple of a payload size that is not an [int].  When as much of a
    file has been read, [curSize] is negative, and as a [size_t] greater than the
    size of any file *)
Definition read_limit (pl : nat) : Z := (2 ^ 31 + Z.of_nat pl - 1) / Z.of_nat pl * Z.of_nat pl.

Lemma read_limit_spec pl : (0 < pl)%nat ->
  2 ^ 31 <= read_limit pl < 2 ^ 31 + Z.of_nat pl /\ (Z.of_nat pl | read_limit pl).
Proof.
  intros Hp. unfold read_limit. set (a := 2 ^ 31 + Z.of_nat pl - 1).
  pose proof (Z.div_mod a (Z.of_nat pl) ltac:(lia)). pose proof (Z.mod_pos_bound a (Z.of_nat pl)).
  split; [lia|by exists (a / Z.of_nat pl)].
Qed.

Lemma read_limit_pos pl : 0 <= read_limit pl.
Proof. unfold read_limit. apply Z.mul_nonneg_nonneg; [|lia]. apply Z_div_nonneg_nonneg; lia. Qed.

(** [file] is what the program reads of a file [file ++ rest] *)
Definition readable (pl : nat) (file rest : list byte) : Prop :=
  Z.of_nat (length file) <= read_limit pl /\ (rest = [] \/ Z.of_nat (length file) = read_limit pl) /\
  Z.of_nat (length (file ++ rest)) < 2 ^ 63.

Lemma readable_whole pl file : Z.of_nat (length file) <= read_limit pl ->
  0 < Z.of_nat pl < 2 ^ 16 -> readable pl file [].
Proof.
  intros Hl Hp. destruct (read_limit_spec pl) as [Hlim _]; [lia|].
  split; [done|]. split; [by left|]. rewrite app_nil_r. lia.
Qed.

(** a source of which full chunks up to [off] have been read, and that is not
    exhausted *)
Definition source_at f (file : list byte) (off : nat) : Prop :=
  exists rest gc, sourceData f =
    Some (mkSource IN (mkStream (file ++ rest) off gc false) (Z.of_nat (length (file ++ rest)))) /\
  curSize f = i32 (Z.of_nat off) /\ readable (payload (chunkSize f)) file rest /\
  (payload (chunkSize f) | off)%nat.

(** what is read of a file *)
Definition read_part (siz : Z) (file : list byte) : list byte :=
  take (Z.to_nat (read_limit (payload siz))) file.

Lemma read_part_whole siz file :
  Z.of_nat (length file) <= read_limit (payload siz) -> read_part siz file = file.
Proof. intros Hl. apply take_ge. lia. Qed.

Lemma source_at_start f file :
  sourceData f = Some (mkSource IN (fs_opened file) (Z.of_nat (length file))) -> curSize f = 0 ->
  Z.of_nat (length file) < 2 ^ 63 -> source_at f (read_part (chunkSize f) file) 0.
Proof.
  intros Hsrc Hc Hlen. pose proof (read_limit_pos (payload (chunkSize f))).
  unfold read_part. set (n := Z.to_nat _).
  exists (drop n file), 0. rewrite take_drop. split; [done|]. split; [done|].
  split; [|apply Nat.divide_0_r]. split; [|split; [|by rewrite take_drop]].
  - rewrite length_take. lia.
  - destruct (decide (length file <= n)%nat); [left; by apply drop_ge|right]. rewrite length_take. lia.
Qed.

(** while there is something to read, [curSize] is the number of bytes read, and
    the next chunk is the one of [file] *)
Lemma readable_next pl file rest off : (0 < pl)%nat ->
  readable pl file rest -> (pl | off)%nat -> (off < length file)%nat ->
  Z.of_nat off < 2 ^ 31 /\ take pl (drop off (file ++ rest)) = take pl (drop off file).
Proof.
  intros Hpl (Hlim & Hrest & _) [k Hk] Hoff.
  destruct (read_limit_spec pl Hpl) as [Hl [m Hm]].
  assert (Z.of_nat off + Z.of_nat pl <= read_limit pl) as Hle.
  { rewrite Hm in *. subst off. rewrite Nat2Z.inj_mul in *.
    assert (Z.of_nat k < m) as Hkm by (apply (Z.mul_lt_mono_pos_r (Z.of_nat pl)); lia). nia. }
  split; [lia|]. rewrite drop_app_le by lia. destruct Hrest as [->|Hfull]; [by rewrite app_nil_r|].
  apply take_app_le. rewrite length_drop. lia.
Qed.

(** the chunk [_inputFromSource] makes of the bytes [bs] *)
Definition source_chunk (n : nat) (siz : Z) (bs : list byte) : memBuff :=
  mkMemBuff (Some (Z.of_nat (length bs) + HEADER_SPACE))
    (Some (mkCapsule (hdr_zero <| capSize := Z.of_nat (length bs) |>)
       (mkBuf (take 14 (malloc n siz) ++ bs ++ drop (14 + length bs) (malloc n siz)) 0))).

Lemma short_read (siz k : Z) : HEADER_SPACE <= siz < 2 ^ 31 -> 0 <= k < 2 ^ 31 ->
  (u64 k <? u64 (u64 siz - HEADER_SPACE)) = (k <? siz - HEADER_SPACE).
Proof. unfold HEADER_SPACE. intros. rewrite !(u64_small siz), !u64_small by lia. done. Qed.

(** not at the end of the file: one chunk with the next bytes is queued.  When
    they fill less than a chunk it is the last one, and [fin] is set. *)
Lemma updateDataSource_read f s file off siz l :
  q_rep (buffer f) l -> source_at f file off -> chunkSize f = siz -> fin f = false ->
  HEADER_SPACE < siz < 2 ^ 16 -> (off < length file)%nat ->
  let bs := take (payload siz) (drop off file) in
  let last := bool_decide (length bs < payload siz)%nat in
  exists q d,
    let f' := mkFactory q last (allocSize f) (i32 (Z.of_nat (off + length bs))) (curPos f)
                (curWritePos f) (curReadPos f) (fpos f)
                (if last then Z.of_nat (length bs) + HEADER_SPACE else siz) (Some d) in
    q_rep q (l ++ [next_ptr s]) /\
    updateDataSource f s =
      Done (f', mkStore (<[next_ptr s := source_chunk (mallocs s) siz bs]> (bufs s))
                  (S (next_ptr s)) (S (mallocs s)) (hdrid s)) /\
    (last = false -> source_at f' file (off + length bs)).
Proof.
  intros Hq (rest & gc & Hsrc & Hcur & Hread & Hal) Hsiz Hfin Hs Hoff bs last.
  rewrite Hsiz in Hread, Hal. pose proof (payload_pos siz (proj1 Hs)) as Hpl.
  destruct (readable_next _ _ _ _ Hpl Hread Hal Hoff) as [Ho31 Hnext]. fold bs in Hnext.
  assert (length bs = Nat.min (payload siz) (length file - off)) as Hbs.
  { unfold bs. by rewrite length_take, length_drop. }
  assert (payload siz = Z.to_nat (siz - 14)) as Hpay by done. unfold HEADER_SPACE in *.
  destruct (q_push_rep _ _ (next_ptr s) Hq) as (q & Hp & Hr).
  exists q, (mkSource IN (mkStream (file ++ rest) (off + length bs) (Z.of_nat (length bs)) last)
               (Z.of_nat (length (file ++ rest)))).
  split; [done|]. split.
  2: { intros Hl. exists rest, (Z.of_nat (length bs)). rewrite Hl. split; [done|]. split; [done|]. cbn [chunkSize].
    split; [done|]. apply bool_decide_eq_false in Hl.
    replace (length bs) with (payload siz) by lia. apply Nat.divide_add_r; [done|apply Nat.divide_refl]. }
  assert (u64 siz = siz) as E1 by (apply u64_small; lia).
  assert (u64 (siz - 14) = siz - 14) as E2 by (apply u64_small; lia).
  assert (i32 (siz - 14) = siz - 14) as E3 by (apply i32_small; lia).
  unfold updateDataSource. rewrite Hsrc. cbn [orelse mbind res_bind].
  unfold _inputFromSource, HEADER_SPACE. cbn [fmode fileSize fs].
  rewrite Hcur, (i32_small (Z.of_nat off)), (u64_small (Z.of_nat off)) by lia.
  destruct (Z.leb_spec (Z.of_nat (length (file ++ rest))) (Z.of_nat off)) as [Hle|_];
    [rewrite length_app in Hle; lia|].
  rewrite Hsiz, E1, E2, E3.
  rewrite readStream_good by (cbn; lia || done). cbn [fs content pos].
  rewrite <- Hpay, Hnext.
  rewrite buf_write_ok by (cbn; rewrite length_malloc; lia). cbn [mbind res_bind].
  rewrite (u64_small (Z.of_nat _)) by lia.
  assert ((Z.of_nat (length bs) <? siz - 14) = last) as ->.
  { unfold last. apply eq_true_iff_eq. rewrite Z.ltb_lt, bool_decide_eq_true. lia. }
  replace (bool_decide (Z.of_nat (length bs) < siz - 14)) with last
    by (unfold last; apply bool_decide_ext; lia).
  unfold make_shared. cbn [next_ptr bufs mallocs hdrid upd upd_mallocs].
  destruct last eqn:Hl; cbn; rewrite Hp; cbn; rewrite ?Hcur, ?Hfin, ?Hsiz;
    unfold source_chunk, HEADER_SPACE; rewrite ?i32_add_l, ?(i32_small (Z.of_nat (length bs) + 14)) by lia;
    by rewrite Nat2Z.inj_add.
Qed.

(** at the end of what can be read nothing is queued, only [fin] is set *)
Lemma updateDataSource_end f s file :
  source_at f file (length file) -> HEADER_SPACE < chunkSize f < 2 ^ 16 ->
  updateDataSource f s = Done (f <| fin := true |>, s).
Proof.
  intros (rest & gc & Hsrc & Hcur & (Hlim & Hrest & H63) & _) Hs.
  unfold updateDataSource. rewrite Hsrc. cbn [orelse mbind res_bind].
  unfold _inputFromSource. cbn [fmode fileSize]. rewrite Hcur.
  destruct (read_limit_spec _ (payload_pos _ (proj1 Hs))) as [Hl _].
  pose proof (payload_small _ (proj2 Hs)) as Hp16.
  destruct (Z.leb_spec (Z.of_nat (length (file ++ rest))) (u64 (i32 (Z.of_nat (length file))))) as [|Hgt]; [done|].
  exfalso. revert Hgt. apply Z.le_ngt. destruct (decide (Z.of_nat (length file) < 2 ^ 31)) as [Hs31|Hs31].
  - destruct Hrest as [->|Hfull]; [|lia]. rewrite app_nil_r in *. rewrite i32_small, u64_small by lia. lia.
  - transitivity (2 ^ 63); [lia|]. unfold i32, u64.
    replace (Z.of_nat (length file) + 2 ^ 31) with (Z.of_nat (length file) - 2 ^ 31 + 1 * 2 ^ 32) by lia.
    rewrite Z.mod_add, (Z.mod_small (_ - _) (2 ^ 32)) by lia.
    rewrite <- (Z.mod_add _ 1) by lia. rewrite Z.mod_small by lia. lia.
Qed.

Lemma fetchChunk_cons f p l : q_rep (buffer f) (p :: l) ->
  exists q, fetchChunk f = Done (p, f <| buffer := q |>) /\ q_rep q l.
Proof.
  intros Hq. destruct (q_try_pop_cons _ _ _ Hq) as (q & Hp & Hr). exists q.
  unfold fetchChunk. by rewrite Hp.
Qed.

Lemma fetchChunk_nil f : q_rep (buffer f) [] -> fetchChunk f = Exits 1.
Proof. intros Hq. unfold fetchChunk. by rewrite (q_try_pop_nil _ Hq). Qed.

(** a sink that has received [out] *)
Definition sink_at f (out : list byte) : Prop :=
  exists gc sz, sourceData f = Some (mkSource OUT (mkStream out (length out) gc false) sz).

(** the payload of a received chunk goes to the end of the sink *)
Lemma write2Source_append f out c bs :
  sink_at f out -> Z.of_nat (length bs) < 2 ^ 31 - 14 ->
  (exists r, drop (boff (body c)) (blk (body c)) = bs ++ r) ->
  (boff (body c) <= length (blk (body c)))%nat ->
  exists d w, write2Source c (Z.of_nat (length bs) + HEADER_SPACE) f =
    Done (f <| sourceData := Some d |> <| curWritePos := w |>) /\
    sink_at (f <| sourceData := Some d |> <| curWritePos := w |>) (out ++ bs).
Proof.
  intros (gc & sz & Hsrc) Hlt [r Hr] Hoff. unfold write2Source. rewrite Hsrc. cbn [orelse mbind res_bind].
  cbn [fmode].
  replace (Z.of_nat (length bs) + HEADER_SPACE - HEADER_SPACE) with (Z.of_nat (length bs)) by lia.
  rewrite u64_small, i32_small by lia.
  destruct (Z.ltb_spec (Z.of_nat (length bs)) 0); [lia|]. rewrite Nat2Z.id.
  pose proof (f_equal length Hr) as Hlen. rewrite length_drop, length_app in Hlen.
  rewrite buf_read_ok by lia.
  rewrite Hr, take_app_length. cbn [mbind res_bind].
  rewrite writeStream_good by (cbn; done || lia). cbn [fs content pos gcount].
  eexists _, _. split; [done|]. cbn. rewrite <- length_app. by eexists _, _.
Qed.

End FactoryLemmas.
