(* ===== verification/Pool.v ===== *)
(** * [thread_pool] (worker_pool.hpp)

    The pool owns a queue of tasks ([std::function<void()>], of type [T] here)
    and a list of worker threads.  The constructor leaves its loop with [break]
    before it starts the first worker, so tasks that are submitted stay in the
    queue, and the destructor's wait for them, a loop over [peek], removes them
    without running them. *)

From S2P Require Import Prelude Queue Program.

Record thread_pool (Q : Type) := mkPool {
  done_flag : bool;
  work_queue : Q;
  threads : nat              (* worker threads that were started *)
}.
Arguments mkPool {Q} _ _ _.
Arguments done_flag {Q} _.
Arguments work_queue {Q} _.
Arguments threads {Q} _.

Section Pool.
Context {Q T W : Type} `{!Fifo Q T}.
(** running a task changes the world [W] *)
Variable run_task : T -> W -> W.
Implicit Types (p : thread_pool Q).

(** the constructor's loop: [for (i = 0; i < thread_count; ++i) { break; ... }] *)
Definition start_workers (thread_count : nat) (started : nat) : nat :=
  match thread_count with
  | O => started
  | S _ => (* break *) started
  end.

(** [thread_pool()], with [hardware_concurrency()] the argument *)
Definition thread_pool_new (hardware_concurrency : nat) : thread_pool Q :=
  mkPool false (q_new (i32 (Z.of_nat hardware_concurrency)))
    (start_workers hardware_concurrency 0).

(** [submit(f)] *)
Definition submit (f : T) p : res (thread_pool Q) :=
  q ← orelse BadQueue (q_push f (work_queue p)); Done (mkPool (done_flag p) q (threads p)).

(** [workdone()] *)
Definition workdone p : res bool := orelse BadQueue (q_isEmpty (work_queue p)).

(** one iteration of [worker_thread()]'s loop *)
Definition worker_iter p (w : W) : res (thread_pool Q * W) :=
  '(task, q) ← orelse BadQueue (q_try_pop (work_queue p));
  let p := mkPool (done_flag p) q (threads p) in
  match task with
  | Some t => Done (p, run_task t w)
  | None => Done (p, w)
  end.

(** [worker_thread()] for [fuel] iterations, or until [done] *)
Fixpoint worker_thread (fuel : nat) p (w : W) : res (thread_pool Q * W) :=
  match fuel with
  | O => Done (p, w)
  | S fuel =>
      if done_flag p then Done (p, w)
      else '(p, w) ← worker_iter p w; worker_thread fuel p w
  end.

(** [~thread_pool()]: [None] when [fuel] iterations do not end the loop *)
Fixpoint thread_pool_destroy (fuel : nat) p : option (res (thread_pool Q)) :=
  match fuel with
  | O => None
  | S fuel =>
      match q_peek (work_queue p) with
      | None => Some (Undef BadQueue)
      | Some (true, q) => thread_pool_destroy fuel (mkPool (done_flag p) q (threads p))
      | Some (false, q) => Some (Done (mkPool true q (threads p)))
      end
  end.

(** ** [join_threads] *)

(** a [std::thread]: the moment at which it ends, [None] when it is not joinable *)
Abbreviation thread := (option nat) (only parsing).

(** [~join_threads()]: wait for every thread that is joinable, in order; [now] is
    the time when the destructor looks at the first one *)
Fixpoint join_threads_destroy (now : nat) (threads : list thread) : nat * list thread :=
  match threads with
  | [] => (now, [])
  | t :: threads =>
      let '(now, t) := match t with Some ended => (now `max` ended, None) | None => (now, None) end in
      let '(now, threads) := join_threads_destroy now threads in
      (now, t :: threads)
  end%nat.

(** it is over when the last of them has ended, and none is joinable then *)
Lemma join_threads_spec ts : forall now,
  join_threads_destroy now ts =
    (foldr Nat.max now (omap (fun t => t) ts), replicate (length ts) None).
Proof.
  induction ts as [|[e|] ts IH]; intros now; [done| |]; cbn; rewrite IH; [|done].
  f_equal. clear IH. revert now. generalize (omap (fun t : option nat => t) ts).
  intros l. induction l as [|x l IH]; intros now; cbn in *; [lia|]. rewrite IH. lia.
Qed.

(** ** Properties *)

Section Laws.
Context `{!FifoLaws Q T}.

(** the pool holds the tasks [l] *)
Definition pool_rep p (l : list T) : Prop := q_rep (work_queue p) l.

Lemma thread_pool_new_rep n : pool_rep (thread_pool_new n) [].
Proof. apply q_new_rep. Qed.

Lemma start_workers_none n : start_workers n 0 = 0%nat.
Proof. by destruct n. Qed.

Lemma submit_rep p l f :
  pool_rep p l -> exists p', submit f p = Done p' /\ pool_rep p' (l ++ [f]) /\
    done_flag p' = done_flag p /\ threads p' = threads p.
Proof.
  intros Hp. destruct (q_push_rep _ _ f Hp) as (q' & Hq & Hr). unfold submit.
  rewrite Hq. cbn. by eexists.
Qed.

Lemma workdone_rep p l : pool_rep p l -> workdone p = Done (bool_decide (l = [])).
Proof. intros Hp. unfold workdone. by rewrite (q_isEmpty_rep _ _ Hp). Qed.

Lemma worker_thread_run l : forall p w fuel,
  pool_rep p l -> done_flag p = false -> (length l <= fuel)%nat ->
  exists p', worker_thread fuel p w = Done (p', foldl (fun w t => run_task t w) w l) /\
    pool_rep p' [].
Proof.
  induction l as [|t l IH]; intros p w fuel Hp Hd Hf.
  - clear Hf. revert p Hp Hd. induction fuel as [|fuel IH]; intros p Hp Hd; cbn; [by eexists|].
    rewrite Hd. unfold worker_iter. rewrite (q_try_pop_nil _ Hp). cbn. by apply IH.
  - destruct fuel as [|fuel]; cbn in Hf; [lia|]. cbn. rewrite Hd. unfold worker_iter.
    destruct (q_try_pop_cons _ _ _ Hp) as (q' & Hq & Hr). rewrite Hq. cbn.
    apply IH; [done|done|lia].
Qed.

Lemma thread_pool_destroy_run l : forall p fuel,
  pool_rep p l -> (length l < fuel)%nat ->
  exists p', thread_pool_destroy fuel p = Some (Done p') /\ pool_rep p' [] /\
    done_flag p' = true /\ threads p' = threads p.
Proof.
  induction l as [|t l IH]; intros p fuel Hp Hf; (destruct fuel as [|fuel]; [cbn in Hf; lia|]); cbn.
  - destruct (q_peek_rep _ _ Hp) as (q' & Hq & Hr). rewrite Hq. cbn. by eexists.
  - destruct (q_peek_rep _ _ Hp) as (q' & Hq & Hr). rewrite Hq. cbn.
    apply (IH (mkPool (done_flag p) q' (threads p))); [done|]. cbn in Hf. lia.
Qed.

(** several calls of [submit] *)
Fixpoint submit_all (l : list T) p : res (thread_pool Q) :=
  match l with
  | [] => Done p
  | f :: l => p ← submit f p; submit_all l p
  end.

Lemma submit_all_rep l : forall p l0, pool_rep p l0 ->
  exists p', submit_all l p = Done p' /\ pool_rep p' (l0 ++ l) /\
    done_flag p' = done_flag p /\ threads p' = threads p.
Proof.
  induction l as [|f l IH]; intros p l0 Hp; cbn [submit_all].
  - exists p. by rewrite app_nil_r.
  - destruct (submit_rep p l0 f Hp) as (p1 & H1 & Hr1 & Hd1 & Ht1). rewrite H1. cbn [mbind res_bind].
    destruct (IH p1 _ Hr1) as (p2 & H2 & Hr2 & Hd2 & Ht2). exists p2.
    rewrite <- app_assoc in Hr2. split; [done|]. split; [done|]. by rewrite Hd2, Ht2.
Qed.

(** C36: [worker_thread] runs the tasks that were submitted, each of them once
    and in the order of their submission. *)
Theorem worker_runs_tasks hw l w fuel : (length l <= fuel)%nat ->
  exists p p', submit_all l (thread_pool_new hw) = Done p /\
    worker_thread fuel p w = Done (p', foldl (fun w t => run_task t w) w l) /\ workdone p' = Done true.
Proof.
  intros Hf. destruct (submit_all_rep l _ [] (thread_pool_new_rep hw)) as (p & Hp & Hr & Hd & _).
  destruct (worker_thread_run l p w fuel Hr Hd Hf) as (p' & Hw & Hr').
  exists p, p'. split; [done|]. split; [done|]. by rewrite (workdone_rep _ _ Hr').
Qed.

(** C37: but the constructor starts no worker, whatever the number of processors:
    the tasks stay in the queue, [workdone] never becomes true, and the
    destructor, whose test [peek] pops, removes them one by one without running
    them. *)
Theorem pool_drops_tasks hw l : l <> [] ->
  exists p p', submit_all l (thread_pool_new hw) = Done p /\ threads p = 0%nat /\
    workdone p = Done false /\
    thread_pool_destroy (S (length l)) p = Some (Done p') /\
    workdone p' = Done true /\ done_flag p' = true /\ threads p' = 0%nat.
Proof.
  intros Hl. destruct (submit_all_rep l _ [] (thread_pool_new_rep hw)) as (p & Hp & Hr & Hd & Ht).
  cbn [app] in Hr. change (threads (thread_pool_new hw)) with (start_workers hw 0) in Ht.
  rewrite start_workers_none in Ht.
  destruct (thread_pool_destroy_run l p (S (length l)) Hr) as (p' & Hx & Hr' & Hd' & Ht'); [lia|].
  exists p, p'. split; [done|]. split; [done|].
  rewrite (workdone_rep _ _ Hr), (workdone_rep _ _ Hr'), bool_decide_false by done.
  repeat split; try done. congruence.
Qed.

End Laws.
End Pool.

#[local] Existing Instances Linked.linked_fifo Linked.linked_laws.

(** two tasks that append to a list *)
Lemma worker_runs_tasks_witness :
  exists p p', submit_all [1; 2] (@thread_pool_new (Linked.queue Z) Z Linked.linked_fifo 4) = Done p /\
    worker_thread (fun t w => w ++ [t]) 3 p [] = Done (p', [1; 2]) /\ workdone p' = Done true.
Proof.
  apply (worker_runs_tasks (fun t w => w ++ [t]) 4 [1; 2] [] 3). cbn. lia.
Defined.

Lemma pool_drops_tasks_witness :
  exists p p', submit_all [1; 2] (@thread_pool_new (Linked.queue Z) Z Linked.linked_fifo 4) = Done p /\
    threads p = 0%nat /\ workdone p = Done false /\
    thread_pool_destroy 3 p = Some (Done p') /\
    workdone p' = Done true /\ done_flag p' = true /\ threads p' = 0%nat.
Proof. apply (pool_drops_tasks 4 [1; 2]). done. Defined.
