(* ===== verification/Interfaces.v ===== *)
(** * Interface addresses: [PhyInterfaces] (gateway.h), [ipaddr_dummy] (interfaces.h)

    The local address list the gateway collects with [SIOCGIFCONF], the peer's
    list that arrives in a capsule, the loop of [SessionProcessor::process]
    that removes the loopback address from it, and the round-robin choice of
    [Gateway::selectAddrFromList]. *)

From S2P Require Import Prelude Program.

(** the kernel and libc calls the code uses, which are not part of it:
    [SIOCGIFCONF] stores as many of the interfaces' IPv4 addresses as there is room
    for ([None]: the call fails); [inet_ntop] prints an
    address, without its terminating null byte; [inet_addr] parses one;
    [getnameinfo] succeeds for the address of a sender, or not *)
Class OS := {
  ifconf : option (list Z);
  inet_ntop : Z -> list byte;
  inet_addr : list byte -> Z;
  getnameinfo_ok : sockaddr -> bool
}.

Definition ADDR_LEN : Z := 15.
Definition NUL : byte := Byte.x00.

(** [struct ipaddr_dummy]: [area] is the 15 bytes of [data] and the 7 bytes of
    padding before the member [next]; the code's string functions run over the
    end of [data] when it holds no null byte.  [family] is written by the
    constructor alone; [next] and [valid] are never used. *)
Record ipaddr_dummy := mkIpaddr { family : Z; area : list byte }.

#[export] Instance upd_family : Update family := fun g a => mkIpaddr (g (family a)) (area a).
#[global] Arguments upd_family _ _ /.
#[export] Instance upd_area : Update area := fun g a => mkIpaddr (family a) (g (area a)).
#[global] Arguments upd_area _ _ /.

Definition AREA_LEN : nat := 22.
Definition SIZEOF_IPADDR : nat := 40.
Definition AF_INET : Z := 2.

(** ** C strings *)

(** the string that starts at the first byte, if a null byte ends it *)
Fixpoint cstring (bs : list byte) : option (list byte) :=
  match bs with
  | [] => None
  | b :: bs => if decide (b = NUL) then Some [] else s ← cstring bs; Some (b :: s)
  end.

(** "127.0.0.1" *)
Definition loopback : list byte :=
  Byte.x31 :: Byte.x32 :: Byte.x37 :: Byte.x2e :: Byte.x30 :: Byte.x2e :: Byte.x30 ::
  Byte.x2e :: [Byte.x31].

(** [strcmp(a.data, "127.0.0.1") == 0]: the comparison stops at the first
    difference, within the ten bytes of the literal *)
Definition is_loopback (a : ipaddr_dummy) : bool :=
  bool_decide (take 10 (area a) = loopback ++ [NUL]).

Section Interfaces.
Context `{!Malloc} `{!OS}.

(** element [i] of an array of [ipaddr_dummy] in the [n]-th block, before it
    is written *)
Definition ipaddr_junk (n i : nat) : ipaddr_dummy :=
  mkIpaddr (le_combine (junk n <$> seq (SIZEOF_IPADDR * i) 2))
    (junk n <$> seq (SIZEOF_IPADDR * i + 2) AREA_LEN).

(** [sizeof(struct ifreq)] *)
Definition SIZEOF_IFREQ : Z := 40.

(** [ioctl(sfd, SIOCGIFCONF, ifc)] with room for [ifc_len] bytes: whole entries *)
Definition ioctl_ifconf (ifc_len : Z) : option (list Z) :=
  take (Z.to_nat (ifc_len / SIZEOF_IFREQ)) <$> ifconf.

(** [ifc = malloc(sizeof(struct ifconf))], the [n]-th block, and the first
    [realloc(ifc->ifc_buf, ...)]: [ifc_buf], the bytes 8 to 15 of the block, has not
    been initialised.  [realloc] may be given a null pointer, or a block that
    [malloc] has returned, which these bytes cannot be. *)
Definition ifc_buf_null (n : nat) : Prop := (junk n <$> seq 8 8) = replicate 8 NUL.

Definition ifc_new (n : nat) : res unit :=
  if decide (ifc_buf_null n) then Done tt else Undef Uninitialised.

(** [_noOfInterfaces()]: the result and what [ifc] then holds; the buffer is
    doubled until the answer does not fill it.  [ifc_len] is an [int], computed in
    [size_t] before the call; the comparison after it multiplies in [int]. *)
Fixpoint _noOfInterfaces_loop (fuel : nat) (numreqs : Z) : res (Z * option (list Z)) :=
  match fuel with
  | O => Undef Spin
  | S fuel =>
      match ioctl_ifconf (i32 (SIZEOF_IFREQ * numreqs)) with
      | None => Done (numreqs, None)
      | Some l =>
          let ifc_len := SIZEOF_IFREQ * Z.of_nat (length l) in
          room ← int_mul SIZEOF_IFREQ numreqs;
          if ifc_len =? room then _noOfInterfaces_loop fuel (i32 (numreqs * 2))
          else Done (ifc_len / SIZEOF_IFREQ, Some l)
      end
  end.

(** the number of interfaces bounds the number of doublings *)
Definition ifconf_fuel : nat := S (S (length (default [] ifconf))).

Definition _noOfInterfaces : res (Z * option (list Z)) := _noOfInterfaces_loop ifconf_fuel 1.

Definition getInfCount : res Z := '(n, _) ← _noOfInterfaces; Done n.

(** [strcpy(a.data, buffer)]: the string and its null byte, which may run into
    the padding but not beyond *)
Definition strcpy_data (s : list byte) (a : ipaddr_dummy) : res ipaddr_dummy :=
  bs ← orelse OutOfBounds (splice (area a) 0 (s ++ [NUL])); Done (a <| area := bs |>).

(** the loop of [interfacesToIpV4addr]: every entry also sets the family of the
    first element of the list *)
Fixpoint fill_list (n i : nat) (addrs : list Z) : res (list ipaddr_dummy) :=
  match addrs with
  | [] => Done []
  | a :: addrs =>
      e ← strcpy_data (inet_ntop a) (ipaddr_junk n i <| family := AF_INET |>);
      l ← fill_list n (S i) addrs;
      Done (e :: l)
  end.

(** [interfacesToIpV4addr(ifc, &numreqs)]; [n] is the block [malloc] returns.
    After a failed [ioctl] the loop reads the buffer uninitialised. *)
Definition interfacesToIpV4addr (n : nat) : res (Z * list ipaddr_dummy) :=
  '(interfaces, reqs) ← _noOfInterfaces;
  reqs ← orelse Uninitialised reqs;
  l ← fill_list n 0 reqs;
  Done (interfaces, l).

(** ** The peer's list *)

(** [memcpy(a.data, bs, ADDR_LEN)] *)
Definition memcpy_data (bs : list byte) (a : ipaddr_dummy) : res ipaddr_dummy :=
  area' ← orelse OutOfBounds (splice (area a) 0 bs); Done (a <| area := area' |>).

(** the first loop of the [setup] and [connected] cases: element [i] is copied
    from the body of the capsule, which is read in place *)
Fixpoint unpack_addresses (n i : nat) (rest : list byte) (count : nat) : res (list ipaddr_dummy) :=
  match count with
  | O => Done []
  | S count =>
      bs ← orelse OutOfBounds (slice rest 0 (Z.to_nat ADDR_LEN));
      a ← memcpy_data bs (ipaddr_junk n i);
      l ← unpack_addresses n (S i) (drop (Z.to_nat ADDR_LEN) rest) count;
      Done (a :: l)
  end.

(** the second loop, from index [i] on: a loopback address is counted off, and
    once one has been seen every element is overwritten by its successor.
    [past] is the read of [list[noOfAddresses]], one element past the array.  An
    element is moved before the next index tests it, but the test of index
    [i + 1] reads the element [i + 1], which is still the original one. *)
Fixpoint drop_loopback (past : res ipaddr_dummy) (localhost_found : bool) (count : Z)
    (l : list ipaddr_dummy) : res (list ipaddr_dummy * Z) :=
  match l with
  | [] => Done ([], count)
  | a :: l' =>
      let localhost_found := is_loopback a || localhost_found in
      let count := if is_loopback a then i32 (count - 1) else count in
      a' ← (if localhost_found then match l' with b :: _ => Done b | [] => past end else Done a);
      '(l'', count) ← drop_loopback past localhost_found count l';
      Done (a' :: l'', count)
  end.

(** the element behind an array of [count] in the [n]-th block: the bytes that lie
    there, where the platform lets them be read *)
Definition read_past (n count : nat) : res ipaddr_dummy :=
  if behind n then Done (ipaddr_junk n count) else Undef OutOfBounds.

(** the [setup] and [connected] cases of [SessionProcessor::process] on the
    address list: what [peer_addressList] and [peer_addressCount] become.
    [n] is the block [malloc] returns, [body] the bytes from the body pointer
    to the end of its block. *)
Definition peer_list (n : nat) (capSize : Z) (body : list byte) : res (list ipaddr_dummy * Z) :=
  let noOfAddresses := capSize / ADDR_LEN in
  l ← unpack_addresses n 0 body (Z.to_nat noOfAddresses);
  drop_loopback (read_past n (Z.to_nat noOfAddresses)) false noOfAddresses l.

(** [selectAddrFromList] on a list that is there: the address to send to, and
    the static counter.  The remainder by [peer_addressCount] has no value when
    that is 0. *)
Definition select_addr (l : list ipaddr_dummy) (count i : Z) : res (Z * Z) :=
  let i := i32 (i + 1) in
  if count =? 0 then Undef DivByZero
  else
    let j := Z.rem i count in
    if j <? 0 then Undef OutOfBounds
    else
      a ← orelse OutOfBounds (l !! Z.to_nat j);
      s ← orelse OutOfBounds (cstring (area a));
      Done (inet_addr s, i).

End Interfaces.

#[global] Arguments _noOfInterfaces : simpl never.
#[global] Arguments getInfCount : simpl never.
#[global] Arguments peer_list : simpl never.
#[global] Arguments select_addr : simpl never.

(** ** Lemmas *)

(** the C string [s] is stored at the start of [area] *)
Definition holds_string (a : ipaddr_dummy) (s : list byte) : Prop :=
  exists r, area a = s ++ NUL :: r /\ length (area a) = AREA_LEN.

Definition no_nul (s : list byte) : Prop := NUL ∉ s.

Lemma cstring_app s r : no_nul s -> cstring (s ++ NUL :: r) = Some s.
Proof.
  unfold no_nul. induction s as [|b s IH]; intros Hs; [done|].
  cbn. rewrite decide_False by set_solver. rewrite IH by set_solver. done.
Qed.

(** without a null byte in [s], the string goes on into what follows *)
Lemma cstring_app_tail s r : no_nul s -> cstring (s ++ r) = (fun t => s ++ t) <$> cstring r.
Proof.
  unfold no_nul. induction s as [|b s IH]; intros Hs; cbn.
  - by destruct (cstring r).
  - rewrite decide_False by set_solver. rewrite IH by set_solver. by destruct (cstring r).
Qed.

Lemma holds_cstring a s : holds_string a s -> no_nul s -> cstring (area a) = Some s.
Proof. intros (r & -> & _) Hs. by apply cstring_app. Qed.

Section InterfaceLemmas.
Context {mal : Malloc} {os : OS}.

Lemma length_ipaddr_junk n i : length (area (ipaddr_junk n i)) = AREA_LEN.
Proof. unfold ipaddr_junk. cbn [area]. by rewrite length_fmap, length_seq. Qed.

(** one pass: with an entry to spare the answer is complete, and the product of
    line 45 is an [int] as long as the buffer is smaller than 2 GiB *)
Lemma noOfInterfaces_step l fuel m : ifconf = Some l -> 1 <= m < 2 ^ 31 ->
  _noOfInterfaces_loop (S fuel) m =
    if decide (SIZEOF_IFREQ * m < 2 ^ 31) then
      if decide (m <= Z.of_nat (length l)) then _noOfInterfaces_loop fuel (m * 2)
      else Done (Z.of_nat (length l), Some l)
    else Undef Overflow.
Proof.
  intros Hif Hm. cbn [_noOfInterfaces_loop]. unfold ioctl_ifconf, int_mul, SIZEOF_IFREQ. rewrite Hif.
  cbn [fmap option_fmap option_map].
  destruct (decide (40 * m < 2 ^ 31)) as [Hlt|Hge]; [|by rewrite decide_False by lia].
  rewrite i32_small, (Z.mul_comm 40 m), Z.div_mul, length_take, decide_True by lia.
  cbn [mbind res_bind]. case_decide.
  - rewrite (proj2 (Z.eqb_eq _ _)) by lia. by rewrite i32_small by lia.
  - rewrite (proj2 (Z.eqb_neq _ _)) by lia. rewrite take_ge, Nat.min_r by lia.
    by rewrite Z.mul_comm, Z.div_mul by lia.
Qed.

Lemma pow2_S k : 2 ^ Z.of_nat (S k) = 2 ^ Z.of_nat k * 2.
Proof. rewrite Nat2Z.inj_succ, Z.pow_succ_r by lia. lia. Qed.

(** the doublings from [2 ^ k] entries on *)
Lemma noOfInterfaces_doubling l j : ifconf = Some l -> forall k, (k <= 26)%nat ->
  2 ^ Z.of_nat k <= 2 * Z.of_nat (length l) + 1 -> Z.of_nat (length l) < 2 ^ Z.of_nat (k + j) ->
  _noOfInterfaces_loop (S j) (2 ^ Z.of_nat k) =
    if decide (Z.of_nat (length l) < 2 ^ 25) then Done (Z.of_nat (length l), Some l) else Undef Overflow.
Proof.
  intros Hif. induction j as [|j IH]; intros k Hk Hle Hlt.
  all: assert (1 <= 2 ^ Z.of_nat k <= 2 ^ 26) by (split; [apply (Z.pow_le_mono_r 2 0)|apply Z.pow_le_mono_r]; lia).
  all: rewrite (noOfInterfaces_step l) by (done || lia); unfold SIZEOF_IFREQ.
  all: destruct (decide (k = 26)%nat) as [->|Hk'];
    [change (2 ^ Z.of_nat 26) with (2 ^ 26) in *; rewrite !decide_False by lia; done|].
  all: assert (2 ^ Z.of_nat k <= 2 ^ 25) by (apply Z.pow_le_mono_r; lia).
  all: rewrite (decide_True (P := 40 * _ < _)) by lia.
  - rewrite Nat.add_0_r in Hlt. rewrite decide_False, decide_True by lia. done.
  - destruct (decide (2 ^ Z.of_nat k <= Z.of_nat (length l))); [|by rewrite decide_True by lia].
    rewrite <- pow2_S. apply IH; [lia|rewrite pow2_S; lia|by rewrite Nat.add_succ_comm].
Qed.

Lemma noOfInterfaces_from_one l fuel : ifconf = Some l -> Z.of_nat (length l) < 2 ^ Z.of_nat fuel ->
  _noOfInterfaces_loop (S fuel) 1 =
    if decide (Z.of_nat (length l) < 2 ^ 25) then Done (Z.of_nat (length l), Some l) else Undef Overflow.
Proof. intros Hif Hl. apply (noOfInterfaces_doubling l fuel Hif 0); [lia|cbn; lia|done]. Qed.

(** the doubling ends and the answer is complete *)
Lemma noOfInterfaces_spec l :
  ifconf = Some l -> Z.of_nat (length l) < 2 ^ 25 ->
  _noOfInterfaces = Done (Z.of_nat (length l), Some l).
Proof.
  intros Hif Hl. unfold _noOfInterfaces, ifconf_fuel. rewrite Hif.
  change (default [] (Some l)) with l. rewrite (noOfInterfaces_from_one l); [|done|].
  2: { pose proof (Z.pow_gt_lin_r 2 (Z.of_nat (S (length l))) ltac:(lia) ltac:(lia)). lia. }
  by rewrite decide_True.
Qed.

Lemma getInfCount_spec l :
  ifconf = Some l -> Z.of_nat (length l) < 2 ^ 25 -> getInfCount = Done (Z.of_nat (length l)).
Proof. intros Hif Hl. unfold getInfCount. by rewrite (noOfInterfaces_spec l). Qed.

(** an address that fits in [data] with its null byte *)
Definition short_addr (a : Z) : Prop :=
  (length (inet_ntop a) < 15)%nat /\ no_nul (inet_ntop a).

Lemma strcpy_data_spec s a : length (area a) = AREA_LEN -> (length s < AREA_LEN)%nat ->
  exists a', strcpy_data s a = Done a' /\ holds_string a' s.
Proof.
  intros Ha Hs. unfold strcpy_data. rewrite splice_Some by (rewrite length_app; cbn; lia).
  cbn [orelse mbind res_bind]. eexists. split; [done|].
  exists (drop (length (s ++ [NUL])) (area a)). cbn [area upd upd_area take app Nat.add].
  rewrite <- app_assoc. cbn [app]. split; [done|].
  rewrite ?length_app, ?length_take. cbn [length]. rewrite ?length_drop, ?length_app, Ha.
  unfold AREA_LEN in *. cbn [length]. lia.
Qed.

Lemma fill_list_spec n i addrs : Forall short_addr addrs ->
  exists l, fill_list n i addrs = Done l /\ Forall2 (fun e a => holds_string e (inet_ntop a)) l addrs.
Proof.
  revert i. induction addrs as [|a addrs IH]; intros i Hs; [by exists []|].
  apply Forall_cons in Hs as [[Ha _] Hs]. cbn [fill_list].
  destruct (strcpy_data_spec (inet_ntop a) (ipaddr_junk n i <| family := AF_INET |>))
    as (e & -> & He); [apply length_ipaddr_junk|unfold AREA_LEN; lia|].
  destruct (IH (S i) Hs) as (l & Hl & Hf). cbn [mbind res_bind]. rewrite Hl.
  eexists. split; [done|]. by constructor.
Qed.

(** the bytes of an address on the wire *)
Definition wire_addr (a : ipaddr_dummy) : list byte := take (Z.to_nat ADDR_LEN) (area a).

Lemma length_wire_addr a s : holds_string a s -> length (wire_addr a) = 15%nat.
Proof. intros (r & _ & Hl). unfold wire_addr. rewrite length_take, Hl. done. Qed.

(** what the peer makes of them *)
Lemma unpack_addresses_spec (ws : list (list byte)) n i r :
  Forall (fun w => length w = 15%nat) ws ->
  exists l, unpack_addresses n i (concat ws ++ r) (length ws) = Done l /\
    Forall2 (fun a w => exists pad, area a = w ++ pad /\ length (area a) = AREA_LEN) l ws.
Proof.
  revert i. induction ws as [|w ws IH]; intros i Hw; [by exists []|].
  apply Forall_cons in Hw as [Hw Hws]. cbn [concat length unpack_addresses].
  change (Z.to_nat ADDR_LEN) with 15%nat.
  rewrite slice_Some by (rewrite !length_app; lia). rewrite drop_0, <- app_assoc.
  rewrite take_app_exact by done. cbn [orelse mbind res_bind]. unfold memcpy_data at 1.
  rewrite splice_Some by (rewrite length_ipaddr_junk, Hw; unfold AREA_LEN; lia).
  cbn [orelse mbind res_bind]. rewrite drop_app_exact by done.
  destruct (IH (S i) Hws) as (l & -> & Hl). eexists. split; [done|].
  constructor; [|done]. exists (drop (length w) (area (ipaddr_junk n i))).
  cbn [take app area upd upd_area Nat.add]. split; [done|].
  change (length (w ++ drop (length w) (area (ipaddr_junk n i))) = AREA_LEN).
  rewrite length_app, length_drop, length_ipaddr_junk, Hw. done.
Qed.

(** an address short enough for [data] survives the journey *)
Lemma unpack_holds (a a' : ipaddr_dummy) s pad :
  holds_string a s -> (length s < 15)%nat ->
  area a' = wire_addr a ++ pad -> length (area a') = AREA_LEN -> holds_string a' s.
Proof.
  intros (r & Ha & _) Hs Ha' Hl. unfold wire_addr in Ha'. rewrite Ha in Ha'.
  change (Z.to_nat ADDR_LEN) with 15%nat in Ha'.
  rewrite (app_assoc s [NUL] r : s ++ NUL :: r = _) in Ha'.
  rewrite take_app_ge in Ha' by (rewrite length_app; cbn; lia).
  exists (take (15 - length (s ++ [NUL])) r ++ pad). split; [|done].
  by rewrite Ha', <- !app_assoc.
Qed.

(** *** The loopback loop *)

Lemma is_loopback_holds a s :
  holds_string a s -> no_nul s -> is_loopback a = bool_decide (s = loopback).
Proof.
  intros (r & Ha & _) Hs. unfold is_loopback. apply bool_decide_ext. rewrite Ha. split; intros H.
  - assert (cstring (loopback ++ NUL :: drop 10 (s ++ NUL :: r)) = Some s) as Hc.
    { rewrite (app_assoc loopback [NUL] _ : loopback ++ NUL :: _ = _), <- H, take_drop.
      by apply cstring_app. }
    rewrite cstring_app in Hc by (unfold no_nul, NUL; apply (bool_decide_unpack _); done). by injection Hc.
  - subst. done.
Qed.

Definition loopbacks (l : list ipaddr_dummy) : nat := length (filter (fun a => is_loopback a = true) l).

Lemma loopbacks_cons a l : loopbacks (a :: l) = ((if is_loopback a then 1 else 0) + loopbacks l)%nat.
Proof.
  unfold loopbacks. rewrite filter_cons. by destruct (is_loopback a).
Qed.

(** the same loop when the element behind the array can be read, and is [past] *)
Fixpoint shift_loopback (past : ipaddr_dummy) (localhost_found : bool) (count : Z)
    (l : list ipaddr_dummy) : list ipaddr_dummy * Z :=
  match l with
  | [] => ([], count)
  | a :: l' =>
      let localhost_found := is_loopback a || localhost_found in
      let count := if is_loopback a then i32 (count - 1) else count in
      let a' := if localhost_found then hd past l' else a in
      let '(l'', count) := shift_loopback past localhost_found count l' in
      (a' :: l'', count)
  end.

Lemma drop_loopback_shift past f c l :
  drop_loopback (Done past) f c l = Done (shift_loopback past f c l).
Proof.
  revert f c. induction l as [|a l IH]; intros f c; [done|]. cbn [drop_loopback shift_loopback].
  rewrite IH. destruct (shift_loopback _ _ _ _) as [l' c'].
  by destruct (is_loopback a || f), l.
Qed.

(** when it cannot be read, a loopback address is the end *)
Lemma drop_loopback_fault e f c l :
  drop_loopback (Undef e) f c l =
    if decide (loopbacks l = 0%nat /\ (f = false \/ l = [])) then Done (l, c) else Undef e.
Proof.
  revert f c. induction l as [|a l IH]; intros f c; [by rewrite decide_True by tauto|].
  cbn [drop_loopback]. rewrite IH, loopbacks_cons.
  destruct (is_loopback a), f; cbn [orb]; destruct l as [|b l]; cbn [mbind res_bind];
    repeat (case_decide; cbn [mbind res_bind]); try done; exfalso; naive_solver lia.
Qed.

Lemma shift_loopback_found past c l :
  Z.of_nat (loopbacks l) <= c < 2 ^ 31 -> l <> [] ->
  shift_loopback past true c l = (tail l ++ [past], c - Z.of_nat (loopbacks l)).
Proof.
  revert c. induction l as [|a l IH]; intros c Hc Hl; [done|].
  cbn [shift_loopback]. rewrite orb_true_r. rewrite loopbacks_cons in *.
  destruct l as [|b l].
  - cbn. unfold loopbacks in *; cbn in *. destruct (is_loopback a); [rewrite i32_small by lia|]; f_equal; lia.
  - rewrite IH; [|destruct (is_loopback a); [rewrite i32_small|]; lia|done].
    cbn [tail hd app]. f_equal. destruct (is_loopback a); [rewrite i32_small|]; lia.
Qed.

Lemma shift_loopback_none past c l :
  loopbacks l = 0%nat -> shift_loopback past false c l = (l, c).
Proof.
  induction l as [|a l IH]; intros Hl; [done|]. rewrite loopbacks_cons in Hl.
  destruct (is_loopback a) eqn:Ha; [done|]. cbn. rewrite Ha. cbn. by rewrite IH.
Qed.

(** everything after the first loopback moves down by one *)
Lemma shift_loopback_first past c pre lb post :
  loopbacks pre = 0%nat -> is_loopback lb = true ->
  Z.of_nat (S (loopbacks post)) <= c < 2 ^ 31 ->
  shift_loopback past false c (pre ++ lb :: post) =
    (pre ++ post ++ [past], c - Z.of_nat (S (loopbacks post))).
Proof.
  intros Hpre Hlb Hc. induction pre as [|a pre IH]; cbn [app].
  - cbn [shift_loopback]. rewrite Hlb. cbn [orb]. rewrite i32_small by lia.
    destruct post as [|b post].
    + cbn. unfold loopbacks in *. cbn in *. by f_equal; lia.
    + rewrite shift_loopback_found by (done || lia). cbn [tail hd app]. f_equal. lia.
  - rewrite loopbacks_cons in Hpre. destruct (is_loopback a) eqn:Ha; [done|].
    cbn [shift_loopback]. rewrite Ha. cbn [orb]. by rewrite IH.
Qed.

(** the list has a first loopback address, or none *)
Lemma loopback_split l :
  loopbacks l = 0%nat \/
  exists pre lb post, l = pre ++ lb :: post /\ loopbacks pre = 0%nat /\ is_loopback lb = true /\
    loopbacks l = S (loopbacks post).
Proof.
  induction l as [|a l IH]; [by left|]. rewrite loopbacks_cons.
  destruct (is_loopback a) eqn:Ha.
  - right. by exists [], a, l.
  - destruct IH as [IH|(pre & lb & post & -> & Hp & Hlb & Hn)]; [by left|right].
    exists (a :: pre), lb, post. rewrite loopbacks_cons, Ha. done.
Qed.

(** the entries that [peer_addressCount] still counts all come from the list *)
Lemma shift_loopback_prefix past l :
  Z.of_nat (length l) < 2 ^ 31 ->
  let '(l', c) := shift_loopback past false (Z.of_nat (length l)) l in
  c = Z.of_nat (length l) - Z.of_nat (loopbacks l) /\
  0 <= c <= Z.of_nat (length l') /\ take (Z.to_nat c) l' ⊆ l.
Proof.
  intros Hl. assert (loopbacks l <= length l)%nat as Hle by apply length_filter.
  destruct (loopback_split l) as [Hn|(pre & lb & post & -> & Hp & Hlb & Hn)].
  - rewrite shift_loopback_none by done. rewrite Hn, Z.sub_0_r, Nat2Z.id, firstn_all.
    split; [done|]. split; [lia|done].
  - rewrite shift_loopback_first by (done || lia). rewrite <- Hn. split; [done|].
    rewrite !length_app in *. cbn in *. split; [lia|].
    rewrite app_assoc, take_app_le by (rewrite length_app; lia).
    etrans; [apply subseteq_take|]. set_solver.
Qed.

(** with one loopback address or none the entries that count are the others *)
Lemma shift_loopback_filter past l :
  (loopbacks l <= 1)%nat -> Z.of_nat (length l) < 2 ^ 31 ->
  let '(l', c) := shift_loopback past false (Z.of_nat (length l)) l in
  take (Z.to_nat c) l' = filter (fun a => is_loopback a = false) l.
Proof.
  intros H1 Hl. assert (forall l, loopbacks l = 0%nat -> filter (fun a => is_loopback a = false) l = l) as Hnone.
  { clear. induction l as [|a l IH]; [done|]. rewrite loopbacks_cons, filter_cons. intros Hl.
    destruct (is_loopback a); [lia|]. by rewrite decide_True, IH. }
  destruct (loopback_split l) as [Hn|(pre & lb & post & -> & Hp & Hlb & Hn)].
  - rewrite shift_loopback_none by done. by rewrite Nat2Z.id, firstn_all, Hnone.
  - assert (loopbacks post = 0)%nat as Hp0 by lia. rewrite length_app in *. cbn [length] in *.
    rewrite shift_loopback_first by (done || lia). rewrite Hp0, app_assoc, take_app_exact by (rewrite length_app; lia).
    rewrite filter_app, filter_cons, decide_False by congruence. by rewrite !Hnone.
Qed.

(** the second loop on an array of its own *)
Lemma read_past_ok n k : behind n = true -> read_past n k = Done (ipaddr_junk n k).
Proof. unfold read_past. by intros ->. Qed.

(** *** The whole journey of an address list *)

(** the addresses [al] of a host: null-terminated within [data], and not only
    the loopback address *)
Definition addresses_ok (al : list ipaddr_dummy) : Prop :=
  Forall (fun a => exists str, holds_string a str /\ no_nul str /\ (length str < 15)%nat) al /\
  (loopbacks al < length al)%nat.

(** the bytes of the list on the wire *)
Definition wire_list (al : list ipaddr_dummy) : list byte := concat (wire_addr <$> al).

Lemma wire_addr_lengths al : addresses_ok al ->
  Forall (fun w => length w = 15%nat) (wire_addr <$> al).
Proof.
  intros [Hal _]. apply Forall_fmap. eapply Forall_impl; [exact Hal|].
  intros a (str & Hs & _). by eapply length_wire_addr.
Qed.

Lemma length_wire_list al : addresses_ok al -> length (wire_list al) = (15 * length al)%nat.
Proof.
  intros Hal. pose proof (wire_addr_lengths al Hal) as Hl. unfold wire_list. clear Hal.
  induction al as [|a al IH]; [done|]. cbn in *. apply Forall_cons in Hl as [Ha Hl].
  rewrite length_app, Ha, IH by done. lia.
Qed.

Lemma is_loopback_wire a a' pad :
  length (area a) = AREA_LEN -> area a' = wire_addr a ++ pad -> is_loopback a' = is_loopback a.
Proof.
  unfold is_loopback, wire_addr. intros Hl ->. change (Z.to_nat ADDR_LEN) with 15%nat.
  rewrite take_app_le by (rewrite length_take, Hl; unfold AREA_LEN; lia).
  by rewrite take_take.
Qed.

Lemma unpack_loopbacks l al :
  Forall (fun a => length (area a) = AREA_LEN) al ->
  Forall2 (fun a w => exists pad, area a = w ++ pad /\ length (area a) = AREA_LEN) l (wire_addr <$> al) ->
  loopbacks l = loopbacks al.
Proof.
  revert l. induction al as [|a al IH]; intros l Hal Hl; inversion Hl as [|a' ? l' ? (pad & Ha & _) Hl']; subst.
  - done.
  - apply Forall_cons in Hal as [Hla Hal]. rewrite !loopbacks_cons.
    rewrite (is_loopback_wire a a' pad) by done. by rewrite (IH l').
Qed.

(** [gateway_new]'s list holds the addresses the kernel reports *)
Lemma interfacesToIpV4addr_spec n addrs :
  ifconf = Some addrs -> Z.of_nat (length addrs) < 2 ^ 25 -> Forall short_addr addrs ->
  exists l, interfacesToIpV4addr n = Done (Z.of_nat (length addrs), l) /\
    Forall2 (fun e a => holds_string e (inet_ntop a)) l addrs.
Proof.
  intros Hif Hlen Hs. unfold interfacesToIpV4addr. rewrite (noOfInterfaces_spec addrs) by done.
  destruct (fill_list_spec n 0 addrs Hs) as (l & Hl & Hf). exists l. split; [|done].
  cbn [mbind res_bind orelse]. by rewrite Hl.
Qed.

(** the peer's list when the element behind its array can be read *)
Lemma peer_list_shift n l size bs :
  unpack_addresses n 0 bs (Z.to_nat (size / ADDR_LEN)) = Done l -> behind n = true ->
  peer_list n size bs =
    Done (shift_loopback (ipaddr_junk n (Z.to_nat (size / ADDR_LEN))) false (size / ADDR_LEN) l).
Proof.
  intros Hu Hb. unfold peer_list. rewrite Hu. cbn [mbind res_bind].
  by rewrite read_past_ok, drop_loopback_shift.
Qed.

(** the peer can parse every address it goes on to use, and it uses those that are
    not the loopback address *)
Lemma peer_list_spec n al r (P : list byte -> Prop) :
  addresses_ok al -> Z.of_nat (length al) < 2 ^ 27 -> (loopbacks al <= 1)%nat -> behind n = true ->
  Forall (fun a => is_loopback a = false -> exists s, cstring (area a) = Some s /\ P s) al ->
  exists l c, peer_list n (ADDR_LEN * Z.of_nat (length al)) (wire_list al ++ r) = Done (l, c) /\
    0 < c <= Z.of_nat (length l) /\
    Forall (fun a => exists s, cstring (area a) = Some s /\ P s) (take (Z.to_nat c) l).
Proof.
  intros Hal Hlen H1 Hb HP. pose proof (wire_addr_lengths al Hal) as Hws. destruct Hal as [Hal Hlb].
  destruct (unpack_addresses_spec (wire_addr <$> al) n 0 r Hws) as (l & Hu & Hl).
  assert (ADDR_LEN * Z.of_nat (length al) / ADDR_LEN = Z.of_nat (length al)) as Hdiv
    by (rewrite Z.mul_comm; by apply Z.div_mul).
  rewrite length_fmap in Hu. rewrite (peer_list_shift n l) by (rewrite ?Hdiv, ?Nat2Z.id; done).
  rewrite Hdiv, Nat2Z.id.
  pose proof (Forall2_length _ _ _ Hl) as Hll. rewrite length_fmap in Hll.
  assert (Forall (fun a => length (area a) = AREA_LEN) al) as Hareas.
  { eapply Forall_impl; [exact Hal|]. by intros a (str & (? & _ & ?) & _). }
  pose proof (unpack_loopbacks l al Hareas Hl) as Hlbs. rewrite <- Hll.
  pose proof (shift_loopback_prefix (ipaddr_junk n (length l)) l ltac:(lia)) as Hpre.
  pose proof (shift_loopback_filter (ipaddr_junk n (length l)) l ltac:(lia) ltac:(lia)) as Hfil.
  destruct (shift_loopback _ _ _ _) as [l' c]. destruct Hpre as (Hc & Hc' & _).
  exists l', c. split; [done|]. split; [lia|]. rewrite Hfil. apply Forall_forall.
  intros a (Hna & [i Hi]%list_elem_of_lookup)%list_elem_of_filter.
  destruct (Forall2_lookup_l _ _ _ _ _ Hl Hi) as (w & Hw & pad & Ha & Hla).
  apply list_lookup_fmap_Some in Hw as (a0 & -> & Ha0).
  rewrite Forall_lookup in Hal, HP, Hareas. destruct (Hal _ _ Ha0) as (str & Hstr & Hnn & Hsl).
  destruct (HP _ _ Ha0) as (s & Hs & HPs); [by rewrite <- (is_loopback_wire a0 a pad) by eauto|].
  exists s. split; [|done]. rewrite <- Hs, (holds_cstring a0 str), (holds_cstring a str) by
    (done || by eapply unpack_holds). done.
Qed.

(** *** The choice of an address *)

Lemma select_addr_ok l count i :
  0 < count <= Z.of_nat (length l) -> 0 <= i < 2 ^ 31 - 1 ->
  Forall (fun a => is_Some (cstring (area a))) (take (Z.to_nat count) l) ->
  exists a s, l !! Z.to_nat ((i + 1) mod count) = Some a /\ cstring (area a) = Some s /\
    select_addr l count i = Done (inet_addr s, i + 1).
Proof.
  intros Hc Hi Hl. pose proof (Z.mod_pos_bound (i + 1) count) as Hm.
  destruct (lookup_lt_is_Some_2 l (Z.to_nat ((i + 1) mod count))) as [a Ha]; [lia|].
  assert (is_Some (cstring (area a))) as [s Hs].
  { rewrite Forall_forall in Hl. apply Hl. apply list_elem_of_lookup.
    exists (Z.to_nat ((i + 1) mod count)). rewrite lookup_take_lt by lia. done. }
  exists a, s. split; [done|split; [done|]]. unfold select_addr. rewrite i32_small by lia.
  destruct (Z.eqb_spec count 0); [lia|]. rewrite Z.rem_mod_nonneg by lia.
  destruct (Z.ltb_spec ((i + 1) mod count) 0); [lia|]. rewrite Ha. cbn. by rewrite Hs.
Qed.

End InterfaceLemmas.
