(* ===== verification/Strings.v ===== *)
(** * Strings: decimal numerals and C strings

    What the program uses of the C and C++ libraries on strings: [atoi] and
    [std::to_string], which a port number goes through on its way to
    [getaddrinfo], and [strcpy] into a block of [s.size()] bytes. *)

From stdpp Require Import pretty.
From Stdlib Require Ascii String.
From S2P Require Import Prelude Program Platform Interfaces.

(** ** Numerals *)

(** the conversion to [short] *)
Definition i16 (z : Z) : Z := (z + 2 ^ 15) mod 2 ^ 16 - 2 ^ 15.

(** [std::to_string] *)
Definition to_string (n : Z) : list byte := String.list_byte_of_string (pretty n).

Definition byte_val (b : byte) : Z := Z.of_N (Byte.to_N b).
Definition is_digit (b : byte) : bool := (48 <=? byte_val b) && (byte_val b <=? 57).
Definition is_space (b : byte) : bool :=
  (byte_val b =? 32) || ((9 <=? byte_val b) && (byte_val b <=? 13)).

(** the digits at the start of [bs] *)
Fixpoint digits_val (acc : Z) (bs : list byte) : Z :=
  match bs with
  | b :: bs => if is_digit b then digits_val (acc * 10 + (byte_val b - 48)) bs else acc
  | [] => acc
  end.

Fixpoint skip_space (bs : list byte) : list byte :=
  match bs with
  | b :: bs' => if is_space b then skip_space bs' else bs
  | [] => []
  end.

(** [atoi(s)]; a number that is not an [int] has no defined result *)
Definition atoi (s : list byte) : res Z :=
  let n :=
    match skip_space s with
    | b :: bs =>
        if byte_val b =? 45 then - digits_val 0 bs
        else if byte_val b =? 43 then digits_val 0 bs
        else digits_val 0 (b :: bs)
    | [] => 0
    end in
  if (- 2 ^ 31 <=? n) && (n <? 2 ^ 31) then Done n else Undef Overflow.

(** ** C strings *)

(** [std::make_unique<char[]>(s.size())], [strcpy] of [s.c_str()] into it, and the
    C string that is in the block then *)
Definition copy_cstr `{!Platform} (s : list byte) : res (list byte) :=
  t ← orelse OutOfBounds (cstring (s ++ [NUL]));
  block ← orelse OutOfBounds (splice (replicate (usable (length s)) NUL) 0 (t ++ [NUL]));
  orelse OutOfBounds (cstring block).

(** ** Lemmas *)

Definition digit_byte (d : N) : byte := Ascii.byte_of_ascii (pretty_N_char d).

Lemma byte_val_digit d : (d < 10)%N -> byte_val (digit_byte d) = 48 + Z.of_N d.
Proof.
  intros Hd. assert (d = 0 \/ d = 1 \/ d = 2 \/ d = 3 \/ d = 4 \/ d = 5 \/ d = 6 \/ d = 7 \/ d = 8 \/ d = 9)%N
    as Hc by lia. by repeat destruct Hc as [->|Hc]; [..|subst].
Qed.

Lemma is_digit_digit d : (d < 10)%N -> is_digit (digit_byte d) = true.
Proof. intros Hd. unfold is_digit. rewrite byte_val_digit by done. lia. Qed.

(** the digits [pretty] prints, and those that follow *)
Lemma digits_val_pretty x : forall s,
  digits_val 0 (String.list_byte_of_string (pretty_N_go x s)) =
  digits_val (Z.of_N x) (String.list_byte_of_string s).
Proof.
  induction (N.lt_wf_0 x) as [x _ IH]. intros s. destruct (decide (x = 0)%N) as [->|Hx]; [done|].
  rewrite pretty_N_go_step by lia. rewrite IH by (apply N.div_lt; lia).
  change (String.list_byte_of_string (String.String ?c s))
    with (Ascii.byte_of_ascii c :: String.list_byte_of_string s).
  pose proof (N.mod_lt x 10 ltac:(lia)) as Hm. pose proof (N.div_mod x 10 ltac:(lia)) as Hd.
  cbn [digits_val]. fold (digit_byte (x mod 10)). rewrite is_digit_digit, byte_val_digit by done.
  f_equal. lia.
Qed.

(** ... all of them digits *)
Lemma pretty_digits x : forall s, Forall (fun b => is_digit b = true) (String.list_byte_of_string s) ->
  Forall (fun b => is_digit b = true) (String.list_byte_of_string (pretty_N_go x s)).
Proof.
  induction (N.lt_wf_0 x) as [x _ IH]. intros s Hs. destruct (decide (x = 0)%N) as [->|Hx]; [done|].
  rewrite pretty_N_go_step by lia. apply IH; [apply N.div_lt; lia|]. constructor; [|done].
  apply is_digit_digit, N.mod_lt. lia.
Qed.

(** the numeral of a natural number *)
Lemma to_string_N x : exists b bs, to_string (Z.of_N x) = b :: bs /\
  Forall (fun b => is_digit b = true) (b :: bs) /\ digits_val 0 (b :: bs) = Z.of_N x.
Proof.
  assert (to_string (Z.of_N x) = String.list_byte_of_string (pretty x)) as -> by by destruct x.
  unfold pretty, pretty_N. case_decide as Hx.
  - subst. exists Byte.x30, []. by repeat constructor.
  - pose proof (digits_val_pretty x ""%string) as Hv. cbn [digits_val] in Hv.
    pose proof (pretty_digits x ""%string ltac:(constructor)) as Hd.
    destruct (String.list_byte_of_string (pretty_N_go x "")) as [|b bs] eqn:E.
    + cbn in Hv. lia.
    + exists b, bs. done.
Qed.

Lemma to_string_opp x : (0 < x)%N -> to_string (- Z.of_N x) = Byte.x2d :: to_string (Z.of_N x).
Proof. by destruct x. Qed.

Lemma digit_bounds b : is_digit b = true -> 48 <= byte_val b <= 57.
Proof. unfold is_digit. lia. Qed.

Lemma atoi_digits b bs : Forall (fun b => is_digit b = true) (b :: bs) ->
  digits_val 0 (b :: bs) < 2 ^ 31 -> 0 <= digits_val 0 (b :: bs) ->
  atoi (b :: bs) = Done (digits_val 0 (b :: bs)).
Proof.
  intros Hd Hlt Hge. apply Forall_cons in Hd as [Hb _]. apply digit_bounds in Hb.
  unfold atoi. cbn [skip_space]. assert (is_space b = false) as -> by (unfold is_space; lia).
  rewrite (proj2 (Z.eqb_neq (byte_val b) 45)), (proj2 (Z.eqb_neq (byte_val b) 43)) by lia.
  destruct (Z.leb_spec (- 2 ^ 31) (digits_val 0 (b :: bs))); [|lia].
  by destruct (Z.ltb_spec (digits_val 0 (b :: bs)) (2 ^ 31)); [|lia].
Qed.

(** a numeral that is an [int] comes back *)
Lemma atoi_to_string n : - 2 ^ 31 < n < 2 ^ 31 -> atoi (to_string n) = Done n.
Proof.
  intros Hn. destruct (decide (0 <= n)) as [Hp|Hp].
  - destruct (to_string_N (Z.to_N n)) as (b & bs & Hs & Hd & Hv). rewrite Z2N.id in * by lia.
    rewrite Hs, atoi_digits, Hv by (done || lia). done.
  - destruct (to_string_N (Z.to_N (- n))) as (b & bs & Hs & Hd & Hv).
    pose proof (to_string_opp (Z.to_N (- n)) ltac:(lia)) as Ho.
    rewrite Z2N.id in * by lia. rewrite Z.opp_involutive in Ho. rewrite Ho, Hs. unfold atoi.
    cbn [skip_space]. change (is_space Byte.x2d) with false. cbv iota.
    change (byte_val Byte.x2d =? 45) with true. cbv iota. rewrite Hv.
    destruct (Z.leb_spec (- 2 ^ 31) (- - n)); [|lia].
    destruct (Z.ltb_spec (- - n) (2 ^ 31)); [|lia]. cbn [andb]. by rewrite Z.opp_involutive.
Qed.

(** a numeral is a C string *)
Lemma to_string_no_nul n : no_nul (to_string n).
Proof.
  unfold no_nul. assert (forall l, Forall (fun b => is_digit b = true) l -> NUL ∉ l) as Hl.
  { intros l Hd Hin. rewrite Forall_forall in Hd. by specialize (Hd _ Hin). }
  destruct (decide (0 <= n)) as [Hp|Hp].
  - destruct (to_string_N (Z.to_N n)) as (b & bs & Hs & Hd & _). rewrite Z2N.id in Hs by lia.
    rewrite Hs. by apply Hl.
  - destruct (to_string_N (Z.to_N (- n))) as (b & bs & Hs & Hd & _).
    pose proof (to_string_opp (Z.to_N (- n)) ltac:(lia)) as Ho.
    rewrite Z2N.id in * by lia. rewrite Z.opp_involutive in Ho. rewrite Ho, Hs.
    apply not_elem_of_cons. split; [done|]. by apply Hl.
Qed.

Section Copy.
Context {plat : Platform}.
Implicit Types s : list byte.

Lemma copy_cstr_block s : no_nul s ->
  copy_cstr s = if decide (length s < usable (length s))%nat then Done s else Undef OutOfBounds.
Proof.
  intros Hs. unfold copy_cstr. rewrite (cstring_app s []) by done. cbn [orelse mbind res_bind].
  case_decide as Hlt.
  - rewrite splice_Some by (rewrite length_app, length_replicate; cbn; lia).
    cbn [orelse mbind res_bind take app]. rewrite <- app_assoc. rewrite take_0. cbn [app]. by rewrite cstring_app.
  - unfold splice. rewrite decide_False; [done|]. rewrite length_app, length_replicate. cbn. lia.
Qed.

Lemma copy_cstr_room s : no_nul s -> (length s < usable (length s))%nat -> copy_cstr s = Done s.
Proof. intros Hs Hl. rewrite copy_cstr_block by done. by rewrite decide_True. Qed.

(** a block of exactly the size asked for has no room for the null byte *)
Lemma copy_cstr_overflow s : no_nul s -> usable (length s) = length s -> copy_cstr s = Undef OutOfBounds.
Proof. intros Hs Hl. rewrite copy_cstr_block by done. rewrite decide_False by lia. done. Qed.

End Copy.
