(* ===== verification/Concrete.v ===== *)
(** * Two concrete hosts

    An allocator and two operating systems to which the theorems of the other
    files are applied.  Each host has the loopback interface and one more: 10.0.0.1
    is the server's, 10.0.0.2 the client's. *)

From Stdlib Require Import String.
From S2P Require Import Prelude Program Queue Factory Interfaces.

(** the first block is zero, other fresh memory holds the byte 0xaa; what lies
    behind a block can be read *)
Definition demo_malloc : Malloc := {|
  junk n _ := match n with O => NUL | _ => Byte.xaa end;
  behind _ := true
|}.

(** "10.0.0.1" and "10.0.0.2" *)
Definition lan_addr : list byte :=
  [Byte.x31; Byte.x30; Byte.x2e; Byte.x30; Byte.x2e; Byte.x30; Byte.x2e; Byte.x31].
Definition lan_addr2 : list byte := take 7 lan_addr ++ [Byte.x32].

(** a host with the interfaces [l]: 1 is the loopback address, 2 and all others but
    3 are 10.0.0.1, 3 is 10.0.0.2 *)
Definition host_with (l : list Z) : OS := {|
  ifconf := Some l;
  inet_ntop a := if a =? 1 then loopback else if a =? 3 then lan_addr2 else lan_addr;
  inet_addr s := if decide (s = loopback) then 1 else if decide (s = lan_addr2) then 3 else 2;
  getnameinfo_ok _ := true
|}.

Definition demo_os : OS := host_with [1; 2].
Definition demo_os_c : OS := host_with [1; 3].

Definition server_addr : sockaddr := mkAddr 9000 2.
Definition client_addr : sockaddr := mkAddr 40000 3.

(** each host as the other one sees it, reached at its one address and port *)
Definition server_remote : remote := mkRemote server_addr (fun a => bool_decide (a = server_addr)) eq_refl.
Definition client_remote : remote := mkRemote client_addr (fun a => bool_decide (a = client_addr)) eq_refl.

(** the queues of the code, and a file of 25 bytes *)
Abbreviation buffer_queue := (Linked.queue ptr).
Definition demo_file : list byte := String.list_byte_of_string "the quick brown fox jumps"%string.

Lemma host_with_short l l' : Forall (short_addr (os:=host_with l)) l'.
Proof.
  apply Forall_forall. intros a _. unfold short_addr, no_nul. cbn.
  repeat case_match; (split; [vm_compute; lia|apply (bool_decide_unpack _); done]).
Qed.
