(* ===== verification/State.v ===== *)
(** * The state of one process

    The globals of session.h and the objects they point to: the two factories
    of the [io_context], the heap of buffers, the receive window, the gateway
    with its interfaces, the session with its processor, and the function-local
    static counters.  [txcurrentWindow] and the timers are never used. *)

From S2P Require Import Prelude Wire OrdMap Queue Stream Program Factory Interfaces.
From S2P Require Import Pool.

(** [Gateway] and its [PhyInterfaces]; [sel_i] is the static of
    [selectAddrFromList], the others count datagrams *)
Record gateway := mkGateway {
  peer_addr : sockaddr;
  addressList : list ipaddr_dummy;
  infc : Z;
  peer_addressList : option (list ipaddr_dummy);
  peer_addressCount : Z;
  sel_i : Z;
  send_counter : Z;
  send_ttlsent : Z;
  pull_counter : Z
}.

#[export] Instance upd_peer_addr : Update peer_addr := fun g w =>
  mkGateway (g (peer_addr w)) (addressList w) (infc w) (peer_addressList w)
    (peer_addressCount w) (sel_i w) (send_counter w) (send_ttlsent w) (pull_counter w).
#[global] Arguments upd_peer_addr _ _ /.
#[export] Instance upd_peer_addressList : Update peer_addressList := fun g w =>
  mkGateway (peer_addr w) (addressList w) (infc w) (g (peer_addressList w))
    (peer_addressCount w) (sel_i w) (send_counter w) (send_ttlsent w) (pull_counter w).
#[global] Arguments upd_peer_addressList _ _ /.
#[export] Instance upd_peer_addressCount : Update peer_addressCount := fun g w =>
  mkGateway (peer_addr w) (addressList w) (infc w) (peer_addressList w)
    (g (peer_addressCount w)) (sel_i w) (send_counter w) (send_ttlsent w) (pull_counter w).
#[global] Arguments upd_peer_addressCount _ _ /.
#[export] Instance upd_sel_i : Update sel_i := fun g w =>
  mkGateway (peer_addr w) (addressList w) (infc w) (peer_addressList w)
    (peer_addressCount w) (g (sel_i w)) (send_counter w) (send_ttlsent w) (pull_counter w).
#[global] Arguments upd_sel_i _ _ /.
#[export] Instance upd_send_counter : Update send_counter := fun g w =>
  mkGateway (peer_addr w) (addressList w) (infc w) (peer_addressList w)
    (peer_addressCount w) (sel_i w) (g (send_counter w)) (send_ttlsent w) (pull_counter w).
#[global] Arguments upd_send_counter _ _ /.
#[export] Instance upd_send_ttlsent : Update send_ttlsent := fun g w =>
  mkGateway (peer_addr w) (addressList w) (infc w) (peer_addressList w)
    (peer_addressCount w) (sel_i w) (send_counter w) (g (send_ttlsent w)) (pull_counter w).
#[global] Arguments upd_send_ttlsent _ _ /.
#[export] Instance upd_pull_counter : Update pull_counter := fun g w =>
  mkGateway (peer_addr w) (addressList w) (infc w) (peer_addressList w)
    (peer_addressCount w) (sel_i w) (send_counter w) (send_ttlsent w) (g (pull_counter w)).
#[global] Arguments upd_pull_counter _ _ /.

(** [struct connection] *)
Record connection := mkConnection { id : Z; src : Z; dst : Z; status : Z }.

#[export] Instance connection_eq_dec : EqDecision connection.
Proof. solve_decision. Defined.

(** what [std::map::operator[]] inserts for a key that is absent *)
Definition connection_zero : connection := mkConnection 0 0 0 0.

#[export] Instance upd_id : Update id := fun g c =>
  mkConnection (u16 (g (id c))) (src c) (dst c) (status c).
#[global] Arguments upd_id _ _ /.
#[export] Instance upd_dst : Update dst := fun g c =>
  mkConnection (id c) (src c) (u8 (g (dst c))) (status c).
#[global] Arguments upd_dst _ _ /.

(** [Session], its [SessionProcessor] ([winSize], [capsuleId]), and the statics
    of [genSrcId], [genDestId] and [genConnId] *)
Record session := mkSession {
  connections : gmap Z connection;
  connection_count : Z;
  complete : bool;
  next : stateCodes;
  is_done : bool;
  winSize : Z;
  capsuleId : Z;
  prevSrcid : Z;
  prevDstid : Z;
  prevConnid : Z
}.

#[export] Instance upd_connections : Update connections := fun g s =>
  mkSession (g (connections s)) (connection_count s) (complete s) (next s) (is_done s)
    (winSize s) (capsuleId s) (prevSrcid s) (prevDstid s) (prevConnid s).
#[global] Arguments upd_connections _ _ /.
#[export] Instance upd_connection_count : Update connection_count := fun g s =>
  mkSession (connections s) (i32 (g (connection_count s))) (complete s) (next s) (is_done s)
    (winSize s) (capsuleId s) (prevSrcid s) (prevDstid s) (prevConnid s).
#[global] Arguments upd_connection_count _ _ /.
#[export] Instance upd_complete : Update complete := fun g s =>
  mkSession (connections s) (connection_count s) (g (complete s)) (next s) (is_done s)
    (winSize s) (capsuleId s) (prevSrcid s) (prevDstid s) (prevConnid s).
#[global] Arguments upd_complete _ _ /.
#[export] Instance upd_next : Update next := fun g s =>
  mkSession (connections s) (connection_count s) (complete s) (g (next s)) (is_done s)
    (winSize s) (capsuleId s) (prevSrcid s) (prevDstid s) (prevConnid s).
#[global] Arguments upd_next _ _ /.
#[export] Instance upd_is_done : Update is_done := fun g s =>
  mkSession (connections s) (connection_count s) (complete s) (next s) (g (is_done s))
    (winSize s) (capsuleId s) (prevSrcid s) (prevDstid s) (prevConnid s).
#[global] Arguments upd_is_done _ _ /.
#[export] Instance upd_winSize : Update winSize := fun g s =>
  mkSession (connections s) (connection_count s) (complete s) (next s) (is_done s)
    (u16 (g (winSize s))) (capsuleId s) (prevSrcid s) (prevDstid s) (prevConnid s).
#[global] Arguments upd_winSize _ _ /.
#[export] Instance upd_capsuleId : Update capsuleId := fun g s =>
  mkSession (connections s) (connection_count s) (complete s) (next s) (is_done s)
    (winSize s) (i32 (g (capsuleId s))) (prevSrcid s) (prevDstid s) (prevConnid s).
#[global] Arguments upd_capsuleId _ _ /.
#[export] Instance upd_prevSrcid : Update prevSrcid := fun g s =>
  mkSession (connections s) (connection_count s) (complete s) (next s) (is_done s)
    (winSize s) (capsuleId s) (u8 (g (prevSrcid s))) (prevDstid s) (prevConnid s).
#[global] Arguments upd_prevSrcid _ _ /.
#[export] Instance upd_prevDstid : Update prevDstid := fun g s =>
  mkSession (connections s) (connection_count s) (complete s) (next s) (is_done s)
    (winSize s) (capsuleId s) (prevSrcid s) (u8 (g (prevDstid s))) (prevConnid s).
#[global] Arguments upd_prevDstid _ _ /.
#[export] Instance upd_prevConnid : Update prevConnid := fun g s =>
  mkSession (connections s) (connection_count s) (complete s) (next s) (is_done s)
    (winSize s) (capsuleId s) (prevSrcid s) (prevDstid s) (u16 (g (prevConnid s))).
#[global] Arguments upd_prevConnid _ _ /.

(** a fresh [Session]: [SessionProcessor] starts with window size 0 *)
Definition session_new : session :=
  mkSession ∅ 0 false s_open false 0 0 0 0 0.

(** the whole process; [Q] is the queue of buffers.  The tasks of the session's
    worker pool are function objects on the heap, which the model knows by their
    address only: nothing in the program submits one. *)
Record proc (Q : Type) := mkProc {
  txFactory : factory Q;
  rxFactory : factory Q;
  heap : store;
  rxcurrentWindow : list (Z * ptr);
  gw : gateway;
  ses : session;
  pool : thread_pool Q
}.
Arguments mkProc {Q} _ _ _ _ _ _ _.
Arguments txFactory {Q} _.
Arguments rxFactory {Q} _.
Arguments heap {Q} _.
Arguments rxcurrentWindow {Q} _.
Arguments gw {Q} _.
Arguments ses {Q} _.
Arguments pool {Q} _.

Section ProcUpdates.
Context {Q : Type}.
#[export] Instance upd_txFactory : Update (@txFactory Q) := fun g p =>
  mkProc (g (txFactory p)) (rxFactory p) (heap p) (rxcurrentWindow p) (gw p) (ses p) (pool p).
#[export] Instance upd_rxFactory : Update (@rxFactory Q) := fun g p =>
  mkProc (txFactory p) (g (rxFactory p)) (heap p) (rxcurrentWindow p) (gw p) (ses p) (pool p).
#[export] Instance upd_heap : Update (@heap Q) := fun g p =>
  mkProc (txFactory p) (rxFactory p) (g (heap p)) (rxcurrentWindow p) (gw p) (ses p) (pool p).
#[export] Instance upd_rxcurrentWindow : Update (@rxcurrentWindow Q) := fun g p =>
  mkProc (txFactory p) (rxFactory p) (heap p) (g (rxcurrentWindow p)) (gw p) (ses p) (pool p).
#[export] Instance upd_gw : Update (@gw Q) := fun g p =>
  mkProc (txFactory p) (rxFactory p) (heap p) (rxcurrentWindow p) (g (gw p)) (ses p) (pool p).
#[export] Instance upd_ses : Update (@ses Q) := fun g p =>
  mkProc (txFactory p) (rxFactory p) (heap p) (rxcurrentWindow p) (gw p) (g (ses p)) (pool p).
#[export] Instance upd_pool : Update (@pool Q) := fun g p =>
  mkProc (txFactory p) (rxFactory p) (heap p) (rxcurrentWindow p) (gw p) (ses p) (g (pool p)).
End ProcUpdates.
#[global] Arguments upd_txFactory {Q} _ _ /.
#[global] Arguments upd_rxFactory {Q} _ _ /.
#[global] Arguments upd_heap {Q} _ _ /.
#[global] Arguments upd_rxcurrentWindow {Q} _ _ /.
#[global] Arguments upd_gw {Q} _ _ /.
#[global] Arguments upd_ses {Q} _ _ /.
#[global] Arguments upd_pool {Q} _ _ /.

(** ** Access to the state from the methods *)

Section Access.
Context {Q : Type} `{!Fifo Q ptr} `{!Malloc}.
Abbreviation Mp := (M (proc Q)).

(** the factory a method is called on: [txFactory] or [rxFactory] *)
Definition factory_of (d : stateDirection) (p : proc Q) : factory Q :=
  match d with TX => txFactory p | RX => rxFactory p end.
Definition set_factory (d : stateDirection) (f : factory Q) (p : proc Q) : proc Q :=
  match d with TX => p <| txFactory := f |> | RX => p <| rxFactory := f |> end.

(** [p->data.get()] dereferenced *)
Definition read_capsule (p : ptr) : Mp capsule :=
  h ← gets heap; lift (load_capsule p h).
Definition write_capsule (p : ptr) (c : capsule) : Mp unit :=
  h ← gets heap; h ← lift (put_capsule p c h); modify (upd heap (fun _ => h)).
(** [p->size], [p->size = n] *)
Definition read_size (p : ptr) : Mp Z :=
  h ← gets heap; b ← lift (load p h); lift (orelse Uninitialised (mb_size b)).
Definition write_size (p : ptr) (n : Z) : Mp unit :=
  h ← gets heap; b ← lift (load p h);
  modify (upd heap (put p (b <| mb_size := Some n |>))).
(** a [shared_ptr] goes out of scope *)
Definition release (o : option ptr) : Mp unit :=
  match o with
  | Some p => modify (upd heap (drop_shared p))
  | None => mret tt
  end.

(** [factory->buffer.try_pop()] *)
Definition pop_buffer (d : stateDirection) : Mp (option ptr) :=
  f ← gets (factory_of d);
  '(r, q) ← lift (orelse BadQueue (q_try_pop (buffer f)));
  modify (set_factory d (f <| buffer := q |>));; mret r.

(** [factory->makeChunkforRx(factory)] *)
Definition make_chunk (d : stateDirection) : Mp ptr :=
  f ← gets (factory_of d); h ← gets heap;
  '(p, f, h) ← lift (makeChunkforRx f h);
  modify (set_factory d f);; modify (upd heap (fun _ => h));; mret p.

End Access.
