(* ===== verification/Gateway.v ===== *)
(** * [Gateway] and [GatewayProcessor] (gateway.h)

    Sending and receiving capsules: the header is copied in front of the
    payload and the bytes go out in one datagram; a received datagram is read
    into the body of a fresh buffer and its header is stripped. *)

From S2P Require Import Prelude Wire OrdMap Queue Stream Program Factory Interfaces.
From S2P Require Import Pool State.

(** ** Header and body *)

(** [memcpy(c->body, &c->header, HEADER_SPACE)] *)
Definition header_to_body (c : capsule) : res capsule :=
  b ← buf_write (body c) 0 (encode_hdr (header c)); Done (c <| body := b |>).

(** [GatewayProcessor::setCapParams] *)
Definition GatewayProcessor_setCapParams (buf : option capsule) : res (option capsule) :=
  match buf with
  | Some c => c ← header_to_body c; Done (Some c)
  | None => Done None
  end.

(** [stripHeader(buf)]: the header is what the first bytes of the body are,
    the body starts after them *)
Definition stripHeader (buf : capsule) : res capsule :=
  bs ← buf_read (body buf) (Z.to_nat HEADER_SPACE);
  Done (mkCapsule (decode_hdr bs)
          (mkBuf (blk (body buf)) (boff (body buf) + Z.to_nat HEADER_SPACE))).

(** the bytes [sendto(sfd, c->body, amt2Send, ...)] reads *)
Definition datagram (c : capsule) : res (list byte) :=
  buf_read (body c) (Z.to_nat (capSize (header c) + HEADER_SPACE)).

(** the bytes [recvfrom(sfd, body, len, ...)] stores: the rest of the datagram
    is lost *)
Definition recv_into (b : cbuf) (len : Z) (dgram : list byte) : res (Z * cbuf) :=
  let bs := take (Z.to_nat len) dgram in
  b ← buf_write b 0 bs; Done (Z.of_nat (length bs), b).

Section Gateway.
Context {Q : Type} `{!Fifo Q ptr} `{!Malloc} `{!OS}.
Abbreviation Mp := (M (proc Q)).

(** [selectAddrFromList()] *)
Definition selectAddrFromList : Mp sockaddr :=
  g ← gets gw;
  match peer_addressList g with
  | None => mret (peer_addr g)
  | Some l =>
      '(a, i) ← lift (select_addr l (peer_addressCount g) (sel_i g));
      modify (upd gw (upd sel_i (fun _ => i)));;
      mret (mkAddr (sin_port (peer_addr g)) a)
  end.

(** [chunkWrite(chunk2Write)]: a failed or partial write is only reported *)
Definition chunkWrite (p : ptr) : Mp unit :=
  c ← read_capsule p;
  c ← lift (header_to_body c);
  write_capsule p c;;
  s ← selectAddrFromList;
  bs ← lift (datagram c);
  r ← sendto s bs;
  mret tt.

(** [send(chunk2Send)]: a failed write ends the process *)
Definition send (p : ptr) : Mp unit :=
  s ← selectAddrFromList;
  c ← read_capsule p;
  c ← lift (header_to_body c);
  write_capsule p c;;
  bs ← lift (datagram c);
  nread ← sendto s bs;
  if nread <=? 0 then exit_ 1
  else
    modify (upd gw (upd send_ttlsent (fun t => i32 (t + nread))));;
    modify (upd gw (upd send_counter (fun t => i32 (t + 1)))).

(** [pull()] *)
Definition pull : Mp ptr :=
  emptyChunk ← make_chunk RX;
  c ← read_capsule emptyChunk;
  f ← gets rxFactory;
  r ← recvfrom;
  match r with
  | RecvErr => exit_ 1
  | RecvOk src dgram =>
      '(nread, b) ← lift (recv_into (body c) (u64 (chunkSize f)) dgram);
      modify (upd gw (upd peer_addr (fun _ => src)));;
      write_size emptyChunk nread;;
      c ← lift (stripHeader (c <| body := b |>));
      write_capsule emptyChunk c;;
      modify (upd gw (upd pull_counter (fun t => i32 (t + 1))));;
      mret emptyChunk
  end.

(** [receive(chunk2recv)] *)
Definition receive (chunk2recv : ptr) : Mp unit :=
  c ← read_capsule chunk2recv;
  len ← read_size chunk2recv;
  r ← recvfrom;
  match r with
  | RecvErr => exit_ 1
  | RecvOk src dgram =>
      '(nread, b) ← lift (recv_into (body c) (u64 len) dgram);
      modify (upd gw (upd peer_addr (fun _ => src)));;
      if getnameinfo_ok src then
        write_size chunk2recv nread;;
        c ← lift (stripHeader (c <| body := b |>));
        write_capsule chunk2recv c
      else exit_ 1
  end.

(** [Gateway(...)] and [PhyInterfaces(...)]: the interfaces are counted, then
    collected; [n] is the number of the block [ifc] is allocated in, the list comes
    after it *)
Definition gateway_new (peer : sockaddr) (n : nat) : res gateway :=
  _ ← ifc_new n;
  _ ← _noOfInterfaces;
  '(count, l) ← interfacesToIpV4addr (S n);
  Done (mkGateway peer l count None 0 0 0 0 0).

End Gateway.

#[global] Arguments header_to_body : simpl never.
#[global] Arguments stripHeader : simpl never.
#[global] Arguments datagram : simpl never.
#[global] Arguments recv_into : simpl never.

(** ** Lemmas *)

(** a body that starts at its block and has room for the header and the
    payload the header announces *)
Definition sendable (c : capsule) : Prop :=
  boff (body c) = 0%nat /\ 0 <= capSize (header c) /\
  (14 + Z.to_nat (capSize (header c)) <= length (blk (body c)))%nat.

(** the datagram such a capsule becomes *)
Definition wire_bytes (c : capsule) : list byte :=
  encode_hdr (header c) ++ take (Z.to_nat (capSize (header c))) (drop 14 (blk (body c))).

Definition with_header (c : capsule) : capsule :=
  mkCapsule (header c) (mkBuf (encode_hdr (header c) ++ drop 14 (blk (body c))) 0).

Lemma header_to_body_ok c : sendable c -> header_to_body c = Done (with_header c).
Proof.
  intros (Ho & Hz & Hl). unfold header_to_body.
  rewrite buf_write_ok by (rewrite length_encode_hdr; lia).
  rewrite Ho, length_encode_hdr. cbn. done.
Qed.

Lemma datagram_ok c : sendable c -> datagram (with_header c) = Done (wire_bytes c).
Proof.
  intros (Ho & Hz & Hl). unfold datagram. cbn [header body with_header].
  assert (Z.to_nat (capSize (header c) + HEADER_SPACE) = 14 + Z.to_nat (capSize (header c)))%nat
    as -> by (unfold HEADER_SPACE; lia).
  rewrite buf_read_ok.
  - cbn [blk boff]. rewrite drop_0, take_app, length_encode_hdr.
    rewrite take_ge by (rewrite length_encode_hdr; lia). unfold wire_bytes.
    do 3 f_equal. lia.
  - cbn [blk boff]. rewrite length_app, length_encode_hdr, length_drop. lia.
Qed.

Lemma length_wire_bytes c : sendable c ->
  length (wire_bytes c) = (14 + Z.to_nat (capSize (header c)))%nat.
Proof.
  intros (Ho & Hz & Hl). unfold wire_bytes.
  rewrite length_app, length_encode_hdr, length_take, length_drop. lia.
Qed.

(** a received capsule: the datagram is in the block, the body pointer is
    behind the header *)
Definition received (blk : list byte) (dgram : list byte) : capsule :=
  mkCapsule (decode_hdr dgram) (mkBuf (dgram ++ drop (length dgram) blk) 14).

Lemma recv_into_ok b len dgram :
  boff b = 0%nat -> (length dgram <= length (blk b))%nat -> Z.of_nat (length dgram) <= len ->
  recv_into b len dgram =
    Done (Z.of_nat (length dgram), mkBuf (dgram ++ drop (length dgram) (blk b)) 0).
Proof.
  intros Ho Hl Hlen. unfold recv_into. rewrite take_ge by lia.
  rewrite buf_write_ok by lia. rewrite Ho. done.
Qed.

Lemma stripHeader_ok h b dgram r :
  (14 <= length dgram)%nat -> b = mkBuf (dgram ++ r) 0 ->
  stripHeader (mkCapsule h b) = Done (mkCapsule (decode_hdr dgram) (mkBuf (dgram ++ r) 14)).
Proof.
  intros Hl ->. unfold stripHeader. change (Z.to_nat HEADER_SPACE) with 14%nat.
  rewrite buf_read_ok by (cbn; rewrite length_app; lia). cbn [body blk boff mbind res_bind].
  rewrite drop_0, take_app_le by lia. do 2 f_equal.
  rewrite <- (take_drop 14 dgram) at 2.
  by rewrite decode_hdr_app by (rewrite length_take; lia).
Qed.

(** ** Where the datagrams go *)

Section Aim.
Context {os : OS}.
Variable peer : remote.

(** the address in the list entry [str], at the peer's port, is one of the peer's *)
Definition leads_to (str : list byte) : Prop :=
  reached peer (mkAddr (sin_port (from peer)) (inet_addr str)) = true.

(** whatever [selectAddrFromList] chooses, the peer receives it *)
Definition aims (g : gateway) : Prop :=
  sin_port (peer_addr g) = sin_port (from peer) /\
  match peer_addressList g with
  | None => reached peer (peer_addr g) = true
  | Some l =>
      0 < peer_addressCount g <= Z.of_nat (length l) /\
      Forall (fun a => exists str, cstring (area a) = Some str /\ leads_to str)
        (take (Z.to_nat (peer_addressCount g)) l)
  end.

(** the gateway has the interfaces [al] and can choose an address of the peer [n]
    times *)
Definition gw_ok (al : list ipaddr_dummy) (n : Z) (g : gateway) : Prop :=
  addressList g = al /\ 0 <= sel_i g /\ sel_i g + n < 2 ^ 31 /\ (0 < n -> aims g).

(** it has heard nothing yet *)
Definition gw_deaf (al : list ipaddr_dummy) (g : gateway) : Prop :=
  addressList g = al /\ peer_addressList g = None /\ sel_i g = 0.

Lemma gw_ok_weaken al n n' g : gw_ok al n g -> n' <= n -> gw_ok al n' g.
Proof. intros (? & ? & ? & Ha) ?. repeat split; try done; try lia; intros; apply Ha; lia. Qed.

Lemma gw_deaf_ok al g : gw_deaf al g -> gw_ok al 0 g.
Proof. intros (? & _ & ?). repeat split; try done; lia. Qed.

(** a datagram tells the peer's address *)
Lemma aims_heard g : aims g -> aims (g <| peer_addr := from peer |>).
Proof.
  intros [_ Hl]. split; [done|]. cbn. destruct (peer_addressList g); [done|]. apply from_reached.
Qed.

Lemma gw_heard_first al n g : gw_deaf al g -> 0 <= n < 2 ^ 31 ->
  gw_ok al n (g <| peer_addr := from peer |>).
Proof.
  intros (Hal & Hp & Hi) Hn. unfold gw_ok, aims. cbn. rewrite Hp, Hi.
  repeat split; try done; try lia. apply from_reached.
Qed.

End Aim.

Section GatewayLemmas.
Context {Q : Type} {fifo : Fifo Q ptr} {laws : FifoLaws Q ptr} {mal : Malloc} {os : OS}.
Variable peer : remote.
Implicit Types s : proc Q.

Lemma read_capsule_exec p sz c s :
  bufs (heap s) !! p = Some (mkMemBuff sz (Some c)) -> read_capsule p s = Ret c s.
Proof. intros Hp. unfold read_capsule, gets, mbind, M_bind. cbn [pbind].
  unfold lift, load_capsule, load. by rewrite Hp. Qed.

Lemma read_size_exec p sz c s :
  bufs (heap s) !! p = Some (mkMemBuff (Some sz) c) -> read_size p s = Ret sz s.
Proof. intros Hp. unfold read_size, gets, mbind, M_bind. cbn [pbind].
  unfold lift, load. by rewrite Hp. Qed.

Lemma write_capsule_exec p sz c0 c s :
  bufs (heap s) !! p = Some (mkMemBuff sz c0) ->
  write_capsule p c s = Ret tt (s <| heap ::= put p (mkMemBuff sz (Some c)) |>).
Proof.
  intros Hp. unfold write_capsule, gets, mbind, M_bind. cbn [pbind]. unfold lift.
  by rewrite (put_capsule_lookup _ _ _ _ Hp).
Qed.

Lemma write_size_exec p sz c n s :
  bufs (heap s) !! p = Some (mkMemBuff sz c) ->
  write_size p n s = Ret tt (s <| heap ::= put p (mkMemBuff (Some n) c) |>).
Proof. intros Hp. unfold write_size, gets, mbind, M_bind. cbn [pbind].
  unfold lift, load. by rewrite Hp. Qed.

Lemma selectAddr_exec al n s : gw_ok peer al n (gw s) -> 1 <= n ->
  exists dst g, selectAddrFromList s = Ret dst (s <| gw := g |>) /\ reached peer dst = true /\
    gw_ok peer al (n - 1) g.
Proof.
  intros (Hal & Hi & Hn & Ha) H1. destruct (Ha ltac:(lia)) as [Hport Hl].
  destruct s as [tx rx h w g ss pl]. cbn in Hal, Hi, Hn, Ha, Hport, Hl.
  unfold selectAddrFromList. m_unfold. cbn [gw].
  destruct (peer_addressList g) as [l|] eqn:Hp.
  - destruct Hl as [Hc Hf].
    destruct (select_addr_ok l (peer_addressCount g) (sel_i g)) as (a & str & Hla & Hstr & ->);
      [done|lia|by eapply Forall_impl; [exact Hf|]; intros a (str & -> & _)|].
    cbn. eexists _, _. split; [done|]. split.
    + rewrite Hport. rewrite Forall_lookup in Hf. pose proof (Z.mod_pos_bound (sel_i g + 1) (peer_addressCount g)).
      destruct (Hf (Z.to_nat ((sel_i g + 1) mod peer_addressCount g)) a) as (str' & Hs' & Hr);
        [rewrite lookup_take_lt by lia; done|]. rewrite Hstr in Hs'. by injection Hs' as <-.
    + unfold gw_ok, aims in *. cbn. rewrite Hp in *. repeat split; try done; lia.
  - eexists _, g. split; [done|]. split; [done|]. unfold gw_ok, aims. rewrite Hp. repeat split; try done; lia.
Qed.

(** both ways of sending: the capsule leaves in one datagram *)
Lemma chunkWrite_exec p sz c al n s :
  bufs (heap s) !! p = Some (mkMemBuff sz (Some c)) -> sendable c ->
  gw_ok peer al n (gw s) -> 1 <= n ->
  exists g, gw_ok peer al (n - 1) g /\
    exec peer (chunkWrite p) s [Mine (wire_bytes c)] tt
      (s <| heap ::= put p (mkMemBuff sz (Some (with_header c))) |> <| gw := g |>).
Proof.
  intros Hp Hc Hg Hn. destruct s as [tx rx h w g ss pl]. cbn in Hp, Hg.
  pose (s1 := mkProc tx rx (put p (mkMemBuff sz (Some (with_header c))) h) w g ss pl).
  destruct (selectAddr_exec al n s1 Hg Hn) as (dst & g' & Hs & Hr & Hg'). exists g'. split; [done|].
  unfold chunkWrite. eapply exec_pure; [by eapply read_capsule_exec|].
  ex_lift (header_to_body_ok c Hc).
  eapply exec_pure; [by eapply write_capsule_exec|].
  eapply exec_pure; [exact Hs|]. ex_lift (datagram_ok c Hc).
  apply exec_sendto; [exact Hr|]. apply exec_ret.
Qed.

Lemma send_exec p sz c al n s :
  bufs (heap s) !! p = Some (mkMemBuff sz (Some c)) -> sendable c ->
  gw_ok peer al n (gw s) -> 1 <= n ->
  exists g, gw_ok peer al (n - 1) g /\
    exec peer (send p) s [Mine (wire_bytes c)] tt
      (s <| heap ::= put p (mkMemBuff sz (Some (with_header c))) |> <| gw := g |>).
Proof.
  intros Hp Hc Hg Hn.
  destruct (selectAddr_exec al n s Hg Hn) as (dst & g & Hs & Hr & Hg').
  destruct s as [tx rx h w g0 ss pl]. cbn in Hp, Hg, Hs.
  pose (g1 := g <| send_ttlsent ::= fun t => i32 (t + Z.of_nat (length (wire_bytes c))) |>
                <| send_counter ::= fun t => i32 (t + 1) |>).
  exists g1. split; [exact Hg'|].
  unfold send. eapply exec_pure; [exact Hs|].
  eapply exec_pure; [by eapply read_capsule_exec|].
  ex_lift (header_to_body_ok c Hc).
  eapply exec_pure; [by eapply write_capsule_exec|]. ex_lift (datagram_ok c Hc).
  apply exec_sendto; [exact Hr|]. rewrite length_wire_bytes by done.
  destruct (Z.leb_spec (Z.of_nat (14 + Z.to_nat (capSize (header c)))) 0); [lia|].
  ex_pure. apply exec_eq. unfold g1. by rewrite length_wire_bytes by done.
Qed.

(** the buffer a received datagram ends up in *)
Definition recv_buff (n : nat) (siz : Z) (dgram : list byte) : memBuff :=
  mkMemBuff (Some (Z.of_nat (length dgram))) (Some (received (malloc n siz) dgram)).

(** the heap after one more received capsule *)
Definition heap_recv (siz : Z) (dgram : list byte) (h : store) : store :=
  mkStore (<[next_ptr h := recv_buff (mallocs h) siz dgram]> (bufs h))
    (S (next_ptr h)) (S (mallocs h)) (u32 (hdrid h + 1)).

Lemma pull_exec dgram siz l al n s :
  q_rep (buffer (rxFactory s)) l -> chunkSize (rxFactory s) = siz -> 0 <= siz < 2 ^ 31 ->
  (14 <= length dgram)%nat -> Z.of_nat (length dgram) <= siz -> gw_ok peer al n (gw s) ->
  exists q g, q_rep q (l ++ [next_ptr (heap s)]) /\ gw_ok peer al n g /\
    exec peer pull s [Theirs dgram] (next_ptr (heap s))
      (s <| rxFactory ::= upd buffer (fun _ => q) |> <| heap ::= heap_recv siz dgram |>
         <| gw := g |>).
Proof.
  intros Hq Hsiz Hs Hd Hd' Hg. destruct s as [tx rx h w g ss pl]. cbn in Hq, Hsiz, Hg |- *.
  destruct (makeChunkforRx_spec rx h l Hq) as (q & Hq' & Hmk).
  exists q, (g <| peer_addr := from peer |> <| pull_counter ::= fun t => i32 (t + 1) |>).
  split; [done|]. split.
  { destruct Hg as (Hal & Hi & Hn & Ha). split; [done|]. split; [done|]. split; [done|].
    intros H0. exact (aims_heard peer g (Ha H0)). }
  unfold pull. eapply exec_bind0.
  { unfold make_chunk. ex_pure. ex_pure. cbn [factory_of heap rxFactory]. ex_lift Hmk.
    ex_pure. ex_pure. apply exec_ret. }
  cbn. eapply exec_pure; [eapply read_capsule_exec; cbn; by rewrite lookup_insert_eq|].
  ex_pure. apply exec_recvfrom. cbv beta iota. cbn [body rxFactory chunkSize].
  assert ((length dgram <= length (malloc (mallocs h) siz))%nat) as Hm by (rewrite length_malloc; lia).
  eapply exec_lift.
  { apply recv_into_ok; cbn; [done|by rewrite Hsiz|]. rewrite Hsiz, u64_small; lia. }
  cbv beta iota. ex_pure.
  eapply exec_pure; [eapply write_size_exec; cbn; by rewrite lookup_insert_eq|].
  eapply exec_lift; [by apply stripHeader_ok|]. cbv beta iota.
  eapply exec_pure; [eapply write_capsule_exec; cbn; by rewrite lookup_insert_eq|].
  ex_pure. eapply eq_rect; [apply exec_ret|]. cbn. unfold heap_recv, recv_buff, received, put. cbn.
  rewrite Hsiz, !insert_insert_eq. done.
Qed.

End GatewayLemmas.
