(* ===== verification/Presentation.v ===== *)
(** * [PresentationProcessor] and [Compositor] (presentation.h) *)

From S2P Require Import Prelude Wire OrdMap Queue Stream Program Factory Interfaces.
From S2P Require Import Pool State Gateway Concrete.

Section Presentation.
Context {Q : Type} `{!Fifo Q ptr} `{!Malloc} `{!OS}.
Abbreviation Mp := (M (proc Q)).

(** [write2Souce(rxFactory, chunk)] *)
Definition write2Souce (chunk : ptr) : Mp unit :=
  c ← read_capsule chunk;
  sz ← read_size chunk;
  f ← gets rxFactory;
  f ← lift (write2Source c sz f);
  let f := f <| curPos ::= fun x => i32 (x + sz) |> <| curSize ::= fun x => i32 (x + sz) |> in
  let f := if allocSize f <=? curPos f then f <| curPos := 0 |> else f in
  modify (upd rxFactory (fun _ => f)).

(** the loop over the window, in the order of its keys *)
Fixpoint write_window (w : list (Z * ptr)) : Mp unit :=
  match w with
  | [] => mret tt
  | (_, windowBuffer) :: w =>
      c ← read_capsule windowBuffer;
      (if type_bits (header c) PAYLD =? 0 then mret tt else write2Souce windowBuffer);;
      write_window w
  end.

(** [PresentationProcessor::process(factory, currentWindow, state)] *)
Definition PresentationProcessor_process (w : list (Z * ptr)) (state : stateCodes) : Mp unit :=
  match state with
  | s_done => write_window w
  | _ => mret tt
  end.

(** [PresentationProcessor::setCapParams(buf, p, state)]: the compression is
    commented out *)
Definition PresentationProcessor_setCapParams (p : ptr) : Mp unit :=
  c ← read_capsule p; c ← lift (header_to_body c); write_capsule p c.

(** [PresentationProcessor::stripHeader(buf)], a copy of the gateway's *)
Definition PresentationProcessor_stripHeader (buf : capsule) : res capsule :=
  bs ← buf_read (body buf) (Z.to_nat HEADER_SPACE);
  let buf := buf <| header := decode_hdr bs |> in
  Done (buf <| body ::= fun b => mkBuf (blk b) (boff b + Z.to_nat HEADER_SPACE) |>).

Lemma PresentationProcessor_stripHeader_eq buf : PresentationProcessor_stripHeader buf = stripHeader buf.
Proof. unfold PresentationProcessor_stripHeader, stripHeader. by destruct (buf_read _ _), buf. Qed.

(** [constructChunk()] *)
Definition constructChunk : Mp ptr :=
  f ← gets txFactory;
  '(chunk, f) ← lift (fetchChunk f);
  modify (upd txFactory (fun _ => f));; mret chunk.

(** [newBuffer(dir)] *)
Definition newBuffer (dir : stateDirection) : Mp ptr :=
  mbuff ← make_chunk dir;
  write_size mbuff sizeof_capsule;;
  mret mbuff.

End Presentation.

(** ** Lemmas *)

(** buffer [p] holds a received capsule: header [hd], payload [pay] *)
Definition holds_chunk (h : store) (p : ptr) (hd : capsuleHdr) (pay : list byte) : Prop :=
  exists r, bufs h !! p =
    Some (mkMemBuff (Some (Z.of_nat (length pay) + HEADER_SPACE))
            (Some (mkCapsule hd (mkBuf (encode_hdr hd ++ pay ++ r) 14)))).

(** the window [w] holds the capsules [ms], in this order *)
Definition window_holds (h : store) (w : list (Z * ptr)) (ms : list (capsuleHdr * list byte)) : Prop :=
  Forall2 (fun e m => e.1 = capid m.1 /\ holds_chunk h e.2 m.1 m.2) w ms.

(** what a factory keeps while chunks are written to its sink *)
Definition same_but_sink {Q} (f f' : factory Q) : Prop :=
  buffer f' = buffer f /\ fin f' = fin f /\ chunkSize f' = chunkSize f.

Section PresentationLemmas.
Context {Q : Type} {fifo : Fifo Q ptr} {laws : FifoLaws Q ptr} {mal : Malloc} {os : OS}.
Variable peer : remote.
Implicit Types s : proc Q.

Lemma write2Souce_exec p hd pay out s :
  holds_chunk (heap s) p hd pay -> sink_at (rxFactory s) out ->
  Z.of_nat (length pay) < 2 ^ 31 - 14 ->
  exists f, exec peer (write2Souce p) s [] tt (s <| rxFactory := f |>) /\
    sink_at f (out ++ pay) /\ same_but_sink (rxFactory s) f.
Proof.
  intros [r Hp] Hsink Hlen.
  destruct (write2Source_append (rxFactory s) out
    (mkCapsule hd (mkBuf (encode_hdr hd ++ pay ++ r) 14)) pay Hsink Hlen) as (d & w & Hw & Hs).
  { exists r. cbn [body blk boff]. by rewrite drop_app_exact by by rewrite length_encode_hdr. }
  { cbn [body blk boff]. rewrite length_app, length_encode_hdr. lia. }
  unfold write2Souce.
  set (g := fun f : factory Q => if allocSize f <=? curPos f then f <| curPos := 0 |> else f).
  set (f1 := rxFactory s <| sourceData := Some d |> <| curWritePos := w |>) in *.
  set (sz := Z.of_nat (length pay) + HEADER_SPACE) in *.
  exists (g (f1 <| curPos ::= fun x => i32 (x + sz) |> <| curSize ::= fun x => i32 (x + sz) |>)).
  split; [|split].
  - eapply exec_pure; [by eapply read_capsule_exec|].
    eapply exec_pure; [by eapply read_size_exec|]. ex_pure. ex_lift Hw. by apply exec_eq.
  - destruct Hs as (gc & z & Hs). exists gc, z. rewrite <- Hs. unfold g. by case_match_goal.
  - unfold g. case_match_goal; done.
Qed.

(** the payloads in a window *)
Definition payloads (ms : list (capsuleHdr * list byte)) : list byte :=
  concat ((filter (fun m => is_payld m.1 = true) ms).*2).

Lemma payloads_cons m ms :
  payloads (m :: ms) = (if is_payld m.1 then m.2 else []) ++ payloads ms.
Proof. unfold payloads. rewrite filter_cons. by destruct (is_payld m.1). Qed.

Lemma payloads_all ms : Forall (fun m => is_payld m.1 = true) ms -> payloads ms = concat (ms.*2).
Proof.
  induction 1 as [|m ms Hm _ IH]; [done|]. rewrite payloads_cons, Hm, IH. done.
Qed.

Lemma write_window_payloads w ms : forall out s,
  window_holds (heap s) w ms -> sink_at (rxFactory s) out ->
  Z.of_nat (length (payloads ms)) < 2 ^ 31 - 14 ->
  exists f, exec peer (write_window w) s [] tt (s <| rxFactory := f |>) /\
    sink_at f (out ++ payloads ms) /\ same_but_sink (rxFactory s) f.
Proof.
  revert ms. induction w as [|[k p] w IH]; intros ms out s Hw Hsink Hlen.
  - inversion Hw; subst. exists (rxFactory s). rewrite app_nil_r. split; [|done].
    destruct s. constructor.
  - inversion Hw as [|? [hd pay] ? ms' [_ Hp] Hw']; subst. cbn [fst snd] in Hp.
    rewrite payloads_cons in *. cbn [fst snd] in *. pose proof Hp as [r Hp'].
    destruct (is_payld hd) eqn:Hm; unfold is_payld in Hm.
    + apply negb_true_iff in Hm. rewrite length_app in Hlen.
      destruct (write2Souce_exec p hd pay out s Hp Hsink) as (f & Hf & Hs & Hb); [lia|].
      destruct (IH ms' (out ++ pay) (s <| rxFactory := f |>)) as (f' & Hf' & Hs' & Hb');
        [done|done|lia|].
      exists f'. rewrite app_assoc. split; [|split; [done|]].
      * cbn [write_window]. eapply exec_pure; [by eapply read_capsule_exec|]. cbn [header].
        rewrite Hm. eapply exec_bind0; [exact Hf|]. exact Hf'.
      * destruct Hb as (?&?&?), Hb' as (?&?&?). cbn in *. repeat split; congruence.
    + apply negb_false_iff in Hm. destruct (IH ms' out s Hw' Hsink Hlen) as (f' & Hf' & Hs').
      exists f'. split; [|exact Hs']. cbn [write_window].
      eapply exec_pure; [by eapply read_capsule_exec|]. cbn [header]. rewrite Hm.
      eapply exec_bind0; [apply exec_ret|]. exact Hf'.
Qed.

Lemma write_window_exec w ms out s :
  window_holds (heap s) w ms -> Forall (fun m => is_payld m.1 = true) ms ->
  sink_at (rxFactory s) out ->
  Z.of_nat (length (concat (ms.*2))) < 2 ^ 31 - 14 ->
  exists f, exec peer (write_window w) s [] tt (s <| rxFactory := f |>) /\
    sink_at f (out ++ concat (ms.*2)) /\ same_but_sink (rxFactory s) f.
Proof. intros Hw Hms. rewrite <- (payloads_all ms Hms). by apply write_window_payloads. Qed.

(** the buffer [newBuffer] returns *)
Definition new_buff (n : nat) (hid siz : Z) : memBuff :=
  mkMemBuff (Some sizeof_capsule)
    (Some (mkCapsule (hdr_zero <| capid := hid |>) (mkBuf (malloc n siz) 0))).

Definition heap_new (siz : Z) (h : store) : store :=
  mkStore (<[next_ptr h := new_buff (mallocs h) (hdrid h) siz]> (bufs h))
    (S (next_ptr h)) (S (mallocs h)) (u32 (hdrid h + 1)).

Lemma newBuffer_exec d l s :
  q_rep (buffer (factory_of d s)) l ->
  exists q, q_rep q (l ++ [next_ptr (heap s)]) /\
    newBuffer d s = Ret (next_ptr (heap s))
      (set_factory d (factory_of d s <| buffer := q |>) s
         <| heap ::= heap_new (chunkSize (factory_of d s)) |>).
Proof.
  intros Hq. destruct (makeChunkforRx_spec (factory_of d s) (heap s) l Hq) as (q & Hq' & Hmk).
  exists q. split; [done|]. unfold newBuffer, make_chunk. m_unfold. rewrite Hmk. cbn [lift pbind].
  set (s1 := upd heap _ _).
  assert (bufs (heap s1) !! next_ptr (heap s) = Some (fresh_chunk (factory_of d s) (heap s))) as Hl.
  { destruct d; cbn; by rewrite lookup_insert_eq. }
  unfold fresh_chunk in Hl. rewrite (write_size_exec _ _ _ _ _ Hl). cbn [pbind]. f_equal.
  subst s1. destruct d; cbn; unfold put, heap_new, new_buff; cbn; by rewrite insert_insert_eq.
Qed.

(** C38: in the state [done], and in no other, the presentation stage appends the
    payloads of the window to the sink, in the order of the capsules'
    identifiers, and passes over the capsules that are not payload. *)
Theorem presentation_writes_window w ms out st s :
  window_holds (heap s) w ms -> sink_at (rxFactory s) out ->
  Z.of_nat (length (payloads ms)) < 2 ^ 31 - 14 ->
  exists s', exec peer (PresentationProcessor_process w st) s [] tt s' /\
    sink_at (rxFactory s') (out ++ if decide (st = s_done) then payloads ms else []) /\
    buffer (rxFactory s') = buffer (rxFactory s) /\ heap s' = heap s.
Proof.
  intros Hw Hs Hl. unfold PresentationProcessor_process. destruct (decide (st = s_done)) as [->|Hst].
  - destruct (write_window_payloads w ms out s Hw Hs Hl) as (f & Hx & Hf & Hb & _).
    exists (s <| rxFactory := f |>). by destruct s.
  - exists s. rewrite app_nil_r. split; [by destruct st; try constructor|done].
Qed.

End PresentationLemmas.

(** a window of a control and a payload capsule *)
Definition demo_ctrl : capsuleHdr := mkHdr 1 1 1 4 3 0 0 0 0 0.
Definition demo_payload : capsuleHdr := mkHdr 1 1 1 5 3 3 0 0 0 0.
Definition demo_chunk_at (h : capsuleHdr) (bs : list byte) : memBuff :=
  mkMemBuff (Some (Z.of_nat (length bs) + HEADER_SPACE)) (Some (mkCapsule h (mkBuf (encode_hdr h ++ bs ++ []) 14))).

Definition demo_present : proc (Linked.queue ptr) :=
  mkProc (@DataFactory_new _ Linked.linked_fifo 64)
    (@DataFactory_new _ Linked.linked_fifo 64 <| sourceData := Some (mkSource OUT (fs_opened []) 0) |>)
    (mkStore {[ 0%nat := demo_chunk_at demo_ctrl [Byte.x41]; 1%nat := demo_chunk_at demo_payload [Byte.x42] ]} 2 2 0)
    [] (mkGateway client_addr [] 0 None 0 0 0 0 0) session_new (@thread_pool_new _ _ Linked.linked_fifo 4).

Lemma presentation_writes_window_witness :
  exists s', exec server_remote (PresentationProcessor_process [(4, 0%nat); (5, 1%nat)] s_done) demo_present [] tt s' /\
    sink_at (rxFactory s') ([] ++ [Byte.x42]) /\
    buffer (rxFactory s') = buffer (rxFactory demo_present) /\ heap s' = heap demo_present.
Proof.
  apply (presentation_writes_window server_remote [(4, 0%nat); (5, 1%nat)]
    [(demo_ctrl, [Byte.x41]); (demo_payload, [Byte.x42])] [] s_done demo_present).
  - constructor; [split; [done|]|constructor; [split; [done|]|constructor]]; by exists [].
  - by exists 0, 0.
  - vm_compute. done.
Defined.
