(* ===== verification/Chunks.v ===== *)
(** * Chunks between a file, the wire and a sink

    A whole file read into chunks, one chunk from the sender's buffer to the
    receiver's, and what becomes of datagrams that are too short, of sinks that
    did not open and of headers that announce too much. *)

From S2P Require Import Prelude Wire Queue Stream Program Factory Interfaces.
From S2P Require Import Pool State Gateway Presentation Concrete.

(** ** Reading a source *)

Section Source.
Context {Q : Type} {fifo : Fifo Q ptr} {laws : FifoLaws Q ptr} {mal : Malloc}.
Implicit Types (f : factory Q) (s : store).

(** [updateDataSource] until it sets [fin] *)
Fixpoint read_source (fuel : nat) f s : res (factory Q * store) :=
  if fin f then Done (f, s)
  else
    match fuel with
    | O => Undef Spin
    | S fuel => '(f, s) ← updateDataSource f s; read_source fuel f s
    end.

(** the buffers at [ps] hold the chunks [cs], in blocks from number [n] on *)
Fixpoint chunks_at (siz : Z) s (n : nat) (ps : list ptr) (cs : list (list byte)) : Prop :=
  match ps, cs with
  | [], [] => True
  | p :: ps, c :: cs => bufs s !! p = Some (source_chunk n siz c) /\ chunks_at siz s (S n) ps cs
  | _, _ => False
  end.

Lemma chunks_at_frame siz s s' n ps cs :
  (forall p, p ∈ ps -> bufs s' !! p = bufs s !! p) -> chunks_at siz s n ps cs -> chunks_at siz s' n ps cs.
Proof.
  revert n cs. induction ps as [|p ps IH]; intros n [|c cs] Hf; cbn; try done.
  intros [Hp Hc]. split; [rewrite Hf; [done|by left]|]. apply IH; [|done].
  intros q Hq. apply Hf. by right.
Qed.

(** full chunks, and a last one that is shorter and not empty, or none *)
Inductive cut (n : nat) : list (list byte) -> Prop :=
| cut_nil : cut n []
| cut_last c : (0 < length c < n)%nat -> cut n [c]
| cut_cons c cs : length c = n -> cut n cs -> cut n (c :: cs).

Lemma cut_length n cs : (0 < n)%nat -> cut n cs ->
  length cs = ((length (concat cs) + n - 1) / n)%nat.
Proof.
  intros Hn. induction 1 as [|c Hc|c cs Hc Hcs IH]; cbn [concat length].
  - rewrite Nat.div_small; cbn; lia.
  - rewrite app_nil_r. apply (Nat.div_unique _ _ 1 (length c - 1)); lia.
  - rewrite IH, length_app, Hc.
    replace (n + length (concat cs) + n - 1)%nat with (length (concat cs) + n - 1 + 1 * n)%nat by lia.
    rewrite Nat.div_add by lia. lia.
Qed.

Lemma read_source_spec siz file fuel : forall f s l off,
  HEADER_SPACE < siz < 2 ^ 16 ->
  q_rep (buffer f) l -> source_at f file off -> chunkSize f = siz -> fin f = false ->
  (off <= length file)%nat -> ((length file - off) / payload siz < fuel)%nat ->
  exists f' s' ps cs, read_source fuel f s = Done (f', s') /\ fin f' = true /\
    q_rep (buffer f') (l ++ ps) /\ chunks_at siz s' (mallocs s) ps cs /\
    concat cs = drop off file /\ cut (payload siz) cs /\
    (forall p, (p < next_ptr s)%nat -> bufs s' !! p = bufs s !! p) /\
    Forall (fun p => (next_ptr s <= p)%nat) ps.
Proof.
  induction fuel as [|fuel IH]; intros f s l off Hsiz Hq Hsrc Hchunk Hfin Hoff Hfuel; [lia|].
  pose proof (payload_pos siz (proj1 Hsiz)) as Hpl. cbn [read_source]. rewrite Hfin.
  destruct (decide (off = length file)) as [->|Hne].
  - rewrite (updateDataSource_end f s file) by (done || by rewrite Hchunk). cbn [mbind res_bind].
    exists (f <| fin := true |>), s, [], []. rewrite app_nil_r, drop_ge by lia.
    split; [by destruct fuel|]. repeat split; try done; constructor.
  - destruct (updateDataSource_read f s file off siz l Hq Hsrc Hchunk Hfin Hsiz ltac:(lia))
      as (q & d & Hq' & Hu & Hnx).
    rewrite Hu. cbn [mbind res_bind]. clear Hu.
    set (bs := take (payload siz) (drop off file)) in *.
    assert (length bs = Nat.min (payload siz) (length file - off)) as Hbs.
    { unfold bs. by rewrite length_take, length_drop. }
    set (s1 := mkStore _ _ _ _).
    assert (bufs s1 !! next_ptr s = Some (source_chunk (mallocs s) siz bs)) as Hnew.
    { cbn. apply lookup_insert_eq. }
    assert (forall p, (p < next_ptr s)%nat -> bufs s1 !! p = bufs s !! p) as Hold.
    { intros p Hp. cbn. apply lookup_insert_ne. lia. }
    case_bool_decide as Hlast.
    + eexists (mkFactory q true _ _ _ _ _ _ _ _), s1, [next_ptr s], [bs].
      split; [by destruct fuel|]. repeat split; try done.
      * cbn [concat]. rewrite app_nil_r. unfold bs. apply take_ge. rewrite length_drop. lia.
      * apply cut_last. lia.
      * constructor; [lia|constructor].
    + assert (length bs = payload siz) as Hbs' by lia.
      set (f1 := mkFactory q false _ _ _ _ _ _ _ _).
      pose proof (Hnx eq_refl) as Hnext1. fold f1 in Hnext1.
      destruct (IH f1 s1 (l ++ [next_ptr s]) (off + length bs)%nat) as
        (f' & s' & ps & cs & Hr & Hf' & Hq2 & Hcs & Hcat & Hcut & Hframe & Hnext); try done; [lia| |].
      { replace (length file - off)%nat with (length file - (off + length bs) + 1 * payload siz)%nat in Hfuel by lia.
        rewrite Nat.div_add in Hfuel by lia. lia. }
      exists f', s', (next_ptr s :: ps), (bs :: cs). split; [exact Hr|]. split; [done|].
      split; [by rewrite <- app_assoc in Hq2|]. split; [split; [|done]|].
      { rewrite Hframe by (cbn; lia). exact Hnew. }
      split; [cbn [concat]; rewrite Hcat, Hbs'; unfold bs; rewrite <- drop_drop; by rewrite take_drop|].
      split; [by apply cut_cons|]. split.
      * intros p Hp. rewrite Hframe by (cbn; lia). by apply Hold.
      * constructor; [lia|]. eapply Forall_impl; [exact Hnext|]. cbn. lia.
Qed.

(** C22: reading a source until [fin]: the chunks in the queue are the file, cut
    into payloads that are full but for the last one, and there are as many as
    the size asks for; a file that is empty or ends with a full chunk has no
    short one.  Of a file of 2 GiB or more the chunks are the beginning only: the
    reading ends when [curSize] has wrapped around. *)
Theorem source_chunks siz file f s :
  HEADER_SPACE < siz < 2 ^ 16 -> Z.of_nat (length file) < 2 ^ 63 ->
  q_rep (buffer f) [] -> sourceData f = Some (mkSource IN (fs_opened file) (Z.of_nat (length file))) ->
  curSize f = 0 -> chunkSize f = siz -> fin f = false ->
  let part := read_part siz file in
  exists f' s' ps cs, read_source (S (length part / payload siz)) f s = Done (f', s') /\
    q_rep (buffer f') ps /\ chunks_at siz s' (mallocs s) ps cs /\
    concat cs = part /\ cut (payload siz) cs /\
    length cs = ((length part + payload siz - 1) / payload siz)%nat /\
    (Z.of_nat (length file) <= read_limit (payload siz) -> part = file).
Proof.
  intros Hsiz Hfile Hq Hsrc Hcur Hchunk Hfin part.
  pose proof (source_at_start f file Hsrc Hcur Hfile) as Hat. rewrite Hchunk in Hat. fold part in Hat.
  destruct (read_source_spec siz part (S (length part / payload siz)) f s [] 0) as
    (f' & s' & ps & cs & Hr & _ & Hq' & Hcs & Hcat & Hcut & _); try done; [lia|rewrite Nat.sub_0_r; lia|].
  exists f', s', ps, cs. rewrite drop_0 in Hcat. repeat (split; [done|]).
  split; [|by apply read_part_whole].
  rewrite <- Hcat. apply cut_length; [|done]. by apply payload_pos, Hsiz.
Qed.

End Source.

(** ** One capsule on the wire *)

(** what the sender does with a capsule, what the receiver does with the
    datagram: it reads at most [len] bytes into the buffer [b] *)
Definition to_wire (c : capsule) : res (list byte) := c ← header_to_body c; datagram c.
Definition from_wire (b : cbuf) (len : Z) (dgram : list byte) : res (Z * capsule) :=
  '(n, b) ← recv_into b len dgram; c ← stripHeader (mkCapsule hdr_zero b); Done (n, c).

(** C20: a capsule whose payload is in its buffer arrives whole in a buffer of
    sufficient size: the header, the number of bytes, and behind the body pointer
    the payload. *)
Theorem capsule_roundtrip c b len :
  hdr_ok (header c) -> sendable c -> boff b = 0%nat ->
  (14 + Z.to_nat (capSize (header c)) <= length (blk b))%nat -> 14 + capSize (header c) <= len ->
  exists bs c', to_wire c = Done bs /\
    from_wire b len bs = Done (HEADER_SPACE + capSize (header c), c') /\
    header c' = header c /\
    buf_read (body c') (Z.to_nat (capSize (header c))) =
      Done (take (Z.to_nat (capSize (header c))) (drop 14 (blk (body c)))).
Proof.
  intros Hok Hc Hb Hl Hlen. pose proof Hc as (Ho & Hz & Hl0).
  pose proof (length_wire_bytes c Hc) as Hw.
  exists (wire_bytes c), (received (blk b) (wire_bytes c)).
  split; [unfold to_wire; rewrite header_to_body_ok by done; by apply datagram_ok|].
  split; [|split].
  - unfold from_wire. rewrite recv_into_ok by (done || lia). cbn [mbind res_bind].
    rewrite (stripHeader_ok hdr_zero _ (wire_bytes c) (drop (length (wire_bytes c)) (blk b)))
      by (done || lia). cbn [mbind res_bind]. unfold received, HEADER_SPACE. rewrite Hw. do 2 f_equal. lia.
  - unfold received, wire_bytes. cbn [header]. rewrite decode_hdr_app by apply length_encode_hdr.
    by apply decode_encode.
  - unfold received. rewrite buf_read_ok by (cbn; rewrite length_app; lia). cbn [body boff blk].
    unfold wire_bytes. rewrite <- !app_assoc, drop_app_exact by by rewrite length_encode_hdr.
    rewrite take_app_exact; [done|]. rewrite length_take, length_drop. lia.
Qed.

(** [recvfrom] cuts a datagram to the room there is, and a capsule that is
    longer arrives as its beginning: the code does not compare [capSize] with
    the number of bytes it got. *)
Theorem capsule_truncated b len dgram :
  boff b = 0%nat -> (Z.to_nat len <= length (blk b))%nat -> 14 <= len < Z.of_nat (length dgram) ->
  exists c', from_wire b len dgram = Done (len, c') /\ header c' = decode_hdr dgram /\
    buf_read (body c') (Z.to_nat len - 14) = Done (drop 14 (take (Z.to_nat len) dgram)).
Proof.
  intros Hb Hl Hlen. set (d := take (Z.to_nat len) dgram).
  assert (length d = Z.to_nat len) as Hd by (unfold d; rewrite length_take; lia).
  exists (received (blk b) d). split; [|split].
  - unfold from_wire, recv_into. fold d. rewrite buf_write_ok by lia. cbn [mbind res_bind].
    rewrite Hb, Nat.add_0_l, firstn_O, app_nil_l.
    rewrite (stripHeader_ok hdr_zero _ d (drop (0 + length d) (blk b))) by (done || lia).
    cbn [mbind res_bind]. unfold received. by rewrite Nat.add_0_l, Hd, Z2Nat.id by lia.
  - unfold received. cbn [header]. rewrite <- (take_drop 14 dgram).
    unfold d. rewrite <- (take_drop 14 (take (Z.to_nat len) dgram)), take_take, Nat.min_l by lia.
    by rewrite !decode_hdr_app by (rewrite length_take; lia).
  - unfold received. rewrite buf_read_ok by (cbn; rewrite length_app; lia). cbn [body boff blk].
    rewrite drop_app_le by lia. rewrite take_app_exact; [done|]. rewrite length_drop. lia.
Qed.

(** A datagram that is shorter than a header is accepted: the missing bytes
    of the header are the ones that were in the buffer, and a fresh buffer is
    uninitialised memory. *)
Theorem runt_datagram {mal : Malloc} n siz dgram :
  HEADER_SPACE <= siz -> (length dgram < 14)%nat ->
  exists c', from_wire (mkBuf (malloc n siz) 0) siz dgram = Done (Z.of_nat (length dgram), c') /\
    header c' = decode_hdr (dgram ++ drop (length dgram) (take 14 (malloc n siz))).
Proof.
  unfold HEADER_SPACE. intros Hs Hd. pose proof (length_malloc n siz) as Hm.
  unfold from_wire, recv_into. rewrite take_ge by lia.
  rewrite buf_write_ok by (cbn; lia). cbn [mbind res_bind boff blk]. rewrite firstn_O, app_nil_l, !Nat.add_0_l.
  unfold stripHeader. change (Z.to_nat HEADER_SPACE) with 14%nat. cbn [body].
  rewrite buf_read_ok by (cbn; rewrite length_app, length_drop; lia). cbn [mbind res_bind blk boff body header].
  eexists. split; [done|]. cbn [header]. f_equal. rewrite drop_0, take_app_ge by lia. f_equal.
  by rewrite <- skipn_firstn_comm.
Qed.

(** ** Writing to a sink *)

Section Sink.
Context {Q : Type}.
Implicit Types f : factory Q.

(** The payload of a received capsule is appended to the sink, whatever the
    buffer holds behind it. *)
Theorem sink_append f out c bs r :
  sink_at f out -> Z.of_nat (length bs) < 2 ^ 31 - 14 ->
  body c = mkBuf (encode_hdr (header c) ++ bs ++ r) 14 ->
  exists f', write2Source c (Z.of_nat (length bs) + HEADER_SPACE) f = Done f' /\
    sink_at f' (out ++ bs) /\ fin f' = fin f /\ buffer f' = buffer f.
Proof.
  intros Hs Hl Hb. destruct (write2Source_append f out c bs Hs Hl) as (d & w & Hw & Hs').
  - exists r. rewrite Hb. cbn [boff blk]. by apply drop_app_exact.
  - rewrite Hb. cbn [boff blk]. rewrite length_app, length_encode_hdr. lia.
  - eexists. split; [exact Hw|]. done.
Qed.

(** A sink that could not be opened loses what is written to it without a
    trace: the call succeeds, and the file stays as it was. *)
Theorem sink_unopened f c n :
  (sourceData f = DataSource_new None None OUT) ->
  0 <= n -> n + HEADER_SPACE < 2 ^ 31 -> (boff (body c) + Z.to_nat n <= length (blk (body c)))%nat ->
  exists f', write2Source c (n + HEADER_SPACE) f = Done f' /\ sourceData f' = sourceData f.
Proof.
  intros Hs Hn Hlt Hl. unfold write2Source. rewrite Hs. cbn [DataSource_new orelse mbind res_bind fmode].
  replace (n + HEADER_SPACE - HEADER_SPACE) with n by lia. unfold HEADER_SPACE in Hlt.
  rewrite u64_small, i32_small by lia. destruct (Z.ltb_spec n 0); [lia|].
  rewrite buf_read_ok by lia. cbn [mbind res_bind]. rewrite writeStream_failed by done.
  by eexists.
Qed.

End Sink.

(** ** Concrete chunks *)

#[local] Existing Instances Linked.linked_fifo Linked.linked_laws.

(** chunks of 24 bytes, ten of them payload, and a file of 25 bytes *)
Definition demo_source : factory buffer_queue :=
  DataFactory_new 24 <| sourceData := DataSource_new (Some demo_file) (Some (Z.of_nat (length demo_file))) IN |>.

Lemma source_chunks_witness :
  let part := read_part 24 demo_file in
  exists f' s' ps cs,
    read_source (mal:=demo_malloc) (S (length part / payload 24)) demo_source store_empty = Done (f', s') /\
    q_rep (buffer f') ps /\ chunks_at (mal:=demo_malloc) 24 s' 0 ps cs /\
    concat cs = part /\ cut (payload 24) cs /\
    length cs = ((length part + payload 24 - 1) / payload 24)%nat /\
    (Z.of_nat (length demo_file) <= read_limit (payload 24) -> part = demo_file).
Proof.
  apply (source_chunks (mal:=demo_malloc) 24 demo_file demo_source store_empty).
  - unfold HEADER_SPACE. lia.
  - vm_compute. reflexivity.
  - apply Linked.threadsafe_queue_rep.
  - done.
  - done.
  - done.
  - done.
Defined.

(** three bytes of payload in a buffer of 64, and room for 64 bytes *)
Definition demo_chunk : capsule :=
  mkCapsule (mkHdr 1 1 1 7 3 3 0 0 1 0)
    (mkBuf (replicate 14 NUL ++ [Byte.x61; Byte.x62; Byte.x63] ++ replicate 47 NUL) 0).
Definition demo_room : cbuf := mkBuf (malloc (H:=demo_malloc) 0 64) 0.

Lemma capsule_roundtrip_witness :
  exists bs c', to_wire demo_chunk = Done bs /\
    from_wire demo_room 64 bs = Done (HEADER_SPACE + 3, c') /\
    header c' = header demo_chunk /\ buf_read (body c') 3 = Done [Byte.x61; Byte.x62; Byte.x63].
Proof.
  apply (capsule_roundtrip demo_chunk demo_room 64).
  - unfold hdr_ok. cbn. lia.
  - split; [done|]. cbn. lia.
  - done.
  - vm_compute. lia.
  - cbn. lia.
Defined.

Lemma capsule_truncated_witness :
  let dgram := encode_hdr (mkHdr 1 1 1 7 3 3 0 0 1 0) ++ [Byte.x61; Byte.x62; Byte.x63] in
  exists c', from_wire demo_room 15 dgram = Done (15, c') /\ header c' = decode_hdr dgram /\
    buf_read (body c') 1 = Done [Byte.x61].
Proof.
  intros dgram. apply (capsule_truncated demo_room 15 dgram).
  - done.
  - vm_compute. lia.
  - unfold dgram. rewrite length_app, length_encode_hdr. cbn. lia.
Defined.

(** an empty datagram: the header is what the block held, in this one zeroes *)
Lemma runt_datagram_witness :
  exists c', from_wire demo_room 64 [] = Done (0, c') /\
    header c' = decode_hdr (replicate 14 NUL).
Proof. apply (runt_datagram (mal:=demo_malloc) 0 64 []); [unfold HEADER_SPACE; lia|cbn; lia]. Defined.

Definition demo_sink : factory buffer_queue :=
  DataFactory_new 64 <| sourceData := DataSource_new (Some []) None OUT |>.
Definition demo_received : capsule :=
  mkCapsule (header demo_chunk) (mkBuf (encode_hdr (header demo_chunk) ++ [Byte.x61] ++ [Byte.xff]) 14).

Lemma sink_append_witness :
  exists f', write2Source demo_received (1 + HEADER_SPACE) demo_sink = Done f' /\
    sink_at f' ([] ++ [Byte.x61]) /\ fin f' = false /\ buffer f' = buffer demo_sink.
Proof.
  apply (sink_append demo_sink [] demo_received [Byte.x61] [Byte.xff]).
  - by exists 0, 0.
  - cbn. lia.
  - done.
Defined.

Lemma sink_unopened_witness :
  let f : factory buffer_queue := DataFactory_new 64 <| sourceData := DataSource_new None None OUT |> in
  exists f', write2Source demo_received (1 + HEADER_SPACE) f = Done f' /\ sourceData f' = sourceData f.
Proof.
  intros f. apply (sink_unopened f demo_received 1).
  - done.
  - lia.
  - unfold HEADER_SPACE. lia.
  - cbn [demo_received body boff blk]. rewrite length_app, length_encode_hdr. cbn. lia.
Defined.
