(* ===== verification/Session.v ===== *)
(** * [SessionProcessor], [Session] and the protocol states (session.h)

    The state functions run one after the other from [Session::start], each
    sets the code of its successor.  The server runs them with direction [TX],
    the client with [RX]. *)

From S2P Require Import Prelude Wire OrdMap Queue Stream Program Factory Interfaces.
From S2P Require Import Pool State Gateway Presentation.

Definition WIN_SIZ : Z := 5.

Section Session.
Context {Q : Type} `{!Fifo Q ptr} `{!Malloc} `{!OS}.
Abbreviation Mp := (M (proc Q)).

Definition with_ses (f : session -> session) : Mp unit := modify (upd ses f).

(** ** Identifiers *)

Definition genSrcId : Mp Z :=
  with_ses (upd prevSrcid (fun n => n + 1));; s ← gets ses; mret (prevSrcid s).
Definition genDestId : Mp Z :=
  with_ses (upd prevDstid (fun n => n + 1));; s ← gets ses; mret (prevDstid s).
Definition genConnId : Mp Z :=
  with_ses (upd prevConnid (fun n => n + 1));; s ← gets ses; mret (prevConnid s).

(** ** The connection table *)

(** [connections[k]] of a [std::map]: an absent key is inserted *)
Definition conn_at (k : Z) : Mp connection :=
  s ← gets ses;
  match connections s !! k with
  | Some c => mret c
  | None => with_ses (upd connections (<[k := connection_zero]>));; mret connection_zero
  end.

(** [connections[connection_count]], and assignments to its members *)
Definition cur_conn : Mp connection := s ← gets ses; conn_at (connection_count s).
Definition set_cur_conn (f : connection -> connection) : Mp unit :=
  c ← cur_conn;
  with_ses (fun s => s <| connections ::= <[connection_count s := f c]> |>).

(** [connections[connection_count++] = connection{0, genSrcId(), 0, 0}] *)
Definition add_connection : Mp unit :=
  i ← genSrcId;
  with_ses (fun s => s <| connections ::= <[connection_count s := mkConnection 0 i 0 0]> |>);;
  with_ses (upd connection_count (fun n => n + 1)).

(** [struct params p { .srcid = connections[connection_count].src, ... }] *)
Definition conn_params (t : capsuleType) : Mp params :=
  c1 ← cur_conn; c2 ← cur_conn; c3 ← cur_conn;
  mret (mkParams (src c1) (dst c2) (id c3) 0 0 (capsuleType_val t) 0 0 0 0).

(** ** [SessionProcessor::setCapParams] *)

(** the loop that copies the interface addresses behind the header *)
Fixpoint pack_addresses (i : nat) (count : nat) (l : list ipaddr_dummy) (b : cbuf) : res cbuf :=
  match count with
  | O => Done b
  | S count =>
      a ← orelse OutOfBounds (l !! i);
      b ← buf_write b (Z.to_nat (HEADER_SPACE + Z.of_nat i * ADDR_LEN))
            (take (Z.to_nat ADDR_LEN) (area a));
      pack_addresses (S i) count l b
  end.

(** the body of the [setup] case, which the [connected] case repeats *)
Definition write_interfaces (l : list ipaddr_dummy) (cap : capsule) : res capsule :=
  n ← getInfCount;
  b ← pack_addresses 0 (Z.to_nat n) l (body cap);
  Done (cap <| body := b |> <| header ::= upd capSize (fun _ => ADDR_LEN * n) |>).

(** the [switch] *)
Definition setCapParams_case (l : list ipaddr_dummy) (cap : capsule) (win : Z) (code : stateCodes)
    : res (capsule * Z) :=
  match code with
  | s_setup => cap ← write_interfaces l cap; Done (cap, win)
  | s_connected =>
      let cap := cap <| header ::= upd capWinSiz (fun _ => WIN_SIZ) |> in
      let win := capWinSiz (header cap) in
      cap ← write_interfaces l cap; Done (cap, win)
  | s_done => Done (cap <| header ::= upd capWinSiz (fun _ => WIN_SIZ) |>, win)
  | _ => Done (cap, win)
  end.

(** the fields that every capsule gets *)
Definition set_common (p : params) (capsuleId : Z) (h : capsuleHdr) : capsuleHdr :=
  h <| srcid := p_srcid p |> <| destid := p_destid p |> <| connid := p_connid p |>
    <| capid := capsuleId |> <| capPriority := 0 |> <| capType := p_capType p |>.

(** [setCapParams(buf->data.get(), p, code)] *)
Definition setCapParams (buf : ptr) (p : params) (code : stateCodes) : Mp unit :=
  h ← gets heap; b ← lift (load buf h);
  match mb_data b with
  | None => mret tt
  | Some cap =>
      g ← gets gw; s ← gets ses;
      '(cap, win) ← lift (setCapParams_case (addressList g) cap (winSize s) code);
      with_ses (upd winSize (fun _ => win));;
      with_ses (upd capsuleId (fun i => i + 1));;
      write_capsule buf (cap <| header ::= set_common p (capsuleId s) |>)
  end.

(** ** [SessionProcessor::process] *)

(** read the peer's address list out of the body *)
Definition read_peer_list (cap : capsule) : Mp unit :=
  h ← gets heap;
  '(l, n) ← lift (peer_list (mallocs h) (capSize (header cap))
                    (drop (boff (body cap)) (blk (body cap))));
  modify (upd heap (upd mallocs S));;
  modify (upd gw (upd peer_addressList (fun _ => Some l)));;
  modify (upd gw (upd peer_addressCount (fun _ => n))).

(** [process(rxFactory, buf, code)]; every call passes [rxFactory] *)
Definition process (buf : ptr) (code : stateCodes) : Mp unit :=
  cap ← read_capsule buf;
  if type_bits (header cap) CTRL =? 0 then
    match code with
    | s_setup => read_peer_list cap
    | s_connected =>
        with_ses (upd winSize (fun _ => capWinSiz (header cap)));; read_peer_list cap
    | s_closed =>
        (if is_payld (header cap)
         then modify (upd rxcurrentWindow (om_insert (capid (header cap)) buf))
         else mret tt);;
        (if has_flag (header cap) FIN
         then modify (upd rxFactory (upd fin (fun _ => true)))
         else mret tt)
    | _ => mret tt
    end
  else mret tt.

(** ** The states *)

(** [sendState(nextId, dir, currentBuffer)] *)
Definition sendState (nextId : stateCodes) (dir : stateDirection) (p : ptr) : Mp unit :=
  match dir with
  | RX => chunkWrite p
  | TX => send p
  end.

(** [receiveState(nextId, dir, currentBuffer)] *)
Definition receiveState (nextId : stateCodes) (dir : stateDirection) (p : ptr) : Mp unit :=
  if decide (nextId = s_open) then receive p
  else
    res ← pull;
    h ← gets heap; b ← lift (load res h);
    match mb_data b with
    | None => exit_ 1
    | Some cap =>
        if is_payld (header cap)
        then modify (upd rxcurrentWindow (om_insert (capid (header cap)) res))
        else mret tt
    end.

(** [buf = rxFactory->buffer.try_pop(); buf.get()] dereferenced, and what is
    done with the buffer before [buf] goes out of scope *)
Definition with_popped (f : ptr -> Mp unit) : Mp unit :=
  buf ← pop_buffer RX;
  p ← lift (orelse NullDeref buf);
  f p;; release (Some p).

(** [txFactory->buffer.try_pop()], the result is discarded *)
Definition discard_popped (d : stateDirection) : Mp unit := buf ← pop_buffer d; release buf.

Definition set_next (c : stateCodes) : Mp unit := with_ses (upd next (fun _ => c)).

Definition openState (nextId : stateCodes) (dir : stateDirection) (currentBuffer : ptr) : Mp unit :=
  match dir with
  | TX =>
      add_connection;;
      currentBuffer ← newBuffer RX;
      receiveState nextId dir currentBuffer;;
      with_popped (fun currentBuffer =>
        process currentBuffer s_open;;
        cap ← read_capsule currentBuffer;
        set_cur_conn (upd dst (fun _ => srcid (header cap))))
  | RX =>
      currentBuffer ← newBuffer TX;
      add_connection;;
      p ← conn_params PAYLD;
      setCapParams currentBuffer p s_open;;
      sendState nextId dir currentBuffer;;
      discard_popped TX
  end;;
  set_next s_setup.

Definition setupState (nextId : stateCodes) (dir : stateDirection) (currentBuffer : ptr) : Mp unit :=
  match dir with
  | TX =>
      currentBuffer ← newBuffer TX;
      p ← conn_params CTRL;
      setCapParams currentBuffer p s_setup;;
      sendState nextId dir currentBuffer;;
      discard_popped TX
  | RX =>
      receiveState nextId dir currentBuffer;;
      with_popped (fun currentBuffer =>
        process currentBuffer s_setup;;
        cap ← read_capsule currentBuffer;
        set_cur_conn (upd dst (fun _ => srcid (header cap))))
  end;;
  set_next s_connected.

Definition connectedState (nextId : stateCodes) (dir : stateDirection) (currentBuffer : ptr) : Mp unit :=
  match dir with
  | TX =>
      receiveState nextId dir currentBuffer;;
      with_popped (fun currentBuffer =>
        process currentBuffer s_connected;;
        cap ← read_capsule currentBuffer;
        set_cur_conn (upd id (fun _ => connid (header cap))))
  | RX =>
      i ← genConnId;
      set_cur_conn (upd id (fun _ => i));;
      currentBuffer ← newBuffer TX;
      p ← conn_params CTRL;
      setCapParams currentBuffer p s_connected;;
      sendState nextId dir currentBuffer;;
      discard_popped TX
  end;;
  set_next s_closed.

(** [submitTask(nextId, TX, currentBuffer)]: read the next chunk of the source
    and send it *)
Definition submit_TX (nextId : stateCodes) : Mp unit :=
  f ← gets txFactory; h ← gets heap;
  '(f, h) ← lift (updateDataSource f h);
  modify (upd txFactory (fun _ => f));; modify (upd heap (fun _ => h));;
  currentBuff ← constructChunk;
  f ← gets txFactory;
  empty ← lift (orelse BadQueue (q_isEmpty (buffer f)));
  (if fin f && empty then
     cap ← read_capsule currentBuff;
     write_capsule currentBuff (cap <| header ::= upd capFlags (fun _ => flags_val FIN) |>);;
     with_ses (upd winSize (fun _ => 0))
   else mret tt);;
  p ← conn_params PAYLD;
  PresentationProcessor_setCapParams currentBuff;;
  setCapParams currentBuff p s_closed;;
  sendState nextId TX currentBuff;;
  release (Some currentBuff).

(** [std::make_unique<struct memBuff>()] *)
Definition new_memBuff : Mp ptr :=
  h ← gets heap;
  let '(p, h) := make_shared (mkMemBuff (Some 0) None) h in
  modify (upd heap (fun _ => h));; mret p.

(** [submitTask(nextId, RX, currentBuffer)]: receive a capsule and process the
    last one of the window *)
Definition submit_RX (nextId : stateCodes) (currentBuffer : ptr) : Mp unit :=
  buf ← new_memBuff;
  receiveState nextId RX buf;;
  w ← gets rxcurrentWindow;
  match om_rbegin w with
  | None => mret tt
  | Some currentBuff =>
      process currentBuff s_closed;;
      f ← gets rxFactory;
      (if fin f then with_ses (upd winSize (fun _ => 0)) else mret tt);;
      cap ← read_capsule currentBuff;
      if has_flag (header cap) FIN then
        h ← gets heap; b ← lift (load currentBuffer h);
        match mb_data b with
        | Some c =>
            write_capsule currentBuffer (c <| header ::= upd capFlags (fun _ => flags_val FIN) |>)
        | None => mret tt
        end
      else mret tt
  end;;
  release (Some buf).

Definition submitTask (nextId : stateCodes) (dir : stateDirection) (currentBuffer : ptr) : Mp unit :=
  match dir with
  | TX => submit_TX nextId
  | RX => submit_RX nextId currentBuffer
  end.

(** [while (winSize > 0) { submitTask(...); if (winSize) winSize--; }] *)
Fixpoint closed_loop (fuel : nat) (nextId : stateCodes) (dir : stateDirection) (currentBuffer : ptr)
    : Mp unit :=
  s ← gets ses;
  if 0 <? winSize s then
    match fuel with
    | O => out_of_fuel
    | S fuel =>
        submitTask nextId dir currentBuffer;;
        s ← gets ses;
        (if winSize s =? 0 then mret tt else with_ses (upd winSize (fun w => w - 1)));;
        closed_loop fuel nextId dir currentBuffer
    end
  else mret tt.

Definition closedState (nextId : stateCodes) (dir : stateDirection) (currentBuffer : ptr) : Mp unit :=
  s ← gets ses;
  closed_loop (Z.to_nat (winSize s)) nextId dir currentBuffer;;
  p ← gets pool;
  workersDone ← lift (workdone p);
  (if (workersDone : bool) then set_next s_done else fail Spin).

(** [for (i = 0; i < rxcurrentWindow.size(); i++) rxFactory->buffer.try_pop();] *)
Fixpoint pop_window (n : nat) : Mp unit :=
  match n with
  | O => mret tt
  | S n => discard_popped RX;; pop_window n
  end.

(** after a window: another one, or the end *)
Definition next_window (finished : bool) : Mp unit :=
  if finished then set_next s_connected
  else with_ses (upd winSize (fun _ => WIN_SIZ));; set_next s_closed.

Definition doneState (nextId : stateCodes) (dir : stateDirection) (currentBuffer : ptr) : Mp unit :=
  match dir with
  | TX =>
      receiveState nextId dir currentBuffer;;
      with_popped (fun currentBuffer =>
        process currentBuffer s_done;;
        f ← gets txFactory;
        next_window (fin f))
  | RX =>
      f ← gets rxFactory;
      let bufferempty := fin f in
      w ← gets rxcurrentWindow;
      PresentationProcessor_process w s_done;;
      currentBuffer ← newBuffer TX;
      pop_window (length w);;
      modify (upd rxcurrentWindow (fun _ => []));;
      p ← conn_params CTRL;
      let p := if (bufferempty : bool)
               then mkParams (p_srcid p) (p_destid p) (p_connid p) (p_capid p) (p_capSize p)
                      (p_capType p) (p_capPriority p) (p_capWinSiz p) (flags_val FIN) (p_capopts p)
               else p in
      setCapParams currentBuffer p s_done;;
      sendState nextId dir currentBuffer;;
      f ← gets rxFactory;
      next_window (fin f)
  end;;
  with_ses (upd is_done (fun _ => true));;
  with_ses (upd complete (fun _ => true)).

Definition inqState (nextId : stateCodes) (dir : stateDirection) (currentBuffer : ptr) : Mp unit :=
  mret tt.

(** ** [Session::start] *)

(** the table [states] *)
Definition states (c : stateCodes) : stateCodes -> stateDirection -> ptr -> Mp unit :=
  match c with
  | s_open => openState
  | s_setup => setupState
  | s_connected => connectedState
  | s_closed => closedState
  | s_done => doneState
  | s_inq => inqState
  | s_send => sendState
  | s_recv => receiveState
  end.

(** [next != connected || complete != true] *)
Definition running (s : session) : bool :=
  negb (bool_decide (next s = s_connected)) || negb (complete s).

(** one pass through the loop's body *)
Definition start_iter (Dir : stateDirection) (newBuff : ptr) : Mp unit :=
  s ← gets ses; states (next s) (next s) Dir newBuff.

Fixpoint start_loop (fuel : nat) (Dir : stateDirection) (newBuff : ptr) : Mp unit :=
  s ← gets ses;
  if running s then
    match fuel with
    | O => out_of_fuel
    | S fuel => start_iter Dir newBuff;; start_loop fuel Dir newBuff
    end
  else mret tt.

Definition start (fuel : nat) (Dir : stateDirection) : Mp unit :=
  newBuff ← new_memBuff;
  s ← gets ses;
  (if decide (next s = s_done) then set_next s_connected else mret tt);;
  start_loop fuel Dir newBuff;;
  release (Some newBuff).

End Session.
