(* ===== verification/StateMachine.v ===== *)
(** * The protocol as a state machine

    What holds of the states of session.h whatever the network does: datagrams
    that are lost, repeated, forged or malformed, and failing system calls.
    Every state function that returns has chosen the successor the protocol
    names, [Session::start] visits the states in one order only, and the loop of
    [closedState] ends. *)

From S2P Require Import Prelude Wire OrdMap Queue Stream Program Factory Interfaces.
From S2P Require Import Pool State Gateway Presentation Session Concrete.

Section StateMachine.
Context {Q : Type} {fifo : Fifo Q ptr} {mal : Malloc} {os : OS}.
Abbreviation Mp := (M (proc Q)).
Implicit Types s : proc Q.

(** ** What leaves the session alone *)

(** a property that only looks at the session *)
Class Outer (I : proc Q -> Prop) : Prop := {
  outer_heap s g : I s -> I (s <| heap ::= g |>);
  outer_tx s g : I s -> I (s <| txFactory ::= g |>);
  outer_rx s g : I s -> I (s <| rxFactory ::= g |>);
  outer_gw s g : I s -> I (s <| gw ::= g |>);
  outer_window s g : I s -> I (s <| rxcurrentWindow ::= g |>)
}.

(** ... and in the session not at the connections and the identifiers *)
Class Inner (I : proc Q -> Prop) : Prop := {
  inner_conns s g : I s -> I (s <| ses ::= upd connections g |>);
  inner_count s g : I s -> I (s <| ses ::= upd connection_count g |>);
  inner_src s g : I s -> I (s <| ses ::= upd prevSrcid g |>);
  inner_conn s g : I s -> I (s <| ses ::= upd prevConnid g |>);
  inner_capsule s g : I s -> I (s <| ses ::= upd capsuleId g |>);
  inner_conns_at s (k : session -> Z) (c : connection) :
    I s -> I (s <| ses ::= fun ss => ss <| connections ::= <[k ss := c]> |> |>)
}.

Section Keeps.
Variable I : proc Q -> Prop.
Context `{!Outer I}.

Lemma keeps_heap g : keeps I (modify (upd heap g)).
Proof. apply keeps_modify. intros s. apply outer_heap. Qed.
Lemma keeps_tx g : keeps I (modify (upd txFactory g)).
Proof. apply keeps_modify. intros s. apply outer_tx. Qed.
Lemma keeps_rx g : keeps I (modify (upd rxFactory g)).
Proof. apply keeps_modify. intros s. apply outer_rx. Qed.
Lemma keeps_gw g : keeps I (modify (upd gw g)).
Proof. apply keeps_modify. intros s. apply outer_gw. Qed.
Lemma keeps_window g : keeps I (modify (upd rxcurrentWindow g)).
Proof. apply keeps_modify. intros s. apply outer_window. Qed.
Lemma keeps_set_factory d f : keeps I (modify (set_factory d f)).
Proof. apply keeps_modify. intros s Hs. destruct d; [by apply outer_tx|by apply outer_rx]. Qed.
#[local] Hint Resolve keeps_heap keeps_tx keeps_rx keeps_gw keeps_window keeps_set_factory : keeps.

Lemma keeps_read_capsule p : keeps I (read_capsule p).
Proof using. unfold read_capsule. keeps. Qed.
Lemma keeps_write_capsule p c : keeps I (write_capsule p c).
Proof. unfold write_capsule. keeps. Qed.
Lemma keeps_read_size p : keeps I (read_size p).
Proof using. unfold read_size. keeps. Qed.
Lemma keeps_write_size p n : keeps I (write_size p n).
Proof. unfold write_size. keeps. Qed.
Lemma keeps_release o : keeps I (release o).
Proof. unfold release. keeps. Qed.
Lemma keeps_pop_buffer d : keeps I (pop_buffer d).
Proof. unfold pop_buffer. keeps. Qed.
Lemma keeps_make_chunk d : keeps I (make_chunk d).
Proof. unfold make_chunk. keeps. Qed.
#[local] Hint Resolve keeps_read_capsule keeps_write_capsule keeps_read_size keeps_write_size
  keeps_release keeps_pop_buffer keeps_make_chunk : keeps.

Lemma keeps_selectAddr : keeps I selectAddrFromList.
Proof. unfold selectAddrFromList. keeps. Qed.
#[local] Hint Resolve keeps_selectAddr : keeps.
Lemma keeps_chunkWrite p : keeps I (chunkWrite p).
Proof. unfold chunkWrite. keeps. Qed.
Lemma keeps_send p : keeps I (send p).
Proof. unfold send. keeps. Qed.
Lemma keeps_pull : keeps I pull.
Proof. unfold pull. keeps. Qed.
Lemma keeps_receive p : keeps I (receive p).
Proof. unfold receive. keeps. Qed.
#[local] Hint Resolve keeps_chunkWrite keeps_send keeps_pull keeps_receive : keeps.

Lemma keeps_write2Souce p : keeps I (write2Souce p).
Proof. unfold write2Souce. keeps. Qed.
#[local] Hint Resolve keeps_write2Souce : keeps.
Lemma keeps_write_window w : keeps I (write_window w).
Proof. induction w as [|[k p] w IH]; cbn [write_window]; keeps. Qed.
#[local] Hint Resolve keeps_write_window : keeps.
Lemma keeps_presentation w c : keeps I (PresentationProcessor_process w c).
Proof. unfold PresentationProcessor_process. keeps. Qed.
Lemma keeps_presentation_params p : keeps I (PresentationProcessor_setCapParams p).
Proof. unfold PresentationProcessor_setCapParams. keeps. Qed.
Lemma keeps_constructChunk : keeps I constructChunk.
Proof. unfold constructChunk. keeps. Qed.
Lemma keeps_newBuffer d : keeps I (newBuffer d).
Proof. unfold newBuffer. keeps. Qed.
#[local] Hint Resolve keeps_presentation keeps_presentation_params keeps_constructChunk
  keeps_newBuffer : keeps.

Lemma keeps_sendState c d p : keeps I (sendState c d p).
Proof. destruct d; cbn [sendState]; keeps. Qed.
Lemma keeps_receiveState c d p : keeps I (receiveState c d p).
Proof. unfold receiveState. keeps. Qed.
Lemma keeps_discard_popped d : keeps I (discard_popped d).
Proof. unfold discard_popped. keeps. Qed.
#[local] Hint Resolve keeps_sendState keeps_receiveState keeps_discard_popped : keeps.
Lemma keeps_pop_window n : keeps I (pop_window n).
Proof. induction n as [|n IH]; cbn [pop_window]; keeps. Qed.
Lemma keeps_new_memBuff : keeps I new_memBuff.
Proof. unfold new_memBuff. keeps. Qed.
Lemma keeps_read_peer_list c : keeps I (read_peer_list c).
Proof. unfold read_peer_list. keeps. Qed.

Lemma keeps_with_popped f : (forall p, keeps I (f p)) -> keeps I (with_popped f).
Proof. intros Hf. unfold with_popped. keeps. Qed.

End Keeps.

#[local] Hint Resolve keeps_heap keeps_tx keeps_rx keeps_gw keeps_window keeps_set_factory : keeps.
#[local] Hint Resolve keeps_read_capsule keeps_write_capsule keeps_read_size keeps_write_size
  keeps_release keeps_pop_buffer keeps_make_chunk keeps_chunkWrite keeps_send keeps_pull keeps_receive
  keeps_presentation keeps_presentation_params keeps_constructChunk keeps_newBuffer
  keeps_sendState keeps_receiveState keeps_discard_popped keeps_pop_window keeps_new_memBuff
  keeps_read_peer_list : keeps.

(** ** The session's own operations *)

Section Session.
Variable I : proc Q -> Prop.
Context `{!Outer I, !Inner I}.

Lemma keeps_conns g : keeps I (with_ses (upd connections g)).
Proof. apply keeps_modify. intros s. apply inner_conns. Qed.
Lemma keeps_conns_at (k : session -> Z) (c : connection) :
  keeps I (with_ses (fun ss => ss <| connections ::= <[k ss := c]> |>)).
Proof. apply keeps_modify. intros s. apply inner_conns_at. Qed.
Lemma keeps_count g : keeps I (with_ses (upd connection_count g)).
Proof. apply keeps_modify. intros s. apply inner_count. Qed.
Lemma keeps_src g : keeps I (with_ses (upd prevSrcid g)).
Proof. apply keeps_modify. intros s. apply inner_src. Qed.
Lemma keeps_connid g : keeps I (with_ses (upd prevConnid g)).
Proof. apply keeps_modify. intros s. apply inner_conn. Qed.
Lemma keeps_capsuleId g : keeps I (with_ses (upd capsuleId g)).
Proof. apply keeps_modify. intros s. apply inner_capsule. Qed.
#[local] Hint Resolve keeps_conns keeps_count keeps_src keeps_connid keeps_capsuleId : keeps.
#[local] Hint Extern 1 (keeps _ (with_ses (fun ss => ss <| connections ::= _ |>))) =>
  apply keeps_conns_at : keeps.

Lemma keeps_cur_conn : keeps I cur_conn.
Proof. unfold cur_conn, conn_at. keeps. Qed.
#[local] Hint Resolve keeps_cur_conn : keeps.
Lemma keeps_set_cur_conn f : keeps I (set_cur_conn f).
Proof. unfold set_cur_conn. keeps. Qed.
Lemma keeps_conn_params t : keeps I (conn_params t).
Proof. unfold conn_params. keeps. Qed.
Lemma keeps_add_connection : keeps I add_connection.
Proof. unfold add_connection, genSrcId. keeps. Qed.
Lemma keeps_genConnId : keeps I genConnId.
Proof. unfold genConnId. keeps. Qed.

End Session.

#[local] Hint Resolve keeps_cur_conn keeps_set_cur_conn keeps_conn_params keeps_add_connection
  keeps_genConnId keeps_capsuleId : keeps.

(** ** The successor of a state *)

(** the session is in state [c], [complete] is [b], and [winSize] is a
    [uint16_t] *)
Definition at_state (c : stateCodes) (b : bool) s : Prop :=
  next (ses s) = c /\ complete (ses s) = b /\ 0 <= winSize (ses s) < 2 ^ 16.

#[export] Instance at_state_outer c b : Outer (at_state c b).
Proof. by split. Qed.
#[export] Instance at_state_inner c b : Inner (at_state c b).
Proof. by split. Qed.

#[local] Hint Resolve at_state_outer at_state_inner : keeps.

Section Successor.
Variables (c0 : stateCodes) (b0 : bool).
Abbreviation I := (at_state c0 b0).

Lemma keeps_winSize g : keeps I (with_ses (upd winSize g)).
Proof.
  apply keeps_modify. intros s (Hn & Hc & _). split; [exact Hn|]. split; [exact Hc|].
  cbn. apply u16_range.
Qed.
#[local] Hint Resolve keeps_winSize : keeps.

Lemma keeps_setCapParams p pr c : keeps I (setCapParams p pr c).
Proof. unfold setCapParams. keeps. Qed.
Lemma keeps_process p c : keeps I (process p c).
Proof. unfold process. keeps. Qed.
#[local] Hint Resolve keeps_setCapParams keeps_process : keeps.
Lemma keeps_submit_TX c : keeps I (submit_TX c).
Proof. unfold submit_TX. keeps. Qed.
Lemma keeps_submit_RX c p : keeps I (submit_RX c p).
Proof. unfold submit_RX. keeps. Qed.
#[local] Hint Resolve keeps_submit_TX keeps_submit_RX : keeps.
Lemma keeps_submitTask c d p : keeps I (submitTask c d p).
Proof. destruct d; cbn [submitTask]; keeps. Qed.

End Successor.

#[local] Hint Resolve keeps_winSize keeps_setCapParams keeps_process keeps_submitTask : keeps.

(** ** The loop of [closedState] ends *)

(** the session is in state [c], and the window has not grown *)
Definition at_window (c : stateCodes) (b : bool) (W : Z) s : Prop :=
  next (ses s) = c /\ complete (ses s) = b /\ (winSize (ses s) = W \/ winSize (ses s) = 0).

#[export] Instance at_window_outer c b W : Outer (at_window c b W).
Proof. by split. Qed.
#[export] Instance at_window_inner c b W : Inner (at_window c b W).
Proof. by split. Qed.
#[local] Hint Resolve at_window_outer at_window_inner : keeps.

Section Loop.
Variables (c0 : stateCodes) (b0 : bool) (W : Z).
Hypothesis HW : 0 <= W < 2 ^ 16.
Abbreviation J := (at_window c0 b0 W).

Lemma keeps_winSize_0 : keeps J (with_ses (upd winSize (fun _ => 0))).
Proof.
  apply keeps_modify. intros s (Hn & Hc & _). split; [exact Hn|]. split; [exact Hc|by right].
Qed.

Lemma keeps_setCapParams_closed p pr : keeps J (setCapParams p pr s_closed).
Proof using HW.
  intros s Hs. unfold setCapParams. m_unfold.
  destruct (load p (heap s)) as [b| |]; cbn [pbind lift]; try exact I.
  destruct (mb_data b) as [cap|]; [|exact Hs].
  cbn [pbind setCapParams_case lift]. unfold with_ses. m_unfold.
  apply (keeps_write_capsule J). destruct Hs as (Hn & Hc & Hw). split; [exact Hn|]. split; [exact Hc|].
  cbn. destruct Hw as [-> | ->]; [left; by apply u16_small|by right].
Qed.
#[local] Hint Resolve keeps_winSize_0 keeps_setCapParams_closed : keeps.

Lemma keeps_process_closed p : keeps J (process p s_closed).
Proof using. unfold process. keeps. Qed.
#[local] Hint Resolve keeps_process_closed : keeps.

Lemma keeps_submit_window c d p : keeps J (submitTask c d p).
Proof using HW. destruct d; cbn [submitTask]; unfold submit_TX, submit_RX; keeps. Qed.

End Loop.

(** as many iterations as [winSize] allows are enough *)
Lemma closed_loop_ends c0 b0 c d p fuel :
  triple (fun s => at_state c0 b0 s /\ (Z.to_nat (winSize (ses s)) <= fuel)%nat)
    (closed_loop fuel c d p) (fun _ s => at_state c0 b0 s /\ winSize (ses s) = 0).
Proof.
  induction fuel as [|fuel IH]; intros s [(Hn & Hc & HW) Hf].
  - cbn [closed_loop]. m_unfold. destruct (Z.ltb_spec 0 (winSize (ses s))); [lia|].
    split; [done|lia].
  - cbn [closed_loop]. m_unfold. destruct (Z.ltb_spec 0 (winSize (ses s))); [|by split; [|lia]].
    eapply ends_bind; [apply (keeps_submit_window c0 b0 (winSize (ses s)) HW c d p); by split; [|split; [|left]]|].
    intros [] s' (Hn' & Hc' & Hw'). cbn [pbind].
    assert (0 <= winSize (ses s') <= winSize (ses s)) as Hle by lia.
    destruct (Z.eqb_spec (winSize (ses s')) 0); cbn [pbind]; apply IH.
    + split; [|lia]. split; [done|]. split; [done|lia].
    + assert (winSize (ses s') - 1 = u16 (winSize (ses s') - 1)) as Hu by (symmetry; apply u16_small; lia).
      split; [split; [done|split; [done|]]|]; cbn; rewrite <- Hu; lia.
Qed.

(** ** One pass *)

Lemma triple_set_next c b c' : triple (at_state c b) (set_next c') (fun _ => at_state c' b).
Proof. intros s (Hn & Hc & HW). by split; [|split]. Qed.

(** keep the state, then choose the successor *)
Lemma keeps_set_next c b c' {A} (m : Mp A) :
  keeps (at_state c b) m -> triple (at_state c b) (m;; set_next c') (fun _ => at_state c' b).
Proof. intros Hm. eapply triple_bind; [exact Hm|]. intros a. apply triple_set_next. Qed.

#[local] Hint Extern 2 (keeps _ (with_popped _)) => apply keeps_with_popped; [..|intros ?; keeps] : keeps.

Lemma openState_next c b n d p :
  triple (at_state c b) (openState n d p) (fun _ => at_state s_setup b).
Proof. apply keeps_set_next. destruct d; keeps. Qed.

Lemma setupState_next c b n d p :
  triple (at_state c b) (setupState n d p) (fun _ => at_state s_connected b).
Proof. apply keeps_set_next. destruct d; keeps. Qed.

Lemma connectedState_next c b n d p :
  triple (at_state c b) (connectedState n d p) (fun _ => at_state s_closed b).
Proof. apply keeps_set_next. destruct d; keeps. Qed.

Lemma closedState_next c b n d p :
  triple (at_state c b) (closedState n d p) (fun _ => at_state s_done b).
Proof.
  intros s Hs. unfold closedState. m_unfold.
  eapply ends_bind; [apply closed_loop_ends; by split|]. intros [] s' [Hs' _]. cbn [pbind].
  destruct (workdone (pool s')) as [[]| |]; cbn; try exact I. by apply triple_set_next with (c := c).
Qed.

(** what [doneState] chooses *)
Definition chosen (b : bool) s : Prop := at_state s_connected b s \/ at_state s_closed b s.

Lemma next_window_chosen c b f : triple (at_state c b) (next_window f) (fun _ => chosen b).
Proof.
  destruct f; cbn [next_window].
  - eapply triple_weaken; [apply triple_set_next|done|]. intros [] s Hs. by left.
  - eapply triple_bind; [apply keeps_winSize|]. intros [].
    eapply triple_weaken; [apply triple_set_next|done|]. intros [] s Hs. by right.
Qed.

#[export] Instance chosen_outer b : Outer (chosen b).
Proof. split; (intros s g [Hs|Hs]; [left|right]; exact Hs). Qed.

Lemma doneState_next c b n d p : triple (at_state c b) (doneState n d p) (fun _ => chosen true).
Proof.
  assert (Hend : forall m : Mp unit, triple (at_state c b) m (fun _ => chosen b) ->
    triple (at_state c b) (m;; with_ses (upd is_done (fun _ => true));; with_ses (upd complete (fun _ => true)))
      (fun _ => chosen true)).
  { intros m Hm. eapply triple_bind; [exact Hm|]. intros [] s [(H1 & H2 & H3)|(H1 & H2 & H3)];
      [left|right]; done. }
  destruct d; cbn [doneState]; apply Hend.
  - do 3 (apply triple_keeps; [solve [keeps]|intros ?]).
    apply triple_bind with (R := fun _ => chosen b); [|intros []; apply (keeps_release (chosen b))].
    do 2 (apply triple_keeps; [solve [keeps]|intros ?]). apply next_window_chosen.
  - do 10 (apply triple_keeps; [solve [keeps]|intros ?; cbv zeta]). apply next_window_chosen.
Qed.

(** the successors that the protocol allows *)
Definition successor (c : stateCodes) (b : bool) (c' : stateCodes) (b' : bool) : Prop :=
  match c with
  | s_open => c' = s_setup /\ b' = b
  | s_setup => c' = s_connected /\ b' = b
  | s_connected => c' = s_closed /\ b' = b
  | s_closed => c' = s_done /\ b' = b
  | s_done => (c' = s_connected \/ c' = s_closed) /\ b' = true
  | s_inq | s_send | s_recv => c' = c /\ b' = b
  end.

Lemma states_next c b n d p :
  triple (at_state c b) (states c n d p) (fun _ s => exists c' b', at_state c' b' s /\ successor c b c' b').
Proof.
  destruct c; cbn [states successor].
  - eapply triple_weaken; [apply openState_next|done|]. intros [] s Hs. by eexists _, _.
  - eapply triple_weaken; [apply setupState_next|done|]. intros [] s Hs. by eexists _, _.
  - eapply triple_weaken; [apply connectedState_next|done|]. intros [] s Hs. by eexists _, _.
  - eapply triple_weaken; [apply closedState_next|done|]. intros [] s Hs. by eexists _, _.
  - eapply triple_weaken; [apply doneState_next|done|]. intros [] s [Hs|Hs]; eexists _, _;
      (split; [exact Hs|]); split; auto.
  - intros s Hs. by eexists _, _.
  - eapply triple_weaken; [apply keeps_sendState|done|]; [apply _|]. intros [] s Hs. by eexists _, _.
  - eapply triple_weaken; [apply keeps_receiveState|done|]; [apply _|]. intros [] s Hs. by eexists _, _.
Qed.


(** ** The order of the states *)

(** the states [Session::start] goes through, from [s] to the end of its loop *)
Inductive visits (d : stateDirection) (cb : ptr) : list stateCodes -> proc Q -> proc Q -> Prop :=
| visits_nil s : running (ses s) = false -> visits d cb [] s s
| visits_cons l s tr s1 s2 :
    running (ses s) = true -> runs (start_iter d cb s) tr (Ret tt s1) -> visits d cb l s1 s2 ->
    visits d cb (next (ses s) :: l) s s2.

Lemma start_loop_visits d cb fuel : forall s tr s',
  runs (start_loop fuel d cb s) tr (Ret tt s') ->
  exists l, visits d cb l s s' /\ (length l <= fuel)%nat.
Proof.
  induction fuel as [|fuel IH]; intros s tr s'; cbn [start_loop]; m_unfold.
  - destruct (running (ses s)) eqn:Hrun; intros Hr; inversion Hr as [|? ? ? ? ? Hs]; subst;
      try inversion Hs. exists []. by split; [constructor|].
  - destruct (running (ses s)) eqn:Hrun; intros Hr.
    + apply runs_bind_inv in Hr as (tr1 & tr2 & [] & s1 & -> & H1 & H2).
      destruct (IH s1 tr2 s' H2) as (l & Hl & Hlen).
      exists (next (ses s) :: l). split; [by econstructor|cbn; lia].
    + inversion Hr as [|? ? ? ? ? Hs]; subst; [|inversion Hs]. exists []. by split; [constructor|cbn; lia].
Qed.

(** one visit *)
Lemma visits_inv d cb l s s2 c b : at_state c b s -> running (ses s) = true -> visits d cb l s s2 ->
  exists l' s1 c' b', l = c :: l' /\ at_state c' b' s1 /\ successor c b c' b' /\ visits d cb l' s1 s2.
Proof.
  intros Hs Hrun Hv. inversion Hv as [? Hn|l' ? tr s1 ? _ Hr Hv']; subst; [congruence|].
  pose proof (proj1 Hs) as Hc. unfold start_iter in Hr. revert Hr. m_unfold. rewrite Hc. intros Hr.
  destruct (triple_runs _ _ _ _ _ _ _ (states_next c b c d cb) Hs Hr) as (c' & b' & Hs1 & Hsucc).
  by exists l', s1, c', b'.
Qed.

Lemma running_at c b s : at_state c b s -> c <> s_connected \/ b = false -> running (ses s) = true.
Proof.
  intros (Hn & Hc & _) H. unfold running. rewrite Hn, Hc. destruct H as [H| ->].
  - by rewrite bool_decide_false.
  - by rewrite orb_true_r.
Qed.

(** windows: [closedState] and [doneState], at least once *)
Definition windows (k : nat) : list stateCodes := mjoin (replicate k [s_closed; s_done]).

Lemma visits_windows d cb k : forall l s s2 b,
  (length l <= k)%nat -> at_state s_closed b s -> visits d cb l s s2 ->
  (exists n, l = windows (S n)) /\ at_state s_connected true s2.
Proof.
  induction k as [k IH] using lt_wf_ind. intros l s s2 b Hl Hs Hv.
  destruct (visits_inv d cb l s s2 s_closed b Hs) as (l1 & s1 & c1 & b1 & -> & Hs1 & [-> ->] & Hv1);
    [eapply running_at; [done|by left]|done|].
  destruct (visits_inv d cb l1 s1 s2 s_done b Hs1) as (l2 & s3 & c3 & b3 & -> & Hs3 & [Hc3 ->] & Hv3);
    [eapply running_at; [done|by left]|done|].
  cbn in Hl. destruct Hc3 as [-> | ->].
  - inversion Hv3 as [? Hn|? ? ? ? ? Hrun]; subst.
    + split; [by exists 0%nat|done].
    + destruct Hs3 as (Hn & Hc & _). unfold running in Hrun. by rewrite Hn, Hc in Hrun.
  - destruct (IH (length l2) ltac:(lia) l2 s3 s2 true) as [[n ->] Hs2]; [lia|done|done|].
    split; [by exists (S n)|done].
Qed.

(** C17: whatever the network does, every state that returns has set the
    successor the protocol gives it, and [complete] is set by [doneState] alone. *)
Theorem state_transition c b n d p s tr s' :
  at_state c b s -> runs (states c n d p s) tr (Ret tt s') ->
  exists c' b', at_state c' b' s' /\ successor c b c' b'.
Proof. intros Hs Hr. exact (triple_runs _ _ _ _ _ _ _ (states_next c b n d p) Hs Hr). Qed.

(** C7: whatever the network does, when [Session::start]'s loop ends it has gone
    through the three states of the handshake and then through one or more pairs
    of [closedState] and [doneState], and nothing else. *)
Theorem session_order d cb fuel s tr s' :
  at_state s_open false s -> runs (start_loop fuel d cb s) tr (Ret tt s') ->
  exists n, visits d cb ([s_open; s_setup; s_connected] ++ windows (S n)) s s' /\
    at_state s_connected true s'.
Proof.
  intros Hs Hr. destruct (start_loop_visits d cb fuel s tr s' Hr) as (l & Hv & _).
  pose proof Hv as Hv0.
  destruct (visits_inv d cb l s s' s_open false Hs) as (l1 & s1 & c1 & b1 & -> & Hs1 & [-> ->] & Hv1);
    [eapply running_at; [done|by left]|done|].
  destruct (visits_inv d cb l1 s1 s' s_setup false Hs1) as (l2 & s2 & c2 & b2 & -> & Hs2 & [-> ->] & Hv2);
    [eapply running_at; [done|by left]|done|].
  destruct (visits_inv d cb l2 s2 s' s_connected false Hs2) as (l3 & s3 & c3 & b3 & -> & Hs3 & [-> ->] & Hv3);
    [eapply running_at; [done|by right]|done|].
  destruct (visits_windows d cb (length l3) l3 s3 s' false) as [[n ->] Hend]; [lia|done|done|].
  by exists n.
Qed.

(** C18: whatever the network does, [closedState] does not loop: the iterations
    that [winSize] allows are enough, and it is 0 after them. *)
Theorem closed_terminates n d p s tr p' :
  0 <= winSize (ses s) < 2 ^ 16 ->
  runs (closed_loop (Z.to_nat (winSize (ses s))) n d p s) tr p' -> final p' = true ->
  match p' with OutOfFuel _ => False | Ret _ s' => winSize (ses s') = 0 | _ => True end.
Proof.
  intros HW Hr Hf.
  pose proof (closed_loop_ends (next (ses s)) (complete (ses s)) n d p (Z.to_nat (winSize (ses s))) s) as Ht.
  specialize (Ht ltac:(by repeat split; try lia)).
  pose proof (proj1 (ends_runs _ _) Ht tr p' Hr Hf) as Hp. by destruct p' as [[] s'| | | | |]; try destruct Hp.
Qed.

End StateMachine.

(** ** A concrete client

    Chunks of 64 bytes; the network answers with the three datagrams of a
    server that sends a file of one byte. *)

#[local] Existing Instances Linked.linked_fifo Linked.linked_laws.

Definition machine_host (d : stateDirection) : proc buffer_queue :=
  mkProc (DataFactory_new 64)
    (DataFactory_new 64 <| sourceData := Some (mkSource OUT (fs_opened []) 0) |>)
    (mkStore {[ 0%nat := mkMemBuff (Some 0) None ]} 1 0 0) []
    (mkGateway server_addr [] 0 None 0 0 0 0 0) session_new (thread_pool_new 4).

Definition demo_answers : list recv_result :=
  [RecvOk server_addr (encode_hdr (mkHdr 0 0 0 0 15 0 0 0 0 0) ++ lan_addr ++ replicate 7 NUL);
   RecvOk server_addr (encode_hdr (mkHdr 0 0 1 1 1 3 0 0 1 0) ++ [Byte.x41])].

(** a host without interfaces of its own *)
Definition demo_offline : OS := {|
  ifconf := Some []; inet_ntop _ := []; inet_addr _ := 0; getnameinfo_ok _ := true
|}.

Definition demo_loop : prog (proc buffer_queue) unit :=
  @start_loop buffer_queue Linked.linked_fifo demo_malloc demo_offline 5 RX 0%nat (machine_host RX).

Definition demo_final : proc buffer_queue :=
  match (feed demo_loop demo_answers).2 with Ret _ s => s | _ => machine_host RX end.

Lemma demo_runs : runs demo_loop (feed demo_loop demo_answers).1 (Ret tt demo_final).
Proof.
  assert ((feed demo_loop demo_answers).2 = Ret tt demo_final) as <- by (vm_compute; reflexivity).
  apply feed_runs.
Qed.

Lemma session_order_witness :
  exists tr, runs demo_loop tr (Ret tt demo_final) /\
  exists n, @visits _ Linked.linked_fifo demo_malloc demo_offline RX 0%nat
      ([s_open; s_setup; s_connected] ++ windows (S n)) (machine_host RX) demo_final /\
    at_state s_connected true demo_final.
Proof.
  exists (feed demo_loop demo_answers).1. split; [exact demo_runs|].
  apply (session_order (mal:=demo_malloc) (os:=demo_offline) RX 0%nat 5 (machine_host RX)
    (feed demo_loop demo_answers).1 demo_final).
  - repeat split; cbn; lia.
  - exact demo_runs.
Defined.

(** the opening state of that client *)
Definition demo_open : prog (proc buffer_queue) unit :=
  @states buffer_queue Linked.linked_fifo demo_malloc demo_offline s_open s_open RX 0%nat (machine_host RX).

Lemma state_transition_witness :
  exists tr s', runs demo_open tr (Ret tt s') /\
  exists c' b', at_state c' b' s' /\ successor s_open false c' b'.
Proof.
  exists (feed demo_open []).1,
    (match (feed demo_open []).2 with Ret _ s => s | _ => machine_host RX end).
  assert (runs demo_open (feed demo_open []).1
    (Ret tt (match (feed demo_open []).2 with Ret _ s => s | _ => machine_host RX end))) as Hr.
  { eapply eq_rect; [apply feed_runs|]. vm_compute. reflexivity. }
  split; [exact Hr|].
  apply (state_transition (mal:=demo_malloc) (os:=demo_offline) s_open false s_open RX 0%nat
    (machine_host RX) (feed demo_open []).1); [repeat split; cbn; lia|exact Hr].
Defined.

(** a window of five whose second capsule carries [FIN] *)
Definition demo_closed : prog (proc buffer_queue) unit :=
  @closed_loop buffer_queue Linked.linked_fifo demo_malloc demo_offline 5 s_closed RX 0%nat
    (machine_host RX <| ses ::= upd winSize (fun _ => 5) |>).
Definition demo_two : list recv_result :=
  [RecvOk server_addr (encode_hdr (mkHdr 0 0 1 1 1 3 0 0 0 0) ++ [Byte.x41]);
   RecvOk server_addr (encode_hdr (mkHdr 0 0 1 2 1 3 0 0 1 0) ++ [Byte.x42])].

Lemma closed_terminates_witness :
  final (feed demo_closed demo_two).2 = true /\
  match (feed demo_closed demo_two).2 with
  | OutOfFuel _ => False | Ret _ s' => winSize (ses s') = 0 | _ => True
  end.
Proof.
  split; [vm_compute; reflexivity|].
  apply (closed_terminates (mal:=demo_malloc) (os:=demo_offline) s_closed RX 0%nat
    (machine_host RX <| ses ::= upd winSize (fun _ => 5) |>) (feed demo_closed demo_two).1).
  - split; vm_compute; congruence.
  - apply feed_runs.
  - vm_compute. reflexivity.
Defined.
