(* ===== verification/SessionFacts.v ===== *)
(** * What the operations the states share do

    Lemmas on session.h that the client's, the server's and the handshake's
    proofs use: the connection table, [setCapParams], [receiveState], [sendState]
    and the queues. *)

From S2P Require Import Prelude Wire OrdMap Queue Stream Program Factory Interfaces.
From S2P Require Import Pool State Gateway Presentation Session.

(** ** The connection table *)

(** [connections[connection_count]], and the table after it has been read *)
Definition cur (s : session) : connection :=
  default connection_zero (connections s !! connection_count s).

Definition touch (s : session) : session :=
  match connections s !! connection_count s with
  | Some _ => s
  | None => s <| connections ::= <[connection_count s := connection_zero]> |>
  end.

(** everything but the connections *)
Definition same_but_conns (s s' : session) : Prop :=
  connection_count s' = connection_count s /\ complete s' = complete s /\ next s' = next s /\
  is_done s' = is_done s /\ winSize s' = winSize s /\ capsuleId s' = capsuleId s /\
  prevSrcid s' = prevSrcid s /\ prevDstid s' = prevDstid s /\ prevConnid s' = prevConnid s.

Lemma touch_same s : same_but_conns s (touch s).
Proof. unfold touch. by destruct (connections s !! _). Qed.

Lemma cur_touch s : cur (touch s) = cur s.
Proof.
  unfold cur, touch. destruct (connections s !! connection_count s) eqn:Hc.
  - by rewrite Hc.
  - cbn. by rewrite lookup_insert_eq.
Qed.

Lemma touch_touch s : touch (touch s) = touch s.
Proof.
  unfold touch at 2 3. destruct (connections s !! connection_count s) eqn:Hc.
  - unfold touch. by rewrite Hc.
  - unfold touch. cbn. by rewrite lookup_insert_eq.
Qed.

(** the parameters [conn_params] builds from a connection *)
Definition params_of (c : connection) (t : capsuleType) : params :=
  mkParams (src c) (dst c) (id c) 0 0 (capsuleType_val t) 0 0 0 0.

Section Facts.
Context {Q : Type} {fifo : Fifo Q ptr} {laws : FifoLaws Q ptr} {mal : Malloc} {os : OS}.
Implicit Types s : proc Q.

Lemma cur_conn_eq s : cur_conn s = Ret (cur (ses s)) (s <| ses ::= touch |>).
Proof.
  destruct s as [tx rx h w g ss pl]. unfold cur_conn, conn_at, cur, touch. m_unfold.
  cbn [ses upd upd_ses]. destruct (connections ss !! connection_count ss); done.
Qed.

Lemma conn_params_eq t s :
  conn_params t s = Ret (params_of (cur (ses s)) t) (s <| ses ::= touch |>).
Proof.
  unfold conn_params. m_unfold. rewrite cur_conn_eq. cbn [pbind]. rewrite cur_conn_eq.
  cbn [pbind]. rewrite cur_conn_eq. cbn [pbind]. cbn [ses upd upd_ses].
  by rewrite !cur_touch, !touch_touch.
Qed.

Lemma set_cur_conn_eq f s :
  set_cur_conn f s = Ret tt (s <| ses ::= fun ss =>
    touch ss <| connections ::= <[connection_count ss := f (cur ss)]> |> |>).
Proof.
  unfold set_cur_conn, with_ses. m_unfold. rewrite cur_conn_eq. cbn [pbind].
  destruct s as [tx rx h w g ss pl]. cbn. destruct (touch_same ss) as [-> _]. done.
Qed.

(** ** [setCapParams] *)

Lemma setCapParams_eq p sz cap cap' win' pr code s :
  bufs (heap s) !! p = Some (mkMemBuff sz (Some cap)) ->
  setCapParams_case (addressList (gw s)) cap (winSize (ses s)) code = Done (cap', win') ->
  setCapParams p pr code s = Ret tt
    (s <| ses ::= fun ss => ss <| winSize := win' |> <| capsuleId ::= fun i => i + 1 |> |>
       <| heap ::= put p (mkMemBuff sz
            (Some (cap' <| header ::= set_common pr (capsuleId (ses s)) |>))) |>).
Proof.
  intros Hp Hcase. unfold setCapParams, with_ses. m_unfold.
  rewrite (load_lookup _ _ _ Hp). cbn [pbind lift mb_data].
  rewrite Hcase. cbn [pbind lift].
  destruct s as [tx rx h w g ss pl]. cbn in Hp |- *.
  by rewrite (write_capsule_exec p sz (Some cap)) by done.
Qed.

(** ** Popping *)

Lemma pop_buffer_cons d p l s :
  q_rep (buffer (factory_of d s)) (p :: l) -> exists q, q_rep q l /\
  pop_buffer d s = Ret (Some p) (set_factory d (factory_of d s <| buffer := q |>) s).
Proof.
  intros Hq. destruct (q_try_pop_cons _ _ _ Hq) as (q & Hp & Hr). exists q. split; [done|].
  unfold pop_buffer. m_unfold. rewrite Hp. done.
Qed.

Lemma discard_popped_cons d p l s :
  q_rep (buffer (factory_of d s)) (p :: l) -> exists q, q_rep q l /\
  discard_popped d s = Ret tt (set_factory d (factory_of d s <| buffer := q |>) s
                                 <| heap ::= drop_shared p |>).
Proof.
  intros Hq. destruct (pop_buffer_cons d p l s Hq) as (q & Hr & Hp). exists q. split; [done|].
  unfold discard_popped. m_unfold. rewrite Hp. done.
Qed.

Lemma with_popped_exec peer f p l s :
  q_rep (buffer (rxFactory s)) (p :: l) -> exists q, q_rep q l /\
  forall D s2, exec peer (f p) (s <| rxFactory ::= upd buffer (fun _ => q) |>) D tt s2 ->
    exec peer (with_popped f) s D tt (s2 <| heap ::= drop_shared p |>).
Proof.
  intros Hq. destruct (pop_buffer_cons RX p l s Hq) as (q & Hr & Hp). exists q. split; [done|].
  intros D s2 Hx. unfold with_popped. eapply exec_pure; [exact Hp|].
  eapply exec_lift; [reflexivity|]. cbv beta. eapply exec_bind1; [exact Hx|]. by apply exec_eq.
Qed.

(** one pass of [Session::start]'s loop, and its end *)
Lemma start_loop_pass peer fuel d cb s D1 s1 D2 p :
  running (ses s) = true -> exec peer (states (next (ses s)) (next (ses s)) d cb) s D1 tt s1 ->
  plays peer (start_loop fuel d cb s1) D2 p ->
  plays peer (start_loop (S fuel) d cb s) (D1 ++ D2) p.
Proof.
  intros Hr H1 H2. cbn [start_loop]. unfold start_iter. m_unfold. rewrite Hr.
  eapply plays_app; [apply plays_bind; exact H1|exact H2].
Qed.

Lemma start_loop_step peer fuel d cb c s D1 s1 D2 p :
  next (ses s) = c -> c <> s_connected -> exec peer (states c c d cb) s D1 tt s1 ->
  plays peer (start_loop fuel d cb s1) D2 p ->
  plays peer (start_loop (S fuel) d cb s) (D1 ++ D2) p.
Proof.
  intros <- Hc. apply start_loop_pass. unfold running. by rewrite bool_decide_false.
Qed.

(** [connected] is not the end while [complete] is false *)
Lemma start_loop_connected peer fuel d cb s D1 s1 D2 p :
  next (ses s) = s_connected -> complete (ses s) = false ->
  exec peer (connectedState s_connected d cb) s D1 tt s1 ->
  plays peer (start_loop fuel d cb s1) D2 p ->
  plays peer (start_loop (S fuel) d cb s) (D1 ++ D2) p.
Proof.
  intros Hn Hc H1. apply start_loop_pass; [unfold running; by rewrite Hc, orb_true_r|by rewrite Hn].
Qed.

(** a state that does not return ends the loop *)
Lemma start_loop_cut peer fuel d cb c s D p :
  next (ses s) = c -> c <> s_connected -> plays peer (states c c d cb s) D p ->
  plays peer (start_loop (S fuel) d cb s) D (pbind p (fun _ => start_loop fuel d cb)).
Proof.
  intros <- Hc Hp. cbn [start_loop]. unfold start_iter. m_unfold. unfold running.
  rewrite bool_decide_false by done. cbn [negb orb]. by apply plays_bind.
Qed.

Lemma start_loop_stop peer fuel d cb s :
  next (ses s) = s_connected -> complete (ses s) = true ->
  exec peer (start_loop fuel d cb) s [] tt s.
Proof.
  intros Hn Hc. destruct fuel; cbn [start_loop]; ex_pure; unfold running;
    rewrite Hn, Hc, bool_decide_true by done; apply exec_ret.
Qed.

(** the heap after the buffers at [ps] have been freed *)
Fixpoint drop_all (ps : list ptr) (h : store) : store :=
  match ps with [] => h | p :: ps => drop_all ps (drop_shared p h) end.

Lemma drop_all_lookup ps h p : p ∉ ps -> bufs (drop_all ps h) !! p = bufs h !! p.
Proof.
  revert h. induction ps as [|p' ps IH]; intros h Hp; [done|]. cbn [drop_all].
  rewrite IH by set_solver. unfold drop_shared. cbn. apply lookup_delete_ne. set_solver.
Qed.

Lemma drop_all_next ps h : next_ptr (drop_all ps h) = next_ptr h.
Proof. revert h. induction ps as [|p ps IH]; intros h; [done|]. cbn. by rewrite IH. Qed.

Lemma pop_window_eq ps : forall s,
  q_rep (buffer (rxFactory s)) ps -> exists q, q_rep q [] /\
  pop_window (length ps) s =
    Ret tt (s <| rxFactory ::= upd buffer (fun _ => q) |> <| heap ::= drop_all ps |>).
Proof.
  induction ps as [|p ps IH]; intros s Hq.
  - exists (buffer (rxFactory s)). split; [done|]. by destruct s as [tx [] h w g ss pl].
  - destruct (discard_popped_cons RX p ps s Hq) as (q & Hq' & Hd).
    destruct (IH (set_factory RX (factory_of RX s <| buffer := q |>) s <| heap ::= drop_shared p |>))
      as (q' & Hq'' & Hp); [done|].
    exists q'. split; [done|]. cbn [length pop_window]. unfold mbind, M_bind. rewrite Hd.
    cbn [pbind]. exact Hp.
Qed.

(** ** [process] in the closed state *)

Lemma process_closed_eq p sz c s :
  bufs (heap s) !! p = Some (mkMemBuff sz (Some c)) ->
  process p s_closed s = Ret tt
    (s <| rxcurrentWindow ::= fun w =>
            if is_payld (header c) then om_insert (capid (header c)) p w else w |>
       <| rxFactory ::= fun f => if has_flag (header c) FIN then f <| fin := true |> else f |>).
Proof.
  intros Hp. unfold process. m_unfold. rewrite (read_capsule_exec _ _ _ _ Hp). cbn [pbind].
  unfold type_bits. cbn [capsuleType_val]. rewrite Z.land_0_r, Z.eqb_refl.
  destruct s as [tx rx h w g ss pl].
  by destruct (is_payld (header c)), (has_flag (header c) FIN).
Qed.

(** the states in which a capsule is only looked at *)
Lemma process_quiet_eq p sz c code s :
  bufs (heap s) !! p = Some (mkMemBuff sz (Some c)) -> code = s_open \/ code = s_done ->
  process p code s = Ret tt s.
Proof.
  intros Hp Hcode. unfold process. m_unfold. rewrite (read_capsule_exec _ _ _ _ Hp). cbn [pbind].
  unfold type_bits. cbn [capsuleType_val]. rewrite Z.land_0_r, Z.eqb_refl.
  by destruct Hcode as [-> | ->].
Qed.

(** ** Receiving after the opening state, and sending *)

Variable peer : remote.

Lemma receiveState_exec c d x dgram siz l al n s :
  c <> s_open ->
  q_rep (buffer (rxFactory s)) l -> chunkSize (rxFactory s) = siz -> 0 <= siz < 2 ^ 31 ->
  (14 <= length dgram)%nat -> Z.of_nat (length dgram) <= siz -> gw_ok peer al n (gw s) ->
  exists q g, q_rep q (l ++ [next_ptr (heap s)]) /\ gw_ok peer al n g /\
    exec peer (receiveState c d x) s [Theirs dgram] tt
      (s <| rxFactory ::= upd buffer (fun _ => q) |> <| heap ::= heap_recv siz dgram |>
         <| gw := g |>
         <| rxcurrentWindow ::= fun w =>
              if is_payld (decode_hdr dgram)
              then om_insert (capid (decode_hdr dgram)) (next_ptr (heap s)) w else w |>).
Proof.
  intros Hc Hq Hsiz Hs Hd Hd' Hg.
  destruct (pull_exec peer dgram siz l al n s Hq Hsiz Hs Hd Hd' Hg) as (q & g & Hq' & Hg' & Hx).
  exists q, g. split; [done|]. split; [done|]. unfold receiveState.
  rewrite decide_False by done. eapply exec_bind1; [exact Hx|].
  destruct s as [tx rx h w g0 ss pl]. cbn. ex_pure.
  eapply exec_lift; [apply load_lookup; cbn; apply lookup_insert_eq|]. cbv beta iota.
  cbn [mb_data recv_buff]. cbn [header received].
  destruct (is_payld (decode_hdr dgram)); apply exec_eq; done.
Qed.


(** before a datagram arrives it waits *)
Lemma receiveState_waits c d x l s : c <> s_open -> q_rep (buffer (rxFactory s)) l ->
  exists k, receiveState c d x s = Recvfrom k.
Proof.
  intros Hc Hq. destruct (makeChunkforRx_spec (rxFactory s) (heap s) l Hq) as (q & _ & Hmk).
  unfold receiveState. rewrite decide_False by done. unfold pull, make_chunk. m_unfold.
  cbn [factory_of]. rewrite Hmk. cbn [lift pbind].
  erewrite read_capsule_exec; [|cbn; apply lookup_insert_eq]. cbn [pbind]. by eexists.
Qed.

Lemma sendState_exec c d p sz cap al n s :
  bufs (heap s) !! p = Some (mkMemBuff sz (Some cap)) -> sendable cap ->
  gw_ok peer al n (gw s) -> 1 <= n ->
  exists g, gw_ok peer al (n - 1) g /\
    exec peer (sendState c d p) s [Mine (wire_bytes cap)] tt
      (s <| heap ::= put p (mkMemBuff sz (Some (with_header cap))) |> <| gw := g |>).
Proof.
  intros Hp Hs Hg Hn. destruct d; cbn [sendState].
  - by apply send_exec.
  - by apply chunkWrite_exec.
Qed.

End Facts.

(** ** Headers *)

Lemma set_common_ok p i h : hdr_ok h -> hdr_ok (set_common p i h).
Proof.
  intros Hh. unfold hdr_ok in *. unfold set_common. cbn.
  pose proof (u8_range (p_srcid p)). pose proof (u8_range (p_destid p)).
  pose proof (u16_range (p_connid p)). pose proof (u16_range i).
  pose proof (bitf_range 2 (p_capType p)). pose proof (bitf_range 2 0).
  cbn. lia.
Qed.

Lemma set_common_fields p i h :
  capSize (set_common p i h) = capSize h /\ capFlags (set_common p i h) = capFlags h /\
  capWinSiz (set_common p i h) = capWinSiz h /\ capid (set_common p i h) = u16 i /\
  capType (set_common p i h) = bitf 2 (p_capType p) /\ srcid (set_common p i h) = u8 (p_srcid p) /\
  connid (set_common p i h) = u16 (p_connid p).
Proof. done. Qed.

(** the flags in the parameters are not copied to the header *)
Lemma set_common_flags p fl i h :
  set_common (mkParams (p_srcid p) (p_destid p) (p_connid p) (p_capid p) (p_capSize p)
    (p_capType p) (p_capPriority p) (p_capWinSiz p) fl (p_capopts p)) i h = set_common p i h.
Proof. done. Qed.

Lemma is_payld_type h : capType h = 3 -> is_payld h = true.
Proof. intros H. unfold is_payld, type_bits. by rewrite H. Qed.

Lemma is_payld_ctrl h : capType h = 0 -> is_payld h = false.
Proof. intros H. unfold is_payld, type_bits. by rewrite H. Qed.

Lemma type_bits_ctrl h : (type_bits h CTRL =? 0) = true.
Proof. unfold type_bits. cbn. by rewrite Z.land_0_r. Qed.

Lemma has_flag_FIN h : capFlags h = 1 -> has_flag h FIN = true.
Proof. intros H. unfold has_flag. by rewrite H. Qed.

Lemma has_flag_none h : capFlags h = 0 -> has_flag h FIN = false.
Proof. intros H. unfold has_flag. by rewrite H. Qed.

Lemma hdr_zero_size_ok n : hdr_ok (hdr_zero <| capSize := n |>).
Proof. pose proof (u16_range n). unfold hdr_ok. cbn. lia. Qed.

Lemma hdr_flags_ok h n : hdr_ok h -> hdr_ok (h <| capFlags := n |>).
Proof. intros H. unfold hdr_ok in *. pose proof (bitf_range 8 n). cbn in *. lia. Qed.

#[export] Hint Resolve set_common_ok hdr_zero_size_ok hdr_flags_ok : udm.

(** a header without payload is its own datagram *)
Lemma wire_bytes_empty c : capSize (header c) = 0 -> wire_bytes c = encode_hdr (header c).
Proof. intros H. unfold wire_bytes. by rewrite H, app_nil_r. Qed.

(** a capsule of the protocol: not a payload, and its datagram is its header *)
Definition ctrl_hdr (H : capsuleHdr) : Prop := hdr_ok H /\ capType H = 0.

(** ** The capsules of a window *)

(** a payload capsule with identifier [cid] that a chunk size of [siz] admits,
    and its datagram *)
Definition good_msg (siz cid : Z) (m : capsuleHdr * list byte) : Prop :=
  hdr_ok m.1 /\ capid m.1 = cid /\ is_payld m.1 = true /\ (length m.2 <= payload siz)%nat.

Definition bytes_of (m : capsuleHdr * list byte) : list byte := encode_hdr m.1 ++ m.2.

(** consecutive capsules from identifier [cid] on; the flag [FIN] is on the last
    one when [fin], and on no other *)
Fixpoint msgs_ok (siz cid : Z) (ms : list (capsuleHdr * list byte)) (fin : bool) : Prop :=
  match ms with
  | [] => fin = false
  | m :: ms' =>
      good_msg siz cid m /\ has_flag m.1 FIN = (fin && bool_decide (ms' = [])) /\
      msgs_ok siz (cid + 1) ms' (fin && negb (bool_decide (ms' = [])))
  end.

Lemma good_msg_bytes siz cid m :
  HEADER_SPACE <= siz -> good_msg siz cid m ->
  (14 <= length (bytes_of m))%nat /\ Z.of_nat (length (bytes_of m)) <= siz /\
  decode_hdr (bytes_of m) = m.1.
Proof.
  unfold payload, HEADER_SPACE. intros Hs (Ho & _ & _ & Hl). unfold payload, HEADER_SPACE in Hl.
  unfold bytes_of. rewrite length_app, length_encode_hdr.
  rewrite decode_hdr_app, decode_encode by (done || apply length_encode_hdr).
  repeat split; lia.
Qed.

Lemma msgs_ok_payld siz cid ms fin :
  msgs_ok siz cid ms fin -> Forall (fun m => is_payld m.1 = true) ms.
Proof.
  revert cid fin. induction ms as [|m ms IH]; intros cid fin; [constructor|].
  cbn. intros ((_ & _ & Hp & _) & _ & Hms). constructor; [done|]. by eapply IH.
Qed.

(** a capsule without the flag in front *)
Lemma msgs_ok_cons siz cid m ms fin :
  good_msg siz cid m -> has_flag m.1 FIN = false -> msgs_ok siz (cid + 1) ms fin ->
  msgs_ok siz cid (m :: ms) fin.
Proof.
  intros Hm Hf Hms. cbn. split; [done|]. destruct ms as [|m' ms].
  - cbn in Hms. subst. by rewrite Hf.
  - rewrite bool_decide_false by done. by rewrite andb_false_r, andb_true_r.
Qed.

Lemma msgs_ok_last siz cid m :
  good_msg siz cid m -> has_flag m.1 FIN = true -> msgs_ok siz cid [m] true.
Proof. intros Hm Hf. cbn. by rewrite Hf. Qed.

#[export] Instance same_but_conns_equiv : Equivalence same_but_conns.
Proof.
  unfold same_but_conns. split.
  - done.
  - intros x y H. naive_solver.
  - intros x y z H1 H2. naive_solver congruence.
Qed.
