(* ===== verification/Window.v ===== *)
(** * The receive window as a list of capsules

    [rxcurrentWindow] keeps the capsules of a window in the order of their
    identifiers, whatever the order they arrive in. *)

From S2P Require Import Prelude Wire OrdMap Queue Stream Program Factory Interfaces.
From S2P Require Import Pool State Gateway Presentation Session SessionFacts.

Abbreviation capmsg := (capsuleHdr * list byte)%type.
Implicit Types (m : capmsg) (ms : list capmsg).

(** the identifiers of capsules *)
Definition ids ms : list Z := (fun m => capid m.1) <$> ms.

(** one more capsule: it goes to its place in the order of the identifiers *)
Fixpoint arrive m ms : list capmsg :=
  match ms with
  | [] => [m]
  | m' :: ms' =>
      if capid m.1 <? capid m'.1 then m :: ms
      else if capid m.1 =? capid m'.1 then m :: ms'
      else m' :: arrive m ms'
  end.

(** all of them, one after the other *)
Definition arrive_all (arrivals ms : list capmsg) : list capmsg :=
  foldl (fun ms m => arrive m ms) ms arrivals.

Lemma arrive_perm m ms : capid m.1 ∉ ids ms -> arrive m ms ≡ₚ m :: ms.
Proof.
  induction ms as [|m' ms IH]; [done|]. cbn. intros Hm.
  destruct (Z.ltb_spec (capid m.1) (capid m'.1)); [done|].
  destruct (Z.eqb_spec (capid m.1) (capid m'.1)); [set_solver|].
  rewrite IH by set_solver. apply Permutation_swap.
Qed.

Lemma arrive_last m ms : Forall (fun k => k < capid m.1) (ids ms) -> arrive m ms = ms ++ [m].
Proof.
  induction ms as [|m' ms IH]; [done|]. cbn. intros Hm. apply Forall_cons in Hm as [Hm Hms].
  destruct (Z.ltb_spec (capid m.1) (capid m'.1)); [lia|].
  destruct (Z.eqb_spec (capid m.1) (capid m'.1)); [lia|]. f_equal. by apply IH.
Qed.

Lemma arrive_sorted m ms : capid m.1 ∉ ids ms ->
  StronglySorted Z.lt (ids ms) -> StronglySorted Z.lt (ids (arrive m ms)).
Proof.
  induction ms as [|m' ms IH]; [repeat constructor|]. cbn. intros Hm Hs.
  inversion Hs as [|? ? Hms Hall]; subst.
  destruct (Z.ltb_spec (capid m.1) (capid m'.1)).
  { constructor; [done|]. constructor; [done|]. eapply Forall_impl; [exact Hall|]. cbn. lia. }
  destruct (Z.eqb_spec (capid m.1) (capid m'.1)); [set_solver|]. cbn. fold (ids (arrive m ms)).
  constructor; [apply IH; [set_solver|done]|].
  assert (ids (arrive m ms) ≡ₚ capid m.1 :: ids ms) as ->
    by (unfold ids; rewrite arrive_perm by set_solver; done).
  constructor; [lia|done].
Qed.

Lemma ids_arrive m ms : capid m.1 ∉ ids ms -> ids (arrive m ms) ≡ₚ capid m.1 :: ids ms.
Proof. intros Hm. unfold ids at 1. by rewrite arrive_perm. Qed.

(** a property of all capsules *)
Lemma arrive_Forall (P : capmsg -> Prop) m ms :
  capid m.1 ∉ ids ms -> Forall P ms -> P m -> Forall P (arrive m ms).
Proof. intros Hm Hms HP. rewrite arrive_perm by done. by constructor. Qed.

(** the window sorts: capsules that are a rearrangement of an ascending list
    end up as that list *)
Lemma arrive_all_sorts arrivals : forall ms,
  NoDup (ids (arrivals ++ ms)) -> StronglySorted Z.lt (ids ms) ->
  StronglySorted Z.lt (ids (arrive_all arrivals ms)) /\ arrive_all arrivals ms ≡ₚ arrivals ++ ms.
Proof.
  induction arrivals as [|m arrivals IH]; intros ms Hnd Hs; [done|].
  cbn in Hnd. apply NoDup_cons in Hnd as [Hm Hnd]. fold (ids (arrivals ++ ms)) in Hm, Hnd.
  assert (capid m.1 ∉ ids ms) as Hm' by (unfold ids in *; set_solver).
  destruct (IH (arrive m ms)) as [IH1 IH2].
  - unfold ids. rewrite arrive_perm by done. rewrite <- Permutation_middle. cbn. by constructor.
  - by apply arrive_sorted.
  - split; [done|]. cbn. rewrite IH2, arrive_perm by done. by rewrite <- Permutation_middle.
Qed.

#[export] Instance id_lt_antisymm :
  AntiSymm (=) (fun m m' : capmsg => capid m.1 < capid m'.1).
Proof. intros m m' H1 H2. lia. Qed.

Lemma ids_sorted ms :
  StronglySorted Z.lt (ids ms) <-> StronglySorted (fun m m' => capid m.1 < capid m'.1) ms.
Proof.
  unfold ids. induction ms as [|m ms IH]; [split; constructor|]. cbn. split; intros Hs;
    inversion Hs as [|? ? Hms Hall]; subst; (constructor; [by apply IH|]).
  - rewrite Forall_fmap in Hall. exact Hall.
  - rewrite Forall_fmap. exact Hall.
Qed.

Lemma arrive_all_eq arrivals ms :
  arrivals ≡ₚ ms -> StronglySorted Z.lt (ids ms) -> arrive_all arrivals [] = ms.
Proof.
  intros HP Hs. assert (NoDup (ids ms)) as Hnd.
  { clear HP. induction Hs as [|k l _ IH Hall]; [constructor|]. constructor; [|done].
    intros Hin. rewrite Forall_forall in Hall. apply Hall in Hin. lia. }
  assert (NoDup (ids arrivals)) as Hnd' by (unfold ids in *; by rewrite HP).
  destruct (arrive_all_sorts arrivals []) as [H1 H2]; [by rewrite app_nil_r|constructor|].
  rewrite app_nil_r in H2. rewrite ids_sorted in H1, Hs.
  eapply (StronglySorted_unique (fun m m' : capmsg => capid m.1 < capid m'.1)); [exact H1|exact Hs|]. by rewrite H2.
Qed.

(** the buffers follow *)
Lemma window_holds_arrive h w ms m p :
  window_holds h w ms -> holds_chunk h p m.1 m.2 ->
  window_holds h (om_insert (capid m.1) p w) (arrive m ms).
Proof.
  intros Hw Hp. induction Hw as [|[k p'] m' w ms [Hk Hp'] Hw IH]; cbn in *.
  - by repeat constructor.
  - subst k. destruct (Z.ltb_spec (capid m.1) (capid m'.1)); [by repeat constructor|].
    destruct (Z.eqb_spec (capid m.1) (capid m'.1)); [by constructor|]. by constructor.
Qed.

Lemma window_holds_ids h w ms : window_holds h w ms -> w.*1 = ids ms.
Proof. induction 1 as [|e m w ms [He _] _ IH]; [done|]. cbn. by f_equal. Qed.

Lemma window_holds_last h w ms k p :
  window_holds h w ms -> last w = Some (k, p) ->
  exists m, last ms = Some m /\ capid m.1 = k /\ holds_chunk h p m.1 m.2.
Proof.
  intros Hw Hl. apply last_Some in Hl as [w' ->].
  apply Forall2_app_inv_l in Hw as (ms1 & ms2 & _ & H2 & ->).
  inversion H2 as [|? m ? l [Hk Hp] Hn]; subst. inversion Hn; subst.
  exists m. by rewrite last_snoc.
Qed.

(** the last capsule carries the flag when the new one does *)
Lemma last_arrive_FIN m ms me :
  capid m.1 ∉ ids ms -> Forall (fun m => has_flag m.1 FIN = false) ms ->
  (has_flag m.1 FIN = true -> Forall (fun k => k < capid m.1) (ids ms)) ->
  last (arrive m ms) = Some me -> has_flag me.1 FIN = has_flag m.1 FIN.
Proof.
  intros Hm Hms Hf Hl. destruct (has_flag m.1 FIN) eqn:E.
  - rewrite arrive_last, last_snoc in Hl by by apply Hf. by injection Hl as <-.
  - assert (Forall (fun m => has_flag m.1 FIN = false) (arrive m ms)) as Hall by by apply arrive_Forall.
    rewrite Forall_forall in Hall. apply Hall. by apply last_Some_elem_of.
Qed.

Lemma om_insert_last_entry (cid : Z) (p : ptr) w :
  exists k pe, last (om_insert cid p w) = Some (k, pe).
Proof.
  destruct (last (om_insert cid p w)) as [[k pe]|] eqn:E; [by eexists _, _|].
  apply last_None in E. destruct w as [|[k' p'] w]; cbn in E; [done|].
  destruct (_ <? _); [done|]. by destruct (_ =? _).
Qed.
