(* ===== verification/ClientRun.v ===== *)
(** * The client in the transfer phase

    [closedState] and [doneState] with direction [RX]: the capsules of a window
    are received into [rxcurrentWindow], written to the sink in the order of
    their identifiers, and answered. *)

From S2P Require Import Prelude Wire OrdMap Queue Stream Program Factory Interfaces.
From S2P Require Import Pool State Gateway Presentation Session SessionFacts Window.

Section Client.
Context {Q : Type} {fifo : Fifo Q ptr} {laws : FifoLaws Q ptr} {mal : Malloc} {os : OS}.
Variable peer : remote.
(** the chunk size of both factories, the interfaces, and the buffer that
    [Session::start] passes to the states *)
Variables (siz : Z) (al : list ipaddr_dummy) (cb : ptr).
Implicit Types s : proc Q.

(** the client between two receptions: the sink has [out], the window holds
    [ms], the addresses suffice for [n] more datagrams, [f] is the [fin] flag *)
Record client_ok (out : list byte) (ms : list (capsuleHdr * list byte)) (n : Z) (f : bool) s : Prop := {
  cl_sink : sink_at (rxFactory s) out;
  cl_fin : fin (rxFactory s) = f;
  cl_chunk : chunkSize (rxFactory s) = siz;
  cl_chunk_tx : chunkSize (txFactory s) = siz;
  cl_rx : exists l, q_rep (buffer (rxFactory s)) l /\ l ≡ₚ (rxcurrentWindow s).*2;
  cl_tx : exists l, q_rep (buffer (txFactory s)) l;
  cl_window : window_holds (heap s) (rxcurrentWindow s) ms;
  cl_sorted : StronglySorted Z.lt (ids ms);
  cl_payld : Forall (fun m => is_payld m.1 = true) ms;
  cl_fresh : Forall (fun e => (e.2 < next_ptr (heap s))%nat) (rxcurrentWindow s);
  cl_cb : bufs (heap s) !! cb = Some (mkMemBuff (Some 0) None);
  cl_cb_fresh : (cb < next_ptr (heap s))%nat;
  cl_gw : gw_ok peer al n (gw s);
  cl_pool : q_rep (work_queue (pool s)) []
}.

(** a change of the heap that leaves the buffers below [b] alone keeps the
    window *)
Lemma window_holds_frame (h h' : store) w ms b :
  Forall (fun e => (e.2 < b)%nat) w ->
  (forall p, (p < b)%nat -> bufs h' !! p = bufs h !! p) ->
  window_holds h w ms -> window_holds h' w ms.
Proof.
  intros Hf Hsame. unfold window_holds. intros Hw.
  induction Hw as [|[k p] m w ms [Hk [r Hp]] Hw IH]; [constructor|].
  apply Forall_cons in Hf as [Hb Hf]. constructor; [|by apply IH].
  split; [done|]. exists r. by rewrite Hsame.
Qed.

Hypothesis Hsiz : HEADER_SPACE < siz < 2 ^ 16.

Lemma holds_received (h : store) m cid :
  good_msg siz cid m -> holds_chunk (heap_recv siz (bytes_of m) h) (next_ptr h) m.1 m.2.
Proof.
  intros Hm. destruct (good_msg_bytes siz cid m) as (_ & _ & Hdec); [lia|done|].
  eexists. cbn [heap_recv bufs]. rewrite lookup_insert_eq. unfold recv_buff, received.
  rewrite Hdec. unfold bytes_of at 1. rewrite length_app, length_encode_hdr.
  unfold bytes_of. rewrite <- app_assoc. do 2 f_equal. f_equal. unfold HEADER_SPACE. lia.
Qed.

(** the window after one capsule came in: its last entry, which [process] looks at *)
Lemma received_window (h : store) w ms m :
  window_holds h w ms -> StronglySorted Z.lt (ids ms) ->
  Forall (fun m => is_payld m.1 = true) ms ->
  Forall (fun e => (e.2 < next_ptr h)%nat) w ->
  good_msg siz (capid m.1) m -> capid m.1 ∉ ids ms ->
  Forall (fun m => has_flag m.1 FIN = false) ms ->
  (has_flag m.1 FIN = true -> Forall (fun k => k < capid m.1) (ids ms)) ->
  let p0 := next_ptr h in
  let h1 := mkStore (<[p0 := mkMemBuff (Some 0) None]> (bufs h)) (S p0) (mallocs h) (hdrid h) in
  let h2 := heap_recv siz (bytes_of m) h1 in
  let w' := om_insert (capid m.1) (S p0) w in
  window_holds (drop_shared p0 h2) w' (arrive m ms) /\
  exists me pe r,
    last w' = Some (capid me.1, pe) /\ om_insert (capid me.1) pe w' = w' /\
    is_payld me.1 = true /\ has_flag me.1 FIN = has_flag m.1 FIN /\
    bufs h2 !! pe = Some (mkMemBuff (Some (Z.of_nat (length me.2) + HEADER_SPACE))
                            (Some (mkCapsule me.1 (mkBuf (encode_hdr me.1 ++ me.2 ++ r) 14)))).
Proof.
  intros Hw Hso Hpy Hfr Hm Hnew Hnf Hf p0 h1 h2 w'. pose proof Hm as (_ & _ & Hp & _).
  assert (window_holds (drop_shared p0 h2) w' (arrive m ms)) as Hw'.
  { apply window_holds_arrive.
    - eapply window_holds_frame; [exact Hfr| |done]. intros p Hlt. cbn.
      unfold p0 in *. by rewrite lookup_delete_ne, !lookup_insert_ne by lia.
    - destruct (holds_received h1 m (capid m.1)) as [r Hr]; [done|].
      exists r. rewrite <- Hr. unfold drop_shared. cbn. apply lookup_delete_ne. lia. }
  split; [done|]. destruct (om_insert_last_entry (capid m.1) (S p0) w) as (k & pe & Hlast).
  destruct (window_holds_last _ _ _ _ _ Hw' Hlast) as (me & Hme & <- & r & Hpe).
  exists me, pe, r. split; [done|]. split; [|split; [|split]].
  - apply om_insert_rbegin; [|done]. unfold om_ok. rewrite (window_holds_ids _ _ _ Hw').
    by apply arrive_sorted.
  - pose proof (arrive_Forall (fun m => is_payld m.1 = true) m ms Hnew Hpy Hp) as Hpy'.
    rewrite Forall_forall in Hpy'. by apply Hpy', last_Some_elem_of.
  - apply (last_arrive_FIN _ _ _ Hnew Hnf Hf Hme).
  - cbn in Hpe. by apply lookup_delete_Some in Hpe as [_ Hpe].
Qed.

(** receive one capsule of the window, in any place, and process the last one.
    The flag is looked at when it comes with the last one. *)
Lemma submit_RX_exec out ms m n s :
  client_ok out ms n false s -> good_msg siz (capid m.1) m -> capid m.1 ∉ ids ms ->
  Forall (fun m => has_flag m.1 FIN = false) ms ->
  (has_flag m.1 FIN = true -> Forall (fun k => k < capid m.1) (ids ms)) ->
  exists s',
    exec peer (submit_RX s_closed cb) s [Theirs (bytes_of m)] tt s' /\
    client_ok out (arrive m ms) n (has_flag m.1 FIN) s' /\
    ses s' = if has_flag m.1 FIN then ses s <| winSize := 0 |> else ses s.
Proof.
  intros [Hsink Hfin Hch Hchtx (l & Hrx & Hl) Htx Hw Hso Hpy Hfr Hcb Hcbf Hg Hpl] Hm Hnew Hnf Hf.
  pose proof Hm as (_ & _ & Hp & _). pose proof Hsiz as Hsiz'. unfold HEADER_SPACE in Hsiz'.
  destruct (good_msg_bytes siz (capid m.1) m) as (Hlen & Hlen' & Hdec); [lia|done|].
  destruct s as [tx rx h w g ss pl]; cbn in *. set (cid := capid m.1) in *.
  set (p0 := next_ptr h) in *.
  set (h1 := mkStore (<[p0 := mkMemBuff (Some 0) None]> (bufs h)) (S p0) (mallocs h) (hdrid h)).
  destruct (receiveState_exec peer s_closed RX p0 (bytes_of m) siz l al n
    (mkProc tx rx h1 w g ss pl)) as (q & g' & Hq & Hg' & Hx); try done; try lia.
  rewrite Hdec, Hp in Hx. cbn in Hx. fold cid in Hx.
  set (h2 := heap_recv siz (bytes_of m) h1) in *.
  set (w' := om_insert cid (S p0) w) in *. set (f := has_flag m.1 FIN) in *.
  destruct (received_window h w ms m Hw Hso Hpy Hfr Hm Hnew Hnf Hf)
    as (Hw' & me & pe & r & Hlast & Hre & Hpme & Hfme & Hpe2).
  fold p0 h1 h2 cid in Hw', Hpe2, Hlast, Hre. fold w' in Hw', Hlast, Hre. fold f in Hfme.
  set (rx' := if f then rx <| buffer := q |> <| fin := true |> else rx <| buffer := q |>).
  set (ss' := if f then ss <| winSize := 0 |> else ss).
  exists (mkProc tx rx' (drop_shared p0 h2) w' g' ss' pl).
  assert (bufs h2 !! cb = Some (mkMemBuff (Some 0) None)) as Hcb2.
  { unfold h2. cbn. rewrite !lookup_insert_ne by lia. done. }
  split; [|split; [|done]].
  - unfold submit_RX. eapply exec_pure; [reflexivity|]. eapply exec_bind1; [exact Hx|].
    ex_pure. cbn [rxcurrentWindow upd upd_gw upd_heap]. fold w'. unfold om_rbegin. rewrite Hlast.
    cbn [fmap option_fmap option_map snd].
    apply exec_bind0 with (a := tt) (s1 := mkProc tx rx' h2 w' g' ss' pl);
      [|apply exec_eq; reflexivity].
    eapply exec_pure; [eapply process_closed_eq; exact Hpe2|].
    cbn [header]. rewrite Hpme, Hfme. cbn. rewrite Hre.
    eapply exec_pure; [reflexivity|]. cbn [rxFactory].
    apply exec_bind0 with (a := tt) (s1 := mkProc tx rx' h2 w' g' ss' pl).
    { unfold rx', ss'. destruct f; cbn; rewrite ?Hfin; apply exec_eq; reflexivity. }
    eapply exec_pure; [eapply read_capsule_exec; exact Hpe2|]. cbn [header]. rewrite Hfme.
    destruct f; [|apply exec_ret].
    ex_pure. eapply exec_lift; [apply load_lookup; cbn [heap]; exact Hcb2|apply exec_ret].
  - assert (capid m.1 ∉ w.*1) as Hnew' by (by rewrite (window_holds_ids _ _ _ Hw)).
    split; cbn; try done.
    + unfold rx'. by destruct f.
    + unfold rx'. by destruct f.
    + unfold rx'. by destruct f.
    + exists (l ++ [S p0]). split; [unfold rx'; by destruct f|]. unfold w', cid.
      rewrite om_insert_perm by done. cbn. rewrite Hl. by rewrite Permutation_app_comm.
    + by apply arrive_sorted.
    + by apply arrive_Forall.
    + unfold w', cid. rewrite om_insert_perm by done. constructor; [cbn; lia|].
      eapply Forall_impl; [exact Hfr|]. cbn. lia.
    + by rewrite lookup_delete_ne, !lookup_insert_ne by lia.
    + lia.
Qed.

(** the capsules [arrivals] that come into a window that holds [ms]: no
    identifier twice, and the flag [FIN] at most on the last one, which then has
    the highest identifier *)
Fixpoint arrivals_ok (ms arrivals : list capmsg) (last : bool) : Prop :=
  match arrivals with
  | [] => last = false
  | m :: arrivals' =>
      good_msg siz (capid m.1) m /\ (capid m.1 ∉ ids ms) /\
      has_flag m.1 FIN = (last && bool_decide (arrivals' = [])) /\
      (has_flag m.1 FIN = true -> Forall (fun k => k < capid m.1) (ids ms)) /\
      arrivals_ok (arrive m ms) arrivals' (last && negb (bool_decide (arrivals' = [])))
  end.

(** the loop of [closedState]: one window, or what is left of the file *)
Lemma closed_loop_RX_exec arrivals : forall fuel last ms out n s,
  client_ok out ms n false s -> arrivals_ok ms arrivals last ->
  Forall (fun m => has_flag m.1 FIN = false) ms ->
  0 <= winSize (ses s) < 2 ^ 16 -> (Z.to_nat (winSize (ses s)) <= fuel)%nat ->
  (if last then Z.of_nat (length arrivals) <= winSize (ses s)
   else Z.of_nat (length arrivals) = winSize (ses s)) ->
  exists s',
    exec peer (closed_loop fuel s_closed RX cb) s (map (fun m => Theirs (bytes_of m)) arrivals) tt s' /\
    client_ok out (arrive_all arrivals ms) n last s' /\ ses s' = ses s <| winSize := 0 |>.
Proof.
  induction arrivals as [|m arrivals IH]; intros fuel last ms out n s Hcl Hms Hnf HW Hfuel Hlen.
  - cbn in Hms. subst last. cbn in Hlen. exists s. split; [|split; [done|]].
    + destruct fuel; cbn [closed_loop]; ex_pure; rewrite <- Hlen; apply exec_ret.
    + destruct (ses s); cbn in *. by subst.
  - destruct Hms as (Hm & Hnew & Hfl & Hmax & Hms). cbn [length] in Hlen.
    destruct (submit_RX_exec out ms m n s Hcl Hm Hnew Hnf Hmax) as (s1 & Hx & Hcl1 & Hs1).
    assert (1 <= winSize (ses s)) as HW1 by (destruct last; lia).
    destruct fuel as [|fuel]; [lia|].
    cbn [closed_loop map]. change (Theirs (bytes_of m) :: ?l) with ([Theirs (bytes_of m)] ++ l).
    destruct (has_flag m.1 FIN) eqn:Hf.
    + symmetry in Hfl. apply andb_true_iff in Hfl as [-> Hnil]. apply bool_decide_eq_true in Hnil.
      subst arrivals. exists s1. split; [|done]. ex_pure.
      destruct (Z.ltb_spec 0 (winSize (ses s))); [|cbn in *; lia].
      eapply exec_bind1; [exact Hx|]. ex_pure. rewrite Hs1. cbn [winSize upd upd_winSize].
      rewrite u16_small by lia. cbn [Z.eqb]. ex_pure.
      destruct fuel; cbn [closed_loop]; ex_pure; rewrite Hs1; apply exec_ret.
    + assert (fin_rest : last && negb (bool_decide (arrivals = [])) = last).
      { destruct last; [|done]. cbn in *. by rewrite <- Hfl. }
      rewrite fin_rest in Hms.
      set (s2 := s1 <| ses ::= upd winSize (fun w => w - 1) |>).
      assert (winSize (ses s2) = winSize (ses s) - 1) as HW2.
      { unfold s2. cbn. rewrite Hs1. apply u16_small. destruct last; lia. }
      destruct (IH fuel last (arrive m ms) out n s2) as (s' & Hx' & Hcl' & Hs').
      * destruct Hcl1. by split.
      * done.
      * by apply arrive_Forall.
      * lia.
      * lia.
      * destruct last; lia.
      * exists s'. split; [|split; [done|]].
        -- ex_pure. destruct (Z.ltb_spec 0 (winSize (ses s))); [|destruct last; lia].
           eapply exec_bind; [exact Hx|]. ex_pure. rewrite Hs1.
           destruct (Z.eqb_spec (winSize (ses s)) 0); [lia|].
           eapply exec_pure; [reflexivity|]. exact Hx'.
        -- rewrite Hs'. unfold s2. cbn. by rewrite Hs1.
Qed.


(** fewer capsules than the window has room for, none with the flag: the loop
    waits for the next one *)
Lemma closed_loop_RX_wait arrivals : forall fuel ms out n s,
  client_ok out ms n false s -> arrivals_ok ms arrivals false ->
  Forall (fun m => has_flag m.1 FIN = false) ms ->
  Z.of_nat (length arrivals) < winSize (ses s) < 2 ^ 16 -> (Z.to_nat (winSize (ses s)) <= fuel)%nat ->
  exists k,
    plays peer (closed_loop fuel s_closed RX cb s) (map (fun m => Theirs (bytes_of m)) arrivals) (Recvfrom k).
Proof.
  induction arrivals as [|m arrivals IH]; intros fuel ms out n s Hcl Hms Hnf HW Hfuel;
    (destruct fuel as [|fuel]; [lia|]).
  - destruct (cl_rx _ _ _ _ _ Hcl) as (l & Hrx & _).
    destruct s as [tx rx h w g ss pl]. cbn in Hrx, HW.
    cbn [closed_loop]. unfold submitTask, submit_RX, new_memBuff. m_unfold. cbn [ses winSize].
    destruct (Z.ltb_spec 0 (winSize ss)); [|lia]. cbn [make_shared fst snd pbind].
    match goal with |- context [receiveState s_closed RX ?p ?s1] =>
      destruct (receiveState_waits s_closed RX p l s1) as (k & Hk') end; [done|exact Hrx|].
    rewrite Hk'. cbn [pbind]. eexists. constructor.
  - destruct Hms as (Hm & Hnew & Hfl & Hmax & Hms). cbn [length] in HW. cbn [andb] in Hfl, Hms.
    destruct (submit_RX_exec out ms m n s Hcl Hm Hnew Hnf Hmax) as (s1 & Hx & Hcl1 & Hs1).
    rewrite Hfl in Hcl1, Hs1.
    set (s2 := s1 <| ses ::= upd winSize (fun w => w - 1) |>).
    assert (winSize (ses s2) = winSize (ses s) - 1) as HW2.
    { unfold s2. cbn. rewrite Hs1. apply u16_small. lia. }
    destruct (IH fuel (arrive m ms) out n s2) as (k & Hp);
      [by destruct Hcl1|done|by apply arrive_Forall|lia|lia|].
    exists k. cbn [map closed_loop]. change (Theirs ?x :: ?l) with ([Theirs x] ++ l). m_unfold.
    destruct (Z.ltb_spec 0 (winSize (ses s))); [|lia].
    eapply plays_app; [apply plays_bind; exact Hx|]. cbn [pbind].
    rewrite Hs1. by destruct (Z.eqb_spec (winSize (ses s)) 0); [lia|].
Qed.

(** capsules with consecutive identifiers are such arrivals *)
Lemma msgs_arrivals arrivals : forall cid ms fin,
  msgs_ok siz cid arrivals fin -> Forall (fun k => k < cid) (ids ms) ->
  arrivals_ok ms arrivals fin /\ arrive_all arrivals ms = ms ++ arrivals.
Proof.
  induction arrivals as [|m arrivals IH]; intros cid ms fin Hms Hk.
  - by rewrite app_nil_r.
  - destruct Hms as (Hm & Hfl & Hms). pose proof Hm as (_ & Hid & _ & _).
    rewrite <- Hid in Hk, Hm. pose proof (arrive_last m ms Hk) as Hl.
    destruct (IH (cid + 1) (ms ++ [m]) _ Hms) as [IH1 IH2].
    { unfold ids. rewrite fmap_app. apply Forall_app. split; [|repeat constructor; cbn; lia].
      eapply Forall_impl; [exact Hk|]. cbn. lia. }
    split; [split; [done|split; [|split; [done|split; [done|by rewrite Hl]]]]|].
    + intros Hin. rewrite Forall_forall in Hk. apply Hk in Hin. lia.
    + cbn. rewrite Hl. fold (arrive_all arrivals (ms ++ [m])). by rewrite IH2, <- app_assoc.
Qed.

Lemma closedState_RX_exec arrivals last out n s :
  client_ok out [] n false s -> arrivals_ok [] arrivals last ->
  0 <= winSize (ses s) < 2 ^ 16 ->
  (if last then Z.of_nat (length arrivals) <= winSize (ses s)
   else Z.of_nat (length arrivals) = winSize (ses s)) ->
  exists s',
    exec peer (closedState s_closed RX cb) s (map (fun m => Theirs (bytes_of m)) arrivals) tt s' /\
    client_ok out (arrive_all arrivals []) n last s' /\
    ses s' = ses s <| winSize := 0 |> <| next := s_done |>.
Proof.
  intros Hcl Hms HW Hlen.
  destruct (closed_loop_RX_exec arrivals (Z.to_nat (winSize (ses s))) last [] out n s)
    as (s1 & Hx & Hcl1 & Hs1); [done|done|constructor|done|lia|done|].
  exists (s1 <| ses ::= upd next (fun _ => s_done) |>). split; [|split].
  - unfold closedState. ex_pure. eapply exec_bind1; [exact Hx|]. ex_pure.
    eapply exec_lift; [apply workdone_rep, (cl_pool _ _ _ _ _ Hcl1)|]. by apply exec_eq.
  - destruct Hcl1. by split.
  - cbn. by rewrite Hs1.
Qed.

Lemma client_cb_notin out ms n f s : client_ok out ms n f s -> cb ∉ (rxcurrentWindow s).*2.
Proof.
  intros [_ _ _ _ _ _ Hw _ _ _ Hcb _ _ _] Hin. apply list_elem_of_fmap in Hin as ([k p] & -> & Hin).
  apply list_elem_of_lookup in Hin as [i Hi].
  destruct (Forall2_lookup_l _ _ _ _ _ Hw Hi) as (m & _ & _ & [r Hr]). cbn in *. congruence.
Qed.

(** the buffer of the answer stays in the queue of [txFactory] *)
Definition leaks s s' : Prop :=
  exists l p, q_rep (buffer (txFactory s)) l /\ q_rep (buffer (txFactory s')) (l ++ [p]) /\
    is_Some (bufs (heap s') !! p).

Lemma window_fresh (w : list (Z * ptr)) ps b :
  Forall (fun e => (e.2 < b)%nat) w -> ps ≡ₚ w.*2 -> b ∉ ps.
Proof.
  intros Hfr ->. rewrite list_elem_of_fmap. intros (e & -> & Hin).
  rewrite Forall_forall in Hfr. apply Hfr in Hin. lia.
Qed.

(** the answer to a window: a fresh buffer becomes a capsule of the header alone *)
Lemma answer_exec pn m hid n pr s :
  bufs (heap s) !! pn = Some (new_buff m hid siz) -> gw_ok peer al n (gw s) -> 1 <= n ->
  p_capType pr = 0 ->
  let H := set_common pr (capsuleId (ses s)) (hdr_zero <| capid := hid |> <| capWinSiz := WIN_SIZ |>) in
  let buff c := mkMemBuff (Some sizeof_capsule) (Some c) in
  let cap := mkCapsule H (mkBuf (malloc m siz) 0) in
  let s1 := s <| ses ::= fun ss => ss <| winSize := winSize ss |> <| capsuleId ::= fun i => i + 1 |> |>
              <| heap ::= put pn (buff cap) |> in
  setCapParams pn pr s_done s = Ret tt s1 /\
  exists g', gw_ok peer al (n - 1) g' /\
    exec peer (sendState s_done RX pn) s1 [Mine (encode_hdr H)] tt
      (s1 <| heap ::= put pn (buff (with_header cap)) |> <| gw := g' |>).
Proof.
  intros Hpn Hg Hn Hp H buff cap s1. split.
  { by erewrite setCapParams_eq; [|exact Hpn|reflexivity]. }
  destruct (sendState_exec peer s_done RX pn (Some sizeof_capsule) cap al n s1)
    as (g' & Hg' & Hsend); [cbn; by rewrite lookup_insert_eq| |done|done|].
  - split; [done|]. split; [done|]. cbn. rewrite length_malloc.
    pose proof Hsiz. unfold HEADER_SPACE in *. lia.
  - rewrite wire_bytes_empty in Hsend by done. by exists g'.
Qed.

(** write the window, answer it *)
Lemma doneState_RX_exec ms last out n s :
  client_ok out ms n last s -> 1 <= n ->
  Z.of_nat (length (concat (ms.*2))) < 2 ^ 31 - 14 ->
  exists H s',
    ctrl_hdr H /\ exec peer (doneState s_done RX cb) s [Mine (encode_hdr H)] tt s' /\
    client_ok (out ++ concat (ms.*2)) [] (n - 1) last s' /\ rxcurrentWindow s' = [] /\
    next (ses s') = (if last then s_connected else s_closed) /\ complete (ses s') = true /\
    winSize (ses s') = (if last then u16 (winSize (ses s)) else WIN_SIZ) /\
    capFlags H = 0 /\ leaks s s'.
Proof.
  intros Hcl Hn Hlen. pose proof (client_cb_notin _ _ _ _ _ Hcl) as Hcbn.
  destruct Hcl as [Hsink Hfin Hch Hchtx (ps & Hrx & Hps) [l Htx] Hw Hso Hms Hfr Hcb Hcbf Hg Hpl].
  destruct (write_window_exec peer _ ms out s Hw Hms Hsink Hlen) as (rx1 & Hx1 & Hsink1 & Hb1 & Hf1 & Hc1).
  destruct s as [tx rx h w g ss pl]; cbn in *.
  destruct (newBuffer_exec TX l (mkProc tx rx1 h w g ss pl) Htx) as (q1 & Hq1 & Hnew).
  cbn [factory_of set_factory txFactory heap] in Hnew, Hq1. rewrite Hchtx in Hnew.
  destruct (pop_window_eq ps (mkProc (tx <| buffer := q1 |>) rx1 (heap_new siz h) w g ss pl))
    as (q2 & Hq2 & Hpop); [cbn; by rewrite Hb1|].
  assert (length ps = length w) as Hpsl by (rewrite Hps; apply length_fmap). rewrite Hpsl in Hpop.
  set (h2 := drop_all ps (heap_new siz h)) in *.
  set (pn := next_ptr h) in *.
  pose proof (window_fresh _ _ _ Hfr Hps : pn ∉ ps) as Hpn.
  assert (bufs h2 !! pn = Some (new_buff (mallocs h) (hdrid h) siz)) as Hpn2.
  { unfold h2. rewrite drop_all_lookup by done. cbn. by rewrite lookup_insert_eq. }
  set (sA := mkProc (tx <| buffer := q1 |>) (rx1 <| buffer := q2 |>) h2 [] g (touch ss) pl).
  destruct (answer_exec pn (mallocs h) (hdrid h) n (params_of (cur ss) CTRL) sA)
    as (Hset & g' & Hg' & Hsend); try done.
  cbv zeta in Hset, Hsend.
  match type of Hsend with exec _ _ _ _ _ ?x => set (sB := x) in * end.
  set (sC := if last then sB <| ses ::= upd next (fun _ => s_connected) |>
             else sB <| ses ::= fun ss => ss <| winSize := WIN_SIZ |> <| next := s_closed |> |>).
  set (fl := fun ss => ss <| is_done := true |> <| complete := true |> : session).
  eexists (set_common _ _ _), (sC <| ses ::= fl |>). split; [|split; [|split]].
  2: { unfold doneState. apply exec_bind1 with (a := tt) (s1 := sC); [|by apply exec_eq].
    ex_pure. ex_pure. cbn [rxFactory rxcurrentWindow].
    eapply exec_bind0; [exact Hx1|]. cbn [upd upd_rxFactory].
    eapply exec_pure; [exact Hnew|]. eapply exec_pure; [exact Hpop|].
    ex_pure. eapply exec_pure; [apply (conn_params_eq _ (mkProc _ _ h2 [] g ss pl))|].
    cbv zeta. eapply exec_pure.
    { rewrite <- Hset. by destruct (fin rx). }
    eapply exec_bind1; [exact Hsend|].
    ex_pure. cbn. rewrite Hf1, Hfin. by destruct last; apply exec_eq. }
  - split; [|done]. apply set_common_ok. unfold hdr_ok. cbn.
    pose proof (u16_range (hdrid h)). pose proof (bitf_range 4 WIN_SIZ). lia.
  - assert (next_ptr h2 = S pn) as Hn2 by (unfold h2; by rewrite drop_all_next).
    unfold sC, sB. split; destruct last; cbn; try done; try congruence; try constructor.
    all: first [by exists [] | by exists (l ++ [pn]) | rewrite Hn2; lia | rewrite !lookup_insert_ne by lia].
    all: unfold h2; rewrite drop_all_lookup by (by rewrite Hps); cbn; by rewrite lookup_insert_ne by lia.
  - destruct (touch_same ss) as (_ & _ & _ & _ & Hwin & _).
    assert (leaks (mkProc tx rx h w g ss pl) (sC <| ses ::= fl |>)) as Hleak.
    { exists l, pn. unfold sC. destruct last; cbn; rewrite lookup_insert_eq; eauto. }
    unfold sC, sB in *. destruct last; cbn; rewrite ?Hwin; repeat split; done.
Qed.

(** the client before a window, and after the last one *)
Definition client_at (out : list byte) (n : Z) s : Prop :=
  client_ok out [] n false s /\ rxcurrentWindow s = [] /\ next (ses s) = s_closed /\
  winSize (ses s) = WIN_SIZ.

Definition client_finished (out : list byte) s : Prop :=
  sink_at (rxFactory s) out /\ next (ses s) = s_connected /\ complete (ses s) = true.

(** two passes of the loop: a window, in any order of arrival, and its answer *)
Lemma client_arrivals arrivals last out n s :
  client_at out n s -> arrivals_ok [] arrivals last -> 1 <= n ->
  (if last then (length arrivals <= 5)%nat else length arrivals = 5%nat) ->
  let bs := concat ((arrive_all arrivals []).*2) in
  Z.of_nat (length bs) < 2 ^ 31 - 14 ->
  exists H s', ctrl_hdr H /\
    (if last then client_finished (out ++ bs) s' else client_at (out ++ bs) (n - 1) s') /\
    forall fuel D p, plays peer (start_loop fuel RX cb s') D p ->
      plays peer (start_loop (S (S fuel)) RX cb s)
        (map (fun m => Theirs (bytes_of m)) arrivals ++ Mine (encode_hdr H) :: D) p.
Proof.
  intros (Hcl & Hw & Hnx & HW) Hms Hn Hlen bs Htot.
  destruct (closedState_RX_exec arrivals last out n s) as (s1 & Hx & Hcl1 & Hs1); try done.
  { by rewrite HW. }
  { rewrite HW. unfold WIN_SIZ. destruct last; lia. }
  destruct (doneState_RX_exec _ last out n s1 Hcl1) as
    (H & s' & HH & Hx' & Hcl' & Hw' & Hnx' & Hco & HW' & _); [done|done|].
  exists H, s'. split; [done|]. split.
  - destruct last; [|done]. split; [apply (cl_sink _ _ _ _ _ Hcl')|done].
  - intros fuel D p Hrest. eapply start_loop_step; [exact Hnx|done|exact Hx|].
    change (Mine ?x :: D) with ([Mine x] ++ D).
    eapply start_loop_step; [by rewrite Hs1|done|exact Hx'|done].
Qed.

(** the same for capsules that come in order *)
Lemma client_window ms last cid out n s :
  client_at out n s -> msgs_ok siz cid ms last -> 1 <= n ->
  (if last then (length ms <= 5)%nat else length ms = 5%nat) ->
  Z.of_nat (length (concat (ms.*2))) < 2 ^ 31 - 14 ->
  exists H s', ctrl_hdr H /\
    (if last then client_finished (out ++ concat (ms.*2)) s'
     else client_at (out ++ concat (ms.*2)) (n - 1) s') /\
    forall fuel D p, plays peer (start_loop fuel RX cb s') D p ->
      plays peer (start_loop (S (S fuel)) RX cb s)
        (map (fun m => Theirs (bytes_of m)) ms ++ Mine (encode_hdr H) :: D) p.
Proof.
  intros Hc Hms Hn Hlen Htot.
  destruct (msgs_arrivals ms cid [] last Hms) as [Ha He]; [constructor|]. cbn [app] in He.
  pose proof (client_arrivals ms last out n s Hc Ha Hn Hlen) as Hw. rewrite He in Hw. by apply Hw.
Qed.

(** a window that the server does not complete *)
Lemma client_wait ms fuel cid out n s :
  client_at out n s -> msgs_ok siz cid ms false -> (length ms < 5)%nat ->
  exists k,
    plays peer (start_loop (S fuel) RX cb s) (map (fun m => Theirs (bytes_of m)) ms) (Recvfrom k).
Proof.
  intros (Hcl & Hw & Hnx & HW) Hms Hlen.
  destruct (msgs_arrivals ms cid [] false Hms) as [Ha _]; [constructor|].
  destruct (closed_loop_RX_wait ms (Z.to_nat (winSize (ses s))) [] out n s) as (k & Hp);
    try done; [rewrite HW; unfold WIN_SIZ; lia|].
  eexists.
  eapply eq_rect; [eapply start_loop_cut; [exact Hnx|done|]|].
  - cbn [states]. unfold closedState. m_unfold. apply plays_bind. exact Hp.
  - done.
Qed.

End Client.
