(* ===== verification/WindowProps.v ===== *)
(** * What the client makes of a window

    A window's capsules in any order of arrival, and the capsule with the flag
    [FIN] that overtakes others. *)

From S2P Require Import Prelude Wire OrdMap Queue Stream Program Factory Interfaces.
From S2P Require Import Pool State Gateway Presentation Session SessionFacts Window.
From S2P Require Import ClientRun Concrete.

Section Arrivals.
Variable siz : Z.

(** a payload capsule without the flag *)
Definition plain (m : capmsg) : Prop := good_msg siz (capid m.1) m /\ has_flag m.1 FIN = false.

Lemma msgs_plain ms : forall cid, msgs_ok siz cid ms false -> Forall plain ms.
Proof.
  induction ms as [|m ms IH]; intros cid; [constructor|]. cbn. intros (Hm & Hf & Hms).
  constructor; [|by eapply IH]. split; [|exact Hf]. pose proof Hm as (_ & Hid & _). by rewrite Hid.
Qed.

Lemma msgs_sorted ms : forall cid fin, msgs_ok siz cid ms fin ->
  StronglySorted Z.lt (ids ms) /\ Forall (fun k => cid <= k) (ids ms).
Proof.
  induction ms as [|m ms IH]; intros cid fin; [split; constructor|]. cbn. intros (Hm & _ & Hms).
  destruct (IH _ _ Hms) as [H1 H2]. pose proof Hm as (_ & Hid & _). fold (ids ms). split.
  - constructor; [done|]. eapply Forall_impl; [exact H2|]. cbn. lia.
  - constructor; [lia|]. eapply Forall_impl; [exact H2|]. cbn. lia.
Qed.

Lemma plain_arrivals arrivals : forall ms,
  Forall plain arrivals -> NoDup (ids (arrivals ++ ms)) -> arrivals_ok siz ms arrivals false.
Proof.
  induction arrivals as [|m arrivals IH]; intros ms Hp Hnd; [done|].
  apply Forall_cons in Hp as [[Hm Hf] Hp]. cbn in Hnd. fold (ids (arrivals ++ ms)) in Hnd.
  apply NoDup_cons in Hnd as [Hnew Hnd].
  assert (capid m.1 ∉ ids ms) as Hnew' by (unfold ids in *; set_solver).
  cbn. split; [done|]. split; [done|]. split; [done|]. split; [by rewrite Hf|].
  apply IH; [done|]. unfold ids. rewrite arrive_perm by done. rewrite <- Permutation_middle.
  cbn. by constructor.
Qed.

(** [FIN] last, whatever is missing before it *)
Lemma fin_arrivals arrivals m : forall ms,
  Forall plain arrivals -> NoDup (ids (arrivals ++ ms)) ->
  good_msg siz (capid m.1) m -> has_flag m.1 FIN = true ->
  Forall (fun k => k < capid m.1) (ids (arrivals ++ ms)) ->
  arrivals_ok siz ms (arrivals ++ [m]) true /\
  arrive_all (arrivals ++ [m]) ms = arrive_all arrivals ms ++ [m].
Proof.
  induction arrivals as [|m' arrivals IH]; intros ms Hp Hnd Hm Hf Hlt.
  - cbn in *. split; [|by apply arrive_last]. split; [done|]. split; [|by rewrite Hf].
    intros Hin. rewrite Forall_forall in Hlt. apply Hlt in Hin. lia.
  - apply Forall_cons in Hp as [[Hm' Hf'] Hp]. cbn in Hnd, Hlt. fold (ids (arrivals ++ ms)) in Hnd, Hlt.
    apply NoDup_cons in Hnd as [Hnew Hnd]. apply Forall_cons in Hlt as [Hlt' Hlt].
    assert (capid m'.1 ∉ ids ms) as Hnew' by (unfold ids in *; set_solver).
    assert (ids (arrivals ++ arrive m' ms) ≡ₚ capid m'.1 :: ids (arrivals ++ ms)) as Hids.
    { unfold ids. rewrite arrive_perm by done. by rewrite <- Permutation_middle. }
    destruct (IH (arrive m' ms)) as [IH1 IH2]; try done.
    + rewrite Hids. by constructor.
    + rewrite Hids. by constructor.
    + split; [|exact IH2]. cbn. split; [done|]. split; [done|].
      rewrite (bool_decide_false (arrivals ++ [m] = [])) by (by destruct arrivals).
      split; [done|]. split; [by rewrite Hf'|]. exact IH1.
Qed.

End Arrivals.

Section Client.
Context {Q : Type} {fifo : Fifo Q ptr} {laws : FifoLaws Q ptr} {mal : Malloc} {os : OS}.
Variable peer : remote.
Variables (siz : Z) (al : list ipaddr_dummy) (cb : ptr).
Hypothesis Hsiz : HEADER_SPACE < siz < 2 ^ 16.
Implicit Types s : proc Q.

(** [closedState], then [doneState] *)
Definition one_window : M (proc Q) unit := closedState s_closed RX cb;; doneState s_done RX cb.

Lemma one_window_exec arrivals last out n s :
  client_at peer siz al cb out n s -> arrivals_ok siz [] arrivals last -> 1 <= n ->
  (if last then (length arrivals <= 5)%nat else length arrivals = 5%nat) ->
  let bs := concat ((arrive_all arrivals []).*2) in
  Z.of_nat (length bs) < 2 ^ 31 - 14 ->
  exists H s', ctrl_hdr H /\
    exec peer one_window s (map (fun m => Theirs (bytes_of m)) arrivals ++ [Mine (encode_hdr H)]) tt s' /\
    if last then client_finished (out ++ bs) s' else client_at peer siz al cb (out ++ bs) (n - 1) s'.
Proof.
  intros (Hcl & Hw & Hnx & HW) Hms Hn Hlen bs Htot.
  destruct (closedState_RX_exec peer siz al cb Hsiz arrivals last out n s) as (s1 & Hx & Hcl1 & Hs1); try done.
  { by rewrite HW. }
  { rewrite HW. unfold WIN_SIZ. destruct last; lia. }
  destruct (doneState_RX_exec peer siz al cb Hsiz _ last out n s1 Hcl1) as
    (H & s' & HH & Hx' & Hcl' & Hw' & Hnx' & Hco & HW' & _); [done|done|].
  exists H, s'. split; [done|]. split; [by eapply exec_bind|].
  destruct last; [|done]. split; [apply (cl_sink _ _ _ _ _ _ _ _ _ Hcl')|done].
Qed.

(** C4: the network may deliver the capsules of a window in any order: the
    client sorts them by their identifiers, and what it appends to the sink is
    the payloads in the order in which they were sent. *)
Theorem window_any_order ms arrivals cid out n s :
  client_at peer siz al cb out n s -> msgs_ok siz cid ms false -> arrivals ≡ₚ ms -> length ms = 5%nat ->
  1 <= n -> Z.of_nat (length (concat (ms.*2))) < 2 ^ 31 - 14 ->
  exists H s', ctrl_hdr H /\
    exec peer one_window s (map (fun m => Theirs (bytes_of m)) arrivals ++ [Mine (encode_hdr H)]) tt s' /\
    client_at peer siz al cb (out ++ concat (ms.*2)) (n - 1) s'.
Proof.
  intros Hc Hms HP H5 Hn Hlen. destruct (msgs_sorted siz ms cid false Hms) as [Hso _].
  pose proof (arrive_all_eq arrivals ms HP Hso) as He.
  assert (NoDup (ids arrivals)) as Hnd.
  { unfold ids. rewrite HP. fold (ids ms). clear -Hso.
    induction Hso as [|k l _ IH Hall]; [constructor|]. constructor; [|done].
    intros Hin. rewrite Forall_forall in Hall. apply Hall in Hin. lia. }
  destruct (one_window_exec arrivals false out n s Hc) as (H & s' & HH & Hx & Hs').
  - apply plain_arrivals; [rewrite HP; by eapply msgs_plain|by rewrite app_nil_r].
  - done.
  - by rewrite HP.
  - by rewrite He.
  - rewrite He in Hs'. by exists H, s'.
Qed.

(** C15: the capsule with the flag [FIN] ends the session when it arrives, even
    when capsules with smaller identifiers are still on their way: the client
    writes what it has, reports the end of the file, and the rest is lost. *)
Theorem window_early_fin arrivals m out n s :
  client_at peer siz al cb out n s -> Forall (plain siz) arrivals -> NoDup (ids arrivals) ->
  good_msg siz (capid m.1) m -> has_flag m.1 FIN = true ->
  Forall (fun k => k < capid m.1) (ids arrivals) -> (length arrivals <= 4)%nat -> 1 <= n ->
  let bs := concat ((arrive_all arrivals []).*2) ++ m.2 in
  Z.of_nat (length bs) < 2 ^ 31 - 14 ->
  exists H s', ctrl_hdr H /\
    exec peer one_window s
      (map (fun m => Theirs (bytes_of m)) (arrivals ++ [m]) ++ [Mine (encode_hdr H)]) tt s' /\
    sink_at (rxFactory s') (out ++ bs) /\ next (ses s') = s_connected /\ complete (ses s') = true.
Proof.
  intros Hc Hp Hnd Hm Hf Hlt H4 Hn bs Hlen.
  destruct (fin_arrivals siz arrivals m [] Hp) as [Ha He]; try (done || by rewrite app_nil_r).
  assert (concat ((arrive_all (arrivals ++ [m]) []).*2) = bs) as Hbs.
  { rewrite He, fmap_app, concat_app. cbn. by rewrite app_nil_r. }
  destruct (one_window_exec (arrivals ++ [m]) true out n s Hc Ha Hn) as (H & s' & HH & Hx & Hs').
  - rewrite length_app. cbn. lia.
  - by rewrite Hbs.
  - rewrite Hbs in Hs'. exists H, s'. done.
Qed.

End Client.

(** ** A concrete client

    Chunks of 64 bytes, an empty sink, and the identifiers from 10 on. *)

#[local] Existing Instances Linked.linked_fifo Linked.linked_laws.

Definition demo_client : proc buffer_queue :=
  mkProc (DataFactory_new 64)
    (DataFactory_new 64 <| sourceData := Some (mkSource OUT (fs_opened []) 0) |>)
    (mkStore {[ 0%nat := mkMemBuff (Some 0) None ]} 1 0 0) []
    (mkGateway server_addr [] 0 None 0 0 0 0 0)
    (mkSession ∅ 1 false s_closed false WIN_SIZ 2 1 0 1)
    (thread_pool_new 4).

Lemma demo_client_at : client_at (os:=demo_os_c) server_remote 64 [] 0 [] 100 demo_client.
Proof.
  split; [|done]. split; try done.
  - by eexists _, _.
  - exists []. split; [apply Linked.threadsafe_queue_rep|done].
  - exists []. apply Linked.threadsafe_queue_rep.
  - constructor.
  - constructor.
  - constructor.
  - apply Linked.threadsafe_queue_rep.
Qed.

(** the capsule number [i] with one byte, and the flags [fl] *)
Definition demo_msg (i fl : Z) (b : byte) : capmsg := (mkHdr 1 1 1 i 1 3 0 0 fl 0, [b]).

Definition demo_window : list capmsg :=
  [demo_msg 10 0 Byte.x41; demo_msg 11 0 Byte.x42; demo_msg 12 0 Byte.x43;
   demo_msg 13 0 Byte.x44; demo_msg 14 0 Byte.x45].

Lemma demo_good i fl b : 0 <= i < 2 ^ 16 -> 0 <= fl < 2 ^ 8 -> good_msg 64 i (demo_msg i fl b).
Proof.
  intros Hi Hf. split; [unfold hdr_ok; cbn; lia|]. split; [done|]. split; [done|].
  cbn. unfold payload, HEADER_SPACE. lia.
Qed.

Lemma demo_window_ok : msgs_ok 64 10 demo_window false.
Proof. repeat (split; [apply demo_good; lia|split; [done|]]). done. Qed.

(** the five capsules arrive backwards *)
Lemma window_any_order_witness :
  exists H s', ctrl_hdr H /\
    exec server_remote (one_window (mal:=demo_malloc) (os:=demo_os_c) 0) demo_client
      (map (fun m => Theirs (bytes_of m)) (reverse demo_window) ++ [Mine (encode_hdr H)]) tt s' /\
    client_at (os:=demo_os_c) server_remote 64 [] 0 ([] ++ [Byte.x41; Byte.x42; Byte.x43; Byte.x44; Byte.x45]) 99 s'.
Proof.
  apply (window_any_order (mal:=demo_malloc) (os:=demo_os_c) server_remote 64 [] 0 ltac:(done)
    demo_window (reverse demo_window) 10 [] 100 demo_client demo_client_at demo_window_ok).
  - apply reverse_Permutation.
  - done.
  - lia.
  - cbn. lia.
Defined.

(** number 11 is lost, and number 12 carries [FIN] *)
Lemma window_early_fin_witness :
  exists H s', ctrl_hdr H /\
    exec server_remote (one_window (mal:=demo_malloc) (os:=demo_os_c) 0) demo_client
      (map (fun m => Theirs (bytes_of m)) [demo_msg 10 0 Byte.x41; demo_msg 12 1 Byte.x43] ++
       [Mine (encode_hdr H)]) tt s' /\
    sink_at (rxFactory s') ([] ++ [Byte.x41; Byte.x43]) /\ next (ses s') = s_connected /\
    complete (ses s') = true.
Proof.
  apply (window_early_fin (mal:=demo_malloc) (os:=demo_os_c) server_remote 64 [] 0 ltac:(done)
    [demo_msg 10 0 Byte.x41] (demo_msg 12 1 Byte.x43) [] 100 demo_client demo_client_at).
  - constructor; [|constructor]. split; [by apply demo_good|done].
  - apply NoDup_singleton.
  - by apply demo_good.
  - done.
  - constructor; [cbn; lia|constructor].
  - cbn. lia.
  - lia.
  - cbn. lia.
Defined.
