(* ===== verification/ServerRun.v ===== *)
(** * The server in the transfer phase

    [closedState] and [doneState] with direction [TX]: the chunks of the file
    go out in windows, each window waits for its answer. *)

From S2P Require Import Prelude Wire OrdMap Queue Stream Program Factory Interfaces.
From S2P Require Import Pool State Gateway Presentation Session SessionFacts.

Section Server.
Context {Q : Type} {fifo : Fifo Q ptr} {laws : FifoLaws Q ptr} {mal : Malloc} {os : OS}.
Variable peer : remote.
Variables (siz : Z) (al : list ipaddr_dummy) (file : list byte).
Implicit Types s : proc Q.

(** the server between two capsules: the first [off] bytes of the file have been
    read, and [f] is the [fin] flag *)
Record server_ok (off : nat) (n : Z) (f : bool) s : Prop := {
  sv_src : f = false -> source_at (txFactory s) file off /\ chunkSize (txFactory s) = siz;
  sv_fin : fin (txFactory s) = f;
  sv_tx : q_rep (buffer (txFactory s)) [];
  sv_rx : q_rep (buffer (rxFactory s)) [];
  sv_chunk_rx : chunkSize (rxFactory s) = siz;
  sv_gw : gw_ok peer al n (gw s);
  sv_pool : q_rep (work_queue (pool s)) []
}.

Hypothesis Hsiz : HEADER_SPACE < siz < 2 ^ 16.

(** the capsule [_inputFromSource] queues, and that capsule with another header *)
Definition chunk_capsule (n : nat) (bs : list byte) (H : capsuleHdr) : capsule :=
  mkCapsule H (mkBuf (take 14 (malloc n siz) ++ bs ++ drop (14 + length bs) (malloc n siz)) 0).

Lemma length_chunk_body n bs H :
  (length bs <= payload siz)%nat -> length (blk (body (chunk_capsule n bs H))) = Z.to_nat siz.
Proof.
  unfold payload. pose proof Hsiz as Hs. unfold HEADER_SPACE in *. intros Hl.
  cbn [chunk_capsule body blk]. rewrite !length_app, length_take, length_drop, length_malloc. lia.
Qed.

Lemma chunk_sendable n bs H :
  (length bs <= payload siz)%nat -> capSize H = Z.of_nat (length bs) ->
  sendable (chunk_capsule n bs H).
Proof.
  intros Hl HH. pose proof Hsiz as Hs. split; [done|]. cbn [header]. rewrite length_chunk_body by done.
  cbn [chunk_capsule header]. rewrite HH. unfold payload, HEADER_SPACE in *. lia.
Qed.

Lemma drop14_body n bs H r :
  drop 14 (encode_hdr H ++ drop 14 (take 14 (malloc n siz) ++ bs ++ r)) = bs ++ r.
Proof.
  pose proof Hsiz as Hs. unfold HEADER_SPACE in *.
  rewrite drop_app_exact by by rewrite length_encode_hdr.
  rewrite drop_app_exact; [done|]. rewrite length_take, length_malloc. lia.
Qed.

(** after both [setCapParams] the chunk is its header and its bytes *)
Lemma chunk_wire n bs H1 H :
  capSize H = Z.of_nat (length bs) ->
  wire_bytes (mkCapsule H (body (with_header (chunk_capsule n bs H1)))) = encode_hdr H ++ bs.
Proof.
  intros HH. unfold wire_bytes. cbn [with_header chunk_capsule header body blk].
  rewrite drop14_body, HH, Nat2Z.id. by rewrite take_app_length.
Qed.

Lemma presentation_exec p sz c s :
  bufs (heap s) !! p = Some (mkMemBuff sz (Some c)) -> sendable c ->
  PresentationProcessor_setCapParams p s =
    Ret tt (s <| heap ::= put p (mkMemBuff sz (Some (with_header c))) |>).
Proof.
  intros Hp Hc. unfold PresentationProcessor_setCapParams. m_unfold.
  rewrite (read_capsule_exec _ _ _ _ Hp). cbn [pbind]. rewrite (header_to_body_ok _ Hc). cbn [pbind lift].
  by rewrite (write_capsule_exec _ _ _ _ _ Hp).
Qed.

(** the second half of [submit_TX]: a chunk with its size set goes out *)
Lemma send_chunk p m bs hd n s :
  let sz := Some (Z.of_nat (length bs) + HEADER_SPACE) in
  (length bs <= payload siz)%nat -> capSize hd = Z.of_nat (length bs) ->
  bufs (heap s) !! p = Some (mkMemBuff sz (Some (chunk_capsule m bs hd))) ->
  gw_ok peer al n (gw s) -> 1 <= n ->
  let H := set_common (params_of (cur (ses s)) PAYLD) (capsuleId (touch (ses s))) hd in
  exists g' h', gw_ok peer al (n - 1) g' /\
    exec peer
      (pr ← conn_params PAYLD; PresentationProcessor_setCapParams p;;
       setCapParams p pr s_closed;; sendState s_closed TX p;; release (Some p))
      s [Mine (encode_hdr H ++ bs)] tt
      (s <| ses ::= fun ss => touch ss <| winSize := winSize (touch ss) |> <| capsuleId ::= fun i => i + 1 |> |>
         <| heap := h' |> <| gw := g' |>).
Proof.
  intros sz Hbs Hcs Hp Hg Hn H. pose proof (chunk_sendable m bs hd Hbs Hcs) as Hsend1.
  destruct s as [tx rx h w g ss pl]. cbn [txFactory rxFactory heap gw ses pool rxcurrentWindow] in *.
  set (cap1 := chunk_capsule m bs hd) in *. set (cap3 := mkCapsule H (body (with_header cap1))).
  set (h3 := put p (mkMemBuff sz (Some cap3)) (put p (mkMemBuff sz (Some (with_header cap1))) h)).
  set (ss2 := touch ss <| winSize := winSize (touch ss) |> <| capsuleId ::= fun i => i + 1 |>).
  destruct (sendState_exec peer s_closed TX p sz cap3 al n (mkProc tx rx h3 w g ss2 pl))
    as (g' & Hg' & Hsend); [unfold h3; cbn; by rewrite lookup_insert_eq| |done|done|].
  { split; [done|]. destruct Hsend1 as (_ & Hz & Hl). split; [exact Hz|].
    cbn [cap3 with_header cap1 chunk_capsule header body blk H set_common] in *.
    rewrite length_app, length_encode_hdr, length_drop. cbn in *. lia. }
  replace (wire_bytes cap3) with (encode_hdr H ++ bs) in Hsend
    by (symmetry; apply chunk_wire; exact Hcs).
  eexists g', _. split; [done|].
  eapply exec_pure; [apply conn_params_eq|]. cbn [upd upd_ses].
  eapply exec_pure; [eapply presentation_exec; [exact Hp|exact Hsend1]|]. cbn [upd upd_heap].
  eapply exec_pure.
  { eapply setCapParams_eq; [cbn; apply lookup_insert_eq|reflexivity]. }
  eapply exec_bind1; [exact Hsend|]. by apply exec_eq.
Qed.

(** read the next chunk and send it *)
Lemma submit_TX_exec off n s :
  server_ok off n false s -> (off < length file)%nat -> 1 <= n ->
  let bs := take (payload siz) (drop off file) in
  let last := bool_decide (length bs < payload siz)%nat in
  exists H s',
    good_msg siz (u16 (capsuleId (ses s))) (H, bs) /\ has_flag H FIN = last /\
    exec peer (submit_TX s_closed) s [Mine (encode_hdr H ++ bs)] tt s' /\
    server_ok (off + length bs) (n - 1) last s' /\
    same_but_conns ((if last then ses s <| winSize := 0 |> else ses s) <| capsuleId ::= fun i => i + 1 |>
                      <| winSize ::= fun w => w |>) (ses s') /\
    rxcurrentWindow s' = rxcurrentWindow s.
Proof.
  intros [Hsrc Hfin Htx Hrx Hcrx Hg Hpl] Hoff Hn bs last. destruct (Hsrc eq_refl) as [Hat Hch].
  destruct (updateDataSource_read (txFactory s) (heap s) file off siz [] Htx Hat Hch Hfin Hsiz Hoff)
    as (q1 & d & Hq1 & Hup & Hnx).
  fold bs in Hup, Hnx. fold last in Hup, Hnx.
  assert (length bs <= payload siz)%nat as Hbs by (unfold bs; rewrite length_take; lia).
  assert (Z.of_nat (length bs) < 65536) as Hbs16 by (unfold payload, HEADER_SPACE in *; lia).
  destruct s as [tx rx h w g ss pl]; cbn [txFactory rxFactory heap gw ses pool rxcurrentWindow] in *.
  set (pn := next_ptr h) in *.
  match type of Hup with _ = Done (?f, ?hh) => set (tx1 := f) in *; set (h1 := hh) in * end.
  destruct (fetchChunk_cons tx1 pn []) as (q2 & Hfetch & Hq2); [exact Hq1|].
  set (tx2 := tx1 <| buffer := q2 |>) in *.
  set (hd0 := hdr_zero <| capSize := Z.of_nat (length bs) |>).
  set (hd1 := if last then hd0 <| capFlags := flags_val FIN |> else hd0).
  set (ss1 := if last then ss <| winSize := 0 |> else ss).
  set (sz := Some (Z.of_nat (length bs) + HEADER_SPACE)).
  set (cap1 := chunk_capsule (mallocs h) bs hd1).
  set (h2 := if last then put pn (mkMemBuff sz (Some cap1)) h1 else h1).
  assert (capSize hd1 = Z.of_nat (length bs)) as Hcs.
  { unfold hd1, hd0. destruct last; cbn; apply u16_small; lia. }
  assert (bufs h2 !! pn = Some (mkMemBuff sz (Some cap1))) as Hpn.
  { unfold h2, cap1, hd1. destruct last; cbn; by rewrite lookup_insert_eq. }
  destruct (send_chunk pn (mallocs h) bs hd1 n (mkProc tx2 rx h2 w g ss1 pl))
    as (g' & h5 & Hg' & Hsend); try done.
  assert (hdr_ok hd1) as Hok1 by (unfold hd1, hd0; destruct last; auto with udm).
  assert (orelse BadQueue (q_isEmpty (buffer tx2)) = Done true) as Hempty
    by (cbn; by rewrite (q_isEmpty_rep _ _ Hq2)).
  eexists (set_common (params_of (cur ss1) PAYLD) (capsuleId (touch ss1)) hd1), (mkProc tx2 rx h5 w g' _ pl).
  split; [|split; [|split; [|split; [|split]]]].
  - split; [by apply set_common_ok|]. split; [|by split].
    change (u16 (capsuleId (touch ss1)) = u16 (capsuleId ss)).
    destruct (touch_same ss1) as (_&_&_&_&_&->&_). unfold ss1. by destruct last.
  - change (has_flag hd1 FIN = last). unfold hd1. by destruct last.
  - unfold submit_TX. ex_pure. ex_pure. cbn [txFactory heap]. ex_lift Hup. ex_pure. ex_pure.
    cbn [upd upd_txFactory upd_heap].
    eapply exec_pure.
    { unfold constructChunk. m_unfold. cbn [txFactory]. rewrite Hfetch. cbn [lift pbind]. reflexivity. }
    ex_pure. cbn [upd upd_txFactory txFactory].
    eapply exec_lift; [exact Hempty|]. cbv beta iota.
    apply exec_bind0 with (a := tt) (s1 := mkProc tx2 rx h2 w g ss1 pl).
    { unfold tx2, tx1 at 1. cbn [fin upd upd_buffer]. rewrite andb_true_r.
      destruct last; [|apply exec_eq; reflexivity].
      eapply exec_pure; [eapply read_capsule_exec; cbn; apply lookup_insert_eq|].
      eapply exec_pure; [eapply write_capsule_exec; cbn; apply lookup_insert_eq|].
      apply exec_eq. reflexivity. }
    exact Hsend.
  - split; try done. unfold tx2. intros E. split; [exact (Hnx E)|]. unfold tx1. by rewrite E.
  - destruct (touch_same ss1) as (H1&H2&H3&H4&H5&H6&H7&H8&H9).
    unfold ss1 in *. unfold same_but_conns. by destruct last; cbn in *; rewrite ?H1,?H2,?H3,?H4,?H5,?H6,?H7,?H8,?H9.
  - done.
Qed.

(** ** The loop of [closedState] *)

(** while there is room in the window one pass sends a chunk *)
Lemma closed_loop_TX_pass cb fuel s D s1 E p :
  0 < winSize (ses s) -> exec peer (submit_TX s_closed) s D tt s1 ->
  plays peer (closed_loop fuel s_closed TX cb
    (if winSize (ses s1) =? 0 then s1 else s1 <| ses ::= upd winSize (fun w => w - 1) |>)) E p ->
  plays peer (closed_loop (S fuel) s_closed TX cb s) (D ++ E) p.
Proof.
  intros HW Hx Hp. cbn [closed_loop]. m_unfold.
  destruct (Z.ltb_spec 0 (winSize (ses s))); [|lia].
  eapply plays_app; [apply plays_bind; exact Hx|]. cbn [pbind].
  by destruct (winSize (ses s1) =? 0).
Qed.

(** a full chunk: the loop goes on *)
Lemma closed_loop_TX_full cb off n s W :
  server_ok off n false s -> winSize (ses s) = Z.of_nat (S W) -> Z.of_nat (S W) < 2 ^ 16 ->
  1 <= n -> 0 <= capsuleId (ses s) < 2 ^ 16 -> (payload siz <= length file - off)%nat ->
  let bs := take (payload siz) (drop off file) in
  exists H s2,
    good_msg siz (capsuleId (ses s)) (H, bs) /\ has_flag H FIN = false /\
    server_ok (off + payload siz) (n - 1) false s2 /\
    winSize (ses s2) = Z.of_nat W /\ capsuleId (ses s2) = capsuleId (ses s) + 1 /\
    rxcurrentWindow s2 = rxcurrentWindow s /\
    forall fuel D p, plays peer (closed_loop fuel s_closed TX cb s2) D p ->
      plays peer (closed_loop (S fuel) s_closed TX cb s) (Mine (bytes_of (H, bs)) :: D) p.
Proof.
  intros Hsv HW HW16 Hn Hc Hfull bs. pose proof (payload_pos siz (proj1 Hsiz)) as Hpp.
  destruct (submit_TX_exec off n s Hsv) as (H & s1 & Hm & Hf & Hx & Hsv1 & Hs1 & Hw1); [lia|lia|].
  fold bs in Hm, Hf, Hx, Hsv1, Hs1.
  assert (length bs = payload siz) as Hbs by (unfold bs; rewrite length_take, length_drop; lia).
  rewrite bool_decide_false in Hf, Hsv1, Hs1 by lia. rewrite Hbs in Hsv1.
  rewrite u16_small in Hm by lia.
  destruct Hs1 as (_ & _ & _ & _ & HW1 & Hc1 & _). cbn [winSize capsuleId upd upd_winSize upd_capsuleId] in HW1, Hc1.
  rewrite HW, u16_small in HW1 by lia. rewrite i32_small in Hc1 by lia.
  exists H, (s1 <| ses ::= upd winSize (fun w => w - 1) |>).
  split; [done|]. split; [done|]. split; [by destruct Hsv1|].
  split; [cbn; rewrite HW1, u16_small by lia; lia|]. split; [exact Hc1|]. split; [exact Hw1|].
  intros fuel D p Hp. change (Mine ?x :: D) with ([Mine x] ++ D).
  eapply closed_loop_TX_pass; [lia|exact Hx|]. rewrite HW1.
  by destruct (Z.eqb_spec (Z.of_nat (S W)) 0); [lia|].
Qed.

(** the rest of the file, less than a chunk: the loop ends *)
Lemma closed_loop_TX_short cb fuel off n s :
  server_ok off n false s -> 0 < winSize (ses s) -> 1 <= n -> 0 <= capsuleId (ses s) < 2 ^ 16 ->
  (0 < length file - off < payload siz)%nat ->
  let bs := drop off file in
  exists H s1,
    good_msg siz (capsuleId (ses s)) (H, bs) /\ has_flag H FIN = true /\
    server_ok (length file) (n - 1) true s1 /\
    winSize (ses s1) = 0 /\ capsuleId (ses s1) = capsuleId (ses s) + 1 /\
    rxcurrentWindow s1 = rxcurrentWindow s /\
    exec peer (closed_loop (S fuel) s_closed TX cb) s [Mine (bytes_of (H, bs))] tt s1.
Proof.
  intros Hsv HW Hn Hc Hshort bs.
  destruct (submit_TX_exec off n s Hsv) as (H & s1 & Hm & Hf & Hx & Hsv1 & Hs1 & Hw1); [lia|lia|].
  rewrite take_ge in Hm, Hf, Hx, Hsv1, Hs1 by (rewrite length_drop; lia). fold bs in Hm, Hf, Hx, Hsv1, Hs1.
  assert (length bs = length file - off)%nat as Hbs by (unfold bs; by rewrite length_drop).
  rewrite bool_decide_true in Hf, Hsv1, Hs1 by lia.
  rewrite Hbs in Hsv1. replace (off + (length file - off))%nat with (length file) in Hsv1 by lia.
  rewrite u16_small in Hm by lia.
  destruct Hs1 as (_ & _ & _ & _ & HW1 & Hc1 & _). cbn [winSize capsuleId upd upd_winSize upd_capsuleId] in HW1, Hc1.
  change (winSize (ses s1) = 0) in HW1. rewrite i32_small in Hc1 by lia.
  exists H, s1. do 6 (split; [done|]). rewrite <- (app_nil_r [_]).
  eapply closed_loop_TX_pass; [done|exact Hx|]. rewrite HW1. cbn [Z.eqb].
  destruct fuel; cbn [closed_loop]; m_unfold; rewrite HW1; constructor.
Qed.

(** the next [W] chunks are there, or the file ends in a short chunk before *)
Definition enough (W off : nat) : Prop :=
  (W * payload siz <= length file - off)%nat \/ ((length file - off) mod payload siz <> 0)%nat.

Lemma enough_next W off :
  enough (S W) off -> (payload siz <= length file - off)%nat -> enough W (off + payload siz).
Proof.
  intros [H|H] Hle; [left; lia|right].
  replace (length file - off)%nat with (length file - (off + payload siz) + 1 * payload siz)%nat in H by lia.
  by rewrite Nat.Div0.mod_add in H.
Qed.

(** a full window, or the rest of the file when that is less *)
Lemma closed_loop_TX_exec cb W : forall fuel off n s,
  server_ok off n false s -> winSize (ses s) = Z.of_nat W -> (W <= fuel)%nat ->
  Z.of_nat W < 2 ^ 16 -> Z.of_nat W <= n -> 0 <= capsuleId (ses s) -> capsuleId (ses s) + Z.of_nat W <= 2 ^ 16 ->
  enough W off ->
  let last := bool_decide (length file - off < W * payload siz)%nat in
  exists ms s',
    msgs_ok siz (capsuleId (ses s)) ms last /\
    exec peer (closed_loop fuel s_closed TX cb) s (map (fun m => Mine (bytes_of m)) ms) tt s' /\
    concat (ms.*2) = take (W * payload siz) (drop off file) /\
    (if last then (length ms <= W)%nat else length ms = W) /\
    server_ok (off + length (concat (ms.*2))) (n - Z.of_nat (length ms)) last s' /\
    winSize (ses s') = 0 /\ capsuleId (ses s') = capsuleId (ses s) + Z.of_nat (length ms) /\
    rxcurrentWindow s' = rxcurrentWindow s.
Proof.
  induction W as [|W IH]; intros fuel off n s Hsv HW Hfu HW16 Hn Hc0 Hc Hen last.
  - exists [], s. assert (last = false) as -> by (apply bool_decide_eq_false; lia).
    rewrite Nat.add_0_r, Z.sub_0_r, Z.add_0_r. split; [done|]. split; [|done].
    destruct fuel; cbn [closed_loop map]; ex_pure; rewrite HW; apply exec_ret.
  - destruct fuel as [|fuel]; [lia|]. pose proof (payload_pos siz (proj1 Hsiz)) as Hpp.
    destruct (decide (payload siz <= length file - off)%nat) as [Hfull|Hshort].
    + destruct (closed_loop_TX_full cb off n s W) as (H & s2 & Hm & Hf & Hsv2 & HW2 & Hc2 & Hw2 & Hx);
        try done; [lia|lia|].
      destruct (IH fuel (off + payload siz)%nat (n - 1) s2) as
        (ms & s' & Hms & Hx' & Hcat & Hlen & Hsv' & HW' & Hc' & Hw'); try done; try lia;
        [by apply enough_next|].
      replace (bool_decide (length file - (off + payload siz) < W * payload siz)%nat)
        with last in * by (apply bool_decide_ext; lia).
      exists ((H, take (payload siz) (drop off file)) :: ms), s'.
      cbn [map fmap list_fmap concat snd length]. rewrite Hc2 in Hms, Hc'.
      split; [by apply msgs_ok_cons|]. split; [by apply Hx|].
      split; [by rewrite Hcat, <- drop_drop, take_take_drop|]. split; [destruct last; lia|].
      split; [|split; [done|split; [lia|congruence]]].
      rewrite length_app, length_take, length_drop, Nat.min_l, Nat.add_assoc by lia.
      by replace (n - Z.of_nat (S (length ms))) with (n - 1 - Z.of_nat (length ms)) by lia.
    + assert (length file - off <> 0)%nat as Hne.
      { intros E. destruct Hen as [|Hen]; [cbn in *; lia|]. by rewrite E, Nat.Div0.mod_0_l in Hen. }
      destruct (closed_loop_TX_short cb fuel off n s) as (H & s1 & Hm & Hf & Hsv1 & HW1 & Hc1 & Hw1 & Hx);
        try done; try lia.
      assert (last = true) as -> by (apply bool_decide_eq_true; cbn; lia).
      exists [(H, drop off file)], s1. cbn [map fmap list_fmap concat snd length]. rewrite app_nil_r.
      split; [by apply msgs_ok_last|]. split; [done|]. rewrite length_drop.
      split; [rewrite take_ge; [done|rewrite length_drop; cbn; lia]|]. split; [lia|].
      split; [by replace (off + (length file - off))%nat with (length file) by lia|]. done.
Qed.

(** the file ends with a full chunk and the window is not: the loop asks for
    another chunk and the process ends *)
Lemma closed_loop_TX_exit cb r : forall fuel W off n s,
  server_ok off n false s -> winSize (ses s) = Z.of_nat W -> (r < W)%nat -> (W <= fuel)%nat ->
  Z.of_nat W < 2 ^ 16 -> Z.of_nat W <= n -> 0 <= capsuleId (ses s) -> capsuleId (ses s) + Z.of_nat W <= 2 ^ 16 ->
  (length file = off + r * payload siz)%nat ->
  exists ms s',
    msgs_ok siz (capsuleId (ses s)) ms false /\ length ms = r /\
    plays peer (closed_loop fuel s_closed TX cb s) (map (fun m => Mine (bytes_of m)) ms) (Exit 1 s').
Proof.
  induction r as [|r IH]; intros fuel W off n s Hsv HW Hr Hfu HW16 Hn Hc0 Hc Hlen.
  - destruct Hsv as [Hsrc Hfin Htx _ _ _ _]. destruct (Hsrc eq_refl) as [Hat Hch].
    replace off with (length file) in Hat by lia. destruct fuel as [|fuel]; [lia|].
    pose proof (updateDataSource_end (txFactory s) (heap s) file Hat ltac:(by rewrite Hch)) as Hup.
    destruct s as [tx rx h w g ss pl]. cbn in HW, Htx, Hup |- *.
    exists [], (mkProc (tx <| fin := true |>) rx h w g ss pl). split; [done|]. split; [done|].
    cbn [closed_loop map]. unfold submitTask, submit_TX, constructChunk. m_unfold. cbn [ses winSize].
    destruct (Z.ltb_spec 0 (winSize ss)); [|lia]. cbn [txFactory heap]. rewrite Hup. cbn [pbind lift].
    cbn [txFactory upd upd_txFactory upd_heap].
    rewrite fetchChunk_nil by exact Htx. constructor.
  - destruct W as [|W]; [lia|]. destruct fuel as [|fuel]; [lia|].
    destruct (closed_loop_TX_full cb off n s W) as (H & s2 & Hm & Hf & Hsv2 & HW2 & Hc2 & Hw2 & Hx);
      try done; try lia.
    destruct (IH fuel W (off + payload siz)%nat (n - 1) s2) as (ms & s' & Hms & Hl & Hp);
      try done; try lia.
    exists ((H, take (payload siz) (drop off file)) :: ms), s'. rewrite Hc2 in Hms.
    split; [by apply msgs_ok_cons|]. split; [cbn; lia|]. by apply Hx.
Qed.

Lemma closedState_TX_exec cb off n s W :
  server_ok off n false s -> winSize (ses s) = Z.of_nat W -> Z.of_nat W < 2 ^ 16 ->
  Z.of_nat W <= n -> 0 <= capsuleId (ses s) -> capsuleId (ses s) + Z.of_nat W <= 2 ^ 16 ->
  enough W off ->
  let last := bool_decide (length file - off < W * payload siz)%nat in
  exists ms s',
    msgs_ok siz (capsuleId (ses s)) ms last /\
    exec peer (closedState s_closed TX cb) s (map (fun m => Mine (bytes_of m)) ms) tt s' /\
    concat (ms.*2) = take (W * payload siz) (drop off file) /\
    (if last then (length ms <= W)%nat else length ms = W) /\
    server_ok (off + length (concat (ms.*2))) (n - Z.of_nat (length ms)) last s' /\
    next (ses s') = s_done /\ winSize (ses s') = 0 /\
    capsuleId (ses s') = capsuleId (ses s) + Z.of_nat (length ms) /\
    rxcurrentWindow s' = rxcurrentWindow s.
Proof.
  intros Hsv HW HW16 Hn Hc0 Hc Hen last.
  destruct (closed_loop_TX_exec cb W (Z.to_nat (winSize (ses s))) off n s) as
    (ms & s1 & Hms & Hx & Hcat & Hlen & Hsv1 & HW1 & Hc1 & Hw1); try done; [lia|].
  fold last in Hms, Hlen, Hsv1.
  exists ms, (s1 <| ses ::= upd next (fun _ => s_done) |>).
  split; [done|]. split; [|split; [done|split; [done|split; [by destruct Hsv1|]]]].
  - unfold closedState. ex_pure. eapply exec_bind1; [exact Hx|]. ex_pure.
    eapply exec_lift; [apply workdone_rep, (sv_pool _ _ _ _ Hsv1)|]. by apply exec_eq.
  - done.
Qed.

(** wait for the answer to a window *)
Lemma doneState_TX_exec cb off n f H s :
  server_ok off n f s -> ctrl_hdr H -> 0 <= winSize (ses s) < 2 ^ 16 ->
  exists s',
    exec peer (doneState s_done TX cb) s [Theirs (encode_hdr H)] tt s' /\
    server_ok off n f s' /\ complete (ses s') = true /\
    next (ses s') = (if f then s_connected else s_closed) /\
    winSize (ses s') = (if f then winSize (ses s) else WIN_SIZ) /\
    capsuleId (ses s') = capsuleId (ses s) /\ rxcurrentWindow s' = rxcurrentWindow s.
Proof.
  intros [Hsrc Hfin Htx Hrx Hcrx Hg Hpl] [Hok Hct] HW. pose proof Hsiz as Hsiz'.
  unfold HEADER_SPACE in Hsiz'.
  destruct (receiveState_exec peer s_done TX cb (encode_hdr H) siz [] al n s)
    as (q & g' & Hq & Hg' & Hx); try done; rewrite ?length_encode_hdr; try lia.
  rewrite decode_encode, (is_payld_ctrl H Hct) in Hx by done.
  destruct s as [tx rx h w g ss pl]; cbn in *.
  set (s1 := mkProc tx (rx <| buffer := q |>) (heap_recv siz (encode_hdr H) h) w g' ss pl).
  set (pn := next_ptr h) in *.
  set (body := fun currentBuffer : ptr => process currentBuffer s_done;;
        f0 ← gets txFactory; next_window (fin f0)).
  destruct (with_popped_exec peer body pn [] s1 Hq) as (q' & Hq' & Hpop).
  set (ss2 := if f then ss <| next := s_connected |> else ss <| winSize := WIN_SIZ |> <| next := s_closed |>).
  exists (mkProc tx (rx <| buffer := q' |>) (drop_shared pn (heap_recv siz (encode_hdr H) h)) w g'
       (ss2 <| is_done := true |> <| complete := true |>) pl).
  split; [|split].
  - unfold doneState. apply exec_bind1 with (a := tt) (s1 := mkProc tx (rx <| buffer := q' |>)
      (drop_shared pn (heap_recv siz (encode_hdr H) h)) w g' ss2 pl); [|apply exec_eq; reflexivity].
    eapply exec_bind1; [exact Hx|]. refine (Hpop [] (mkProc tx (rx <| buffer := q' |>)
      (heap_recv siz (encode_hdr H) h) w g' ss2 pl) _).
    eapply exec_pure; [eapply process_quiet_eq; [cbn; apply lookup_insert_eq|by right]|].
    ex_pure. cbn. rewrite Hfin. destruct f; apply exec_eq; reflexivity.
  - by split.
  - unfold ss2. by destruct f.
Qed.

(** the server before a window: [closedState] is next *)
Definition server_at (off : nat) (n : Z) s : Prop :=
  server_ok off n false s /\ next (ses s) = s_closed /\ winSize (ses s) = WIN_SIZ /\
  0 <= capsuleId (ses s).

(** the server after the last window: the loop of [Session::start] ends *)
Definition server_finished (n : Z) s : Prop :=
  server_ok (length file) n true s /\ next (ses s) = s_connected /\ complete (ses s) = true.

Definition is_last_window (off : nat) : bool :=
  bool_decide (length file - off < 5 * payload siz)%nat.

(** two passes of the loop: a window of [ms] and its answer *)
Lemma server_window cb off n s :
  server_at off n s -> 5 <= n -> capsuleId (ses s) + 5 <= 2 ^ 16 ->
  enough 5 off ->
  let last := is_last_window off in
  exists ms,
    msgs_ok siz (capsuleId (ses s)) ms last /\
    concat (ms.*2) = take (5 * payload siz) (drop off file) /\
    (if last then (length ms <= 5)%nat else length ms = 5%nat) /\
    forall H, ctrl_hdr H -> exists s',
      (if last then server_finished (n - 5) s'
       else server_at (off + 5 * payload siz) (n - 5) s' /\
            capsuleId (ses s') = capsuleId (ses s) + 5) /\
      forall fuel D p, plays peer (start_loop fuel TX cb s') D p ->
        plays peer (start_loop (S (S fuel)) TX cb s)
          (map (fun m => Mine (bytes_of m)) ms ++ Theirs (encode_hdr H) :: D) p.
Proof.
  intros (Hsv & Hnx & HW & Hc0) Hn Hc Hen last.
  destruct (closedState_TX_exec cb off n s 5 Hsv) as
    (ms & s1 & Hms & Hx & Hcat & Hlen & Hsv1 & Hnx1 & HW1 & Hc1 & _); try done.
  fold (is_last_window off) in Hms, Hlen, Hsv1. fold last in Hms, Hlen, Hsv1.
  exists ms. split; [done|]. split; [done|]. split; [done|]. intros H HH.
  destruct (doneState_TX_exec cb _ _ _ H s1 Hsv1 HH) as
    (s' & Hx' & Hsv' & Hco & Hnx' & HW' & Hc' & _); [by rewrite HW1|].
  assert (Hgw : gw_ok peer al (n - 5) (gw s')).
  { eapply gw_ok_weaken; [apply (sv_gw _ _ _ _ Hsv')|]. destruct last; lia. }
  exists s'. split.
  - unfold last, is_last_window in *. case_bool_decide.
    + split; [|done]. by destruct Hsv'.
    + rewrite Hcat, length_take, length_drop, Nat.min_l in Hsv' by lia.
      split; [|lia]. split; [by destruct Hsv'|]. repeat split; [done|done|lia].
  - intros fuel D p Hrest. eapply start_loop_step; [exact Hnx|done|exact Hx|].
    change (Theirs ?x :: D) with ([Theirs x] ++ D).
    by eapply start_loop_step; [exact Hnx1|done|exact Hx'|].
Qed.

(** the window in which the file ends with a full chunk *)
Lemma server_exit cb r fuel off n s :
  server_at off n s -> 5 <= n -> capsuleId (ses s) + 5 <= 2 ^ 16 -> (r < 5)%nat ->
  (length file = off + r * payload siz)%nat ->
  exists ms s',
    msgs_ok siz (capsuleId (ses s)) ms false /\ length ms = r /\
    plays peer (start_loop (S fuel) TX cb s) (map (fun m => Mine (bytes_of m)) ms) (Exit 1 s').
Proof.
  intros (Hsv & Hnx & HW & Hc0) Hn Hc Hr Hlen.
  destruct (closed_loop_TX_exit cb r (Z.to_nat (winSize (ses s))) 5 off n s Hsv HW Hr) as
    (ms & s' & Hms & Hl & Hp); try done; [rewrite HW; unfold WIN_SIZ; lia|].
  exists ms, s'. split; [done|]. split; [done|].
  change (Exit 1 s') with (pbind (Exit (A:=unit) 1 s') (fun _ => start_loop fuel TX cb)).
  eapply start_loop_cut; [exact Hnx|done|]. cbn [states]. unfold closedState. m_unfold.
  apply (plays_bind _ _ (Exit 1 s')). exact Hp.
Qed.

End Server.
