(* ===== verification/Handshake.v ===== *)
(** * The handshake: [openState], [setupState], [connectedState] (session.h)

    Hello, answer and acknowledgement, with the interface lists the last two
    carry, from the state [Session::start] finds to the first window. *)

From S2P Require Import Prelude Wire OrdMap Queue Stream Program Factory Interfaces.
From S2P Require Import Pool State Gateway Presentation Session SessionFacts ClientRun ServerRun.

(** ** The interface list of a capsule *)

Lemma pack_addresses_spec suf : forall pre b,
  Forall (fun a => length (area a) = AREA_LEN) suf -> boff b = 0%nat ->
  (14 + 15 * length (pre ++ suf) <= length (blk b))%nat ->
  pack_addresses (length pre) (length suf) (pre ++ suf) b =
    Done (mkBuf (take (14 + 15 * length pre) (blk b) ++ wire_list suf ++
                 drop (14 + 15 * length (pre ++ suf)) (blk b)) 0).
Proof.
  induction suf as [|a suf IH]; intros pre b Hs Hb Hl.
  - cbn. rewrite app_nil_r, take_drop. destruct b; cbn in *. by subst.
  - apply Forall_cons in Hs as [Ha Hs]. cbn [length pack_addresses].
    rewrite list_lookup_middle by done. cbn [orelse mbind res_bind].
    assert (length (wire_addr a) = 15%nat) as Hw.
    { unfold wire_addr. rewrite length_take, Ha. done. }
    unfold HEADER_SPACE, ADDR_LEN. fold (wire_addr a).
    change (take (Z.to_nat 15) (area a)) with (wire_addr a).
    assert (Z.to_nat (14 + Z.of_nat (length pre) * 15) = 14 + 15 * length pre)%nat as -> by lia.
    rewrite length_app in Hl. cbn [length] in Hl.
    rewrite buf_write_ok by (rewrite Hb, Hw; lia). cbn [mbind res_bind]. rewrite Hb, Hw.
    rewrite !Nat.add_0_l.
    match goal with |- pack_addresses _ _ _ ?b' = _ => specialize (IH (pre ++ [a]) b' Hs eq_refl) end.
    assert (length (pre ++ [a]) = S (length pre)) as Hpa by (rewrite length_app; cbn; lia).
    rewrite <- (app_assoc pre), Hpa in IH. cbn [app] in IH. rewrite IH.
    2:{ cbn [blk]. rewrite !length_app, length_take, length_drop, Hw. cbn [length]. lia. }
    cbn [blk]. do 2 f_equal. unfold wire_list. rewrite fmap_cons. cbn [concat].
    rewrite <- (app_assoc (wire_addr a)), !(app_assoc _ (wire_addr a)).
    f_equal; [|f_equal].
    + rewrite take_app_le by (rewrite length_app, length_take, Hw; lia).
      rewrite take_ge by (rewrite length_app, length_take, Hw; lia). done.
    + assert (length (pre ++ a :: suf) = length pre + S (length suf))%nat as ->
        by (rewrite length_app; done).
      assert (length (take (14 + 15 * length pre) (blk b) ++ wire_addr a) = 14 + 15 * length pre + 15)%nat
        as Hlw by (rewrite length_app, length_take, Hw; lia).
      rewrite drop_app_ge, Hlw, drop_drop by (rewrite Hlw; lia). f_equal. lia.
Qed.

Section Announce.
Context {mal : Malloc} {os : OS}.

(** the kernel reports as many interfaces as the gateway has collected *)
Definition counts (al : list ipaddr_dummy) : Prop :=
  exists addrs, ifconf = Some addrs /\ length addrs = length al /\ Z.of_nat (length al) < 2 ^ 12.

Lemma addresses_areas al : addresses_ok al -> Forall (fun a => length (area a) = AREA_LEN) al.
Proof. intros [Hal _]. eapply Forall_impl; [exact Hal|]. by intros a (str & (? & _ & ?) & _). Qed.

(** the capsule with the list behind its header *)
Definition with_interfaces (al : list ipaddr_dummy) (cap : capsule) : capsule :=
  mkCapsule (header cap <| capSize := ADDR_LEN * Z.of_nat (length al) |>)
    (mkBuf (take 14 (blk (body cap)) ++ wire_list al ++
            drop (14 + 15 * length al) (blk (body cap))) 0).

Lemma write_interfaces_spec al cap :
  counts al -> addresses_ok al -> boff (body cap) = 0%nat ->
  (14 + 15 * length al <= length (blk (body cap)))%nat ->
  write_interfaces al cap = Done (with_interfaces al cap).
Proof.
  intros (addrs & Hif & Hn & Hlt) Hal Hb Hl. unfold write_interfaces.
  rewrite (getInfCount_spec addrs) by (done || lia). cbn [mbind res_bind]. rewrite Hn, Nat2Z.id.
  pose proof (pack_addresses_spec al [] (body cap) (addresses_areas al Hal) Hb Hl) as Hp.
  cbn [length app] in Hp. by rewrite Hp.
Qed.

Lemma with_interfaces_size al cap :
  Z.of_nat (length al) < 2 ^ 12 ->
  capSize (header (with_interfaces al cap)) = 15 * Z.of_nat (length al).
Proof. intros Hl. cbn. unfold ADDR_LEN. apply u16_small. lia. Qed.

Lemma with_interfaces_wire al cap H :
  addresses_ok al -> (14 + 15 * length al <= length (blk (body cap)))%nat ->
  capSize H = 15 * Z.of_nat (length al) ->
  let c := mkCapsule H (body (with_interfaces al cap)) in
  sendable c /\ wire_bytes c = encode_hdr H ++ wire_list al.
Proof.
  intros Hal Hl HH c. pose proof (length_wire_list al Hal) as Hw. split.
  - split; [done|]. cbn [c header body blk with_interfaces]. rewrite HH.
    rewrite !length_app, length_take, length_drop, Hw. lia.
  - unfold wire_bytes. cbn [c header body blk with_interfaces]. rewrite HH.
    rewrite drop_app_exact by (rewrite length_take; lia).
    by rewrite take_app_exact by (rewrite Hw; lia).
Qed.

End Announce.

Section Handshake.
Context {Q : Type} {fifo : Fifo Q ptr} {laws : FifoLaws Q ptr} {mal : Malloc} {os : OS}.
Variable peer : remote.
Variables (siz : Z) (al : list ipaddr_dummy).
Implicit Types s : proc Q.

(** a host between two states of the handshake *)
Record ready (n : Z) s : Prop := {
  rd_chunk_tx : chunkSize (txFactory s) = siz;
  rd_chunk_rx : chunkSize (rxFactory s) = siz;
  rd_tx : q_rep (buffer (txFactory s)) [];
  rd_rx : q_rep (buffer (rxFactory s)) [];
  rd_gw : gw_ok peer al n (gw s);
  rd_window : rxcurrentWindow s = [];
  rd_pool : q_rep (work_queue (pool s)) []
}.

(** what the handshake does not touch: the sources and sinks, and the buffers
    below [b] *)
Record frame (b : ptr) s s' : Prop := {
  fr_tx : exists q, txFactory s' = txFactory s <| buffer := q |>;
  fr_rx : exists q, rxFactory s' = rxFactory s <| buffer := q |>;
  fr_next : (next_ptr (heap s) <= next_ptr (heap s'))%nat;
  fr_heap : forall p, (p < b)%nat -> bufs (heap s') !! p = bufs (heap s) !! p
}.

#[export] Instance frame_preorder b : PreOrder (frame b).
Proof.
  split.
  - intros s. split; [by exists (buffer (txFactory s)); destruct (txFactory s)
      |by exists (buffer (rxFactory s)); destruct (rxFactory s)|lia|done].
  - intros s1 s2 s3 [[q1 T1] [q2 R1] N1 H1] [[q3 T2] [q4 R2] N2 H2]. split.
    + exists q3. by rewrite T2, T1.
    + exists q4. by rewrite R2, R1.
    + lia.
    + intros p Hp. rewrite H2, H1 by done. done.
Qed.

(** ** Sending a capsule of the handshake *)

(** the tail the three sending states share *)
Abbreviation announce t code c d pn :=
  (p ← conn_params t; setCapParams pn p code;; sendState c d pn;; discard_popped TX).

Lemma announce_exec t code c d pn sz cap cap' win' n s :
  q_rep (buffer (txFactory s)) [pn] ->
  bufs (heap s) !! pn = Some (mkMemBuff sz (Some cap)) -> gw_ok peer al n (gw s) -> 1 <= n ->
  setCapParams_case al cap (winSize (ses s)) code = Done (cap', win') ->
  let H := set_common (params_of (cur (ses s)) t) (capsuleId (ses s)) (header cap') in
  sendable (mkCapsule H (body cap')) ->
  exists q g b, q_rep q [] /\ gw_ok peer al (n - 1) g /\
    exec peer (announce t code c d pn) s [Mine (wire_bytes (mkCapsule H (body cap')))] tt
      (mkProc (txFactory s <| buffer := q |>) (rxFactory s) (drop_shared pn (put pn b (heap s)))
        (rxcurrentWindow s) g
        (touch (ses s) <| winSize := win' |> <| capsuleId ::= fun i => i + 1 |>) (pool s)).
Proof.
  intros Hq Hpn Hg Hn Hcase H Hsend. destruct s as [tx rx h w g ss pl]. cbn in Hq, Hpn, Hg, Hcase.
  assert (capsuleId (touch ss) = capsuleId ss) as Hcid by by destruct (touch_same ss) as (_&_&_&_&_&->&_).
  assert (winSize (touch ss) = winSize ss) as Hwin by by destruct (touch_same ss) as (_&_&_&_&->&_).
  set (ss1 := touch ss <| winSize := win' |> <| capsuleId ::= fun i => i + 1 |>).
  set (c1 := mkCapsule H (body cap')). set (h1 := put pn (mkMemBuff sz (Some c1)) h).
  destruct (sendState_exec peer c d pn sz c1 al n (mkProc tx rx h1 w g ss1 pl))
    as (g' & Hg' & Hx); [cbn; apply lookup_insert_eq|done|done|done|].
  set (h2 := put pn (mkMemBuff sz (Some (with_header c1))) h1) in *.
  destruct (discard_popped_cons TX pn [] (mkProc tx rx h2 w g' ss1 pl) Hq) as (q & Hq' & Hd).
  exists q, g', (mkMemBuff sz (Some (with_header c1))). split; [done|]. split; [done|].
  eapply exec_pure; [apply conn_params_eq|]. cbn [upd upd_ses].
  apply exec_pure with (a := tt) (s1 := mkProc tx rx h1 w g ss1 pl).
  { erewrite setCapParams_eq; [|exact Hpn|cbn; rewrite Hwin, (proj1 Hg); exact Hcase].
    cbn [upd upd_ses upd_heap heap ses]. rewrite Hcid. reflexivity. }
  eapply exec_bind1; [exact Hx|].
  apply exec_eq. etrans; [exact Hd|]. cbn. unfold h2, h1, put. cbn. by rewrite insert_insert_eq.
Qed.

(** ** Receiving one *)

(** what a capsule of state [code] carries: the opening one is a bare header,
    the others have the sender's list [pal] behind it *)
Definition carries (code : stateCodes) (H : capsuleHdr) (pal : list ipaddr_dummy) (bs : list byte) : Prop :=
  match code with
  | s_setup | s_connected => addresses_ok pal /\ Z.of_nat (length pal) < 2 ^ 12 /\
      capSize H = ADDR_LEN * Z.of_nat (length pal) /\ bs = wire_list pal
  | _ => True
  end.

(** a list by which the peer can be reached: one loopback address at most, which
    the receiver removes, and each of the others leads to the peer *)
Definition aimable (pal : list ipaddr_dummy) : Prop :=
  (loopbacks pal <= 1)%nat /\
  Forall (fun a => is_loopback a = false ->
    exists str, cstring (area a) = Some str /\ leads_to peer str) pal.

(** what lies behind an array can be read *)
Hypothesis Hbehind : forall n, behind n = true.

(** only the acknowledgement sets the window size *)
Definition heard (code : stateCodes) (H : capsuleHdr) (ss : session) : session :=
  match code with
  | s_connected => ss <| winSize := capWinSiz H |>
  | _ => ss
  end.

Definition in_handshake (code : stateCodes) : Prop :=
  code = s_open \/ code = s_setup \/ code = s_connected.

(** the capsule at [p]: header [H] and bytes [bs] *)
Definition heard_at (h : store) (p : ptr) (H : capsuleHdr) (bs : list byte) : Prop :=
  exists sz r, bufs h !! p = Some (mkMemBuff sz (Some (mkCapsule H (mkBuf (encode_hdr H ++ bs ++ r) 14)))).

Lemma read_peer_list_eq H pal bs r code n s :
  carries code H pal bs -> aimable pal -> (code = s_setup \/ code = s_connected) -> gw_ok peer al n (gw s) ->
  exists g, gw_ok peer al n g /\
    read_peer_list (mkCapsule H (mkBuf (encode_hdr H ++ bs ++ r) 14)) s =
      Ret tt (s <| heap ::= upd mallocs S |> <| gw := g |>).
Proof.
  intros Hc [Hlb Haim] Hcode Hg.
  assert (addresses_ok pal /\ Z.of_nat (length pal) < 2 ^ 12 /\
      capSize H = ADDR_LEN * Z.of_nat (length pal) /\ bs = wire_list pal)
    as (Hpal & Hn & Hsz & ->) by (destruct Hcode as [-> | ->]; exact Hc).
  destruct s as [tx rx h w g ss pl]. cbn in Hg.
  destruct (peer_list_spec (mallocs h) pal r (leads_to peer) Hpal) as (l & c & Hl & Hcnt & Hstr);
    [lia|done|done|done|].
  exists (g <| peer_addressList := Some l |> <| peer_addressCount := c |>). split.
  - destruct Hg as (Hal & Hi & Hn' & Ha). split; [done|]. split; [done|]. split; [done|].
    intros H0. destruct (Ha H0) as [Hport _]. split; [exact Hport|]. by split.
  - unfold read_peer_list. m_unfold. cbn [heap header body blk boff]. rewrite Hsz.
    rewrite drop_app_exact by by rewrite length_encode_hdr. rewrite Hl. done.
Qed.

Lemma process_handshake_eq p H pal bs code n s :
  heard_at (heap s) p H bs -> carries code H pal bs -> aimable pal -> in_handshake code -> gw_ok peer al n (gw s) ->
  exists g k, gw_ok peer al n g /\
    process p code s =
      Ret tt (s <| ses ::= heard code H |> <| heap ::= upd mallocs (fun m => k + m)%nat |> <| gw := g |>).
Proof.
  intros (sz & r & Hp) Hc Ha Hcode Hg. unfold process. m_unfold.
  rewrite (read_capsule_exec _ _ _ _ Hp). cbn [pbind header]. rewrite type_bits_ctrl.
  destruct Hcode as [-> | [-> | ->]]; cbn [heard].
  - exists (gw s), 0%nat. split; [done|]. by destruct s as [tx rx [] w g ss pl].
  - destruct (read_peer_list_eq H pal bs r s_setup n s Hc Ha) as (g & Hg' & Hx); [by left|done|].
    exists g, 1%nat. split; [done|]. rewrite Hx. by destruct s.
  - destruct (read_peer_list_eq H pal bs r s_connected n (s <| ses ::= heard s_connected H |>) Hc Ha)
      as (g & Hg' & Hx); [by right|by destruct s|].
    exists g, 1%nat. split; [done|]. unfold with_ses. m_unfold. exact Hx.
Qed.

(** the tail the three receiving states share *)
Lemma hear_exec p H pal bs code (f : capsule -> connection -> connection) n s :
  q_rep (buffer (rxFactory s)) [p] ->
  heard_at (heap s) p H bs -> carries code H pal bs -> aimable pal -> in_handshake code -> gw_ok peer al n (gw s) ->
  exists q g k b, q_rep q [] /\ gw_ok peer al n g /\
    let ss := heard code H (ses s) in
    exec peer (with_popped (fun x => process x code;; cap ← read_capsule x; set_cur_conn (f cap))) s
      [] tt
      (mkProc (txFactory s) (rxFactory s <| buffer := q |>)
        (drop_shared p (heap s <| mallocs ::= fun m => (k + m)%nat |>)) (rxcurrentWindow s) g
        (touch ss <| connections ::= <[connection_count ss := f (mkCapsule H b) (cur ss)]> |>) (pool s)).
Proof.
  intros Hq Hp Hc Ha Hcode Hg.
  set (fn := fun x : ptr => process x code;; cap ← read_capsule x; set_cur_conn (f cap)).
  destruct (with_popped_exec peer fn p [] s Hq) as (q & Hq' & Hpop). revert Hpop.
  destruct s as [tx rx h w g0 ss0 pl].
  set (s1 := mkProc tx (rx <| buffer := q |>) h w g0 ss0 pl).
  destruct (process_handshake_eq p H pal bs code n s1 Hp Hc Ha Hcode Hg) as (g & k & Hg' & Hpr).
  pose proof Hp as (sz & r & Hp'). intros Hpop.
  exists q, g, k, (mkBuf (encode_hdr H ++ bs ++ r) 14). split; [done|]. split; [done|].
  cbn [heap] in Hp'.
  eapply eq_rect; [apply Hpop|].
  - eapply exec_pure; [exact Hpr|].
    eapply exec_pure; [eapply read_capsule_exec; exact Hp'|].
    apply exec_eq, set_cur_conn_eq.
  - done.
Qed.

(** [receive] in the opening state: the datagram ends up in the buffer that
    [newBuffer] made, and its source is where the answers go *)
Lemma receive_exec p sz h0 blk0 dgram n s :
  bufs (heap s) !! p = Some (mkMemBuff (Some sz) (Some (mkCapsule h0 (mkBuf blk0 0)))) ->
  (14 <= length dgram <= length blk0)%nat -> Z.of_nat (length dgram) <= sz < 2 ^ 32 ->
  getnameinfo_ok (from peer) = true -> gw_deaf al (gw s) -> 0 <= n < 2 ^ 31 ->
  exists g, gw_ok peer al n g /\
    exec peer (receive p) s [Theirs dgram] tt
      (s <| heap ::= put p (mkMemBuff (Some (Z.of_nat (length dgram))) (Some (received blk0 dgram))) |>
         <| gw := g |>).
Proof.
  intros Hp Hd Hsz Hni Hg Hn. exists (gw s <| peer_addr := from peer |>).
  split; [by apply gw_heard_first|].
  destruct s as [tx rx h w g ss pl]. cbn in Hp. unfold receive.
  eapply exec_pure; [by eapply read_capsule_exec|].
  eapply exec_pure; [by eapply read_size_exec|].
  apply exec_recvfrom. cbv beta iota. cbn [body].
  eapply exec_lift; [apply recv_into_ok; cbn; [done|lia|rewrite u64_small; lia]|].
  cbv beta iota. ex_pure. rewrite Hni.
  eapply exec_pure; [by eapply write_size_exec|].
  eapply exec_lift; [by apply (stripHeader_ok _ _ dgram (drop (length dgram) blk0)); [lia|]|]. cbv beta.
  eapply eq_rect; [apply exec_eq; eapply write_capsule_exec; cbn; apply lookup_insert_eq|].
  cbn. unfold received, put. cbn. by rewrite insert_insert_eq.
Qed.

(** ** The session along the handshake *)

Definition ses_at (c : stateCodes) (k w : Z) (ss : session) : Prop :=
  next ss = c /\ complete ss = false /\ capsuleId ss = k /\ winSize ss = w /\
  connection_count ss = 1.

Lemma ses_at_touch c k w ss : ses_at c k w ss -> ses_at c k w (touch ss).
Proof.
  destruct (touch_same ss) as (H1 & H2 & H3 & H4 & H5 & H6 & _).
  unfold ses_at. by rewrite H1, H2, H3, H5, H6.
Qed.

(** [connections[connection_count++] = ...] *)
Definition added (ss : session) : session :=
  ss <| prevSrcid ::= fun n => n + 1 |>
     <| connections ::= <[connection_count ss := mkConnection 0 (u8 (prevSrcid ss + 1)) 0 0]> |>
     <| connection_count ::= fun n => n + 1 |>.

Lemma add_connection_eq s : add_connection s = Ret tt (s <| ses ::= added |>).
Proof. by destruct s. Qed.

Lemma added_new : ses_at s_open 0 0 (added session_new).
Proof. by repeat split. Qed.

(** the next entry is not there yet: the opening capsule carries its zeroes *)
Lemma added_new_cur : cur (added session_new) = connection_zero.
Proof. done. Qed.

(** ** The two halves of a state *)

(** [newBuffer] has put a buffer in the queue of [txFactory], at [pn] *)
Record ready_new (pn : ptr) (n : Z) s : Prop := {
  rn_chunk_tx : chunkSize (txFactory s) = siz;
  rn_chunk_rx : chunkSize (rxFactory s) = siz;
  rn_tx : q_rep (buffer (txFactory s)) [pn];
  rn_rx : q_rep (buffer (rxFactory s)) [];
  rn_gw : gw_ok peer al n (gw s);
  rn_window : rxcurrentWindow s = [];
  rn_pool : q_rep (work_queue (pool s)) [];
  rn_buf : exists m hid, bufs (heap s) !! pn = Some (new_buff m hid siz)
}.

Hypothesis Hsiz : HEADER_SPACE <= siz < 2 ^ 16.

Lemma newBuffer_ready b n s : ready n s -> (b <= next_ptr (heap s))%nat ->
  exists pn s1, newBuffer TX s = Ret pn s1 /\ ready_new pn n s1 /\ frame b s s1 /\ ses s1 = ses s /\
    (b <= pn)%nat.
Proof.
  intros [Hct Hcr Htx Hrx Hg Hw Hp] Hb.
  destruct (newBuffer_exec TX [] s Htx) as (q & Hq & Hx).
  eexists _, _. split; [exact Hx|]. destruct s as [tx rx h w g ss pl]. cbn in *.
  split; [|split; [|done]].
  - split; try done. cbn. eexists _, _. rewrite lookup_insert_eq, Hct. done.
  - split; cbn; [by eexists|by exists (buffer rx); destruct rx|lia|].
    intros p Hlt. apply lookup_insert_ne. lia.
Qed.

(** the bytes behind the header of the capsule that state [code] sends *)
Definition tells (code : stateCodes) : list byte :=
  match code with s_setup | s_connected => wire_list al | _ => [] end.

Definition told_win (code : stateCodes) (win : Z) : Z :=
  match code with s_connected => WIN_SIZ | _ => win end.

(** [setCapParams] on a fresh buffer *)
Lemma setCapParams_case_new code m hid win :
  addresses_ok al -> counts al -> Z.of_nat (14 + 15 * length al) <= siz -> in_handshake code ->
  let cap := mkCapsule (hdr_zero <| capid := hid |>) (mkBuf (malloc m siz) 0) in
  exists cap', setCapParams_case al cap win code = Done (cap', told_win code win) /\
    hdr_ok (header cap') /\
    (code = s_connected -> capWinSiz (header cap') = WIN_SIZ) /\
    forall p i, let H := set_common p i (header cap') in
      sendable (mkCapsule H (body cap')) /\
      wire_bytes (mkCapsule H (body cap')) = encode_hdr H ++ tells code /\
      capSize H = Z.of_nat (length (tells code)).
Proof.
  intros Hal Hcnt Hlen Hcode cap.
  pose proof Hsiz as Hs. unfold HEADER_SPACE in Hs.
  assert (forall n0, length (malloc n0 siz) = Z.to_nat siz) as Hm by (intros; apply length_malloc).
  pose proof (length_wire_list al Hal) as Hwl.
  pose proof Hcnt as (_ & _ & _ & Hlt).
  pose proof (u16_range hid) as Hu.
  destruct Hcode as [-> | Hcode].
  - exists cap. split; [done|]. split; [unfold hdr_ok; cbn; lia|]. split; [done|].
    intros p i. split; [|split; [|done]].
    + split; [done|]. cbn. rewrite Hm. lia.
    + by rewrite wire_bytes_empty, app_nil_r.
  - assert (exists cap', setCapParams_case al cap win code = Done (with_interfaces al cap', told_win code win)
      /\ blk (body cap') = malloc m siz /\ hdr_ok (header cap') /\
      (code = s_connected -> capWinSiz (header cap') = WIN_SIZ)) as (cap' & Hcase & Hblk & Hok & Hwin).
    { destruct Hcode as [-> | ->]; cbn [setCapParams_case told_win].
      - exists cap. rewrite write_interfaces_spec by (done || (cbn; rewrite Hm; lia)).
        split; [done|]. split; [done|]. split; [unfold hdr_ok; cbn; lia|done].
      - exists (cap <| header ::= upd capWinSiz (fun _ => WIN_SIZ) |>).
        rewrite write_interfaces_spec by (done || (cbn; rewrite Hm; lia)).
        split; [done|]. split; [done|].
        split; [unfold hdr_ok; cbn; pose proof (bitf_range 4 WIN_SIZ); lia|done]. }
    exists (with_interfaces al cap'). split; [done|].
    assert (tells code = wire_list al) as -> by by destruct Hcode as [-> | ->].
    split; [|split].
    + unfold hdr_ok in *. cbn. pose proof (u16_range (ADDR_LEN * Z.of_nat (length al))). cbn in *. lia.
    + intros Hc. by apply Hwin.
    + intros p i. rewrite Hwl.
      assert (capSize (set_common p i (header (with_interfaces al cap'))) = 15 * Z.of_nat (length al)) as HH.
      { by rewrite <- with_interfaces_size with (cap := cap'). }
      destruct (with_interfaces_wire al cap' (set_common p i (header (with_interfaces al cap'))))
        as [Hs1 Hs2]; [done|rewrite Hblk, Hm; lia|done|].
      split; [done|]. split; [done|]. rewrite HH. lia.
Qed.

Lemma tell_exec t code c d b pn n s :
  ready_new pn n s -> 1 <= n -> (b <= pn)%nat -> in_handshake code ->
  addresses_ok al -> counts al -> Z.of_nat (14 + 15 * length al) <= siz ->
  exists H s',
    exec peer (announce t code c d pn) s [Mine (encode_hdr H ++ tells code)] tt s' /\
    ready (n - 1) s' /\ frame b s s' /\
    hdr_ok H /\ capSize H = Z.of_nat (length (tells code)) /\ capType H = capsuleType_val t /\
    connid H = u16 (id (cur (ses s))) /\ srcid H = u8 (src (cur (ses s))) /\
    (code = s_connected -> capWinSiz H = WIN_SIZ) /\
    ses s' = touch (ses s) <| winSize := told_win code (winSize (ses s)) |> <| capsuleId ::= fun i => i + 1 |>.
Proof.
  intros [Hct Hcr Htx Hrx Hg Hw Hp (m & hid & Hpn)] Hn Hb Hcode Hal Hcnt Hlen.
  destruct (setCapParams_case_new code m hid (winSize (ses s)) Hal Hcnt Hlen Hcode)
    as (cap' & Hcase & Hok & Hwin & Hcap).
  destruct (Hcap (params_of (cur (ses s)) t) (capsuleId (ses s))) as (Hsend & Hwire & Hsz).
  destruct (announce_exec t code c d pn (Some sizeof_capsule) _ cap' _ n s Htx Hpn Hg Hn Hcase Hsend)
    as (q & g & bf & Hq & Hg' & Hx). rewrite Hwire in Hx.
  eexists _, _. split; [exact Hx|]. destruct s as [tx rx h w g0 ss pl]. cbn in *.
  split; [by split|]. split; [|split; [by apply set_common_ok|split; [done|split; [by destruct t|]]]].
  2: done.
  split; cbn; [by eexists|by exists (buffer rx); destruct rx|lia|].
  intros p Hlt. rewrite lookup_delete_ne, lookup_insert_ne by lia. done.
Qed.

(** the next two lemmas also hold the connection entry that is written *)
Lemma meet_exec c code d x H pal bs (f : capsule -> connection -> connection) b n s :
  c <> s_open -> ready n s -> (b <= next_ptr (heap s))%nat -> in_handshake code -> ctrl_hdr H ->
  carries code H pal bs -> aimable pal -> Z.of_nat (14 + length bs) <= siz ->
  exists s' bf,
    exec peer (receiveState c d x;;
      with_popped (fun x => process x code;; cap ← read_capsule x; set_cur_conn (f cap))) s
      [Theirs (encode_hdr H ++ bs)] tt s' /\
    ready n s' /\ frame b s s' /\
    ses s' = let ss := heard code H (ses s) in
             touch ss <| connections ::= <[connection_count ss := f (mkCapsule H bf) (cur ss)]> |>.
Proof.
  intros Hc [Hct Hcr Htx Hrx Hg Hw Hp] Hb Hcode [HH Ht] Hcar Haim Hlen.
  pose proof Hsiz as Hs. unfold HEADER_SPACE in Hs.
  assert (decode_hdr (encode_hdr H ++ bs) = H) as Hdec
    by by rewrite decode_hdr_app, decode_encode by (done || apply length_encode_hdr).
  destruct (receiveState_exec peer c d x (encode_hdr H ++ bs) siz [] al n s) as (q & g & Hq & Hg' & Hx);
    try done; rewrite ?length_app, ?length_encode_hdr; try lia.
  rewrite Hdec, (is_payld_ctrl H Ht) in Hx.
  destruct s as [tx rx h w g0 ss pl]; cbn in *. subst w.
  set (s1 := mkProc tx (rx <| buffer := q |>) (heap_recv siz (encode_hdr H ++ bs) h) [] g ss pl).
  destruct (hear_exec (next_ptr h) H pal bs code f n s1) as (q' & g' & k & bf & Hq' & Hg2 & Hx'); try done.
  { cbn [heap s1]. eexists _, _. cbn. rewrite lookup_insert_eq. unfold recv_buff, received.
    rewrite Hdec, <- app_assoc. done. }
  eexists _, bf. split; [eapply exec_bind1; [exact Hx|exact Hx']|].
  cbn. split; [by split|]. split; [|done].
  split; cbn; [by exists (buffer tx); destruct tx|by eexists|lia|].
  intros p Hlt. rewrite lookup_delete_ne, lookup_insert_ne by lia. done.
Qed.

(** the same in the opening state *)
Lemma meet_open_exec d H (f : capsule -> connection -> connection) b n s :
  ready 0 s -> gw_deaf al (gw s) -> 0 <= n < 2 ^ 31 ->
  (b <= next_ptr (heap s))%nat -> hdr_ok H -> getnameinfo_ok (from peer) = true ->
  exists s' bf,
    exec peer (x ← newBuffer RX; receiveState s_open d x;;
      with_popped (fun x => process x s_open;; cap ← read_capsule x; set_cur_conn (f cap))) s
      [Theirs (encode_hdr H)] tt s' /\
    ready n s' /\ frame b s s' /\
    ses s' = touch (ses s) <| connections ::=
               <[connection_count (ses s) := f (mkCapsule H bf) (cur (ses s))]> |>.
Proof.
  intros [Hct Hcr Htx Hrx _ Hw Hp] Hg Hn Hb HH Hni.
  pose proof Hsiz as Hs. unfold HEADER_SPACE in Hs.
  destruct (newBuffer_exec RX [] s Hrx) as (q & Hq & Hnew).
  destruct s as [tx rx h w g0 ss pl]. cbn in *. set (p := next_ptr h) in *.
  set (s1 := mkProc tx (rx <| buffer := q |>) (heap_new (chunkSize rx) h) w g0 ss pl) in *.
  assert (bufs (heap s1) !! p = Some (new_buff (mallocs h) (hdrid h) siz)) as Hb1
    by (cbn; rewrite Hcr; apply lookup_insert_eq).
  destruct (receive_exec p sizeof_capsule _ _ (encode_hdr H) n s1 Hb1) as (g1 & Hg1 & Hx1);
    try done; rewrite ?length_encode_hdr, ?length_malloc; unfold sizeof_capsule; try lia.
  set (blk1 := malloc (mallocs h) siz) in *.
  set (s2 := mkProc tx (rx <| buffer := q |>)
    (put p (mkMemBuff (Some (Z.of_nat 14)) (Some (received blk1 (encode_hdr H)))) (heap s1)) w g1 ss pl).
  destruct (hear_exec p H [] [] s_open f n s2) as (q' & g' & k & bf & Hq' & Hg2 & Hx'); try done.
  { eexists _, _. cbn. rewrite lookup_insert_eq. unfold received. by rewrite decode_encode. }
  { by split; [cbn; lia|]. }
  { by left. }
  eexists _, bf. split.
  - eapply exec_pure; [exact Hnew|]. eapply exec_bind1; [|exact Hx'].
    unfold receiveState. rewrite decide_True by done. rewrite length_encode_hdr in Hx1. exact Hx1.
  - cbn. split; [by split|]. split; [|done].
    split; cbn; [by exists (buffer tx); destruct tx|by eexists|lia|].
    intros p' Hlt. rewrite lookup_delete_ne, !lookup_insert_ne by lia. done.
Qed.

(** changes of the session only *)
Lemma ses_ready g n s : ready n s -> ready n (s <| ses ::= g |>).
Proof. intros []. by split. Qed.

Lemma ses_frame b g s : frame b s (s <| ses ::= g |>).
Proof.
  split; [by exists (buffer (txFactory s)); destruct s as [[] ? ? ? ? ? ?]
    |by exists (buffer (rxFactory s)); destruct s as [? [] ? ? ? ? ?]|done|done].
Qed.

Lemma ses_ready_new pn g n s : ready_new pn n s -> ready_new pn n (s <| ses ::= g |>).
Proof. intros []. by split. Qed.

(** a state function: its body, then [set_next] *)
Lemma state_exec (m : M (proc Q) unit) c n b s D s1 :
  exec peer m s D tt s1 -> ready n s1 -> frame b s s1 ->
  let s' := s1 <| ses ::= upd next (fun _ => c) |> in
  exec peer (m;; set_next c) s D tt s' /\ ready n s' /\ frame b s s'.
Proof.
  intros Hx Hr Hf s'. split; [eapply exec_bind1; [exact Hx|by apply exec_eq]|].
  split; [by apply ses_ready|]. etrans; [exact Hf|apply ses_frame].
Qed.

Lemma ses_at_next c c' k w ss : ses_at c k w ss -> ses_at c' k w (ss <| next := c' |>).
Proof. intros (?&?&?&?&?). by repeat split. Qed.

Lemma ses_at_conns c k w ss g : ses_at c k w ss -> ses_at c k w (ss <| connections ::= g |>).
Proof. intros (?&?&?&?&?). by repeat split. Qed.

Lemma ses_at_told c k w w' ss : ses_at c k w ss -> 0 <= k < 2 ^ 16 -> 0 <= w' < 2 ^ 16 ->
  ses_at c (k + 1) w' (ss <| winSize := w' |> <| capsuleId ::= fun i => i + 1 |>).
Proof.
  intros (?&?&<-&?&?) Hk Hw. split; [done|]. split; [done|]. split; [cbn; apply i32_small; lia|].
  split; [cbn; apply u16_small; lia|done].
Qed.

Hypothesis Hal : addresses_ok al.
Hypothesis Hcnt : counts al.
Hypothesis Hlen : Z.of_nat (14 + 15 * length al) <= siz.

(** *** The server *)

Lemma server_open_exec cb H n b s :
  ready 0 s -> gw_deaf al (gw s) -> 0 <= n < 2 ^ 31 ->
  ses s = session_new -> (b <= next_ptr (heap s))%nat -> hdr_ok H ->
  getnameinfo_ok (from peer) = true ->
  exists s', exec peer (openState s_open TX cb) s [Theirs (encode_hdr H)] tt s' /\
    ready n s' /\ frame b s s' /\ ses_at s_setup 0 0 (ses s').
Proof.
  intros Hr Hd Hn Hss Hb HH Hni.
  destruct (meet_open_exec TX H (fun cap => upd dst (fun _ => srcid (header cap))) b n
    (s <| ses ::= added |>)) as (s1 & bf & Hx & Hr1 & Hf1 & Hs1);
    [by apply ses_ready|by destruct s|done|by destruct s|done|done|].
  destruct (state_exec (add_connection;; x ← newBuffer RX; receiveState s_open TX x;;
      with_popped (fun x => process x s_open;; cap ← read_capsule x;
        set_cur_conn (upd dst (fun _ => srcid (header cap))))) s_setup n b s
      [Theirs (encode_hdr H)] s1) as (Hx2 & Hr2 & Hf2); [|done| |].
  - eapply exec_pure; [apply add_connection_eq|exact Hx].
  - etrans; [apply ses_frame|exact Hf1].
  - eexists. split; [exact Hx2|]. split; [exact Hr2|]. split; [exact Hf2|].
    eapply ses_at_next. cbn [ses upd upd_ses]. rewrite Hs1. cbn [ses upd upd_ses]. rewrite Hss.
    apply ses_at_conns, ses_at_touch, added_new.
Qed.

Lemma server_setup_exec cb n b s :
  ready n s -> ses_at s_setup 0 0 (ses s) -> (b <= next_ptr (heap s))%nat -> 1 <= n ->
  exists H s', exec peer (setupState s_setup TX cb) s [Mine (encode_hdr H ++ wire_list al)] tt s' /\
    ready (n - 1) s' /\ frame b s s' /\ ses_at s_connected 1 0 (ses s') /\
    ctrl_hdr H /\ carries s_setup H al (wire_list al).
Proof.
  intros Hr Hs Hb Hn.
  destruct (newBuffer_ready b n s Hr Hb) as (pn & s1 & Hnew & Hrn & Hf1 & Hs1 & Hpn).
  destruct (tell_exec CTRL s_setup s_setup TX b pn n s1 Hrn Hn Hpn) as
    (H & s2 & Hx & Hr2 & Hf2 & Hok & Hsz & Hty & _ & _ & _ & Hs2); [by right; left|done|done|done|].
  destruct (state_exec (currentBuffer ← newBuffer TX; announce CTRL s_setup s_setup TX currentBuffer)
    s_connected (n - 1) b s [Mine (encode_hdr H ++ wire_list al)] s2) as (Hx3 & Hr3 & Hf3);
    [by eapply exec_pure|done|by etrans|].
  exists H. eexists. split; [exact Hx3|]. split; [exact Hr3|]. split; [exact Hf3|]. split; [|split].
  - eapply ses_at_next. cbn [ses upd upd_ses]. rewrite Hs2, Hs1.
    destruct Hs as (E1 & E2 & E3 & E4 & E5). rewrite E4.
    apply (ses_at_told s_setup 0 0 0); [apply ses_at_touch; by repeat split|lia|lia].
  - by split.
  - destruct Hcnt as (_ & _ & _ & Hlt). split; [done|]. split; [done|]. split; [|done].
    rewrite Hsz. cbn [tells]. rewrite length_wire_list by done. unfold ADDR_LEN. lia.
Qed.

Lemma server_connected_exec cb H pal bs n b s :
  ready n s -> ses_at s_connected 1 0 (ses s) -> (b <= next_ptr (heap s))%nat ->
  ctrl_hdr H -> carries s_connected H pal bs -> aimable pal -> Z.of_nat (14 + length bs) <= siz ->
  exists s', exec peer (connectedState s_connected TX cb) s [Theirs (encode_hdr H ++ bs)] tt s' /\
    ready n s' /\ frame b s s' /\ ses_at s_closed 1 (u16 (capWinSiz H)) (ses s') /\
    id (cur (ses s')) = u16 (connid H).
Proof.
  intros Hr Hs Hb HH Hc Ha Hbs.
  destruct (meet_exec s_connected s_connected TX cb H pal bs (fun cap => upd id (fun _ => connid (header cap)))
    b n s) as (s1 & bf & Hx & Hr1 & Hf1 & Hs1); try done; [by right; right|].
  destruct (state_exec _ s_closed n b s _ s1 Hx Hr1 Hf1) as (Hx2 & Hr2 & Hf2).
  eexists. split; [exact Hx2|]. split; [exact Hr2|]. split; [exact Hf2|].
  cbn [ses upd upd_ses]. rewrite Hs1. split.
  - eapply ses_at_next, ses_at_conns, ses_at_touch.
    destruct Hs as (E1 & E2 & E3 & E4 & E5). by repeat split.
  - unfold cur. cbn [connections connection_count upd upd_connections upd_next header].
    destruct (touch_same (heard s_connected H (ses s))) as [-> _]. by rewrite lookup_insert_eq.
Qed.

(** *** The client *)

Lemma client_open_exec cb n b s :
  ready n s -> ses s = session_new -> (b <= next_ptr (heap s))%nat -> 1 <= n ->
  exists H s', exec peer (openState s_open RX cb) s [Mine (encode_hdr H)] tt s' /\
    ready (n - 1) s' /\ frame b s s' /\ ses_at s_setup 1 0 (ses s') /\ hdr_ok H /\
    srcid H = 0 /\ connections (ses s') !! 0 = Some (mkConnection 0 1 0 0).
Proof.
  intros Hr Hss Hb Hn.
  destruct (newBuffer_ready b n s Hr Hb) as (pn & s1 & Hnew & Hrn & Hf1 & Hs1 & Hpn).
  destruct (tell_exec PAYLD s_open s_open RX b pn n (s1 <| ses ::= added |>)
    (ses_ready_new _ _ _ _ Hrn) Hn Hpn) as
    (H & s2 & Hx & Hr2 & Hf2 & Hok & Hsz & Hty & _ & Hsrc & _ & Hs2); [by left|done|done|done|].
  cbn [tells] in Hx. rewrite app_nil_r in Hx.
  destruct (state_exec (currentBuffer ← newBuffer TX; add_connection;;
      announce PAYLD s_open s_open RX currentBuffer)
    s_setup (n - 1) b s [Mine (encode_hdr H)] s2) as (Hx3 & Hr3 & Hf3); [|done| |].
  - eapply exec_pure; [exact Hnew|]. eapply exec_pure; [apply add_connection_eq|exact Hx].
  - etrans; [exact Hf1|]. etrans; [apply ses_frame|exact Hf2].
  - exists H. eexists. split; [exact Hx3|]. split; [exact Hr3|]. split; [exact Hf3|].
    assert (added (ses s1) = added session_new) as Hadd by by rewrite Hs1, Hss.
    cbn [ses upd upd_ses] in Hsrc, Hs2. rewrite Hadd in Hsrc, Hs2. split; [|split; [done|split; [done|]]].
    2: { cbn [ses upd upd_ses]. by rewrite Hs2. }
    eapply ses_at_next. cbn [ses upd upd_ses]. rewrite Hs2.
    apply (ses_at_told s_open 0 0 0); [apply ses_at_touch, added_new|lia|lia].
Qed.

Lemma client_setup_exec cb H pal bs n b s :
  ready n s -> ses_at s_setup 1 0 (ses s) -> (b <= next_ptr (heap s))%nat ->
  ctrl_hdr H -> carries s_setup H pal bs -> aimable pal -> Z.of_nat (14 + length bs) <= siz ->
  exists s', exec peer (setupState s_setup RX cb) s [Theirs (encode_hdr H ++ bs)] tt s' /\
    ready n s' /\ frame b s s' /\ ses_at s_connected 1 0 (ses s').
Proof.
  intros Hr Hs Hb HH Hc Ha Hbs.
  destruct (meet_exec s_setup s_setup RX cb H pal bs (fun cap => upd dst (fun _ => srcid (header cap)))
    b n s) as (s1 & bf & Hx & Hr1 & Hf1 & Hs1); try done; [by right; left|].
  destruct (state_exec _ s_connected n b s _ s1 Hx Hr1 Hf1) as (Hx2 & Hr2 & Hf2).
  eexists. split; [exact Hx2|]. split; [exact Hr2|]. split; [exact Hf2|].
  cbn [ses upd upd_ses]. rewrite Hs1. by eapply ses_at_next, ses_at_conns, ses_at_touch.
Qed.

Lemma genConnId_eq s :
  genConnId s = Ret (u16 (prevConnid (ses s) + 1)) (s <| ses ::= upd prevConnid (fun n => n + 1) |>).
Proof. by destruct s. Qed.

Lemma client_connected_exec cb n b s :
  ready n s -> ses_at s_connected 1 0 (ses s) -> (b <= next_ptr (heap s))%nat -> 1 <= n ->
  exists H s', exec peer (connectedState s_connected RX cb) s [Mine (encode_hdr H ++ wire_list al)] tt s' /\
    ready (n - 1) s' /\ frame b s s' /\ ses_at s_closed 2 WIN_SIZ (ses s') /\
    id (cur (ses s')) = connid H /\
    ctrl_hdr H /\ carries s_connected H al (wire_list al) /\ capWinSiz H = WIN_SIZ.
Proof.
  intros Hr Hs Hb Hn. set (i := u16 (prevConnid (ses s) + 1)).
  set (g := fun ss : session => let ss := upd prevConnid (fun n => n + 1) ss in
    touch ss <| connections ::= <[connection_count ss := cur ss <| id := i |>]> |>).
  set (s0 := s <| ses ::= g |>).
  assert (ready n s0) as Hr0 by by apply ses_ready.
  destruct (newBuffer_ready b n s0 Hr0) as (pn & s1 & Hnew & Hrn & Hf1 & Hs1 & Hpn); [done|].
  destruct (tell_exec CTRL s_connected s_connected RX b pn n s1 Hrn Hn Hpn) as
    (H & s2 & Hx & Hr2 & Hf2 & Hok & Hsz & Hty & Hid & _ & Hwin & Hs2); [by right; right|done|done|done|].
  assert (id (cur (ses s0)) = i) as Hi.
  { unfold s0, g, cur at 1. cbn [ses upd upd_ses connections connection_count upd_connections upd_prevConnid].
    match goal with |- context [touch ?x] => destruct (touch_same x) as [-> _] end.
    cbn [connection_count]. rewrite lookup_insert_eq. cbn. apply u16_small. apply u16_range. }
  destruct (state_exec (i ← genConnId; set_cur_conn (upd id (fun _ => i));;
      currentBuffer ← newBuffer TX; announce CTRL s_connected s_connected RX currentBuffer)
    s_closed (n - 1) b s [Mine (encode_hdr H ++ wire_list al)] s2) as (Hx3 & Hr3 & Hf3); [|done| |].
  - eapply exec_pure; [apply genConnId_eq|]. eapply exec_pure; [apply set_cur_conn_eq|].
    eapply exec_pure; [|exact Hx]. rewrite <- Hnew. by destruct s.
  - etrans; [apply (ses_frame b g)|]. fold s0. by etrans.
  - exists H. eexists. split; [exact Hx3|]. split; [exact Hr3|]. split; [exact Hf3|]. split; [|split; [|split; [|split]]].
    + eapply ses_at_next. cbn [ses upd upd_ses]. rewrite Hs2, Hs1.
      apply (ses_at_told s_connected 1 0 WIN_SIZ); [|lia|unfold WIN_SIZ; lia].
      apply ses_at_touch. unfold s0, g. cbn [ses upd upd_ses]. apply ses_at_conns, ses_at_touch.
      destruct Hs as (E1 & E2 & E3 & E4 & E5). by repeat split.
    + rewrite Hid, Hs1, Hi. rewrite u16_small by apply u16_range.
      cbn [ses upd upd_ses]. rewrite Hs2. change (id (cur (touch (ses s1))) = i). by rewrite cur_touch, Hs1.
    + by split.
    + destruct Hcnt as (_ & _ & _ & Hlt). split; [done|]. split; [done|]. split; [|done].
      rewrite Hsz. cbn [tells]. rewrite length_wire_list by done. unfold ADDR_LEN. lia.
    + by apply Hwin.
Qed.

(** ** Three passes of [Session::start]'s loop *)

Lemma server_handshake cb H1 n b s :
  ready 0 s -> gw_deaf al (gw s) -> ses s = session_new -> (b <= next_ptr (heap s))%nat -> hdr_ok H1 ->
  getnameinfo_ok (from peer) = true -> 1 <= n < 2 ^ 31 ->
  exists H2, ctrl_hdr H2 /\ carries s_setup H2 al (wire_list al) /\
    forall H3 pal bs, ctrl_hdr H3 -> carries s_connected H3 pal bs -> aimable pal -> Z.of_nat (14 + length bs) <= siz ->
    exists s', ready (n - 1) s' /\ frame b s s' /\
      ses_at s_closed 1 (u16 (capWinSiz H3)) (ses s') /\ id (cur (ses s')) = u16 (connid H3) /\
      forall fuel D p, plays peer (start_loop fuel TX cb s') D p ->
        plays peer (start_loop (3 + fuel) TX cb s)
          (Theirs (encode_hdr H1) :: Mine (encode_hdr H2 ++ wire_list al) ::
           Theirs (encode_hdr H3 ++ bs) :: D) p.
Proof.
  intros Hr Hd Hss Hb HH1 Hni Hn.
  destruct (server_open_exec cb H1 n b s Hr Hd ltac:(lia) Hss Hb HH1 Hni) as (s1 & Hx1 & Hr1 & Hf1 & Hs1).
  pose proof (fr_next _ _ _ Hf1).
  destruct (server_setup_exec cb n b s1 Hr1 Hs1) as (H2 & s2 & Hx2 & Hr2 & Hf2 & Hs2 & HH2 & Hc2); [lia|lia|].
  pose proof (fr_next _ _ _ Hf2).
  exists H2. split; [done|]. split; [done|]. intros H3 pal bs HH3 Hc3 Ha3 Hbs.
  destruct (server_connected_exec cb H3 pal bs (n - 1) b s2 Hr2 Hs2) as (s3 & Hx3 & Hr3 & Hf3 & Hs3 & Hid);
    [lia|done|done|done|done|].
  exists s3. split; [done|]. split; [by do 2 (etrans; [eassumption|])|]. split; [done|]. split; [done|].
  intros fuel D p Hrest. cbn [Nat.add].
  refine (start_loop_step peer _ TX cb s_open s [_] s1 _ p _ _ Hx1 _); [by rewrite Hss|done|].
  refine (start_loop_step peer _ TX cb s_setup s1 [_] s2 _ p (proj1 Hs1) _ Hx2 _); [done|].
  by refine (start_loop_connected peer _ TX cb s2 [_] s3 _ p (proj1 Hs2) (proj1 (proj2 Hs2)) Hx3 _).
Qed.

Lemma client_handshake cb n b s :
  ready n s -> ses s = session_new -> (b <= next_ptr (heap s))%nat -> 2 <= n ->
  exists H1, hdr_ok H1 /\
    forall H2 pal bs, ctrl_hdr H2 -> carries s_setup H2 pal bs -> aimable pal -> Z.of_nat (14 + length bs) <= siz ->
    exists H3 s', ctrl_hdr H3 /\ carries s_connected H3 al (wire_list al) /\ capWinSiz H3 = WIN_SIZ /\
      ready (n - 2) s' /\ frame b s s' /\ ses_at s_closed 2 WIN_SIZ (ses s') /\
      id (cur (ses s')) = connid H3 /\
      forall fuel D p, plays peer (start_loop fuel RX cb s') D p ->
        plays peer (start_loop (3 + fuel) RX cb s)
          (Mine (encode_hdr H1) :: Theirs (encode_hdr H2 ++ bs) ::
           Mine (encode_hdr H3 ++ wire_list al) :: D) p.
Proof.
  intros Hr Hss Hb Hn.
  destruct (client_open_exec cb n b s Hr Hss Hb) as (H1 & s1 & Hx1 & Hr1 & Hf1 & Hs1 & HH1 & _); [lia|].
  pose proof (fr_next _ _ _ Hf1). exists H1. split; [done|]. intros H2 pal bs HH2 Hc2 Ha2 Hbs.
  destruct (client_setup_exec cb H2 pal bs (n - 1) b s1 Hr1 Hs1) as (s2 & Hx2 & Hr2 & Hf2 & Hs2);
    [lia|done|done|done|done|].
  pose proof (fr_next _ _ _ Hf2).
  destruct (client_connected_exec cb (n - 1) b s2 Hr2 Hs2) as
    (H3 & s3 & Hx3 & Hr3 & Hf3 & Hs3 & Hid & HH3 & Hc3 & Hw3); [lia|lia|].
  exists H3, s3. split; [done|]. split; [done|]. split; [done|].
  split; [by replace (n - 2) with (n - 1 - 1) by lia|].
  split; [by do 2 (etrans; [eassumption|])|]. split; [done|]. split; [done|].
  intros fuel D p Hrest. cbn [Nat.add].
  refine (start_loop_step peer _ RX cb s_open s [_] s1 _ p _ _ Hx1 _); [by rewrite Hss|done|].
  refine (start_loop_step peer _ RX cb s_setup s1 [_] s2 _ p (proj1 Hs1) _ Hx2 _); [done|].
  by refine (start_loop_connected peer _ RX cb s2 [_] s3 _ p (proj1 Hs2) (proj1 (proj2 Hs2)) Hx3 _).
Qed.

(** ** The first window follows *)

Lemma frame_source b s s' file off :
  frame b s s' -> source_at (txFactory s) file off -> source_at (txFactory s') file off.
Proof. intros [[q ->] _ _ _] H. exact H. Qed.

Lemma frame_sink b s s' out :
  frame b s s' -> sink_at (rxFactory s) out -> sink_at (rxFactory s') out.
Proof. intros [_ [q ->] _ _] H. exact H. Qed.

Lemma server_after_handshake b n s s' file :
  frame b s s' -> ready n s' -> source_at (txFactory s) file 0 -> fin (txFactory s) = false ->
  ses_at s_closed 1 WIN_SIZ (ses s') -> server_at peer siz al file 0 n s'.
Proof.
  clear Hal Hcnt Hlen Hsiz.
  intros Hf [Hct Hcr Htx Hrx Hg Hw Hp] Hsrc Hfin (Hnx & _ & Hcid & Hwin & _).
  split; [|split; [done|split; [done|by rewrite Hcid]]].
  split; try done.
  - intros _. split; [by eapply frame_source|done].
  - destruct Hf as [[q ->] _ _ _]. exact Hfin.
Qed.

Lemma client_after_handshake cb n s s' :
  frame (S cb) s s' -> ready n s' -> sink_at (rxFactory s) [] -> fin (rxFactory s) = false ->
  bufs (heap s) !! cb = Some (mkMemBuff (Some 0) None) -> (cb < next_ptr (heap s))%nat ->
  ses_at s_closed 2 WIN_SIZ (ses s') -> client_at peer siz al cb [] n s'.
Proof.
  clear Hal Hcnt Hlen Hsiz.
  intros Hf [Hct Hcr Htx Hrx Hg Hw Hp] Hsnk Hfin Hcb Hlt (Hnx & _ & Hcid & Hwin & _).
  split; [|split; [done|split; done]].
  split; try done.
  - by eapply frame_sink.
  - destruct Hf as [_ [q ->] _ _]. exact Hfin.
  - rewrite Hw. by exists [].
  - by eexists.
  - rewrite Hw. constructor.
  - constructor.
  - rewrite Hw. constructor.
  - rewrite (fr_heap _ _ _ Hf) by lia. done.
  - pose proof (fr_next _ _ _ Hf). lia.
Qed.

End Handshake.
