(* ===== verification/Network.v ===== *)
(** * Two processes and the network between them

    A server and a client on two hosts, joined by a network that duplicates and
    reorders nothing: two queues of datagrams.  A datagram arrives if it is sent to
    an address and a port at which the other process's socket receives; one that
    is sent anywhere else, be it to a third host, to another port or to the sender
    itself, is lost.  A process that waits in [recvfrom] stays there until a
    datagram arrives.  The steps of the two processes interleave freely; [net_step]
    is the transition relation and [net_exec] one executable schedule of it. *)

From S2P Require Import Prelude Program.

(** ** Hosts *)

Definition INADDR_ANY : Z := 0.

(** a socket that is bound to [sock], on a host with the addresses [addrs], receives
    what is sent to its port and to any of these addresses, or to the one it is
    bound to *)
Definition accepts (addrs : list Z) (sock dst : sockaddr) : bool :=
  (sin_port dst =? sin_port sock) && bool_decide (s_addr dst ∈ addrs) &&
  ((s_addr sock =? INADDR_ANY) || (s_addr sock =? s_addr dst)).

(** a host, as far as the network goes: the addresses at which the other host
    reaches it, what the process's socket is bound to, and the address that its
    datagrams come from, at which it can be answered *)
Record host := mkHost {
  h_addrs : list Z;
  h_sock : sockaddr;
  h_from : Z;
  h_answers : accepts h_addrs h_sock (mkAddr (sin_port h_sock) h_from) = true
}.

Definition receives (h : host) (dst : sockaddr) : bool := accepts (h_addrs h) (h_sock h) dst.
Definition source (h : host) : sockaddr := mkAddr (sin_port (h_sock h)) (h_from h).

(** the host as its peer's dialogue sees it *)
Definition as_remote (h : host) : remote := mkRemote (source h) (receives h) (h_answers h).

(** bound to no address in particular, it receives at each of its own *)
Lemma receives_any h a : s_addr (h_sock h) = INADDR_ANY -> a ∈ h_addrs h ->
  receives h (mkAddr (sin_port (source h)) a) = true.
Proof.
  intros Hany Ha. unfold receives, accepts. cbn. rewrite Hany, !Z.eqb_refl.
  by rewrite bool_decide_true.
Qed.

Section Network.
Context {S A : Type}.
Variables server_host client_host : host.

Record net := mkNet {
  server : prog S A;
  client : prog S A;
  to_server : list (list byte);
  to_client : list (list byte)
}.

(** the system call a process is in, answered by the network: the process
    after it, what is left of its own queue, and what it adds to the queue of the
    process on the host [peer] *)
Definition advance (peer : host) (p : prog S A) (inbox : list (list byte))
    : option (prog S A * list (list byte) * list (list byte)) :=
  match p with
  | Sendto dst bs k =>
      Some (k (Z.of_nat (length bs)), inbox, if receives peer dst then [bs] else [])
  | Recvfrom k =>
      match inbox with
      | [] => None
      | bs :: inbox => Some (k (RecvOk (source peer) bs), inbox, [])
      end
  | _ => None
  end.

Inductive net_step : net -> net -> Prop :=
| step_server n p' inbox out :
    advance client_host (server n) (to_server n) = Some (p', inbox, out) ->
    net_step n (mkNet p' (client n) inbox (to_client n ++ out))
| step_client n p' inbox out :
    advance server_host (client n) (to_client n) = Some (p', inbox, out) ->
    net_step n (mkNet (server n) p' (to_server n ++ out) inbox).

Inductive net_steps : nat -> net -> net -> Prop :=
| steps_0 n : net_steps 0 n n
| steps_S k n n' n'' : net_step n n' -> net_steps k n' n'' -> net_steps (Datatypes.S k) n n''.

(** no process can move *)
Definition net_final (n : net) : Prop := forall n', ~ net_step n n'.

(** the schedule that lets the server run while it can *)
Fixpoint net_exec (fuel : nat) (n : net) : net :=
  match fuel with
  | O => n
  | Datatypes.S fuel =>
      match advance client_host (server n) (to_server n) with
      | Some (p', inbox, out) => net_exec fuel (mkNet p' (client n) inbox (to_client n ++ out))
      | None =>
          match advance server_host (client n) (to_client n) with
          | Some (p', inbox, out) =>
              net_exec fuel (mkNet (server n) p' (to_server n ++ out) inbox)
          | None => n
          end
      end
  end.

(** ** Lemmas *)

Lemma net_steps_app j k n n' n'' :
  net_steps j n n' -> net_steps k n' n'' -> net_steps (j + k) n n''.
Proof. induction 1; intros; cbn; [done|]. econstructor; eauto. Qed.

(** two processes that take part in the same dialogue get through it *)
Lemma dialogue_net D : forall p p' q q',
  plays (as_remote client_host) p D p' -> plays (as_remote server_host) q (dual D) q' ->
  net_steps (2 * length D) (mkNet p q [] []) (mkNet p' q' [] []).
Proof.
  induction D as [|[bs|bs] D IH]; intros p p' q q' Hp Hq; inversion Hp; subst;
    inversion Hq; subst; cbn [length].
  - constructor.
  - replace (2 * Datatypes.S (length D))%nat
      with (Datatypes.S (Datatypes.S (2 * length D))) by lia.
    econstructor; [by eapply step_server|]. cbn [to_client to_server].
    cbn in *. match goal with H : receives _ _ = true |- _ => rewrite H end.
    econstructor; [by eapply step_client|].
    cbn. by apply IH.
  - replace (2 * Datatypes.S (length D))%nat
      with (Datatypes.S (Datatypes.S (2 * length D))) by lia.
    econstructor; [by eapply step_client|].
    cbn in *. match goal with H : receives _ _ = true |- _ => rewrite H end.
    econstructor; [by eapply step_server|].
    cbn. by apply IH.
Qed.

(** what arrives later does not change a step *)
Lemma advance_more peer p inbox p' inbox' out more :
  advance peer p inbox = Some (p', inbox', out) ->
  advance peer p (inbox ++ more) = Some (p', inbox' ++ more, out).
Proof. destruct p, inbox; cbn; try done; by intros [= <- <- <-]. Qed.

(** steps of the two processes commute *)
Lemma net_step_diamond n a b :
  net_step n a -> net_step n b -> a = b \/ exists c, net_step a c /\ net_step b c.
Proof.
  intros Ha Hb. destruct Ha as [n p i o Ha|n p i o Ha], Hb as [n p' i' o' Hb|n p' i' o' Hb].
  - left. rewrite Ha in Hb. by injection Hb as <- <- <-.
  - right. eexists. split.
    + eapply step_client. cbn. by apply advance_more.
    + eapply step_server. cbn. by apply advance_more.
  - right. eexists. split.
    + eapply step_server. cbn. by apply advance_more.
    + eapply step_client. cbn. by apply advance_more.
  - left. rewrite Ha in Hb. by injection Hb as <- <- <-.
Qed.

(** one step and a run to the end: the step is part of a run of the same length *)
Lemma net_steps_final_step k n f : net_steps k n f -> net_final f -> forall a, net_step n a ->
  exists k', k = Datatypes.S k' /\ net_steps k' a f.
Proof.
  induction 1 as [n|k n n' f Hs Hk IH]; intros Hf a Ha; [by destruct (Hf a)|].
  exists k. split; [done|]. destruct (net_step_diamond _ _ _ Hs Ha) as [->|(c & Hc & Hac)]; [done|].
  destruct (IH Hf c Hc) as (k' & -> & Hk'). by econstructor.
Qed.

(** every run is part of one that ends in [f], and none is longer *)
Lemma net_confluent k n f : net_steps k n f -> net_final f ->
  forall j m, net_steps j n m -> exists i, k = (j + i)%nat /\ net_steps i m f.
Proof.
  intros Hk Hf j m Hj. revert k Hk. induction Hj as [n|j n n' m Hs Hj IH]; intros k Hk.
  - by exists k.
  - destruct (net_steps_final_step _ _ _ Hk Hf n' Hs) as (k' & -> & Hk').
    destruct (IH k' Hk') as (i & -> & Hi). by exists i.
Qed.

(** two processes that are through *)
Lemma net_final_done s s' ts tc (a b : A) :
  net_final (mkNet (Ret a s) (Ret b s') ts tc).
Proof. intros n' Hs. by inversion Hs. Qed.

End Network.
