(* ===== verification/Transfer.v ===== *)
(** * A whole transfer

    The client's and the server's lemmas put together: the windows of a file,
    one after the other. *)

From S2P Require Import Prelude Wire OrdMap Queue Stream Program Factory Interfaces.
From S2P Require Import Pool State Gateway Presentation Session SessionFacts ClientRun ServerRun.
From S2P Require Import Handshake Network.

Section Windows.
Context {Q : Type} {fifo : Fifo Q ptr} {laws : FifoLaws Q ptr}.
(** the two hosts *)
Context (mal_s mal_c : Malloc) (os_s os_c : OS).
Variables server_end client_end : remote.
Variables (siz : Z) (file : list byte) (al_s al_c : list ipaddr_dummy) (cb_s cb_c : ptr).
Hypothesis Hsiz : HEADER_SPACE < siz < 2 ^ 16.

Abbreviation server_loop := (@start_loop Q fifo mal_s os_s).
Abbreviation client_loop := (@start_loop Q fifo mal_c os_c).

(** the number of full chunks in the rest of the file *)
Definition chunks_left (off : nat) : nat := (length file - off) / payload siz.

Lemma dual_window ms :
  dual (map (fun m => Mine (bytes_of m)) ms) = map (fun m => Theirs (bytes_of m)) ms.
Proof. unfold dual. induction ms as [|m ms IH]; [done|]. cbn. by rewrite IH. Qed.

(** after a full window five chunks less are left *)
Lemma chunks_left_next off : (5 * payload siz <= length file - off)%nat ->
  chunks_left off = (5 + chunks_left (off + 5 * payload siz))%nat.
Proof.
  pose proof (payload_pos siz (proj1 Hsiz)). intros Hle. unfold chunks_left.
  replace (length file - off)%nat
    with (length file - (off + 5 * payload siz) + 5 * payload siz)%nat by lia.
  rewrite Nat.div_add by lia. lia.
Qed.

Lemma mod_next off : (5 * payload siz <= length file - off)%nat ->
  ((length file - off) mod payload siz = (length file - (off + 5 * payload siz)) mod payload siz)%nat.
Proof.
  intros Hle. replace (length file - off)%nat
    with (length file - (off + 5 * payload siz) + 5 * payload siz)%nat by lia.
  by rewrite Nat.Div0.mod_add.
Qed.

(** one full window, on both sides *)
Lemma full_window off n m s c :
  server_at (os:=os_s) client_end siz al_s file off n s -> client_at (os:=os_c) server_end siz al_c cb_c (take off file) m c ->
  (5 * payload siz <= length file - off)%nat ->
  capsuleId (ses s) + 5 <= 2 ^ 16 -> 5 <= n -> 1 <= m ->
  exists D s1 c1,
    server_at (os:=os_s) client_end siz al_s file (off + 5 * payload siz) (n - 5) s1 /\
    capsuleId (ses s1) = capsuleId (ses s) + 5 /\
    client_at (os:=os_c) server_end siz al_c cb_c (take (off + 5 * payload siz) file) (m - 1) c1 /\
    forall fuel E p q,
      plays client_end (server_loop fuel TX cb_s s1) E p ->
      plays server_end (client_loop fuel RX cb_c c1) (dual E) q ->
      plays client_end (server_loop (S (S fuel)) TX cb_s s) (D ++ E) p /\
      plays server_end (client_loop (S (S fuel)) RX cb_c c) (dual (D ++ E)) q.
Proof.
  intros Hs Hc Hfull Hcap Hn Hm.
  destruct (server_window (mal:=mal_s) (os:=os_s) client_end siz al_s file Hsiz cb_s off n s Hs)
    as (ms & Hms & Hcat & Hlen & Hreply); [lia|lia|by left|].
  unfold is_last_window in *. rewrite bool_decide_false in * by lia.
  destruct (client_window (mal:=mal_c) (os:=os_c) server_end siz al_c cb_c Hsiz ms _ _ _ m c Hc Hms)
    as (H & c1 & HH & Hc1 & Hcx); [lia|done| |].
  { pose proof (payload_small siz (proj2 Hsiz)). rewrite Hcat, length_take, length_drop. lia. }
  destruct (Hreply H HH) as (s1 & [Hs1 Hcap1] & Hsx).
  rewrite Hcat, take_take_drop in Hc1.
  exists (map (fun m => Mine (bytes_of m)) ms ++ [Theirs (encode_hdr H)]), s1, c1.
  split; [done|]. split; [done|]. split; [done|]. intros fuel E p q Hp Hq.
  rewrite <- app_assoc, dual_app, dual_window. split; [by apply Hsx|by apply Hcx].
Qed.

Lemma transfer_windows R : forall off n m s c,
  (length file - off <= R)%nat ->
  server_at (os:=os_s) client_end siz al_s file off n s -> client_at (os:=os_c) server_end siz al_c cb_c (take off file) m c ->
  (off < length file)%nat -> ((length file - off) mod payload siz <> 0)%nat ->
  capsuleId (ses s) + Z.of_nat (chunks_left off) + 5 <= 2 ^ 16 ->
  Z.of_nat (chunks_left off) + 5 <= n -> Z.of_nat (chunks_left off) + 1 <= m ->
  exists D s' c' n',
    server_finished (os:=os_s) client_end siz al_s file n' s' /\ client_finished file c' /\
    forall fuel, (2 * (chunks_left off + 1) <= fuel)%nat ->
      exec client_end (server_loop fuel TX cb_s) s D tt s' /\
      exec server_end (client_loop fuel RX cb_c) c (dual D) tt c'.
Proof.
  pose proof (payload_pos siz (proj1 Hsiz)) as Hpl.
  induction R as [|R IH]; intros off n m s c HR Hs Hc Hoff Hmod Hcap Hn Hm; [lia|].
  destruct (decide (5 * payload siz <= length file - off)%nat) as [Hfull|Hlast].
  - pose proof (chunks_left_next off Hfull) as Hcl. rewrite (mod_next off Hfull) in Hmod.
    assert (length file - (off + 5 * payload siz) <> 0)%nat as Hne.
    { intros E. rewrite E, Nat.Div0.mod_0_l in Hmod. done. }
    destruct (full_window off n m s c Hs Hc Hfull) as (D1 & s1 & c1 & Hs1 & Hcap1 & Hc1 & Hx); [lia..|].
    destruct (IH (off + 5 * payload siz)%nat (n - 5) (m - 1) s1 c1) as (D & s2 & c2 & n' & Hs2 & Hc2 & HD);
      try done; try lia.
    exists (D1 ++ D), s2, c2, n'. split; [done|]. split; [done|]. intros fuel Hfuel.
    destruct fuel as [|[|fuel]]; [lia|lia|]. destruct (HD fuel) as [HDs HDc]; [lia|]. by apply Hx.
  - destruct (server_window (mal:=mal_s) (os:=os_s) client_end siz al_s file Hsiz cb_s off n s Hs)
      as (ms & Hms & Hcat & Hlen & Hreply); [lia|lia|by right|].
    unfold is_last_window in *. rewrite bool_decide_true in * by lia.
    assert (length (take off file) = off) as Hto by (rewrite length_take; lia).
    destruct (client_window (mal:=mal_c) (os:=os_c) server_end siz al_c cb_c Hsiz ms _ _ _ m c Hc Hms)
      as (H & c1 & HH & Hc1 & Hcx); [lia|done| |].
    { pose proof (payload_small siz (proj2 Hsiz)). rewrite Hcat, length_take, length_drop. lia. }
    destruct (Hreply H HH) as (s1 & Hs1 & Hsx).
    exists (map (fun m => Mine (bytes_of m)) ms ++ [Theirs (encode_hdr H)]), s1, c1, (n - 5).
    rewrite Hcat, take_take_drop, take_ge in Hc1 by lia.
    split; [done|]. split; [done|]. intros fuel Hfuel.
    destruct fuel as [|[|fuel]]; [lia|lia|]. rewrite dual_app, dual_window. split.
    + apply Hsx. destruct Hs1 as (_ & Hnx & Hco). by apply start_loop_stop.
    + apply Hcx. destruct Hc1 as (_ & Hnx & Hco). by apply start_loop_stop.
Qed.

(** a file that ends with a full chunk: all of it is sent, then the server's
    process ends and the client waits *)
Lemma transfer_cut R : forall K off n m s c fuel,
  (K <= R)%nat ->
  server_at (os:=os_s) client_end siz al_s file off n s -> client_at (os:=os_c) server_end siz al_c cb_c (take off file) m c ->
  (length file = off + K * payload siz)%nat ->
  capsuleId (ses s) + Z.of_nat K + 5 <= 2 ^ 16 -> Z.of_nat K + 5 <= n -> Z.of_nat K + 1 <= m ->
  (2 * K + 1 <= fuel)%nat ->
  exists D s' k,
    plays client_end (server_loop fuel TX cb_s s) D (Exit 1 s') /\
    plays server_end (client_loop fuel RX cb_c c) (dual D) (Recvfrom k).
Proof.
  induction R as [|R IH]; intros K off n m s c fuel HR Hs Hc Hlen Hcap Hn Hm Hfuel.
  all: destruct (decide (K < 5)%nat) as [HK|HK].
  2: lia. (* R = 0 *)
  1, 2: destruct fuel as [|fuel]; [lia|];
    destruct (server_exit (mal:=mal_s) (os:=os_s) client_end siz al_s file Hsiz cb_s K fuel off n s Hs)
      as (ms & s' & Hms & Hl & Hp); [lia|lia|done|done|];
    destruct (client_wait (mal:=mal_c) (os:=os_c) server_end siz al_c cb_c Hsiz ms fuel _ _ _ c Hc Hms)
      as (k & Hq); [lia|];
    exists (map (fun m => Mine (bytes_of m)) ms), s', k; by rewrite dual_window.
  assert (K * payload siz = 5 * payload siz + (K - 5) * payload siz)%nat as HKp.
  { rewrite <- Nat.mul_add_distr_r. f_equal. lia. }
  destruct (full_window off n m s c Hs Hc) as (D1 & s1 & c1 & Hs1 & Hcap1 & Hc1 & Hx); [lia..|].
  destruct fuel as [|[|fuel]]; [lia|lia|].
  destruct (IH (K - 5)%nat (off + 5 * payload siz)%nat (n - 5) (m - 1) s1 c1 fuel) as (D & s2 & k & Hp & Hq);
    try done; try lia.
  exists (D1 ++ D), s2, k. by apply Hx.
Qed.

(** ** Both processes, from the start *)

(** the processes before [Session::start]: nothing is queued, the session is new;
    the server knows nobody yet, the client the server's address *)
Definition server_ready (p : proc Q) : Prop :=
  ready (os:=os_s) client_end siz al_s 0 p /\ gw_deaf al_s (gw p) /\ ses p = session_new /\
  source_at (txFactory p) file 0 /\ fin (txFactory p) = false.
Definition client_ready (p : proc Q) : Prop :=
  ready (os:=os_c) server_end siz al_c (2 ^ 17) p /\ ses p = session_new /\
  sink_at (rxFactory p) [] /\ fin (rxFactory p) = false.

(** an interface list that fits in a capsule *)
Definition list_fits (al : list ipaddr_dummy) : Prop :=
  addresses_ok al /\ Z.of_nat (14 + 15 * length al) <= siz.

End Windows.

(** [start] is [start_loop] between two changes of the heap *)
Lemma start_plays {Q : Type} {fifo : Fifo Q ptr} {mal : Malloc} {os : OS} peer fuel d (s : proc Q) D p :
  let cb := next_ptr (heap s) in
  let s1 := s <| heap := mkStore (<[cb := mkMemBuff (Some 0) None]> (bufs (heap s))) (S cb)
                           (mallocs (heap s)) (hdrid (heap s)) |> in
  next (ses s) <> s_done -> plays peer (start_loop fuel d cb s1) D p ->
  plays peer (start fuel d s) D (pbind p (fun _ => release (Some cb))).
Proof.
  intros cb s1 Hnx Hx. unfold start, new_memBuff. m_unfold. cbn [make_shared pbind].
  destruct s as [tx rx h w g ss pl]. cbn [upd upd_heap ses] in *.
  rewrite decide_False by done. cbn [pbind]. by apply plays_bind.
Qed.

Lemma start_exec {Q : Type} {fifo : Fifo Q ptr} {mal : Malloc} {os : OS} peer fuel d (s : proc Q) D s2 :
  let cb := next_ptr (heap s) in
  let s1 := s <| heap := mkStore (<[cb := mkMemBuff (Some 0) None]> (bufs (heap s))) (S cb)
                           (mallocs (heap s)) (hdrid (heap s)) |> in
  next (ses s) <> s_done -> exec peer (start_loop fuel d cb) s1 D tt s2 ->
  exec peer (start fuel d) s D tt (s2 <| heap ::= drop_shared cb |>).
Proof.
  intros cb s1 Hnx Hx. exact (start_plays peer fuel d s D (Ret tt s2) Hnx Hx).
Qed.

Section EndToEnd.
Context {Q : Type} {fifo : Fifo Q ptr} {laws : FifoLaws Q ptr}.
Context (mal_s mal_c : Malloc) (os_s os_c : OS).
Variables server_end client_end : remote.
Variables (siz : Z) (file : list byte) (al_s al_c : list ipaddr_dummy).
Hypothesis Hsiz : HEADER_SPACE < siz < 2 ^ 16.
Hypothesis Hals : list_fits siz al_s.
Hypothesis Halc : list_fits siz al_c.
Hypothesis Hcs : counts (os:=os_s) al_s.
Hypothesis Hcc : counts (os:=os_c) al_c.
Hypothesis Hname : getnameinfo_ok (OS:=os_s) (from client_end) = true.
Hypothesis Haims : aimable (os:=os_c) server_end al_s.
Hypothesis Haimc : aimable (os:=os_s) client_end al_c.
Hypothesis Hbs : forall n, behind (Malloc:=mal_s) n = true.
Hypothesis Hbc : forall n, behind (Malloc:=mal_c) n = true.

Abbreviation server_loop := (@start_loop Q fifo mal_s os_s).
Abbreviation client_loop := (@start_loop Q fifo mal_c os_c).
Abbreviation server_start := (@start Q fifo mal_s os_s).
Abbreviation client_start := (@start Q fifo mal_c os_c).

(** the process after [start] has made the buffer it passes to the states *)
Definition started (s : proc Q) : proc Q :=
  s <| heap := mkStore (<[next_ptr (heap s) := mkMemBuff (Some 0) None]> (bufs (heap s)))
                 (S (next_ptr (heap s))) (mallocs (heap s)) (hdrid (heap s)) |>.

(** the three capsules of the handshake: both sides come to the first window,
    with the same connection id and window size *)
Lemma handshake_exec s c :
  server_ready os_s client_end siz file al_s s -> client_ready os_c server_end siz al_c c ->
  exists D s1 c1, length D = 3%nat /\
    server_at (os:=os_s) client_end siz al_s file 0 (2 ^ 17 - 1) s1 /\ capsuleId (ses s1) = 1 /\
    client_at (os:=os_c) server_end siz al_c (next_ptr (heap c)) [] (2 ^ 17 - 2) c1 /\
    id (cur (ses s1)) = id (cur (ses c1)) /\
    forall fuel E p q,
      plays client_end (server_loop fuel TX (next_ptr (heap s)) s1) E p ->
      plays server_end (client_loop fuel RX (next_ptr (heap c)) c1) (dual E) q ->
      plays client_end (server_loop (3 + fuel) TX (next_ptr (heap s)) (started s)) (D ++ E) p /\
      plays server_end (client_loop (3 + fuel) RX (next_ptr (heap c)) (started c)) (dual (D ++ E)) q.
Proof.
  intros (Hrs & Hds & Hss & Hsrc & Hfs) (Hrc & Hsc & Hsnk & Hfc).
  destruct Hals as [Hos Hls], Halc as [Hoc Hlc].
  assert (ready (os:=os_s) client_end siz al_s 0 (started s)) as Hrs0 by (destruct Hrs; by split).
  assert (ready (os:=os_c) server_end siz al_c (2 ^ 17) (started c)) as Hrc0 by (destruct Hrc; by split).
  assert (HEADER_SPACE <= siz < 2 ^ 16) as Hsiz' by lia.
  set (cbs := next_ptr (heap s)). set (cbc := next_ptr (heap c)).
  destruct (client_handshake (mal:=mal_c) (os:=os_c) server_end siz al_c Hbc Hsiz' Hoc Hcc Hlc cbc _ (S cbc)
    (started c) Hrc0 Hsc) as (H1 & HH1 & Hcl); [done|lia|].
  destruct (server_handshake (mal:=mal_s) (os:=os_s) client_end siz al_s Hbs Hsiz' Hos Hcs Hls cbs H1 (2 ^ 17) 0
    (started s) Hrs0 Hds Hss) as (H2 & HH2 & Hc2 & Hsv); [lia|done|done|lia|].
  destruct (Hcl H2 al_s (wire_list al_s) HH2 Hc2 Haims) as
    (H3 & c1 & HH3 & Hc3 & Hw3 & Hrc1 & Hfc1 & Hsc1 & Hidc & Hxc);
    [rewrite length_wire_list by done; lia|].
  destruct (Hsv H3 al_c (wire_list al_c) HH3 Hc3 Haimc) as (s1 & Hrs1 & Hfs1 & Hss1 & Hids & Hxs);
    [rewrite length_wire_list by done; lia|].
  rewrite Hw3, u16_small in Hss1 by (unfold WIN_SIZ; lia).
  exists [Theirs (encode_hdr H1); Mine (encode_hdr H2 ++ wire_list al_s); Theirs (encode_hdr H3 ++ wire_list al_c)], s1, c1.
  split; [done|].
  split; [by eapply server_after_handshake|].
  split; [by destruct Hss1 as (_ & _ & -> & _)|].
  split; [eapply (client_after_handshake (os:=os_c) server_end siz al_c cbc _ (started c) c1); try done|].
  - cbn. apply lookup_insert_eq.
  - cbn. unfold cbc. lia.
  - split; [rewrite Hids, Hidc, u16_small; [done|]; apply HH3|].
    intros fuel E p q Hp Hq. split; [by apply Hxs|by apply Hxc].
Qed.

(** the whole dialogue *)
Lemma dialogue_exec s c :
  server_ready os_s client_end siz file al_s s -> client_ready os_c server_end siz al_c c ->
  (0 < length file)%nat -> (length file mod payload siz <> 0)%nat ->
  Z.of_nat (length file / payload siz) + 6 <= 2 ^ 16 ->
  exists D s' c',
    sink_at (rxFactory c') file /\
    forall fuel, (2 * (length file / payload siz) + 5 <= fuel)%nat ->
      exec client_end (server_start fuel TX) s D tt s' /\
      exec server_end (client_start fuel RX) c (dual D) tt c'.
Proof.
  intros Hs Hc Hpos Hmod Hn.
  destruct (handshake_exec s c Hs Hc) as (D1 & s1 & c1 & _ & Hsat & Hcid & Hcat & _ & Hx).
  destruct (transfer_windows mal_s mal_c os_s os_c server_end client_end siz file al_s al_c
    (next_ptr (heap s)) (next_ptr (heap c)) Hsiz (length file) 0 (2 ^ 17 - 1) (2 ^ 17 - 2) s1 c1)
    as (D2 & s2 & c2 & n' & Hs2 & [Hsnk _] & HD);
    try done; rewrite ?Nat.sub_0_r; unfold chunks_left; rewrite ?Nat.sub_0_r; try (done || lia).
  exists (D1 ++ D2), (s2 <| heap ::= drop_shared (next_ptr (heap s)) |>),
    (c2 <| heap ::= drop_shared (next_ptr (heap c)) |>).
  split; [exact Hsnk|]. intros fuel Hfuel.
  destruct (HD (fuel - 3)%nat) as [HDs HDc]; [unfold chunks_left; rewrite Nat.sub_0_r; lia|].
  destruct (Hx (fuel - 3)%nat D2 _ _ HDs HDc) as [Hxs Hxc].
  replace (3 + (fuel - 3))%nat with fuel in * by lia.
  destruct Hs as (_ & _ & Hss & _), Hc as (_ & Hsc & _).
  split; apply start_exec; by rewrite ?Hss, ?Hsc.
Qed.

(** a file whose size is a multiple of the payload: the server sends every
    chunk and then ends, the client waits *)
Lemma dialogue_cut s c fuel K :
  server_ready os_s client_end siz file al_s s -> client_ready os_c server_end siz al_c c ->
  length file = (K * payload siz)%nat -> Z.of_nat K + 6 <= 2 ^ 16 -> (2 * K + 4 <= fuel)%nat ->
  exists D s' k,
    plays client_end (server_start fuel TX s) D (Exit 1 s') /\
    plays server_end (client_start fuel RX c) (dual D) (Recvfrom k).
Proof.
  intros Hs Hc Hlen HK Hfuel.
  destruct (handshake_exec s c Hs Hc) as (D1 & s1 & c1 & _ & Hsat & Hcid & Hcat & _ & Hx).
  destruct (transfer_cut mal_s mal_c os_s os_c server_end client_end siz file al_s al_c
    (next_ptr (heap s)) (next_ptr (heap c)) Hsiz K K 0 (2 ^ 17 - 1) (2 ^ 17 - 2) s1 c1 (fuel - 3))
    as (D2 & s2 & k & Hp & Hq); try done; try lia.
  destruct (Hx (fuel - 3)%nat D2 _ _ Hp Hq) as [Hxs Hxc].
  replace (3 + (fuel - 3))%nat with fuel in * by lia.
  destruct Hs as (_ & _ & Hss & _), Hc as (_ & Hsc & _).
  apply start_plays in Hxs; [|by rewrite Hss]. apply start_plays in Hxc; [|by rewrite Hsc].
  cbn [pbind] in Hxs, Hxc. by eexists _, s2, _.
Qed.

End EndToEnd.
