(* ===== verification/UserApi.v ===== *)
(** * The user's side: io_context, addresses and sockets (userclass.h,
    connection.h)

    [io_context] owns the two factories; [run] builds the gateway, the session
    and the compositor from it, and [udm_txstart] and [udm_rxstart] start the
    session.  The address functions walk the list that [getaddrinfo] returns. *)

From S2P Require Import Prelude Wire OrdMap Queue Stream Program Platform Factory Interfaces Strings.
From S2P Require Import Pool State Gateway Presentation Session SessionFacts.
From S2P Require Import ClientRun ServerRun Handshake Network Transfer Concrete.

Definition ALLOC_SIZE : Z := 49152.

(** ** [io_context] *)

(** [io_peer] is the field [peer_addr], which the gateway refers to *)
Record io_context (Q : Type) := mkIo {
  dir : stateDirection;
  txFac : factory Q;
  rxFac : factory Q;
  io_peer : sockaddr;
  sfd : Z
}.
Arguments mkIo {Q} _ _ _ _ _.
Arguments dir {Q} _.
Arguments txFac {Q} _.
Arguments rxFac {Q} _.
Arguments io_peer {Q} _.
Arguments sfd {Q} _.

Section IoContext.
Context {Q : Type} `{!Fifo Q ptr} `{!Malloc} `{!OS} `{!Platform}.
Implicit Types io : io_context Q.

(** [io_context(i_dir)]; the socket and the peer's address are not initialised
    and get the values [sfd] and [peer] *)
Definition io_context_new (i_dir : stateDirection) (peer : sockaddr) (fd : Z) : io_context Q :=
  mkIo i_dir (DataFactory_new ALLOC_SIZE) (DataFactory_new ALLOC_SIZE) peer fd.

Definition setfd (fd : Z) io : io_context Q := mkIo (dir io) (txFac io) (rxFac io) (io_peer io) fd.
Definition getfd io : Z := sfd io.
Definition get_peer io : sockaddr := io_peer io.
Definition set_peer (a : sockaddr) io : io_context Q :=
  mkIo (dir io) (txFac io) (rxFac io) a (sfd io).
Definition set_source (s : DataSource) io : io_context Q :=
  mkIo (dir io) (txFac io <| sourceData := Some s |>) (rxFac io) (io_peer io) (sfd io).
Definition set_sink (s : DataSource) io : io_context Q :=
  mkIo (dir io) (txFac io) (rxFac io <| sourceData := Some s |>) (io_peer io) (sfd io).

(** [run()], with [hardware_concurrency()] *)
Definition run (hw : nat) io : res (proc Q) :=
  g ← gateway_new (io_peer io) 0;
  Done (mkProc (txFac io) (rxFac io) (mkStore ∅ 0 2 0) [] g session_new (thread_pool_new hw)).

(** [Session::destroy()] *)
Definition destroy : M (proc Q) unit :=
  f ← gets txFactory; lift (DataFactory_destroy f);;
  f ← gets rxFactory; lift (DataFactory_destroy f).

(** what has run when [run] fails *)
Definition no_proc io : proc Q :=
  mkProc (txFac io) (rxFac io) store_empty [] (mkGateway (io_peer io) [] 0 None 0 0 0 0 0)
    session_new (thread_pool_new 0).

(** what [udm_txstart] and [udm_rxstart] do with the context: build the objects,
    run the session in the context's direction, and destroy it *)
Definition udm_start (fuel hw : nat) io : prog (proc Q) unit :=
  match run hw io with
  | Done p => (start fuel (dir io);; destroy) p
  | Exits c => Exit c (no_proc io)
  | Undef e => Fault e
  end.

(** [struct error]: its constructor leaves [code] uninitialised *)
Inductive error_code := eof | conn_close.
Definition error_code_val (c : error_code) : Z := match c with eof => 0 | conn_close => 1 end.
Record error := mkError { code : option error_code; reason : list byte }.
Definition error_new : error := mkError None [].

(** [udm_txstart] does not touch the error, [udm_rxstart] always reports [eof] *)
Definition udm_txstart (fuel hw : nat) io (ec : error) : prog (proc Q) error :=
  pbind (udm_start fuel hw io) (fun _ s => Ret ec s).
Definition udm_rxstart (fuel hw : nat) io (ec : error) : prog (proc Q) error :=
  pbind (udm_start fuel hw io) (fun _ s => Ret (mkError (Some eof) (reason ec)) s).

End IoContext.

(** ** Addresses *)

Record addrinfo := mkAddrinfo {
  ai_family : Z;
  ai_socktype : Z;
  ai_protocol : Z;
  ai_addr : sockaddr
}.

(** the C library and the kernel: [getaddrinfo] finds the addresses of a host
    and a service, at least one, or fails; [socket] returns a descriptor or -1;
    [bind] of an open descriptor succeeds, or not *)
Class Net := {
  getaddrinfo : option (list byte) -> list byte -> option (list addrinfo);
  socket : addrinfo -> Z;
  bind_ok : Z -> addrinfo -> bool
}.

Section Addresses.
Context {Q : Type} `{!Net} `{!Platform}.

(** [obtainAddresses] *)
Definition obtainAddresses (ip_addr : option (list byte)) (port : list byte) : res (list addrinfo) :=
  match getaddrinfo ip_addr port with
  | None => Exits 1
  | Some result => Done result
  end.

(** [resolver::resolve]: the first address is the peer's; a [sockaddr_storage] is
    copied from it, which is longer *)
Definition resolve (ipaddr service : list byte) (io : io_context Q)
    : res (list addrinfo * io_context Q) :=
  ip ← copy_cstr ipaddr;
  srv ← copy_cstr service;
  result ← obtainAddresses (Some ip) srv;
  r ← orelse NullDeref (head result);
  if over_read then Done (result, set_peer (ai_addr r) io) else Undef OutOfBounds.

(** [fetch_addresses] *)
Definition fetch_addresses (port : Z) : res (list addrinfo) :=
  p ← copy_cstr (to_string port);
  obtainAddresses None p.

(** the loop of [udm_socket] and of [connect2Addr]: the first address for which
    there is a socket; the descriptor that is left in [sfd], and whether the
    loop reached the end of the list *)
Fixpoint socket_loop (ep : list addrinfo) (fd : Z) : Z * bool :=
  match ep with
  | [] => (fd, false)
  | rp :: ep =>
      let fd := socket rp in
      if fd =? -1 then socket_loop ep fd else (fd, true)
  end.

Definition udm_socket (ep : list addrinfo) (fd : Z) (io : io_context Q) : res (Z * io_context Q) :=
  let '(fd, ok) := socket_loop ep fd in
  let io := setfd fd io in
  if (ok : bool) then Done (fd, io) else Exits 1.

Definition connect2Addr (result : list addrinfo) (fd : Z) : res Z :=
  let '(fd, ok) := socket_loop result fd in
  if (ok : bool) then Done fd else Exits 1.

(** [bind] on a descriptor that is closed fails with [EBADF] *)
Definition bind_call (fd : Z) (a : addrinfo) (fds : gset Z) : bool :=
  bool_decide (fd ∈ fds) && bind_ok fd a.

(** the loop of [bindAddress]: the address that was bound, and the descriptors
    that are open *)
Fixpoint bind_loop (result : list addrinfo) (fd : Z) (fds : gset Z) : option addrinfo * gset Z :=
  match result with
  | [] => (None, fds)
  | rp :: result =>
      if bind_call fd rp fds then (Some rp, fds)
      else bind_loop result fd (fds ∖ {[fd]})
  end.

Definition bindAddress (result : list addrinfo) (fd : Z) (fds : gset Z) : res (addrinfo * gset Z) :=
  match bind_loop result fd fds with
  | (Some a, fds) => Done (a, fds)
  | (None, _) => Exits 1
  end.

(** [udm_bind] *)
Definition udm_bind (io : io_context Q) (addr : list addrinfo) (fds : gset Z) : res (gset Z) :=
  let fd := getfd io in
  if 0 <? fd then '(_, fds) ← bindAddress addr fd fds; Done fds else Done fds.

End Addresses.

(** ** Lemmas *)

Section AddressLemmas.
Context {Q : Type} {net : Net}.

Lemma bind_loop_closed l fd fds : fd ∉ fds -> bind_loop l fd fds = (None, fds).
Proof.
  revert fds. induction l as [|a l IH]; intros fds Hfd; [done|]. cbn. unfold bind_call.
  rewrite bool_decide_false by done. cbn. rewrite IH by set_solver. f_equal. set_solver.
Qed.

Lemma socket_loop_spec ep fd :
  socket_loop ep fd =
    match list_find (fun a => socket a <> -1) ep with
    | Some (_, a) => (socket a, true)
    | None => (match last ep with Some a => socket a | None => fd end, false)
    end.
Proof.
  revert fd. induction ep as [|a ep IH]; intros fd; [done|]. cbn [socket_loop list_find].
  destruct (Z.eqb_spec (socket a) (-1)) as [E|E].
  - rewrite decide_False by (intros H; done). rewrite IH.
    destruct (list_find _ ep) as [[i b]|]; [done|]. destruct ep as [|b ep]; [done|]. cbn.
    destruct (last (b :: ep)) eqn:Hl; [done|]. by apply last_None in Hl.
  - by rewrite decide_True by done.
Qed.

End AddressLemmas.

(** ** Addresses and sockets *)

Section AddressProps.
Context {Q : Type} {net : Net} {plat : Platform}.

Lemma resolve_eq (ipaddr service : list byte) (io : io_context Q) :
  no_nul ipaddr -> no_nul service ->
  resolve ipaddr service io =
    (if decide (length ipaddr < usable (length ipaddr) /\ length service < usable (length service))%nat
     then match getaddrinfo (Some ipaddr) service with
          | None => Exits 1
          | Some [] => Undef NullDeref
          | Some (a :: l) =>
              if over_read then Done (a :: l, set_peer (ai_addr a) io) else Undef OutOfBounds
          end
     else Undef OutOfBounds).
Proof.
  intros Hi Hs. unfold resolve. rewrite !copy_cstr_block by done.
  destruct (decide (length ipaddr < _)%nat) as [H1|H1]; cbn [mbind res_bind].
  2: { by rewrite decide_False by tauto. }
  destruct (decide (length service < _)%nat) as [H2|H2]; cbn [mbind res_bind].
  2: { by rewrite decide_False by tauto. }
  rewrite decide_True by done. unfold obtainAddresses.
  by destruct (getaddrinfo (Some ipaddr) service) as [[|a l]|].
Qed.

(** C39: [resolve] and [fetch_addresses] copy their strings with [strcpy] into
    blocks of the strings' lengths.  Where the allocator gives no byte more than
    it is asked for, the null byte is written behind the block, before any address
    is looked up; where it gives more, the strings arrive, and [resolve] goes on to
    read behind the first address. *)
Theorem address_strings_overflow (ipaddr service : list byte) (port : Z) (io : io_context Q) :
  no_nul ipaddr -> no_nul service ->
  fetch_addresses port =
    (if decide (length (to_string port) < usable (length (to_string port)))%nat
     then obtainAddresses None (to_string port) else Undef OutOfBounds) /\
  resolve ipaddr service io =
    (if decide (length ipaddr < usable (length ipaddr) /\ length service < usable (length service))%nat
     then match getaddrinfo (Some ipaddr) service with
          | None => Exits 1
          | Some [] => Undef NullDeref
          | Some (a :: l) =>
              if over_read then Done (a :: l, set_peer (ai_addr a) io) else Undef OutOfBounds
          end
     else Undef OutOfBounds).
Proof.
  intros Hi Hs. split; [|by apply resolve_eq]. unfold fetch_addresses.
  rewrite copy_cstr_block by apply to_string_no_nul. by case_decide.
Qed.

(** [udm_socket] and [connect2Addr] take the first address of the list for
    which there is a socket, and end the process if there is none; the context
    then holds the descriptor. *)
Theorem socket_first ep fd (io : io_context Q) :
  match list_find (fun a => socket a <> -1) ep with
  | Some (i, a) =>
      udm_socket ep fd io = Done (socket a, setfd (socket a) io) /\
      connect2Addr ep fd = Done (socket a) /\ getfd (setfd (socket a) io) <> -1 /\
      (forall j b, (j < i)%nat -> ep !! j = Some b -> socket b = -1)
  | None => udm_socket ep fd io = Exits 1 /\ connect2Addr ep fd = Exits 1
  end.
Proof.
  unfold udm_socket, connect2Addr. rewrite socket_loop_spec.
  destruct (list_find _ ep) as [[i a]|] eqn:Hf; [|done].
  apply list_find_Some in Hf as (Hi & Ha & Hj). split; [done|]. split; [done|]. split; [done|].
  intros j b Hlt Hb. specialize (Hj j b Hb Hlt). lia.
Qed.

(** C40: [bindAddress] binds the first address or none: when that [bind] fails it
    closes the only descriptor it has, so every other address is tried with a
    descriptor that is closed, and the process ends.  Of a descriptor that was
    open, nothing is left. *)
Theorem bind_first_only a l fd fds : fd ∈ fds ->
  bindAddress (a :: l) fd fds = if bind_ok fd a then Done (a, fds) else Exits 1.
Proof.
  intros Hfd. unfold bindAddress. cbn [bind_loop]. unfold bind_call at 1.
  rewrite bool_decide_true by done. cbn [andb]. destruct (bind_ok fd a); [done|].
  by rewrite bind_loop_closed by set_solver.
Qed.

End AddressProps.

(** two addresses, the first of which is in use *)
Definition demo_addr (p : Z) : addrinfo := mkAddrinfo 2 2 17 (mkAddr p 2).
Definition demo_net : Net := {|
  getaddrinfo _ _ := Some [demo_addr 1; demo_addr 2];
  socket _ := 3;
  bind_ok _ a := sin_port (ai_addr a) =? 2
|}.

Lemma bind_first_only_witness :
  bindAddress (H:=demo_net) [demo_addr 1; demo_addr 2] 3 {[3]} = Exits 1.
Proof. apply (bind_first_only (net:=demo_net) (demo_addr 1) [demo_addr 2] 3 {[3]}). set_solver. Defined.

(** a host and a service of one byte, a port of five digits: there is room behind
    them *)
Lemma address_strings_overflow_witness :
  fetch_addresses (H:=demo_net) (H0:=rounding_platform) 12345 = obtainAddresses (H:=demo_net) None (to_string 12345) /\
  resolve (H:=demo_net) (H0:=rounding_platform) [Byte.x68] [Byte.x73] (io_context_new (Q:=buffer_queue) (Fifo0:=Linked.linked_fifo) RX (mkAddr 0 0) 0) =
    Done ([demo_addr 1; demo_addr 2], set_peer (mkAddr 1 2) (io_context_new (Q:=buffer_queue) (Fifo0:=Linked.linked_fifo) RX (mkAddr 0 0) 0)).
Proof.
  apply (address_strings_overflow (net:=demo_net) (plat:=rounding_platform) [Byte.x68] [Byte.x73] 12345);
    unfold no_nul; apply (bool_decide_unpack _); done.
Defined.

(** ** What [run] builds *)

Section Run.
Context {Q : Type} {fifo : Fifo Q ptr} {laws : FifoLaws Q ptr} {mal : Malloc} {os : OS}.

(** the interfaces of a host have printable addresses; one of them at most is the
    loopback address, and not the only one *)
Definition host_os (addrs : list Z) : Prop :=
  ifconf = Some addrs /\ Z.of_nat (length addrs) < 2 ^ 11 /\ Forall short_addr addrs /\
  Exists (fun a => inet_ntop a <> loopback) addrs /\
  (length (filter (fun a => inet_ntop a = loopback) addrs) <= 1)%nat.

(** the allocator: the uninitialised [ifc_buf] happens to be null, and what lies
    behind a block can be read *)
Definition host_memory : Prop := ifc_buf_null 0 /\ forall n, behind n = true.

(** the gateway's list of these interfaces *)
Definition listed (al : list ipaddr_dummy) (addrs : list Z) : Prop :=
  Forall2 (fun e a => holds_string e (inet_ntop a)) al addrs.

Lemma listed_loopbacks al addrs : listed al addrs -> Forall short_addr addrs ->
  loopbacks al = length (filter (fun a => inet_ntop a = loopback) addrs).
Proof.
  intros Hal Hs. induction Hal as [|e a al addrs He Hal IH]; [done|].
  apply Forall_cons in Hs as [[_ Hnn] Hs]. rewrite loopbacks_cons, filter_cons, IH by done.
  rewrite (is_loopback_holds e _ He Hnn). by case_bool_decide; case_decide.
Qed.

Lemma not_all_loopback addrs : Exists (fun a => inet_ntop a <> loopback) addrs ->
  (length (filter (fun a => inet_ntop a = loopback) addrs) < length addrs)%nat.
Proof.
  induction 1 as [a addrs Ha|a addrs _ IH]; rewrite filter_cons.
  - rewrite decide_False by done. cbn. pose proof (length_filter (fun a => inet_ntop a = loopback) addrs). lia.
  - case_decide; cbn; lia.
Qed.

Lemma listed_ok al addrs : listed al addrs -> host_os addrs ->
  list_fits ALLOC_SIZE al /\ counts al.
Proof.
  intros Hf (Hif & Hlen & Hs & Hex & _). pose proof (Forall2_length _ _ _ Hf) as Hll.
  pose proof (listed_loopbacks al addrs Hf Hs) as Hlb. pose proof (not_all_loopback addrs Hex) as Hlt.
  split; [split; [split; [|lia]|unfold ALLOC_SIZE; lia]|exists addrs; split; [done|lia]].
  clear -Hf Hs. induction Hf as [|e a al' addrs' He Hf IH]; [constructor|].
  apply Forall_cons in Hs as [[Hl Hn] Hs]. constructor; [by eexists|by apply IH].
Qed.

(** what [run] builds *)
Lemma run_eq hw (io : io_context Q) addrs : host_memory -> host_os addrs ->
  exists al, listed al addrs /\
    run hw io = Done (mkProc (txFac io) (rxFac io) (mkStore ∅ 0 2 0) []
      (mkGateway (io_peer io) al (Z.of_nat (length addrs)) None 0 0 0 0 0) session_new (thread_pool_new hw)).
Proof.
  intros [Hnull _] (Hif & Hlen & Hs & _).
  destruct (interfacesToIpV4addr_spec 1 addrs Hif) as (al & Hal & Hf); [lia|done|].
  exists al. split; [exact Hf|]. unfold run, gateway_new, ifc_new. rewrite decide_True by done.
  rewrite (noOfInterfaces_spec addrs) by (done || lia). cbn [mbind res_bind]. by rewrite Hal.
Qed.

(** the two contexts as the programs build them *)
Definition server_io (file : list byte) (peer : sockaddr) (fd : Z) : io_context Q :=
  set_source (mkSource IN (fs_opened file) (Z.of_nat (length file))) (io_context_new TX peer fd).
Definition client_io (peer : sockaddr) (fd : Z) : io_context Q :=
  set_sink (mkSource OUT (fs_opened []) 0) (io_context_new RX peer fd).

(** [DataSource]'s constructor makes these sources *)
Lemma server_source file : Z.of_nat (length file) < 2 ^ 64 ->
  DataSource_new (Some file) (Some (Z.of_nat (length file))) IN = Some (mkSource IN (fs_opened file) (Z.of_nat (length file))).
Proof. intros Hl. cbn. rewrite u64_small by lia. done. Qed.

Lemma server_io_ready hw file junk fd addrs peer :
  host_memory -> host_os addrs -> Z.of_nat (length file) < 2 ^ 63 ->
  exists p al, run hw (server_io file junk fd) = Done p /\ listed al addrs /\
    server_ready os peer ALLOC_SIZE (read_part ALLOC_SIZE file) al p.
Proof.
  intros Hm Hos Hlen.
  destruct (run_eq hw (server_io file junk fd) addrs Hm Hos) as (al & Hl & Hr).
  eexists _, al. split; [exact Hr|]. split; [done|]. split; [|split; [done|split; [done|split; [|done]]]].
  - split; try done; apply q_new_rep.
  - by apply source_at_start.
Qed.

Lemma client_io_ready hw addr fd addrs peer :
  host_memory -> host_os addrs -> reached peer addr = true -> sin_port addr = sin_port (from peer) ->
  exists p al, run hw (client_io addr fd) = Done p /\ listed al addrs /\
    client_ready os peer ALLOC_SIZE al p.
Proof.
  intros Hm Hos Hr Hport.
  destruct (run_eq hw (client_io addr fd) addrs Hm Hos) as (al & Hl & Hrun).
  eexists _, al. split; [exact Hrun|]. split; [done|]. split; [|split; [done|split; [by eexists _, _|done]]].
  split; try done; apply q_new_rep.
Qed.

End Run.

(** where a call through a null pointer does no harm, [destroy] does nothing *)
Lemma destroy_exec {Q : Type} {plat : Platform} peer (s : proc Q) :
  null_member = true -> exec peer destroy s [] tt s.
Proof.
  intros Hn. apply exec_eq. unfold destroy, DataFactory_destroy. m_unfold.
  destruct (sourceData (txFactory s)); rewrite ?Hn; cbn; destruct (sourceData (rxFactory s)); by rewrite ?Hn.
Qed.

(** ** How much of a file is read *)

(** what can be read of a file: 43704 chunks, which can be numbered with 16 bits *)
Definition FILE_LIMIT : Z := 2147527152.

Lemma alloc_size_ok : HEADER_SPACE < ALLOC_SIZE < 2 ^ 16.
Proof. unfold HEADER_SPACE, ALLOC_SIZE. lia. Qed.

Lemma payload_size : Z.of_nat (payload ALLOC_SIZE) = 49138.
Proof. unfold payload. by rewrite Z2Nat.id. Qed.

Lemma file_limit : read_limit (payload ALLOC_SIZE) = FILE_LIMIT.
Proof. unfold read_limit. by rewrite payload_size. Qed.

Lemma file_limit_chunks : read_limit (payload ALLOC_SIZE) = 43704 * Z.of_nat (payload ALLOC_SIZE).
Proof. by rewrite file_limit, payload_size. Qed.

Lemma chunks_bound pl n K len : (0 < pl)%nat -> read_limit pl = n * Z.of_nat pl ->
  (K * pl <= Nat.min (Z.to_nat (read_limit pl)) len)%nat -> Z.of_nat K <= n.
Proof.
  intros Hpl Hl HK. pose proof (read_limit_pos pl).
  apply (Z.mul_le_mono_pos_r _ _ (Z.of_nat pl)); lia.
Qed.

(** ** The two programs *)

(** the host [h], which runs the operating system [os_h] with the interfaces
    [addrs], and its peer, which runs [os_p]: the socket is bound to no address in
    particular, the peer reaches the host at each of its addresses but the loopback
    one, and the peer's [inet_addr] reads what the host's [inet_ntop] prints *)
Definition reachable (os_h os_p : OS) (h : host) (addrs : list Z) : Prop :=
  s_addr (h_sock h) = INADDR_ANY /\
  Forall (fun a => inet_ntop (OS:=os_h) a <> loopback ->
    a ∈ h_addrs h /\ inet_addr (OS:=os_p) (inet_ntop (OS:=os_h) a) = a) addrs.

(** then the list it announces leads to it *)
Lemma reachable_aimable (os_h os_p : OS) h al addrs :
  listed (os:=os_h) al addrs -> host_os (os:=os_h) addrs -> reachable os_h os_p h addrs ->
  aimable (os:=os_p) (as_remote h) al.
Proof.
  intros Hl (_ & _ & Hs & _ & H1) [Hany Hr]. split; [by rewrite (listed_loopbacks (os:=os_h) al addrs)|].
  clear H1. induction Hl as [|e a al addrs He Hl IH]; [constructor|].
  apply Forall_cons in Hs as [[_ Hnn] Hs]. apply Forall_cons in Hr as [Ha Hr].
  constructor; [|by apply IH]. rewrite (is_loopback_holds e _ He Hnn). intros Hlb%bool_decide_eq_false.
  destruct (Ha Hlb) as [Hin Heq]. exists (inet_ntop (OS:=os_h) a). split; [by apply holds_cstring|].
  unfold leads_to. rewrite Heq. by apply receives_any.
Qed.

Section Programs.
Context {Q : Type} {fifo : Fifo Q ptr} {laws : FifoLaws Q ptr}.
Context (mal_s mal_c : Malloc) (os_s os_c : OS) (plat_s plat_c : Platform) (hw_s hw_c : nat).
Variables server_host client_host : host.
Variables (file : list byte) (addrs_s addrs_c : list Z).
Hypothesis Hfile : Z.of_nat (length file) < 2 ^ 63.
Hypothesis Hmem_s : host_memory (mal:=mal_s).
Hypothesis Hmem_c : host_memory (mal:=mal_c).
Hypothesis Hos_s : host_os (os:=os_s) addrs_s.
Hypothesis Hos_c : host_os (os:=os_c) addrs_c.
Hypothesis Hat_s : reachable os_s os_c server_host addrs_s.
Hypothesis Hat_c : reachable os_c os_s client_host addrs_c.
Hypothesis Hname : getnameinfo_ok (OS:=os_s) (Network.source client_host) = true.
Hypothesis Hnull_s : null_member (Platform:=plat_s) = true.
Hypothesis Hnull_c : null_member (Platform:=plat_c) = true.

(** the server's and the client's call of [udm_txstart] and [udm_rxstart] *)
Abbreviation server_prog fuel peer fd :=
  (@udm_start Q fifo mal_s os_s plat_s fuel hw_s (server_io file peer fd)).
Abbreviation client_prog fuel peer fd :=
  (@udm_start Q fifo mal_c os_c plat_c fuel hw_c (client_io peer fd)).

Lemma chunks_numbered K : (K * payload ALLOC_SIZE <= length (read_part ALLOC_SIZE file))%nat ->
  Z.of_nat K + 6 <= 2 ^ 16.
Proof using.
  intros HK. enough (Z.of_nat K <= 43704) by lia. revert HK. unfold read_part. rewrite length_take.
  apply chunks_bound; [by apply payload_pos|exact file_limit_chunks].
Qed.

(** both processes after [run], when the client has an address of the server *)
Lemma programs_ready ps fs pc fc : receives server_host pc = true ->
  exists s c als alc,
    run (H:=mal_s) (H0:=os_s) hw_s (server_io file ps fs) = Done s /\
    run (H:=mal_c) (H0:=os_c) hw_c (client_io pc fc) = Done c /\
    server_ready os_s (as_remote client_host) ALLOC_SIZE (read_part ALLOC_SIZE file) als s /\
    client_ready os_c (as_remote server_host) ALLOC_SIZE alc c /\
    listed (os:=os_s) als addrs_s /\ listed (os:=os_c) alc addrs_c.
Proof using laws Hfile Hmem_s Hmem_c Hos_s Hos_c.
  intros Hpc.
  destruct (server_io_ready (mal:=mal_s) (os:=os_s) hw_s file ps fs addrs_s (as_remote client_host) Hmem_s Hos_s Hfile)
    as (s & als & Hs & Hls & Hsr).
  destruct (client_io_ready (mal:=mal_c) (os:=os_c) hw_c pc fc addrs_c (as_remote server_host) Hmem_c Hos_c Hpc)
    as (c & alc & Hc & Hlc & Hcr).
  { apply andb_true_iff in Hpc as [[Hp _]%andb_true_iff _]. by apply Z.eqb_eq in Hp. }
  by exists s, c, als, alc.
Qed.

Lemma programs_plays fuel ps fs pc fc : receives server_host pc = true ->
  (0 < length file)%nat -> (length file mod payload ALLOC_SIZE <> 0)%nat ->
  Z.of_nat (length file) <= FILE_LIMIT ->
  (2 * (length file / payload ALLOC_SIZE) + 5 <= fuel)%nat ->
  exists D s' c', sink_at (rxFactory c') file /\
    plays (as_remote client_host) (server_prog fuel ps fs) D (Ret tt s') /\
    plays (as_remote server_host) (client_prog fuel pc fc) (dual D) (Ret tt c').
Proof.
  intros Hpc Hpos Hmod Hlim Hfuel. rewrite <- file_limit in Hlim.
  pose proof (read_part_whole ALLOC_SIZE file Hlim) as Hpart.
  pose proof (chunks_numbered (length file / payload ALLOC_SIZE)) as Hn. rewrite Hpart in Hn.
  specialize (Hn ltac:(rewrite Nat.mul_comm; by apply Nat.Div0.mul_div_le)).
  destruct (programs_ready ps fs pc fc Hpc) as (s & c & als & alc & Hs & Hc & Hsr & Hcr & Hls & Hlc).
  rewrite Hpart in Hsr.
  destruct (listed_ok (os:=os_s) als addrs_s Hls Hos_s) as [Hfs Hcs].
  destruct (listed_ok (os:=os_c) alc addrs_c Hlc Hos_c) as [Hfc Hcc].
  destruct (dialogue_exec mal_s mal_c os_s os_c (as_remote server_host) (as_remote client_host) ALLOC_SIZE file
    als alc alloc_size_ok Hfs Hfc Hcs Hcc Hname
    (reachable_aimable os_s os_c server_host als addrs_s Hls Hos_s Hat_s)
    (reachable_aimable os_c os_s client_host alc addrs_c Hlc Hos_c Hat_c)
    (proj2 Hmem_s) (proj2 Hmem_c) s c Hsr Hcr Hpos Hmod Hn)
    as (D & s' & c' & Hsnk & HD).
  destruct (HD fuel Hfuel) as [HDs HDc].
  exists D, s', c'. split; [done|]. unfold udm_start. rewrite Hs, Hc.
  split; (eapply exec_bind1; [eassumption|by apply destroy_exec]).
Qed.

(** what can be read is whole chunks: a file that ends with a full chunk, or one
    that is too long *)
Lemma programs_cut fuel ps fs pc fc K : receives server_host pc = true ->
  length (read_part ALLOC_SIZE file) = (K * payload ALLOC_SIZE)%nat -> (2 * K + 4 <= fuel)%nat ->
  exists D s' k,
    plays (as_remote client_host) (server_prog fuel ps fs) D (Exit 1 s') /\
    plays (as_remote server_host) (client_prog fuel pc fc) (dual D) (Recvfrom k).
Proof using laws Hfile Hmem_s Hmem_c Hos_s Hos_c Hat_s Hat_c Hname.
  intros Hpc Hlen Hfuel. pose proof (chunks_numbered K ltac:(lia)) as HK.
  destruct (programs_ready ps fs pc fc Hpc) as (s & c & als & alc & Hs & Hc & Hsr & Hcr & Hls & Hlc).
  destruct (listed_ok (os:=os_s) als addrs_s Hls Hos_s) as [Hfs Hcs].
  destruct (listed_ok (os:=os_c) alc addrs_c Hlc Hos_c) as [Hfc Hcc].
  destruct (dialogue_cut mal_s mal_c os_s os_c (as_remote server_host) (as_remote client_host) ALLOC_SIZE _
    als alc alloc_size_ok Hfs Hfc Hcs Hcc Hname
    (reachable_aimable os_s os_c server_host als addrs_s Hls Hos_s Hat_s)
    (reachable_aimable os_c os_s client_host alc addrs_c Hlc Hos_c Hat_c)
    (proj2 Hmem_s) (proj2 Hmem_c) s c fuel K Hsr Hcr Hlen HK Hfuel)
    as (D & s' & k & HDs & HDc).
  exists D, s'. unfold udm_start. rewrite Hs, Hc. eexists. split.
  - apply (plays_bind _ _ (Exit 1 s')). exact HDs.
  - apply (plays_bind _ _ (Recvfrom k)). exact HDc.
Qed.

(** the whole chunks of such files *)
Lemma part_multiple K : length file = (K * payload ALLOC_SIZE)%nat -> Z.of_nat (length file) <= FILE_LIMIT ->
  length (read_part ALLOC_SIZE file) = (K * payload ALLOC_SIZE)%nat.
Proof using. intros Hlen Hlim. by rewrite read_part_whole by by rewrite file_limit. Qed.

Lemma part_large : FILE_LIMIT <= Z.of_nat (length file) ->
  length (read_part ALLOC_SIZE file) = (Z.to_nat 43704 * payload ALLOC_SIZE)%nat.
Proof using.
  rewrite <- file_limit. pose proof file_limit_chunks as Hl. unfold read_part. rewrite length_take.
  revert Hl. generalize (read_limit (payload ALLOC_SIZE)). intros m Hl Hlim.
  rewrite Nat.min_l by lia. rewrite Hl, Z2Nat.inj_mul, Nat2Z.id by lia. done.
Qed.

End Programs.

(** ** Concrete hosts *)

#[local] Existing Instances Linked.linked_fifo Linked.linked_laws.

Lemma demo_host : host_os (os:=demo_os) [1; 2].
Proof.
  split; [done|]. split; [done|]. split; [apply host_with_short|]. split; [by right; left|vm_compute; lia].
Qed.

Lemma demo_host_c : host_os (os:=demo_os_c) [1; 3].
Proof.
  split; [done|]. split; [done|]. split; [apply host_with_short|]. split; [by right; left|vm_compute; lia].
Qed.

Lemma demo_memory : host_memory (mal:=demo_malloc).
Proof. by split. Qed.

(** the two hosts on their network: both sockets are bound to no address in
    particular, the server's to port 9000 *)
Definition server_host : host := mkHost [2] (mkAddr 9000 INADDR_ANY) 2 eq_refl.
Definition client_host : host := mkHost [3] (mkAddr 40000 INADDR_ANY) 3 eq_refl.

Lemma demo_reach_s : reachable demo_os demo_os_c server_host [1; 2].
Proof.
  split; [done|]. constructor; [done|]. constructor; [|constructor].
  intros _. split; [by apply list_elem_of_singleton|done].
Qed.

Lemma demo_reach_c : reachable demo_os_c demo_os client_host [1; 3].
Proof.
  split; [done|]. constructor; [done|]. constructor; [|constructor].
  intros _. split; [by apply list_elem_of_singleton|done].
Qed.
