(* ===== verification/Main.v ===== *)
(** * The two programs (udmuser_srv.cpp, udmuser_cl.cpp)

    [main] of the server and of the client: the arguments, the addresses and the
    socket, the file, one session, and the exit status.  The loops [for (;;)] of
    both leave their first iteration: the server's ends with [break], the client's
    with [break] or an exception, since an [error_code] that is not [eof] is not 0.
    Messages and the measurement of time are left out, as is [acceptor], which
    does nothing. *)

From S2P Require Import Prelude Wire OrdMap Queue Stream Program Platform Factory Interfaces Strings.
From S2P Require Import Pool State Gateway Presentation Session SessionFacts.
From S2P Require Import ClientRun ServerRun Handshake Network Transfer UserApi Concrete.

(** the file system: what can be read from a file, what
    [std::filesystem::file_size] says of it, and whether it can be opened for
    writing *)
Class Files := {
  file_open : list byte -> option (list byte);
  file_size : list byte -> option Z;
  can_create : list byte -> bool
}.

Section Main.
Context {Q : Type} {fifo : Fifo Q ptr} {mal : Malloc} {os : OS} {plat : Platform} {net : Net} {files : Files}.
(** [hardware_concurrency()], and what uninitialised variables hold *)
Variables (hw : nat) (junk_peer : sockaddr) (junk_fd : Z).

(** [source(name, mode)]; [None] when the constructor throws *)
Definition source_new (name : list byte) (mode : sourceMode) : option DataSource :=
  DataSource_new
    (match mode with IN => file_open name | OUT => if can_create name then Some [] else None end)
    (file_size name) mode.

(** ** The server *)

(** up to the loop: the port, the addresses, the socket; the name of the file is
    the second argument, or is copied to a pointer that nothing has set *)
Definition server_setup (argv : list (list byte)) (io : io_context Q)
    : res (io_context Q * list byte) :=
  arg1 ← orelse NullDeref (argv !! 1%nat);
  port ← atoi arg1;
  addr ← fetch_addresses (i16 port);
  '(fd, io) ← udm_socket addr junk_fd io;
  _ ← udm_bind io addr {[fd]};
  filename ← orelse Uninitialised (if decide (length argv = 3%nat) then argv !! 2%nat else None);
  Done (io, filename).

(** the loop's body.  [main] catches what [file_size] throws; status 0 follows *)
Definition server_session (fuel : nat) (io : io_context Q) (filename : list byte) : prog (proc Q) Z :=
  match source_new filename IN, file_size filename with
  | Some file, Some filesize =>
      if 0 <? u64 filesize then
        pbind (udm_txstart fuel hw (set_source file io) error_new) (fun _ s => Ret 0 s)
      else Ret 0 (no_proc io)
  | _, _ => Ret 0 (no_proc io)
  end.

Definition server_main (fuel : nat) (argv : list (list byte)) : prog (proc Q) Z :=
  let io := io_context_new TX junk_peer junk_fd in
  if (length argv <? 2)%nat then Ret 1 (no_proc io)
  else
    match server_setup argv io with
    | Done (io, filename) => server_session fuel io filename
    | Exits c => Exit c (no_proc io)
    | Undef e => Fault e
    end.

(** ** The client *)

Definition client_setup (argv : list (list byte)) (io : io_context Q)
    : res (Z * io_context Q * list byte) :=
  addr ← orelse NullDeref (argv !! 1%nat);
  service ← orelse NullDeref (argv !! 2%nat);
  name ← orelse NullDeref (argv !! 3%nat);
  '(endpoints, io) ← resolve addr service io;
  '(fd, io) ← udm_socket endpoints junk_fd io;
  Done (fd, io, name).

(** the status of a process that [std::terminate] aborts *)
Definition ABORTED : Z := 134.

(** the loop's body.  [generic_error] derives privately from [std::exception], so
    no handler of [main] would catch it *)
Definition client_session (fuel : nat) (io : io_context Q) (name : list byte) : prog (proc Q) Z :=
  match source_new name OUT with
  | None => Ret 0 (no_proc io)
  | Some file =>
      pbind (udm_rxstart fuel hw (set_sink file io) error_new) (fun e s =>
        match code e with
        | None => Fault Uninitialised
        | Some c => if error_code_val c =? error_code_val eof then Ret 0 s else Exit ABORTED s
        end)
  end.

Definition client_main (fuel : nat) (argv : list (list byte)) : prog (proc Q) Z :=
  let io := io_context_new RX junk_peer junk_fd in
  if negb (bool_decide (length argv = 4%nat)) then Ret 1 (no_proc io)
  else
    match client_setup argv io with
    | Done (fd, io, name) => if fd <=? 0 then Ret 0 (no_proc io) else client_session fuel io name
    | Exits c => Exit c (no_proc io)
    | Undef e => Fault e
    end.

(** ** What the surroundings must offer *)

(** the server's: a port that is an [int], room for its numeral and an address for
    it, a socket that [bind] binds to this address, [bound], and a file that can be
    read *)
Record server_env (argv : list (list byte)) (file : list byte) (bound : sockaddr) (fd : Z) : Prop := {
  sv_argv : exists name arg1 fname port a l, argv = [name; arg1; fname] /\ atoi arg1 = Done port /\
    (length (to_string (i16 port)) < usable (length (to_string (i16 port))))%nat /\
    getaddrinfo None (to_string (i16 port)) = Some (a :: l) /\
    socket a = fd /\ bind_ok fd a = true /\ ai_addr a = bound /\
    file_open fname = Some file /\ file_size fname = Some (Z.of_nat (length file));
  sv_fd : 0 < fd
}.

(** the client's: a host and a service with an address, [peer], a socket, and a file
    that can be written *)
Record client_env (argv : list (list byte)) (peer : sockaddr) (fd : Z) : Prop := {
  cl_argv : exists name host service fname a l, argv = [name; host; service; fname] /\
    no_nul host /\ no_nul service /\
    (length host < usable (length host))%nat /\ (length service < usable (length service))%nat /\
    getaddrinfo (Some host) service = Some (a :: l) /\ socket a = fd /\ ai_addr a = peer /\
    can_create fname = true;
  cl_over : over_read = true;
  cl_fd : 0 < fd
}.

Lemma obtained arg a l : getaddrinfo None arg = Some (a :: l) -> obtainAddresses None arg = Done (a :: l).
Proof. unfold obtainAddresses. by intros ->. Qed.

Lemma udm_socket_first a l fd (io : io_context Q) : socket a <> -1 ->
  udm_socket (a :: l) fd io = Done (socket a, setfd (socket a) io).
Proof. intros Ha. unfold udm_socket. cbn. by rewrite (proj2 (Z.eqb_neq _ _) Ha). Qed.

Lemma udm_bind_first a l (io : io_context Q) : (0 < getfd io -> bind_ok (getfd io) a = true) ->
  exists fds, udm_bind io (a :: l) {[getfd io]} = Done fds.
Proof.
  intros Hb. unfold udm_bind. case_match eqn:Hlt; [|by eexists]. apply Z.ltb_lt in Hlt.
  unfold bindAddress. cbn [bind_loop]. unfold bind_call. rewrite bool_decide_true by set_solver.
  rewrite Hb by done. by eexists.
Qed.

Lemma server_main_eq fuel argv file bound fd :
  server_env argv file bound fd -> (0 < length file)%nat -> Z.of_nat (length file) < 2 ^ 64 ->
  server_main fuel argv =
    pbind (udm_txstart fuel hw (server_io file junk_peer fd) error_new) (fun _ s => Ret 0 s).
Proof.
  intros [(name & arg1 & fname & port & a & l & -> & Hport & Hroom & Hga & Hs & Hb & _ & Hf & Hsz) Hfd] Hpos Hlen.
  unfold server_main, server_setup. cbn [length Nat.ltb Nat.leb lookup list_lookup orelse mbind res_bind].
  rewrite Hport. cbn [mbind res_bind]. unfold fetch_addresses.
  rewrite copy_cstr_room by (done || apply to_string_no_nul). cbn [mbind res_bind].
  rewrite (obtained _ _ _ Hga). cbn [mbind res_bind]. rewrite udm_socket_first by lia.
  cbn [mbind res_bind]. rewrite Hs.
  destruct (udm_bind_first a l (setfd fd (io_context_new TX junk_peer junk_fd))) as [fds Hbind]; [done|].
  change (getfd (setfd fd _)) with fd in Hbind. rewrite Hbind. cbn [mbind res_bind]. rewrite decide_True by done.
  cbn [orelse mbind res_bind]. unfold server_session, source_new, DataSource_new.
  rewrite Hf, Hsz. cbn [mbind option_bind]. rewrite u64_small by lia.
  destruct (Z.ltb_spec 0 (Z.of_nat (length file))); [|lia].
  done.
Qed.

(** what the client does with the error that [udm_rxstart] reports *)
Definition client_status (e : error) (s : proc Q) : prog (proc Q) Z :=
  match code e with
  | None => Fault Uninitialised
  | Some c => if error_code_val c =? error_code_val eof then Ret 0 s else Exit ABORTED s
  end.

Lemma client_main_eq fuel argv peer fd : client_env argv peer fd ->
  client_main fuel argv =
    pbind (udm_rxstart fuel hw (client_io peer fd) error_new) client_status.
Proof.
  intros [(name & host & service & fname & a & l & -> & Hh & Hsv & Hrh & Hrs & Hga & Hs & <- & Hc) Hover Hfd].
  unfold client_main, client_setup. rewrite bool_decide_true by done.
  cbn [negb lookup list_lookup orelse mbind res_bind]. unfold resolve.
  rewrite !copy_cstr_room by done. cbn [mbind res_bind]. unfold obtainAddresses. rewrite Hga.
  cbn [mbind res_bind head orelse]. rewrite Hover. cbn [mbind res_bind].
  rewrite udm_socket_first by lia. cbn [mbind res_bind]. rewrite Hs.
  destruct (Z.leb_spec fd 0); [lia|]. unfold client_session, source_new, DataSource_new. by rewrite Hc.
Qed.

End Main.

(** ** Both programs *)

(** the end of a run that does not transfer the file *)
Definition stuck {Q} (s : proc Q) (k : recv_result -> prog (proc Q) Z) : net (S:=proc Q) (A:=Z) :=
  mkNet (Exit 1 s) (Recvfrom k) [] [].

Lemma stuck_final {Q} server_host client_host (s : proc Q) k : net_final server_host client_host (stuck s k).
Proof. intros n Hn. inversion Hn; subst; done. Qed.

Section Both.
Context {Q : Type} {fifo : Fifo Q ptr} {laws : FifoLaws Q ptr}.
Context (mal_s mal_c : Malloc) (os_s os_c : OS) (plat_s plat_c : Platform).
Context (net_s net_c : Net) (files_s files_c : Files) (hw_s hw_c : nat).
(** the two hosts on the network, and what uninitialised variables hold *)
Variables (server_host client_host : host) (junk_s junk_c : sockaddr) (jfd_s jfd_c : Z).
Variables (file : list byte) (addrs_s addrs_c : list Z) (argv_s argv_c : list (list byte)).
Variables (peer : sockaddr) (fd_s fd_c : Z).
Hypothesis Hfile : Z.of_nat (length file) < 2 ^ 63.
Hypothesis Hmem_s : host_memory (mal:=mal_s).
Hypothesis Hmem_c : host_memory (mal:=mal_c).
Hypothesis Hos_s : host_os (os:=os_s) addrs_s.
Hypothesis Hos_c : host_os (os:=os_c) addrs_c.
(** each host is reached at its interfaces' addresses *)
Hypothesis Hat_s : reachable os_s os_c server_host addrs_s.
Hypothesis Hat_c : reachable os_c os_s client_host addrs_c.
Hypothesis Hname : getnameinfo_ok (OS:=os_s) (Network.source client_host) = true.
(** the server's socket is bound to what the network knows as its address, and the
    address the client resolves is one at which this socket receives *)
Hypothesis Henv_s : server_env (plat:=plat_s) (net:=net_s) (files:=files_s) argv_s file (h_sock server_host) fd_s.
Hypothesis Henv_c : client_env (plat:=plat_c) (net:=net_c) (files:=files_c) argv_c peer fd_c.
Hypothesis Hpeer : receives server_host peer = true.

(** the two processes, each at the start of its [main] *)
Abbreviation server_start fuel :=
  (@server_main Q fifo mal_s os_s plat_s net_s files_s hw_s junk_s jfd_s fuel argv_s).
Abbreviation client_start fuel :=
  (@client_main Q fifo mal_c os_c plat_c net_c files_c hw_c junk_c jfd_c fuel argv_c).

(** the two sessions inside them *)
Abbreviation server_prog fuel :=
  (@udm_start Q fifo mal_s os_s plat_s fuel hw_s (server_io file junk_s fd_s)).
Abbreviation client_prog fuel :=
  (@udm_start Q fifo mal_c os_c plat_c fuel hw_c (client_io peer fd_c)).

(** [main] takes part in the dialogue of its session *)
Lemma server_main_plays fuel D p : (0 < length file)%nat ->
  plays (as_remote client_host) (server_prog fuel) D p ->
  plays (as_remote client_host) (server_start fuel) D (pbind (pbind p (fun _ s => Ret error_new s)) (fun _ s => Ret 0 s)).
Proof using Hfile Henv_s.
  intros Hpos Hp.
  rewrite (server_main_eq (mal:=mal_s) (os:=os_s) hw_s junk_s jfd_s fuel argv_s file (h_sock server_host) fd_s Henv_s)
    by (done || lia).
  by do 2 apply plays_bind.
Qed.

Lemma client_main_plays fuel D p :
  plays (as_remote server_host) (client_prog fuel) D p ->
  plays (as_remote server_host) (client_start fuel) D
    (pbind (pbind p (fun _ s => Ret (mkError (Some eof) []) s)) client_status).
Proof using Henv_c.
  intros Hp.
  rewrite (client_main_eq (mal:=mal_c) (os:=os_c) hw_c junk_c jfd_c fuel argv_c peer fd_c Henv_c).
  by do 2 apply plays_bind.
Qed.

(** the two processes joined by the network *)
Abbreviation joined fuel := (mkNet (server_start fuel) (client_start fuel) [] []).

(** if the part that is read consists of whole chunks, every run ends like that *)
Lemma main_cut fuel K : (0 < length file)%nat ->
  length (read_part ALLOC_SIZE file) = (K * payload ALLOC_SIZE)%nat -> (2 * K + 4 <= fuel)%nat ->
  exists k s' kc, forall j m, net_steps server_host client_host j (joined fuel) m ->
    exists i, k = (j + i)%nat /\ net_steps server_host client_host i m (stuck s' kc).
Proof using laws Hfile Hmem_s Hmem_c Hos_s Hos_c Hat_s Hat_c Hname Henv_s Henv_c Hpeer.
  intros Hpos Hlen Hfuel.
  destruct (programs_cut mal_s mal_c os_s os_c plat_s plat_c hw_s hw_c server_host client_host file
    addrs_s addrs_c Hfile Hmem_s Hmem_c Hos_s Hos_c Hat_s Hat_c Hname fuel junk_s fd_s peer fd_c K Hpeer Hlen Hfuel)
    as (D & s' & k & HDs & HDc).
  eexists (2 * length D)%nat, s', _. apply net_confluent; [|exact (stuck_final _ _ _ _)]. apply dialogue_net.
  - exact (server_main_plays fuel D _ Hpos HDs).
  - exact (client_main_plays fuel _ _ HDc).
Qed.

Hypothesis Hnull_s : null_member (Platform:=plat_s) = true.
Hypothesis Hnull_c : null_member (Platform:=plat_c) = true.

(** C1: the whole programs, on two hosts whose interfaces, one loopback address
    at most among them, are reached by the other host, and a network that loses
    nothing that is sent to them: the server's socket is bound, and the client
    resolves an address at which it receives; the set-up of both is done before the
    first datagram is sent.  The server's file is not empty, not
    longer than 43704 full chunks, and its size is not a multiple of the payload of
    a chunk.  Then every datagram is sent to an address of the other process's
    socket; however the two processes are scheduled, the run is finite, and it ends
    with both exit statuses 0 and the file, byte for byte, in the client's sink. *)
Theorem main_transfer_correct fuel :
  (0 < length file)%nat -> (length file mod payload ALLOC_SIZE <> 0)%nat ->
  Z.of_nat (length file) <= FILE_LIMIT ->
  (2 * (length file / payload ALLOC_SIZE) + 5 <= fuel)%nat ->
  exists k s' c', sink_at (rxFactory c') file /\
    forall j m, net_steps server_host client_host j (joined fuel) m ->
      exists i, k = (j + i)%nat /\
        net_steps server_host client_host i m (mkNet (Ret 0 s') (Ret 0 c') [] []).
Proof.
  intros Hpos Hmod Hlim Hfuel.
  destruct (programs_plays mal_s mal_c os_s os_c plat_s plat_c hw_s hw_c server_host client_host file
    addrs_s addrs_c Hfile Hmem_s Hmem_c Hos_s Hos_c Hat_s Hat_c Hname Hnull_s Hnull_c fuel junk_s fd_s peer fd_c Hpeer Hpos Hmod Hlim Hfuel)
    as (D & s' & c' & Hsnk & HDs & HDc).
  exists (2 * length D)%nat, s', c'. split; [done|].
  apply net_confluent; [|apply net_final_done]. apply dialogue_net.
  - exact (server_main_plays fuel D _ Hpos HDs).
  - exact (client_main_plays fuel _ _ HDc).
Qed.

(** C2: on the same hosts and the same network a file whose size is a multiple of
    the payload of a chunk, and which is not longer than 43704 chunks, is never
    transferred: every run is finite and ends with the server's exit status 1,
    after it has sent all chunks, because no chunk is left to carry the flag
    [FIN], and with the client waiting in [recvfrom] for a capsule that nobody
    will send. *)
Theorem main_transfer_multiple fuel K : (0 < length file)%nat ->
  length file = (K * payload ALLOC_SIZE)%nat -> Z.of_nat (length file) <= FILE_LIMIT ->
  (2 * K + 4 <= fuel)%nat ->
  exists k s' kc,
    net_final server_host client_host (stuck s' kc) /\
    forall j m, net_steps server_host client_host j (joined fuel) m ->
      exists i, k = (j + i)%nat /\ net_steps server_host client_host i m (stuck s' kc).
Proof.
  intros Hpos Hlen Hlim Hfuel.
  destruct (main_cut fuel K Hpos (part_multiple file K Hlen Hlim) Hfuel) as (k & s' & kc & Hr).
  exists k, s', kc. split; [exact (stuck_final _ _ _ _)|exact Hr].
Qed.

(** C3: nor is, there, a file of 43704 full chunks or more, whatever its size is:
    after as many full chunks [curSize], an [int], is beyond its range; where it
    wraps around the server takes the file for read, and every run ends with its
    exit status 1 and with the client waiting for ever. *)
Theorem main_transfer_large fuel :
  FILE_LIMIT <= Z.of_nat (length file) -> 2 * 43704 + 4 <= Z.of_nat fuel ->
  exists k s' kc,
    net_final server_host client_host (stuck s' kc) /\
    forall j m, net_steps server_host client_host j (joined fuel) m ->
      exists i, k = (j + i)%nat /\ net_steps server_host client_host i m (stuck s' kc).
Proof.
  intros Hlim Hfuel. pose proof (part_large file Hlim) as Hlen. revert Hlen.
  assert (2 * Z.to_nat 43704 + 4 <= fuel)%nat as Hf by lia. revert Hf.
  generalize (Z.to_nat 43704). intros K Hf Hlen.
  destruct (main_cut fuel K) as (k & s' & kc & Hr); [unfold FILE_LIMIT in Hlim; lia|exact Hlen|exact Hf|].
  exists k, s', kc. split; [exact (stuck_final _ _ _ _)|exact Hr].
Qed.

End Both.

(** ** Every branch of the two programs *)

(** the numeral that [getaddrinfo] gets for a port on the command line *)
Definition port_service (n : Z) : list byte :=
  if n <? 2 ^ 15 then to_string n else Byte.x2d :: to_string (2 ^ 16 - n).

Lemma i16_port n : 0 <= n < 2 ^ 16 -> to_string (i16 n) = port_service n.
Proof.
  intros Hn. unfold port_service, i16. destruct (Z.ltb_spec n (2 ^ 15)).
  - f_equal. rewrite Z.mod_small by lia. lia.
  - rewrite <- (Z2N.id (2 ^ 16 - n)) by lia. rewrite <- to_string_opp by lia. f_equal.
    rewrite Z2N.id by lia. replace (n + 2 ^ 15) with ((n - 2 ^ 15) + 1 * 2 ^ 16) by lia.
    rewrite Z.mod_add, Z.mod_small by lia. lia.
Qed.

Section Branches.
Context {Q : Type} {fifo : Fifo Q ptr} {mal : Malloc} {os : OS} {plat : Platform} {net : Net} {files : Files}.
Variables (hw : nat) (junk_peer : sockaddr) (junk_fd : Z).
Abbreviation server_main := (server_main (Q:=Q) hw junk_peer junk_fd).
Abbreviation client_main := (client_main (Q:=Q) hw junk_peer junk_fd).

(** C21: the port on the server's command line, where the allocator leaves room for
    its numeral: up to 32767 the numeral reaches [getaddrinfo] as it was written; a
    port above is turned into a negative number, because [port_t] is a [short]. *)
Theorem port_roundtrip n :
  0 <= n < 2 ^ 16 -> (length (port_service n) < usable (length (port_service n)))%nat ->
  (port ← atoi (to_string n); fetch_addresses (i16 port)) = obtainAddresses None (port_service n).
Proof.
  intros Hn Hroom. rewrite atoi_to_string by lia. cbn [mbind res_bind]. unfold fetch_addresses.
  rewrite i16_port by done. rewrite copy_cstr_room; [done| |done].
  rewrite <- i16_port by done. apply to_string_no_nul.
Qed.

(** C34: the server's [main].  Without a port it returns 1.  With one and the
    addresses and the socket that [server_setup] wants: a second argument that is
    no regular file, or is an empty one, ends the program with status 0 and
    without a datagram; any other number of arguments copies the default name to
    an uninitialised pointer; and a file of [n] bytes starts the session. *)
Theorem server_main_branches fuel name rest arg1 port a l :
  atoi arg1 = Done port ->
  (length (to_string (i16 port)) < usable (length (to_string (i16 port))))%nat ->
  getaddrinfo None (to_string (i16 port)) = Some (a :: l) ->
  socket a <> -1 -> (0 < socket a -> bind_ok (socket a) a = true) ->
  let io : io_context Q := setfd (socket a) (io_context_new TX junk_peer junk_fd) in
  server_main fuel [name] = Ret 1 (no_proc (io_context_new TX junk_peer junk_fd)) /\
  server_main fuel (name :: arg1 :: rest) =
    match rest with
    | [fname] =>
        match file_size fname with
        | None => Ret 0 (no_proc io)
        | Some n =>
            if 0 <? u64 n then
              pbind (udm_txstart fuel hw (set_source
                (mkSource IN (match file_open fname with Some bs => fs_opened bs | None => fs_unopened end)
                   (u64 n)) io) error_new) (fun _ s => Ret 0 s)
            else Ret 0 (no_proc io)
        end
    | _ => Fault Uninitialised
    end.
Proof.
  intros Hport Hroom Hga Hs Hb io. split; [done|].
  unfold server_main, server_setup. cbn [length Nat.ltb Nat.leb lookup list_lookup orelse mbind res_bind].
  rewrite Hport. cbn [mbind res_bind]. unfold fetch_addresses.
  rewrite copy_cstr_room by (done || apply to_string_no_nul). cbn [mbind res_bind].
  rewrite (obtained _ _ _ Hga). cbn [mbind res_bind]. rewrite udm_socket_first by done.
  cbn [mbind res_bind]. fold io. destruct (udm_bind_first a l io) as [fds Hbind]; [done|].
  change (getfd io) with (socket a) in Hbind. rewrite Hbind. cbn [mbind res_bind].
  destruct rest as [|fname [|x rest]]; [by rewrite decide_False by (cbn; lia)| |].
  - rewrite decide_True by done. cbn [lookup list_lookup orelse mbind res_bind].
    unfold server_session, source_new, DataSource_new.
    destruct (file_size fname) as [n|]; [|done]. cbn [mbind option_bind]. done.
  - rewrite decide_False by (cbn; lia). done.
Qed.

End Branches.

(** ** Two concrete hosts *)

#[local] Existing Instances Linked.linked_fifo Linked.linked_laws.

(** without a name, the server gets the address to bind; every name has the
    server's address; and there is one socket *)
Definition main_net : Net := {|
  getaddrinfo name _ := Some [mkAddrinfo 2 2 17
    (match name with None => mkAddr 9000 INADDR_ANY | Some _ => server_addr end)];
  socket _ := 3;
  bind_ok _ _ := true
|}.

(** one file, and leave to write *)
Definition disk (file : list byte) : Files := {|
  file_open _ := Some file;
  file_size _ := Some (Z.of_nat (length file));
  can_create _ := true
|}.

(** the command lines: [udmserver 9000 f] and [udmclient h 9000 g] *)
Definition prog_name : list byte := [Byte.x75].
Definition server_argv : list (list byte) := [prog_name; to_string 9000; [Byte.x66]].
Definition client_argv : list (list byte) := [prog_name; [Byte.x68]; to_string 9000; [Byte.x67]].

Lemma demo_server_env file :
  server_env (plat:=rounding_platform) (net:=main_net) (files:=disk file) server_argv file (h_sock server_host) 3.
Proof.
  split; [|done..]. eexists prog_name, (to_string 9000), [Byte.x66], 9000, _, [].
  split; [done|]. split; [by apply atoi_to_string|]. split; [|split; [reflexivity|done]]. vm_compute. lia.
Qed.

Lemma demo_client_env file :
  client_env (plat:=rounding_platform) (net:=main_net) (files:=disk file) client_argv server_addr 3.
Proof.
  split; [|done..]. eexists prog_name, [Byte.x68], (to_string 9000), [Byte.x67], _, [].
  split; [done|]. split; [unfold no_nul; apply (bool_decide_unpack _); done|].
  split; [apply to_string_no_nul|]. split; [vm_compute; lia|]. split; [vm_compute; lia|].
  by split.
Qed.

(** the two processes on them *)
Definition demo_server (fuel : nat) (file : list byte) : prog (proc buffer_queue) Z :=
  server_main (mal:=demo_malloc) (os:=demo_os) (plat:=rounding_platform) (net:=main_net)
    (files:=disk file) 4 client_addr 0 fuel server_argv.
Definition demo_client (fuel : nat) : prog (proc buffer_queue) Z :=
  client_main (mal:=demo_malloc) (os:=demo_os_c) (plat:=rounding_platform) (net:=main_net)
    (files:=disk []) 4 server_addr 0 fuel client_argv.

(** a file of 25 bytes *)
Lemma main_transfer_correct_witness :
  exists k s' c', sink_at (rxFactory c') demo_file /\
    forall j m, net_steps server_host client_host j (mkNet (demo_server 5 demo_file) (demo_client 5) [] []) m ->
      exists i, k = (j + i)%nat /\
        net_steps server_host client_host i m (mkNet (Ret 0 s') (Ret 0 c') [] []).
Proof.
  apply (main_transfer_correct demo_malloc demo_malloc demo_os demo_os_c rounding_platform rounding_platform
    main_net main_net (disk demo_file) (disk []) 4 4 server_host client_host client_addr server_addr 0 0
    demo_file [1; 2] [1; 3] server_argv client_argv server_addr 3 3).
  - vm_compute. done.
  - exact demo_memory.
  - exact demo_memory.
  - exact demo_host.
  - exact demo_host_c.
  - exact demo_reach_s.
  - exact demo_reach_c.
  - done.
  - exact (demo_server_env demo_file).
  - exact (demo_client_env []).
  - done.
  - done.
  - done.
  - vm_compute. lia.
  - vm_compute. lia.
  - vm_compute. done.
  - vm_compute. lia.
Defined.

(** a file that is exactly one chunk, and one of 2 GiB and some chunks *)
Definition one_chunk : list byte := replicate (payload ALLOC_SIZE) Byte.x55.

Lemma length_one_chunk : Z.of_nat (length one_chunk) = 49138.
Proof. unfold one_chunk. by rewrite length_replicate, payload_size. Qed.

Lemma main_transfer_multiple_witness :
  exists k s' kc,
    net_final server_host client_host (stuck s' kc) /\
    forall j m, net_steps server_host client_host j (mkNet (demo_server 6 one_chunk) (demo_client 6) [] []) m ->
      exists i, k = (j + i)%nat /\ net_steps server_host client_host i m (stuck s' kc).
Proof.
  apply (main_transfer_multiple demo_malloc demo_malloc demo_os demo_os_c rounding_platform rounding_platform
    main_net main_net (disk one_chunk) (disk []) 4 4 server_host client_host client_addr server_addr 0 0
    one_chunk [1; 2] [1; 3] server_argv client_argv server_addr 3 3) with (K := 1%nat).
  - by rewrite length_one_chunk.
  - exact demo_memory.
  - exact demo_memory.
  - exact demo_host.
  - exact demo_host_c.
  - exact demo_reach_s.
  - exact demo_reach_c.
  - done.
  - exact (demo_server_env one_chunk).
  - exact (demo_client_env []).
  - done.
  - pose proof length_one_chunk. lia.
  - unfold one_chunk. rewrite length_replicate. lia.
  - by rewrite length_one_chunk.
  - lia.
Defined.

Definition large_file : list byte := replicate (Z.to_nat 3000000000) Byte.x55.

Lemma length_large_file : Z.of_nat (length large_file) = 3000000000.
Proof. unfold large_file. by rewrite length_replicate, Z2Nat.id. Qed.

Lemma main_transfer_large_witness :
  let fuel := Z.to_nat 90000 in
  exists k s' kc,
    net_final server_host client_host (stuck s' kc) /\
    forall j m, net_steps server_host client_host j (mkNet (demo_server fuel large_file) (demo_client fuel) [] []) m ->
      exists i, k = (j + i)%nat /\ net_steps server_host client_host i m (stuck s' kc).
Proof.
  intros fuel.
  apply (main_transfer_large demo_malloc demo_malloc demo_os demo_os_c rounding_platform rounding_platform
    main_net main_net (disk large_file) (disk []) 4 4 server_host client_host client_addr server_addr 0 0
    large_file [1; 2] [1; 3] server_argv client_argv server_addr 3 3).
  - by rewrite length_large_file.
  - exact demo_memory.
  - exact demo_memory.
  - exact demo_host.
  - exact demo_host_c.
  - exact demo_reach_s.
  - exact demo_reach_c.
  - done.
  - exact (demo_server_env large_file).
  - exact (demo_client_env []).
  - done.
  - by rewrite length_large_file.
  - unfold fuel. rewrite Z2Nat.id by lia. lia.
Defined.

(** port 50000 *)
Lemma port_roundtrip_witness :
  (port ← atoi (to_string 50000); fetch_addresses (H:=main_net) (H0:=rounding_platform) (i16 port)) =
  obtainAddresses (H:=main_net) None (port_service 50000).
Proof. apply (port_roundtrip (net:=main_net) (plat:=rounding_platform)); [lia|vm_compute; lia]. Defined.

(** without a file name *)
Lemma server_main_branches_witness :
  server_main (mal:=demo_malloc) (os:=demo_os) (plat:=rounding_platform) (net:=main_net) (files:=disk [])
    (Q:=buffer_queue) 4 client_addr 0 5 [prog_name; to_string 9000] = Fault Uninitialised.
Proof.
  apply (server_main_branches (mal:=demo_malloc) (os:=demo_os) (plat:=rounding_platform) (net:=main_net)
    (files:=disk []) 4 client_addr 0 5 prog_name [] (to_string 9000) 9000 (mkAddrinfo 2 2 17 (mkAddr 9000 INADDR_ANY)) []).
  - by apply atoi_to_string.
  - vm_compute. lia.
  - reflexivity.
  - done.
  - done.
Defined.
