(* ===== verification/SessionProps.v ===== *)
(** * Two sessions in step, and out of step

    The agreement that the handshake reaches, what one lost capsule does, and
    what the states put into their capsules and leave in memory. *)

From S2P Require Import Prelude Wire OrdMap Queue Stream Program Factory Interfaces.
From S2P Require Import Pool State Gateway Presentation Session SessionFacts Window ClientRun.
From S2P Require Import WindowProps ServerRun Handshake Network Transfer UserApi Concrete.

Section Hosts.
Context {Q : Type} {fifo : Fifo Q ptr} {laws : FifoLaws Q ptr}.
Context (mal_s mal_c : Malloc) (os_s os_c : OS).
Variables server_host client_host : host.
Variables (siz : Z) (file : list byte) (al_s al_c : list ipaddr_dummy).
Hypothesis Hsiz : HEADER_SPACE < siz < 2 ^ 16.

Abbreviation server_loop := (@start_loop Q fifo mal_s os_s).
Abbreviation client_loop := (@start_loop Q fifo mal_c os_c).

(** C10: the handshake, on two hosts whose lists fit in a capsule and lead to them:
    the network
    can bring the two loops from their start to their first window, with
    nothing left on the way.  Both have the same connection identifier and the
    window size 5, and nothing of the file has been read or written. *)
Theorem handshake_agreement s c fuel :
  list_fits siz al_s -> list_fits siz al_c -> counts (os:=os_s) al_s -> counts (os:=os_c) al_c ->
  aimable (os:=os_c) (as_remote server_host) al_s -> aimable (os:=os_s) (as_remote client_host) al_c ->
  (forall n, behind (Malloc:=mal_s) n = true) -> (forall n, behind (Malloc:=mal_c) n = true) ->
  getnameinfo_ok (OS:=os_s) (Network.source client_host) = true ->
  server_ready os_s (as_remote client_host) siz file al_s s ->
  client_ready os_c (as_remote server_host) siz al_c c ->
  exists s1 c1,
    net_steps server_host client_host 6
      (mkNet (server_loop (3 + fuel) TX (next_ptr (heap s)) (started s))
             (client_loop (3 + fuel) RX (next_ptr (heap c)) (started c)) [] [])
      (mkNet (server_loop fuel TX (next_ptr (heap s)) s1)
             (client_loop fuel RX (next_ptr (heap c)) c1) [] []) /\
    next (ses s1) = s_closed /\ next (ses c1) = s_closed /\
    winSize (ses s1) = WIN_SIZ /\ winSize (ses c1) = WIN_SIZ /\
    id (cur (ses s1)) = id (cur (ses c1)) /\
    source_at (txFactory s1) file 0 /\ sink_at (rxFactory c1) [].
Proof.
  intros Hls Hlc Hcs Hcc Has Hac Hbs Hbc Hname Hs Hc.
  destruct (handshake_exec mal_s mal_c os_s os_c (as_remote server_host) (as_remote client_host) siz file al_s al_c
    Hsiz Hls Hlc Hcs Hcc Hname Has Hac Hbs Hbc s c Hs Hc)
    as (D & s1 & c1 & HD & Hsat & _ & Hcat & Hid & Hx).
  exists s1, c1. split.
  - destruct (Hx fuel [] _ _ (plays_nil _ _) (plays_nil _ _)) as [Hps Hpc].
    rewrite app_nil_r in Hps, Hpc.
    pose proof (dialogue_net server_host client_host D _ _ _ _ Hps Hpc) as Hn. by rewrite HD in Hn.
  - destruct Hsat as (Hok & Hns & Hws & _), Hcat as (Hcok & _ & Hnc & Hwc).
    destruct (sv_src _ _ _ _ _ _ _ _ Hok eq_refl) as [Hsrc _].
    pose proof (cl_sink _ _ _ _ _ _ _ _ _ Hcok). by split_and!.
Qed.

(** the server sends its window and waits for the answer *)
Lemma server_waits cb off n s fuel :
  server_at (os:=os_s) (as_remote client_host) siz al_s file off n s -> 5 <= n -> capsuleId (ses s) + 5 <= 2 ^ 16 ->
  enough siz file 5 off ->
  exists ms k, msgs_ok siz (capsuleId (ses s)) ms (is_last_window siz file off) /\
    concat (ms.*2) = take (5 * payload siz) (drop off file) /\
    plays (as_remote client_host) (server_loop (S (S fuel)) TX cb s) (map (fun m => Mine (bytes_of m)) ms) (Recvfrom k).
Proof.
  intros (Hsv & Hnx & HW & Hc0) Hn Hc Hen.
  destruct (closedState_TX_exec (mal:=mal_s) (os:=os_s) (as_remote client_host) siz al_s file Hsiz cb off n s 5
    Hsv HW ltac:(lia) ltac:(lia) Hc0 ltac:(lia) Hen)
    as (ms & s1 & Hms & Hx & Hcat & _ & Hsv1 & Hnx1 & _).
  destruct (receiveState_waits (mal:=mal_s) (os:=os_s) s_done TX cb [] s1 ltac:(done) (sv_rx _ _ _ _ _ _ _ _ Hsv1))
    as (k & Hk).
  exists ms. eexists. split; [exact Hms|]. split; [exact Hcat|].
  rewrite <- (app_nil_r (map _ ms)).
  eapply (start_loop_step (mal:=mal_s) (os:=os_s)); [exact Hnx|done|exact Hx|].
  eapply eq_rect; [eapply (start_loop_cut (mal:=mal_s) (os:=os_s)); [exact Hnx1|done|]|].
  - cbn [states]. unfold doneState. m_unfold. rewrite Hk. cbn [pbind]. constructor.
  - done.
Qed.

Lemma msgs_good ms : forall cid fin, msgs_ok siz cid ms fin ->
  Forall (fun m => good_msg siz (capid m.1) m) ms.
Proof using.
  induction ms as [|m ms IH]; intros cid fin; [constructor|]. cbn. intros (Hm & _ & Hms).
  constructor; [|by eapply IH]. pose proof Hm as (_ & Hid & _). by rewrite Hid.
Qed.

(** the client waits as long as neither five capsules nor the flag have come *)
Lemma client_waits cb arrivals out n c fuel :
  client_at (os:=os_c) (as_remote server_host) siz al_c cb out n c -> Forall (plain siz) arrivals -> NoDup (ids arrivals) ->
  (length arrivals < 5)%nat ->
  exists k, plays (as_remote server_host) (client_loop (S fuel) RX cb c)
    (map (fun m => Theirs (bytes_of m)) arrivals) (Recvfrom k).
Proof.
  intros (Hcl & _ & Hnx & HW) Hp Hnd Hlen.
  destruct (closed_loop_RX_wait (mal:=mal_c) (os:=os_c) (as_remote server_host) siz al_c cb Hsiz arrivals
    (Z.to_nat (winSize (ses c))) [] out n c) as (k & Hk); try done.
  { apply plain_arrivals; [done|by rewrite app_nil_r]. }
  { rewrite HW. unfold WIN_SIZ. lia. }
  eexists. eapply eq_rect; [eapply (start_loop_cut (mal:=mal_c) (os:=os_c)); [exact Hnx|done|]|].
  - cbn [states]. unfold closedState. m_unfold. apply plays_bind. exact Hk.
  - done.
Qed.

(** C11: there is no retransmission: if the network loses some of a window's
    capsules, one at least, and the one with the flag [FIN] if the window has
    one, then whatever the order in which the others arrive, the server waits
    for an answer, the client for a capsule, and neither will ever move. *)
Theorem lost_capsule_stalls cb_s cb_c off n s out m c fuel :
  server_at (os:=os_s) (as_remote client_host) siz al_s file off n s -> client_at (os:=os_c) (as_remote server_host) siz al_c cb_c out m c ->
  5 <= n -> capsuleId (ses s) + 5 <= 2 ^ 16 -> enough siz file 5 off ->
  exists ms ks, concat (ms.*2) = take (5 * payload siz) (drop off file) /\
    plays (as_remote client_host) (server_loop (S (S fuel)) TX cb_s s) (map (fun m => Mine (bytes_of m)) ms) (Recvfrom ks) /\
    forall arrivals lost, ms ≡ₚ arrivals ++ lost -> (length arrivals < 5)%nat ->
      Forall (fun m => has_flag m.1 FIN = false) arrivals ->
      exists kc,
        plays (as_remote server_host) (client_loop (S fuel) RX cb_c c) (map (fun m => Theirs (bytes_of m)) arrivals) (Recvfrom kc) /\
        net_final server_host client_host (mkNet (Recvfrom ks) (Recvfrom kc) [] []).
Proof.
  intros Hs Hc Hn Hcap Hen.
  destruct (server_waits cb_s off n s fuel Hs Hn Hcap Hen) as (ms & ks & Hms & Hcat & Hp).
  exists ms, ks. split; [exact Hcat|]. split; [exact Hp|]. intros arrivals lost HP Hlen Hnf.
  pose proof (msgs_good ms _ _ Hms) as Hg. rewrite HP in Hg. apply Forall_app in Hg as [Hg _].
  destruct (msgs_sorted siz ms _ _ Hms) as [Hso _].
  assert (NoDup (ids ms)) as Hnd.
  { clear -Hso. induction Hso as [|k l _ IH Hall]; [constructor|]. constructor; [|done].
    intros Hin. rewrite Forall_forall in Hall. apply Hall in Hin. lia. }
  unfold ids in Hnd. rewrite HP, fmap_app in Hnd. apply NoDup_app in Hnd as [Hnd _].
  destruct (client_waits cb_c arrivals out m c fuel Hc) as (kc & Hkc); [|done|done|].
  { clear -Hg Hnf. induction Hg as [|m l Hm Hg IH]; [constructor|].
    apply Forall_cons in Hnf as [? ?]. constructor; [by split|by apply IH]. }
  exists kc. split; [exact Hkc|]. intros n' Hn'. by inversion Hn'.
Qed.

End Hosts.

(** ** What the states put into their capsules, and leave behind *)

Section Capsules.
Context {Q : Type} {fifo : Fifo Q ptr} {laws : FifoLaws Q ptr} {mal : Malloc} {os : OS}.
Variable peer : remote.
Variables (siz : Z) (al : list ipaddr_dummy) (cb : ptr).
Hypothesis Hsiz : HEADER_SPACE < siz < 2 ^ 16.
Implicit Types s : proc Q.

(** C12: the hello of a new session carries the source identifier 0, whatever
    [genSrcId] has returned: [connection_count] has moved on to an entry that is
    not there yet when the parameters are read, and the entry 0 with the
    identifier 1 is not looked at again. *)
Theorem hello_source_zero n s :
  ready peer siz al n s -> ses s = session_new -> 1 <= n ->
  addresses_ok al -> counts al -> Z.of_nat (14 + 15 * length al) <= siz ->
  exists H s', exec peer (openState s_open RX cb) s [Mine (encode_hdr H)] tt s' /\
    srcid H = 0 /\ connections (ses s') !! 0 = Some (mkConnection 0 1 0 0).
Proof.
  intros Hr Hs Hn Hal Hc Hl.
  destruct (client_open_exec peer siz al ltac:(lia) Hal Hc Hl cb n 0 s Hr Hs) as
    (H & s' & Hx & _ & _ & _ & _ & Hsrc & Hcon); [lia|done|]. by exists H, s'.
Qed.

(** The client's answer to the last window does not carry the flag [FIN]:
    [doneState] puts it into the parameters, and [setCapParams] does not copy
    the parameters' flags. *)
Theorem answer_without_fin ms out n s :
  client_ok peer siz al cb out ms n true s -> 1 <= n ->
  Z.of_nat (length (concat (ms.*2))) < 2 ^ 31 - 14 ->
  exists H s', fin (rxFactory s) = true /\
    exec peer (doneState s_done RX cb) s [Mine (encode_hdr H)] tt s' /\
    has_flag H FIN = false /\ next (ses s') = s_connected.
Proof.
  intros Hc Hn Hl. destruct (doneState_RX_exec peer siz al cb Hsiz ms true out n s Hc Hn Hl)
    as (H & s' & _ & Hx & _ & _ & Hnx & _ & _ & Hf & _).
  exists H, s'. split; [apply (cl_fin _ _ _ _ _ _ _ _ _ Hc)|]. split; [done|].
  split; [by apply has_flag_none|done].
Qed.

(** Every window leaves one more buffer behind: the client's answer is built
    in a buffer that stays in the queue of [txFactory], and on the heap. *)
Theorem client_leaks_buffer ms last out n s :
  client_ok peer siz al cb out ms n last s -> 1 <= n ->
  Z.of_nat (length (concat (ms.*2))) < 2 ^ 31 - 14 ->
  exists H s', exec peer (doneState s_done RX cb) s [Mine (encode_hdr H)] tt s' /\
    q_getCount (buffer (txFactory s')) = i32 (q_getCount (buffer (txFactory s)) + 1) /\
    exists l p, q_rep (buffer (txFactory s')) (l ++ [p]) /\ is_Some (bufs (heap s') !! p).
Proof.
  intros Hc Hn Hl. destruct (doneState_RX_exec peer siz al cb Hsiz ms last out n s Hc Hn Hl)
    as (H & s' & _ & Hx & _ & _ & _ & _ & _ & _ & (l & p & Hl1 & Hl2 & Hp)).
  exists H, s'. split; [done|]. split; [|by exists l, p].
  rewrite (q_getCount_rep _ _ Hl1), (q_getCount_rep _ _ Hl2), i32_add_l, length_app.
  f_equal. cbn. lia.
Qed.

End Capsules.

#[local] Existing Instances Linked.linked_fifo Linked.linked_laws.

(** ** Concrete hosts

    The two programs of UserApi.v on the demonstration hosts, with a file of 25
    bytes. *)

Definition demo_run (os : OS) (io : io_context buffer_queue) : proc buffer_queue :=
  match run (H0:=os) (H:=demo_malloc) 4 io with Done p => p | _ => demo_client end.
Definition demo_server : proc buffer_queue := demo_run demo_os (server_io demo_file client_addr 3).
Definition demo_receiver : proc buffer_queue := demo_run demo_os_c (client_io server_addr 3).

Lemma demo_server_ready : exists al,
  server_ready demo_os (as_remote client_host) ALLOC_SIZE demo_file al demo_server /\
  listed (os:=demo_os) al [1; 2].
Proof.
  destruct (server_io_ready (mal:=demo_malloc) (os:=demo_os) 4 demo_file client_addr 3 [1; 2]
    (as_remote client_host) demo_memory demo_host eq_refl) as (p & al & Hr & Hl & H).
  rewrite read_part_whole in H by by rewrite file_limit.
  exists al. unfold demo_server, demo_run. by rewrite Hr.
Qed.

Lemma demo_receiver_ready : exists al,
  client_ready demo_os_c (as_remote server_host) ALLOC_SIZE al demo_receiver /\
  listed (os:=demo_os_c) al [1; 3].
Proof.
  destruct (client_io_ready (mal:=demo_malloc) (os:=demo_os_c) 4 server_addr 3 [1; 3]
    (as_remote server_host) demo_memory demo_host_c eq_refl eq_refl) as (p & al & Hr & Hl & H).
  exists al. unfold demo_receiver, demo_run. by rewrite Hr.
Qed.

(** what the theorems want of both *)
Lemma demo_ready : exists als alc,
  list_fits ALLOC_SIZE als /\ list_fits ALLOC_SIZE alc /\
  counts (os:=demo_os) als /\ counts (os:=demo_os_c) alc /\
  aimable (os:=demo_os_c) (as_remote server_host) als /\
  aimable (os:=demo_os) (as_remote client_host) alc /\
  server_ready demo_os (as_remote client_host) ALLOC_SIZE demo_file als demo_server /\
  client_ready demo_os_c (as_remote server_host) ALLOC_SIZE alc demo_receiver.
Proof.
  destruct demo_server_ready as (als & Hs & Hls), demo_receiver_ready as (alc & Hc & Hlc).
  destruct (listed_ok (os:=demo_os) als _ Hls demo_host) as [Hfs Hcs].
  destruct (listed_ok (os:=demo_os_c) alc _ Hlc demo_host_c) as [Hfc Hcc].
  pose proof (reachable_aimable _ _ _ _ _ Hls demo_host demo_reach_s).
  pose proof (reachable_aimable _ _ _ _ _ Hlc demo_host_c demo_reach_c).
  by exists als, alc.
Qed.

Lemma handshake_agreement_witness :
  exists s1 c1,
    net_steps server_host client_host 6
      (mkNet (@start_loop _ _ demo_malloc demo_os (3 + 7) TX (next_ptr (heap demo_server)) (started demo_server))
             (@start_loop _ _ demo_malloc demo_os_c (3 + 7) RX (next_ptr (heap demo_receiver)) (started demo_receiver)) [] [])
      (mkNet (@start_loop _ _ demo_malloc demo_os 7 TX (next_ptr (heap demo_server)) s1)
             (@start_loop _ _ demo_malloc demo_os_c 7 RX (next_ptr (heap demo_receiver)) c1) [] []) /\
    next (ses s1) = s_closed /\ next (ses c1) = s_closed /\
    winSize (ses s1) = WIN_SIZ /\ winSize (ses c1) = WIN_SIZ /\
    id (cur (ses s1)) = id (cur (ses c1)) /\
    source_at (txFactory s1) demo_file 0 /\ sink_at (rxFactory c1) [].
Proof.
  destruct demo_ready as (als & alc & Hls & Hlc & Hcs & Hcc & Has & Hac & Hs & Hc).
  apply (handshake_agreement demo_malloc demo_malloc demo_os demo_os_c server_host client_host
    ALLOC_SIZE demo_file als alc alloc_size_ok demo_server demo_receiver 7); done.
Defined.

Lemma lost_capsule_stalls_witness :
  exists s c ms ks, concat (ms.*2) = take (5 * payload ALLOC_SIZE) (drop 0 demo_file) /\
    plays (as_remote client_host) (@start_loop buffer_queue _ demo_malloc demo_os 2 TX 0%nat s)
      (map (fun m => Mine (bytes_of m)) ms) (Recvfrom ks) /\
    forall arrivals lost, ms ≡ₚ arrivals ++ lost -> (length arrivals < 5)%nat ->
      Forall (fun m => has_flag m.1 FIN = false) arrivals ->
      exists kc,
        plays (as_remote server_host) (@start_loop buffer_queue _ demo_malloc demo_os_c 1 RX (next_ptr (heap demo_receiver)) c)
          (map (fun m => Theirs (bytes_of m)) arrivals) (Recvfrom kc) /\
        net_final server_host client_host (mkNet (Recvfrom ks) (Recvfrom kc) [] []).
Proof.
  destruct demo_ready as (als & alc & Hls & Hlc & Hcs & Hcc & Has & Hac & Hs & Hc).
  destruct (handshake_exec demo_malloc demo_malloc demo_os demo_os_c (as_remote server_host) (as_remote client_host)
    ALLOC_SIZE demo_file als alc alloc_size_ok Hls Hlc Hcs Hcc eq_refl Has Hac
    (proj2 demo_memory) (proj2 demo_memory) demo_server demo_receiver Hs Hc)
    as (_ & s & c & _ & Hsat & Hcap & Hcat & _).
  exists s, c.
  apply (lost_capsule_stalls demo_malloc demo_malloc demo_os demo_os_c server_host client_host
    ALLOC_SIZE demo_file als alc alloc_size_ok 0%nat (next_ptr (heap demo_receiver)) 0
    (2 ^ 17 - 1) s [] (2 ^ 17 - 2) c 0).
  - exact Hsat.
  - exact Hcat.
  - lia.
  - lia.
  - right. vm_compute. done.
Defined.

Lemma hello_source_zero_witness :
  exists H s', exec (as_remote server_host) (@openState buffer_queue _ demo_malloc demo_os_c s_open RX 0%nat) demo_receiver
      [Mine (encode_hdr H)] tt s' /\
    srcid H = 0 /\ connections (ses s') !! 0 = Some (mkConnection 0 1 0 0).
Proof.
  destruct demo_ready as (_ & alc & _ & [Hok Hl] & _ & Hcc & _ & _ & _ & Hr & Hss & _).
  apply (hello_source_zero (mal:=demo_malloc) (os:=demo_os_c) (as_remote server_host) ALLOC_SIZE alc 0%nat
    alloc_size_ok (2 ^ 17) demo_receiver); try done; lia.
Defined.

(** the client of WindowProps.v when the end of the file has come *)
Definition demo_end : proc buffer_queue := demo_client <| rxFactory ::= upd fin (fun _ => true) |>.

Lemma demo_end_ok : client_ok (os:=demo_os_c) server_remote 64 [] 0 [] [] 100 true demo_end.
Proof. destruct demo_client_at as [[] _]. by split. Qed.

Lemma small_ok : HEADER_SPACE < 64 < 2 ^ 16.
Proof. unfold HEADER_SPACE. lia. Qed.

Lemma answer_without_fin_witness :
  exists H s', fin (rxFactory demo_end) = true /\
    exec server_remote (@doneState buffer_queue _ demo_malloc demo_os_c s_done RX 0%nat) demo_end
      [Mine (encode_hdr H)] tt s' /\
    has_flag H FIN = false /\ next (ses s') = s_connected.
Proof.
  apply (answer_without_fin (mal:=demo_malloc) (os:=demo_os_c) server_remote 64 [] 0%nat small_ok
    [] [] 100 demo_end demo_end_ok); [lia|cbn; lia].
Defined.

Lemma client_leaks_buffer_witness :
  exists H s', exec server_remote (@doneState buffer_queue _ demo_malloc demo_os_c s_done RX 0%nat) demo_end
      [Mine (encode_hdr H)] tt s' /\
    q_getCount (buffer (txFactory s')) = i32 (0 + 1) /\
    exists l p, q_rep (buffer (txFactory s')) (l ++ [p]) /\ is_Some (bufs (heap s') !! p).
Proof.
  apply (client_leaks_buffer (mal:=demo_malloc) (os:=demo_os_c) server_remote 64 [] 0%nat small_ok
    [] true [] 100 demo_end demo_end_ok); [lia|cbn; lia].
Defined.
