(* ===== verification/Addresses.v ===== *)
(** * What the two hosts tell each other about their addresses

    The list of interfaces on its way from the kernel of one host to
    [selectAddrFromList] of the other: which addresses arrive, in which order
    they are used, and the inputs for which the code has no defined behaviour. *)

From S2P Require Import Prelude Wire Queue Program Factory Interfaces Session.
From S2P Require Import Handshake Concrete.

(** ** The number of interfaces *)

Section Count.
Context {os : OS}.

(** C31: the loop of [_noOfInterfaces] makes at most one call of [ioctl] more than
    the number of interfaces has binary digits.  Below [2 ^ 25] interfaces it
    reports the complete list; from there on the buffer that is large enough has
    [2 ^ 26] entries, and the [int] product of their size and number is out of
    range. *)
Theorem noOfInterfaces_complete l fuel :
  ifconf = Some l -> (Nat.log2 (length l) + 2 <= fuel)%nat ->
  _noOfInterfaces_loop fuel 1 =
    if decide (Z.of_nat (length l) < 2 ^ 25) then Done (Z.of_nat (length l), Some l)
    else Undef Overflow.
Proof.
  intros Hif Hf. destruct fuel as [|fuel]; [lia|]. apply noOfInterfaces_from_one; [done|].
  destruct (decide (length l = 0)%nat) as [->|Hne]; [apply Z.pow_pos_nonneg; lia|].
  pose proof (Nat.log2_spec (length l) ltac:(lia)) as [_ Hlt].
  apply Nat2Z.inj_lt in Hlt. rewrite Nat2Z.inj_pow in Hlt.
  eapply Z.lt_le_trans; [exact Hlt|]. apply Z.pow_le_mono_r; lia.
Qed.

End Count.

(** ** The strings of a list *)

Section Strings.
Context {mal : Malloc} {os : OS}.

(** a string that fits in [data] with its null byte *)
Definition fits (s : list byte) : Prop := no_nul s /\ (length s < 15)%nat.

Definition count_loopbacks (strs : list (list byte)) : nat :=
  length (filter (fun s => s = loopback) strs).

(** what the second loop of [process] leaves of a list of addresses: up to the
    first loopback address all of them; then as many as the others are, from
    those behind it *)
Fixpoint kept (strs : list (list byte)) : list (list byte) :=
  match strs with
  | [] => []
  | s :: strs =>
      if decide (s = loopback) then take (length strs - count_loopbacks strs) strs
      else s :: kept strs
  end.

Lemma count_cons s strs :
  count_loopbacks (s :: strs) = ((if decide (s = loopback) then 1 else 0) + count_loopbacks strs)%nat.
Proof. unfold count_loopbacks. rewrite filter_cons. by case_decide. Qed.

Lemma count_le strs : (count_loopbacks strs <= length strs)%nat.
Proof. apply length_filter. Qed.

Lemma loopbacks_strings l strs : Forall2 holds_string l strs -> Forall fits strs ->
  loopbacks l = count_loopbacks strs.
Proof.
  induction 1 as [|a s l strs Ha Hl IH]; intros Hf; [done|].
  apply Forall_cons in Hf as [[Hs _] Hf]. rewrite loopbacks_cons, count_cons, IH by done.
  rewrite (is_loopback_holds a s Ha Hs). by case_bool_decide; case_decide.
Qed.

(** the loop on the elements is [kept] on the strings *)
Lemma drop_loopback_kept past l strs : Forall2 holds_string l strs -> Forall fits strs ->
  Z.of_nat (length l) < 2 ^ 31 -> forall c0, Z.of_nat (length l) <= c0 < 2 ^ 31 ->
  let '(l', c) := shift_loopback past false c0 l in
  c = c0 - Z.of_nat (count_loopbacks strs) /\
  Forall2 holds_string (take (length l - count_loopbacks strs) l') (kept strs).
Proof.
  intros Hl Hf. induction Hl as [|a s l strs Ha Hl IH]; intros Hlen c0 Hc0; [by split; [cbn; lia|]|].
  apply Forall_cons in Hf as [[Hs Hs'] Hf]. cbn [length] in *. specialize (IH Hf ltac:(lia)).
  pose proof (Forall2_length _ _ _ Hl) as Hll. pose proof (count_le strs) as Hcl.
  rewrite count_cons. cbn [shift_loopback kept]. rewrite (is_loopback_holds a s Ha Hs).
  destruct (decide (s = loopback)) as [E|E].
  - rewrite bool_decide_true by done. cbn [orb]. rewrite i32_small by lia.
    destruct l as [|b l].
    + destruct strs; [|done]. cbn. split; [lia|constructor].
    + rewrite shift_loopback_found; [|rewrite (loopbacks_strings _ strs) by done; lia|done].
      rewrite (loopbacks_strings _ strs) by done. cbn [hd tail app]. split; [lia|].
      assert (S (length (b :: l)) - (1 + count_loopbacks strs) = length strs - count_loopbacks strs)%nat
        as -> by lia.
      change (b :: l ++ [past]) with ((b :: l) ++ [past]).
      rewrite take_app_le by lia. by apply Forall2_take.
  - rewrite bool_decide_false by done. cbn [orb].
    specialize (IH c0 ltac:(lia)). destruct (shift_loopback past false c0 l) as [l' c].
    destruct IH as [-> IH]. split; [lia|].
    rewrite Nat.add_0_l, Nat.sub_succ_l by lia. cbn [take]. by constructor.
Qed.

Lemma unpack_strings al strs n r : Forall2 holds_string al strs -> Forall fits strs ->
  exists l, unpack_addresses n 0 (wire_list al ++ r) (length al) = Done l /\
    Forall2 holds_string l strs.
Proof.
  intros Hal Hf.
  assert (Forall (fun w => length w = 15%nat) (wire_addr <$> al)) as Hws.
  { apply Forall_fmap. clear Hf. induction Hal; constructor; [by eapply length_wire_addr|done]. }
  destruct (unpack_addresses_spec (wire_addr <$> al) n 0 r Hws) as (l & Hu & Hl).
  rewrite length_fmap in Hu. exists l. split; [exact Hu|]. clear Hu Hws. revert l Hl.
  induction Hal as [|a s al strs Ha Hal IH]; intros l Hl; inversion Hl as [|a' ? l' ? (pad & Ea & Hla) Hl']; subst;
    [constructor|].
  apply Forall_cons in Hf as [[Hs Hs'] Hf]. constructor; [by eapply unpack_holds|]. by apply IH.
Qed.

(** a list of strings on the wire, and what the peer keeps of it *)
Lemma peer_list_kept al strs n r : Forall2 holds_string al strs -> Forall fits strs ->
  Z.of_nat (length al) < 2 ^ 27 -> behind n = true \/ count_loopbacks strs = 0%nat ->
  exists l, peer_list n (ADDR_LEN * Z.of_nat (length al)) (wire_list al ++ r) =
      Done (l, Z.of_nat (length al - count_loopbacks strs)) /\
    Forall2 holds_string (take (length al - count_loopbacks strs) l) (kept strs).
Proof.
  intros Hal Hf Hlen Hb. unfold peer_list. rewrite Z.mul_comm, Z.div_mul, Nat2Z.id by done.
  destruct (unpack_strings al strs n r Hal Hf) as (l & Hu & Hl). rewrite Hu. cbn [mbind res_bind].
  pose proof (Forall2_length _ _ _ Hal) as Hn. pose proof (Forall2_length _ _ _ Hl) as Hn'.
  pose proof (count_le strs) as Hcl. assert (length al = length l) as -> by congruence.
  pose proof (drop_loopback_kept (ipaddr_junk n (length l)) l strs Hl Hf ltac:(lia)
    (Z.of_nat (length l)) ltac:(lia)) as Hd.
  assert (drop_loopback (read_past n (length l)) false (Z.of_nat (length l)) l =
    Done (shift_loopback (ipaddr_junk n (length l)) false (Z.of_nat (length l)) l)) as ->.
  { unfold read_past. destruct (behind n) eqn:Eb; [apply drop_loopback_shift|].
    assert (loopbacks l = 0%nat) as E0
      by (rewrite (loopbacks_strings l strs) by done; destruct Hb; [congruence|done]).
    rewrite drop_loopback_fault, shift_loopback_none by done. by rewrite decide_True by auto. }
  destruct (shift_loopback _ _ _ _) as [l' c]. destruct Hd as [-> Hd]. exists l'.
  split; [|done]. do 2 f_equal. lia.
Qed.



End Strings.

(** ** From the kernel of one host to the list of the other *)

Section Delivery.
Context (mal_s mal_r : Malloc) {os : OS}.

(** the addresses of the first [c] elements, as [selectAddrFromList] reads them *)
Definition usable (l : list ipaddr_dummy) (c : Z) : list (option (list byte)) :=
  (fun a => cstring (area a)) <$> take (Z.to_nat c) l.

Lemma usable_strings l strs c : Forall fits strs ->
  Forall2 holds_string (take (Z.to_nat c) l) strs -> usable l c = Some <$> strs.
Proof.
  unfold usable. intros Hf Hl. induction Hl as [|a s l' strs Ha Hl IH]; [done|].
  apply Forall_cons in Hf as [[Hs _] Hf]. cbn. rewrite (holds_cstring a s) by done.
  f_equal. by apply IH.
Qed.

(** the list [al] of the gateway that runs on this host *)
Definition sends (addrs : list Z) (n : nat) (cap : capsule) (al : list ipaddr_dummy) (cap' : capsule)
    : Prop :=
  interfacesToIpV4addr (H:=mal_s) n = Done (Z.of_nat (length addrs), al) /\
  write_interfaces al cap = Done cap'.

Lemma write_interfaces_any addrs al cap :
  ifconf = Some addrs -> length addrs = length al -> Z.of_nat (length addrs) < 2 ^ 12 ->
  Forall (fun a => length (area a) = AREA_LEN) al -> boff (body cap) = 0%nat ->
  (14 + 15 * length al <= length (blk (body cap)))%nat ->
  write_interfaces al cap = Done (with_interfaces al cap).
Proof.
  intros Hif Hn Hlt Ha Hb Hl. unfold write_interfaces.
  rewrite (getInfCount_spec addrs) by (done || lia). cbn [mbind res_bind]. rewrite Hn, Nat2Z.id.
  pose proof (pack_addresses_spec al [] (body cap) Ha Hb Hl) as Hp.
  cbn [length app] in Hp. by rewrite Hp.
Qed.

Lemma short_fits addrs : Forall short_addr addrs -> Forall fits (inet_ntop <$> addrs).
Proof. intros Hs. apply Forall_fmap. eapply Forall_impl; [exact Hs|]. by intros a [? ?]. Qed.

Lemma list_delivered addrs n m cap :
  ifconf = Some addrs -> Z.of_nat (length addrs) < 2 ^ 12 -> Forall short_addr addrs ->
  boff (body cap) = 0%nat -> (14 + 15 * length addrs <= length (blk (body cap)))%nat ->
  behind (Malloc:=mal_r) m = true \/ count_loopbacks (inet_ntop <$> addrs) = 0%nat ->
  exists al cap' l c, sends addrs n cap al cap' /\
    peer_list (H:=mal_r) m (capSize (header cap')) (drop 14 (blk (body cap'))) = Done (l, c) /\
    c = Z.of_nat (length addrs - count_loopbacks (inet_ntop <$> addrs)) /\
    usable l c = Some <$> kept (inet_ntop <$> addrs).
Proof.
  intros Hif Hlen Hs Hb Hl Hbh.
  destruct (interfacesToIpV4addr_spec (mal:=mal_s) n addrs Hif ltac:(lia) Hs) as (al & Hi & Hal).
  pose proof (Forall2_length _ _ _ Hal) as Hn.
  assert (Forall2 holds_string al (inet_ntop <$> addrs)) as Hal'.
  { apply Forall2_fmap_r. exact Hal. }
  assert (Forall (fun a => length (area a) = AREA_LEN) al) as Ha.
  { clear -Hal'. induction Hal' as [|a s al strs (? & _ & ?) Hal IH]; by constructor. }
  pose proof (short_fits addrs Hs) as Hf.
  destruct (peer_list_kept (mal:=mal_r) al _ m (drop (14 + 15 * length al) (blk (body cap))) Hal' Hf)
    as (l & Hpl & Hk); [lia|done|].
  exists al, (with_interfaces al cap), l. eexists. split; [split; [exact Hi|]|].
  { apply write_interfaces_any with (addrs := addrs); (done || lia). }
  rewrite with_interfaces_size by lia. cbn [with_interfaces body blk].
  rewrite drop_app_exact by (rewrite length_take; lia). unfold ADDR_LEN in Hpl. rewrite Hpl.
  split; [done|]. rewrite Hn. split; [done|].
  apply usable_strings; [|by rewrite Nat2Z.id, <- Hn].
  clear -Hf. induction Hf as [|s strs Hs Hf IH]; [constructor|]. cbn [kept].
  case_decide; [by apply Forall_take|by constructor].
Qed.



(** C33: a host that only has the loopback address leaves its peer with an empty
    list and the count 0: the next address the peer selects is the remainder of
    a division by zero. *)
Theorem only_loopback_divides addrs n m cap i :
  ifconf = Some addrs -> Z.of_nat (length addrs) < 2 ^ 12 -> Forall short_addr addrs ->
  Forall (fun a => inet_ntop a = loopback) addrs ->
  boff (body cap) = 0%nat -> (14 + 15 * length addrs <= length (blk (body cap)))%nat ->
  behind (Malloc:=mal_r) m = true ->
  exists al cap' l c, sends addrs n cap al cap' /\
    peer_list (H:=mal_r) m (capSize (header cap')) (drop 14 (blk (body cap'))) = Done (l, c) /\
    select_addr l c i = Undef DivByZero.
Proof.
  intros Hif Hlen Hs Hlo Hb Hl Hbh.
  destruct (list_delivered addrs n m cap Hif Hlen Hs Hb Hl (or_introl Hbh)) as (al & cap' & l & c & H1 & H2 & Hc & _).
  exists al, cap', l, c. split; [done|]. split; [done|]. subst c.
  assert (count_loopbacks (inet_ntop <$> addrs) = length addrs) as ->.
  { clear -Hlo. induction Hlo as [|a addrs Ha Hlo IH]; [done|]. rewrite fmap_cons, count_cons, IH.
    by rewrite decide_True. }
  unfold select_addr. by rewrite Nat.sub_diag.
Qed.

End Delivery.

(** ** The choice of an address *)

Section Choice.
Context {mal : Malloc} {os : OS}.

(** [k] datagrams: the addresses they go to, and the static counter after them *)
Fixpoint select_many (k : nat) (l : list ipaddr_dummy) (count i : Z) : res (list Z * Z) :=
  match k with
  | O => Done ([], i)
  | S k =>
      '(a, i) ← select_addr l count i;
      '(r, i) ← select_many k l count i;
      Done (a :: r, i)
  end.

Lemma select_usable l count i strs : usable l count = Some <$> strs ->
  0 < count <= Z.of_nat (length l) -> 0 <= i < 2 ^ 31 - 1 ->
  exists s, strs !! Z.to_nat ((i + 1) mod count) = Some s /\
    select_addr l count i = Done (inet_addr s, i + 1).
Proof.
  intros Hu Hc Hi. unfold usable in Hu.
  destruct (select_addr_ok l count i Hc Hi) as (a & s & Ha & Hs & Hsel).
  { apply Forall_lookup. intros j a Ha.
    pose proof (f_equal (lookup j) Hu) as E. rewrite !list_lookup_fmap, Ha in E. cbn in E.
    destruct (strs !! j) as [s|]; [|done]. injection E as ->. by eexists. }
  exists s. split; [|done]. pose proof (Z.mod_pos_bound (i + 1) count).
  pose proof (f_equal (lookup (Z.to_nat ((i + 1) mod count))) Hu) as E.
  rewrite !list_lookup_fmap, lookup_take_lt, Ha in E by lia. cbn in E. rewrite Hs in E.
  destruct (strs !! _) as [s'|]; [|done]. by injection E as ->.
Qed.

Lemma select_many_spec k l count strs : usable l count = Some <$> strs ->
  0 < count <= Z.of_nat (length l) -> forall i, 0 <= i -> i + Z.of_nat k < 2 ^ 31 ->
  exists r, select_many k l count i = Done (r, i + Z.of_nat k) /\ length r = k /\
    forall j, (j < k)%nat ->
      r !! j = inet_addr <$> strs !! Z.to_nat ((i + 1 + Z.of_nat j) mod count).
Proof.
  intros Hu Hc. induction k as [|k IH]; intros i Hi Hk.
  - exists []. split; [cbn; do 2 f_equal; lia|]. split; [done|lia].
  - destruct (select_usable l count i strs Hu Hc) as (s & Hs & Hsel); [lia|].
    destruct (IH (i + 1)) as (r & Hr & Hlen & Hj); [lia|lia|].
    exists (inet_addr s :: r). cbn [select_many]. rewrite Hsel. cbn [mbind res_bind]. rewrite Hr.
    split; [cbn [mbind res_bind]; do 2 f_equal; lia|]. split; [cbn; lia|]. intros [|j] Hlt; cbn [lookup list_lookup].
    + rewrite Z.add_0_r, Hs. done.
    + rewrite Hj by lia. by replace (i + 1 + Z.of_nat (S j)) with (i + 1 + 1 + Z.of_nat j) by lia.
Qed.

(** C29: as many datagrams as the peer has addresses go to each of them once: in
    the order of the list, from the element after the one used last. *)
Theorem round_robin l count strs i :
  usable l count = Some <$> strs -> 0 < count <= Z.of_nat (length l) ->
  0 <= i -> i + count < 2 ^ 31 ->
  exists r, select_many (Z.to_nat count) l count i = Done (r, i + count) /\
    r = rotate (Z.to_nat (i + 1)) (inet_addr <$> strs) /\ r ≡ₚ inet_addr <$> strs.
Proof.
  intros Hu Hc Hi Hlt.
  assert (length strs = Z.to_nat count) as Hlen.
  { pose proof (f_equal length Hu) as E. unfold usable in E. rewrite !length_fmap, length_take in E. lia. }
  destruct (select_many_spec (Z.to_nat count) l count strs Hu Hc i) as (r & Hr & Hrl & Hj); [lia|lia|].
  exists r. split; [rewrite Hr; do 2 f_equal; lia|].
  assert (r = rotate (Z.to_nat (i + 1)) (inet_addr <$> strs)) as E.
  { apply list_eq. intros j. destruct (decide (j < Z.to_nat count)%nat) as [Hjl|Hjl].
    - rewrite Hj by lia. rewrite lookup_rotate_r by (rewrite length_fmap; lia).
      rewrite list_lookup_fmap. unfold rotate_nat_add. rewrite length_fmap, Hlen, !Z2Nat.id by lia. done.
    - rewrite !lookup_ge_None_2; [done|rewrite length_rotate, length_fmap; lia|lia]. }
  split; [done|]. rewrite E. unfold rotate. rewrite Permutation_app_comm. by rewrite take_drop.
Qed.

(** ** Capsules the peer may send *)

Lemma unpack_total n k : forall i bs,
  if decide (15 * k <= length bs)%nat
  then exists l, unpack_addresses n i bs k = Done l /\ length l = k
  else unpack_addresses n i bs k = Undef OutOfBounds.
Proof.
  induction k as [|k IH]; intros i bs.
  - rewrite decide_True by lia. by exists [].
  - cbn [unpack_addresses]. change (Z.to_nat ADDR_LEN) with 15%nat.
    destruct (decide (15 <= length bs)%nat) as [Hl|Hl].
    + rewrite slice_Some by lia. cbn [orelse mbind res_bind]. unfold memcpy_data.
      rewrite splice_Some by (rewrite length_ipaddr_junk, length_take, length_drop; unfold AREA_LEN; lia).
      cbn [orelse mbind res_bind]. specialize (IH (S i) (drop 15 bs)). rewrite length_drop in IH.
      case_decide; case_decide; try lia; [|by rewrite IH].
      destruct IH as (l & -> & <-). eexists. done.
    + rewrite decide_False by lia. unfold slice. by rewrite decide_False by lia.
Qed.

(** the loopback address is one of the whole addresses that [size] announces *)
Definition announces_loopback (size : Z) (bs : list byte) : Prop :=
  exists i, (i < Z.to_nat (size / ADDR_LEN))%nat /\ take 10 (drop (15 * i) bs) = loopback ++ [NUL].

Lemma unpack_announced n k : forall j bs l, unpack_addresses n j bs k = Done l ->
  loopbacks l <> 0%nat <-> exists i, (i < k)%nat /\ take 10 (drop (15 * i) bs) = loopback ++ [NUL].
Proof.
  induction k as [|k IH]; intros j bs l; cbn [unpack_addresses].
  - intros [= <-]. split; [done|]. by intros (i & ? & _); lia.
  - change (Z.to_nat ADDR_LEN) with 15%nat. unfold slice. case_decide as Hl; [|done].
    rewrite drop_0. cbn [orelse mbind res_bind]. unfold memcpy_data.
    rewrite splice_Some by (rewrite length_ipaddr_junk, length_take; unfold AREA_LEN; lia).
    cbn [orelse mbind res_bind]. destruct (unpack_addresses n (S j) (drop 15 bs) k) as [l'| |] eqn:Hu; [|done..].
    intros [= <-]. rewrite loopbacks_cons. specialize (IH _ _ _ Hu).
    match goal with |- context [is_loopback ?a] =>
      assert (is_loopback a = bool_decide (take 10 bs = loopback ++ [NUL])) as -> end.
    { unfold is_loopback. cbn [area upd upd_area take app]. apply bool_decide_ext.
      by rewrite take_app_le, take_take by (rewrite length_take; lia). }
    split.
    + intros H0. case_bool_decide as Hb; [exists 0%nat; split; [lia|by rewrite drop_0]|].
      destruct (proj1 IH) as (i & Hi & E); [lia|]. exists (S i). split; [lia|].
      rewrite drop_drop in E. by replace (15 * S i)%nat with (15 + 15 * i)%nat by lia.
    + intros ([|i] & Hi & E).
      * rewrite bool_decide_true by (by rewrite drop_0 in E). lia.
      * assert (loopbacks l' <> 0%nat); [|lia]. apply IH. exists i. split; [lia|].
        rewrite drop_drop. by replace (15 + 15 * i)%nat with (15 * S i)%nat by lia.
Qed.

(** C30: what [process] makes of the size field of a capsule in the handshake: it
    trusts it.  The list is read if the whole addresses that [capSize] announces
    are in the buffer, whatever the datagram's length was, and beyond the end of
    the buffer if they are not.  If the loopback address is one of them, the
    element behind the array is read too, where the platform lets it be. *)
Theorem peer_list_bounds n size bs : 0 <= size < 2 ^ 16 ->
  if decide (15 * (size / 15) <= Z.of_nat (length bs))
  then (behind n = true \/ ~ announces_loopback size bs ->
          exists l c, peer_list n size bs = Done (l, c) /\ 0 <= c <= Z.of_nat (length l)) /\
       (behind n = false -> announces_loopback size bs -> peer_list n size bs = Undef OutOfBounds)
  else peer_list n size bs = Undef OutOfBounds.
Proof.
  intros Hs. unfold peer_list, announces_loopback, ADDR_LEN.
  pose proof (unpack_total n (Z.to_nat (size / 15)) 0 bs) as Hu.
  assert (0 <= size / 15 < 2 ^ 16) as Hd by (split; [apply Z.div_pos; lia|apply Z.div_lt_upper_bound; lia]).
  case_decide; case_decide; try lia; [|by rewrite Hu].
  destruct Hu as (l & Hu & Hl). pose proof (unpack_announced n _ 0 bs l Hu) as Hann.
  rewrite Hu. cbn [mbind res_bind]. unfold read_past.
  assert (Z.of_nat (length l) < 2 ^ 31) as Hlt by lia. split.
  - intros Hb. pose proof (shift_loopback_prefix (ipaddr_junk n (Z.to_nat (size / 15))) l Hlt) as Hp.
    rewrite Hl, Z2Nat.id in Hp by lia. destruct (shift_loopback _ _ _ _) as [l' c] eqn:Hsh.
    exists l', c. split; [|tauto]. destruct (behind n); [by rewrite drop_loopback_shift, Hsh|].
    assert (loopbacks l = 0%nat) as E0 by (destruct Hb as [|Hb]; [done|]; destruct (decide (loopbacks l = 0%nat)); tauto).
    rewrite drop_loopback_fault, decide_True by auto. rewrite shift_loopback_none in Hsh by done. by rewrite <- Hsh.
  - intros Hb Ha. apply Hann in Ha. rewrite Hb, drop_loopback_fault. by rewrite decide_False by tauto.
Qed.

(** C16: an address of 15 characters leaves no room for the null byte in
    [data]: it is sent without one, and the peer parses the address together
    with whatever the padding behind [data] holds, or runs out of the structure. *)
Theorem long_address_unterminated a s n r i :
  holds_string a s -> no_nul s -> length s = 15%nat -> 0 <= i < 2 ^ 31 - 1 ->
  exists l, peer_list n ADDR_LEN (wire_list [a] ++ r) = Done (l, 1) /\
    select_addr l 1 i =
      match cstring (drop 15 (area (ipaddr_junk n 0))) with
      | Some t => Done (inet_addr (s ++ t), i + 1)
      | None => Undef OutOfBounds
      end.
Proof.
  intros (r0 & Ha & Hla) Hs Hl Hi.
  assert (wire_addr a = s) as Hw by (unfold wire_addr; rewrite Ha; by apply take_app_exact).
  exists [mkIpaddr (family (ipaddr_junk n 0)) (s ++ drop 15 (area (ipaddr_junk n 0)))].
  unfold wire_list, peer_list. cbn [fmap list_fmap concat]. rewrite Hw, app_nil_r.
  change (Z.to_nat (ADDR_LEN / ADDR_LEN)) with 1%nat. cbn [unpack_addresses].
  change (Z.to_nat ADDR_LEN) with 15%nat.
  rewrite slice_Some by (rewrite length_app; lia). rewrite drop_0, take_app_exact by done.
  cbn [orelse mbind res_bind]. unfold memcpy_data.
  rewrite splice_Some by (rewrite length_ipaddr_junk, Hl; unfold AREA_LEN; lia).
  rewrite Hl, firstn_O, app_nil_l. cbn [orelse mbind res_bind app area upd upd_area Nat.add].
  set (b := mkIpaddr _ _). assert (is_loopback b = false) as Hlo.
  { unfold is_loopback. apply bool_decide_false. unfold b. cbn [area].
    rewrite take_app_le by lia. intros E. assert (NUL ∈ take 10 s) as Hin.
    { rewrite E. apply (bool_decide_unpack _). done. }
    apply Hs. rewrite <- (take_drop 10 s). apply elem_of_app. by left. }
  split.
  - cbn [drop_loopback]. rewrite Hlo. done.
  - unfold select_addr. rewrite i32_small by lia. cbn [Z.eqb].
    rewrite Z.rem_1_r. unfold b.
    change (Z.to_nat 0) with 0%nat. cbn [Z.ltb Z.compare lookup list_lookup orelse mbind res_bind area].
    rewrite cstring_app_tail by done. by destruct (cstring _).
Qed.

End Choice.

(** ** Concrete hosts *)

Definition demo_capsule : capsule := mkCapsule hdr_zero (mkBuf (replicate 256 NUL) 0).

Lemma noOfInterfaces_complete_witness :
  _noOfInterfaces_loop (H0:=host_with [1; 2; 3; 4; 5]) 4 1 = Done (5, Some [1; 2; 3; 4; 5]).
Proof. apply (noOfInterfaces_complete (os:=host_with [1; 2; 3; 4; 5]) [1; 2; 3; 4; 5] 4); [done|vm_compute; lia]. Defined.



Lemma only_loopback_divides_witness :
  exists al cap' l c, sends (os:=host_with [1]) demo_malloc [1] 0 demo_capsule al cap' /\
    peer_list (H:=demo_malloc) 7 (capSize (header cap')) (drop 14 (blk (body cap'))) = Done (l, c) /\
    select_addr (H0:=host_with [1]) l c 0 = Undef DivByZero.
Proof.
  apply (only_loopback_divides (os:=host_with [1]) demo_malloc demo_malloc [1] 0 7 demo_capsule 0);
    try done; try apply host_with_short; [by constructor|vm_compute; lia].
Defined.

(** three addresses, the second one used last *)
Definition demo_list : list ipaddr_dummy :=
  (fun s => mkIpaddr 0 (s ++ replicate (AREA_LEN - length s) NUL)) <$> [lan_addr; loopback; lan_addr2].

Lemma round_robin_witness :
  exists r, select_many (os:=demo_os) (Z.to_nat 3) demo_list 3 1 = Done (r, 1 + 3) /\
    r = rotate (Z.to_nat (1 + 1)) (inet_addr (OS:=demo_os) <$> [lan_addr; loopback; lan_addr2]) /\
    r ≡ₚ inet_addr (OS:=demo_os) <$> [lan_addr; loopback; lan_addr2].
Proof.
  apply (round_robin (os:=demo_os) demo_list 3 [lan_addr; loopback; lan_addr2] 1);
    [reflexivity|cbn; lia|lia|lia].
Defined.

(** a capsule that announces ten addresses and carries 20 bytes *)
Lemma peer_list_bounds_witness :
  peer_list (H:=demo_malloc) 0 150 (replicate 20 NUL) = Undef OutOfBounds.
Proof. exact (peer_list_bounds (mal:=demo_malloc) 0 150 (replicate 20 NUL) ltac:(lia)). Defined.

(** "192.168.100.100" *)
Definition long_addr : list byte :=
  [Byte.x31; Byte.x39; Byte.x32; Byte.x2e; Byte.x31; Byte.x36; Byte.x38; Byte.x2e;
   Byte.x31; Byte.x30; Byte.x30; Byte.x2e; Byte.x31; Byte.x30; Byte.x30].
Definition demo_long : ipaddr_dummy := mkIpaddr 2 (long_addr ++ replicate 7 NUL).

Lemma long_address_unterminated_witness :
  exists l, peer_list (H:=demo_malloc) 1 ADDR_LEN (wire_list [demo_long] ++ []) = Done (l, 1) /\
    select_addr (H0:=demo_os) l 1 0 = Undef OutOfBounds.
Proof.
  apply (long_address_unterminated (mal:=demo_malloc) (os:=demo_os) demo_long long_addr 1 [] 0).
  - exists (replicate 6 NUL). done.
  - unfold no_nul. apply (bool_decide_unpack _). done.
  - done.
  - lia.
Defined.
