(* ===== verification/Safety.v ===== *)
(** * A process is well formed, whatever the network does

    [proc_ok] says what the types of the program and the ownership of the
    buffers promise: every field of every header, connection and counter is
    within its width, the receive window is sorted, and the two queues share no
    buffer, hold none twice, and hold none that has been freed or has no data.
    The window holds pointers only, which may dangle.  Every state keeps all
    this, whatever the two system calls return, and the only undefined behaviour
    that a hostile network can lead to is listed in [reachable_fault].

    [wp m s R]: however its system calls end, [m] started in [s] ends in a state
    that [R] admits, exits with status 1, runs out of fuel, or faults in a listed
    way. *)

From S2P Require Import Prelude Wire OrdMap Queue Stream Program Platform Factory Interfaces.
From S2P Require Import Pool State Gateway Presentation Session SessionFacts StateMachine.
From S2P Require Import ClientRun ServerRun Handshake Network Transfer UserApi Addresses Concrete.

(** ** Weakest preconditions *)

(** a freed buffer in the window, an access behind a block, a remainder by
    [peer_addressCount], and a negative count handed to [ostream::write] *)
Definition reachable_fault (e : fault) : bool :=
  match e with
  | UseAfterFree | OutOfBounds | DivByZero | NegativeCount => true
  | _ => false
  end.

Section Wp.
Context {S : Type}.

Definition admits {A} (R : A -> S -> Prop) (p : prog S A) : Prop :=
  match p with Ret a s => R a s
  | Fault e => reachable_fault e = true
  | Exit c _ => c = 1
  | _ => True
  end.

Definition wp {A} (m : M S A) (s : S) (R : A -> S -> Prop) : Prop := ends (admits R) (m s).

Lemma wp_ret {A} (a : A) s (R : A -> S -> Prop) : R a s -> wp (mret a) s R.
Proof. done. Qed.

Lemma wp_bind {A B} (m : M S A) (f : A -> M S B) s R :
  wp m s (fun a s' => wp (f a) s' R) -> wp (m ≫= f) s R.
Proof.
  unfold wp, mbind, M_bind. generalize (m s). intros p Hp. induction p; cbn in *; auto.
Qed.

Lemma wp_mono {A} (m : M S A) s (R R' : A -> S -> Prop) :
  wp m s R -> (forall a s', R a s' -> R' a s') -> wp m s R'.
Proof.
  unfold wp. generalize (m s). intros p Hp HR. induction p; cbn in *; auto.
Qed.

Lemma wp_gets {A} (f : S -> A) s (R : A -> S -> Prop) : R (f s) s -> wp (gets f) s R.
Proof. done. Qed.
Lemma wp_modify f s (R : unit -> S -> Prop) : R tt (f s) -> wp (modify f) s R.
Proof. done. Qed.
Lemma wp_lift {A} (r : res A) s (R : A -> S -> Prop) :
  match r with Done a => R a s | Undef e => reachable_fault e = true | Exits c => c = 1 end ->
  wp (lift r) s R.
Proof. by destruct r. Qed.
Lemma wp_sendto dst bs s (R : Z -> S -> Prop) : (forall r, R r s) -> wp (sendto dst bs) s R.
Proof. intros HR r. apply HR. Qed.
Lemma wp_recvfrom s (R : recv_result -> S -> Prop) : (forall r, R r s) -> wp recvfrom s R.
Proof. intros HR r. apply HR. Qed.
Lemma wp_exit {A} s (R : A -> S -> Prop) : wp (exit_ 1) s R.
Proof. done. Qed.
Lemma wp_out_of_fuel {A} s (R : A -> S -> Prop) : wp out_of_fuel s R.
Proof. done. Qed.

(** what holds of a run that returns, and of one that faults *)
Lemma wp_runs {A} (m : M S A) s R tr p :
  wp m s R -> runs (m s) tr p -> final p = true -> admits R p.
Proof. intros Hm. apply (proj1 (ends_runs _ _) Hm). Qed.

End Wp.

(** a result of code without system calls that can only go wrong as listed *)
Definition res_ok {A} (P : A -> Prop) (r : res A) : Prop :=
  match r with Done a => P a | Undef e => reachable_fault e = true | Exits c => c = 1 end.

Lemma res_ok_bind {A B} (r : res A) (f : A -> res B) P P' :
  res_ok P r -> (forall a, P a -> res_ok P' (f a)) -> res_ok P' (r ≫= f).
Proof. destruct r; cbn; auto. Qed.

Lemma res_ok_mono {A} (r : res A) (P P' : A -> Prop) :
  res_ok P r -> (forall a, P a -> P' a) -> res_ok P' r.
Proof. destruct r; cbn; auto. Qed.

Lemma res_ok_bounds {A} (o : option A) (P : A -> Prop) :
  (forall a, o = Some a -> P a) -> res_ok P (orelse OutOfBounds o).
Proof. destruct o; cbn; auto. Qed.

Lemma wp_res {S A} (r : res A) (s : S) P (R : A -> S -> Prop) :
  res_ok P r -> (forall a, P a -> R a s) -> wp (lift r) s R.
Proof. intros Hr HR. apply wp_lift. destruct r; cbn in *; auto. Qed.

(** ** Well-formed memory *)

(** a buffer: its size has been set, its header's fields have their widths *)
Definition buff_ok (b : memBuff) : Prop :=
  is_Some (mb_size b) /\ forall c, mb_data b = Some c -> hdr_ok (header c).

Record store_ok (h : store) : Prop := {
  store_bufs p b : bufs h !! p = Some b -> (p < next_ptr h)%nat /\ buff_ok b;
  store_hdrid : 0 <= hdrid h < 2 ^ 32
}.

(** a buffer that has not been freed, and its data *)
Definition live (h : store) (p : ptr) : Prop := exists b, bufs h !! p = Some b /\ is_Some (mb_data b).

(** an allocated pointer whose buffer, while it exists, has data *)
Definition ptr_ok (h : store) (p : ptr) : Prop :=
  (p < next_ptr h)%nat /\ forall b, bufs h !! p = Some b -> is_Some (mb_data b).

(** the heap goes on: nothing that was allocated comes back or loses its data *)
Definition heap_le (h h' : store) : Prop :=
  (next_ptr h <= next_ptr h')%nat /\
  forall p b', (p < next_ptr h)%nat -> bufs h' !! p = Some b' ->
    exists b, bufs h !! p = Some b /\ (is_Some (mb_data b) -> is_Some (mb_data b')).

#[export] Instance heap_le_preorder : PreOrder heap_le.
Proof.
  split.
  - intros h. split; [done|]. eauto.
  - intros h1 h2 h3 [Hn1 H1] [Hn2 H2]. split; [lia|]. intros p b3 Hp Hb3.
    destruct (H2 p b3) as (b2 & Hb2 & Hd2); [lia|done|].
    destruct (H1 p b2 Hp Hb2) as (b1 & Hb1 & Hd1). eauto.
Qed.

Lemma ptr_ok_le h h' p : heap_le h h' -> ptr_ok h p -> ptr_ok h' p.
Proof.
  intros [Hn Hle] [Hp Hd]. split; [lia|]. intros b' Hb'.
  destruct (Hle p b' Hp Hb') as (b & Hb & Hbd). eauto.
Qed.
#[export] Hint Resolve ptr_ok_le : safety.

Lemma live_ptr_ok h p : store_ok h -> live h p -> ptr_ok h p.
Proof.
  intros Hh (b & Hb & Hd). split; [apply (store_bufs _ Hh _ _ Hb)|]. intros b' Hb'. by rewrite Hb in Hb'; injection Hb' as <-.
Qed.

Lemma live_put h p q b b0 :
  bufs h !! p = Some b0 -> (is_Some (mb_data b0) -> is_Some (mb_data b)) -> live h q -> live (put p b h) q.
Proof.
  intros Hp Hd (bq & Hq & Hdq). destruct (decide (q = p)) as [->|Hne].
  - exists b. cbn. rewrite lookup_insert_eq. split; [done|]. apply Hd. by rewrite Hp in Hq; injection Hq as <-.
  - exists bq. cbn. by rewrite lookup_insert_ne.
Qed.

Lemma live_drop h p q : q <> p -> live h q -> live (drop_shared p h) q.
Proof. intros Hne (b & Hb & Hd). exists b. cbn. by rewrite lookup_delete_ne. Qed.

Lemma live_new h b n i q : store_ok h -> live h q ->
  live (mkStore (<[next_ptr h := b]> (bufs h)) (S (next_ptr h)) n i) q.
Proof.
  intros Hh (bq & Hq & Hd). exists bq. cbn. destruct (store_bufs _ Hh _ _ Hq) as [Hlt _].
  by rewrite lookup_insert_ne by lia.
Qed.

Lemma store_ok_put h p b b0 :
  store_ok h -> bufs h !! p = Some b0 -> buff_ok b -> store_ok (put p b h).
Proof.
  intros [Hb Hh] Hp Hok. split; [|done]. cbn. intros q b' Hq.
  apply lookup_insert_Some in Hq as [[<- <-]|[_ Hq]]; [|by apply Hb].
  split; [|done]. apply (Hb p b0 Hp).
Qed.

Lemma heap_le_put h p b b0 :
  bufs h !! p = Some b0 -> (is_Some (mb_data b0) -> is_Some (mb_data b)) -> heap_le h (put p b h).
Proof.
  intros Hp Hd. split; [done|]. cbn. intros q b' _ Hq.
  apply lookup_insert_Some in Hq as [[<- <-]|[_ Hq]]; eauto.
Qed.

Lemma store_ok_drop h p : store_ok h -> store_ok (drop_shared p h).
Proof.
  intros [Hb Hh]. split; [|done]. cbn. intros q b Hq.
  apply lookup_delete_Some in Hq as [_ Hq]. by apply Hb.
Qed.

Lemma heap_le_drop h p : heap_le h (drop_shared p h).
Proof.
  split; [done|]. cbn. intros q b _ Hq. apply lookup_delete_Some in Hq as [_ Hq]. eauto.
Qed.

(** a new buffer *)
Lemma store_ok_new h b n i :
  store_ok h -> buff_ok b -> 0 <= i < 2 ^ 32 ->
  store_ok (mkStore (<[next_ptr h := b]> (bufs h)) (S (next_ptr h)) n i).
Proof.
  intros [Hb Hh] Hok Hi. split; [|done]. cbn. intros q b' Hq.
  apply lookup_insert_Some in Hq as [[<- <-]|[_ Hq]]; [split; [lia|done]|].
  destruct (Hb q b' Hq). split; [lia|done].
Qed.

Lemma heap_le_new h b n i :
  heap_le h (mkStore (<[next_ptr h := b]> (bufs h)) (S (next_ptr h)) n i).
Proof.
  split; [cbn; lia|]. cbn. intros q b' Hq Hb'. rewrite lookup_insert_ne in Hb' by lia. eauto.
Qed.

Lemma ptr_ok_new h b n i : is_Some (mb_data b) ->
  ptr_ok (mkStore (<[next_ptr h := b]> (bufs h)) (S (next_ptr h)) n i) (next_ptr h).
Proof. intros Hd. split; [cbn; lia|]. cbn. rewrite lookup_insert_eq. by intros b' [= <-]. Qed.

(** the heap goes on and nothing is freed *)
Definition grows (h h' : store) : Prop := heap_le h h' /\ forall p, live h p -> live h' p.

Lemma grows_put h p b b0 :
  bufs h !! p = Some b0 -> (is_Some (mb_data b0) -> is_Some (mb_data b)) -> grows h (put p b h).
Proof. intros Hp Hd. split; [by eapply heap_le_put|]. intros q. by eapply live_put. Qed.

Lemma grows_new h b n i : store_ok h ->
  grows h (mkStore (<[next_ptr h := b]> (bufs h)) (S (next_ptr h)) n i).
Proof. intros Hh. split; [apply heap_le_new|]. intros q. by apply live_new. Qed.

Lemma live_fresh h b n i : is_Some (mb_data b) ->
  live (mkStore (<[next_ptr h := b]> (bufs h)) (S (next_ptr h)) n i) (next_ptr h).
Proof. intros Hd. exists b. cbn. by rewrite lookup_insert_eq. Qed.

(** ** Well-formed processes *)

Definition in_i32 (z : Z) : Prop := - 2 ^ 31 <= z < 2 ^ 31.

Definition connection_ok (c : connection) : Prop :=
  0 <= id c < 2 ^ 16 /\ 0 <= src c < 2 ^ 8 /\ 0 <= dst c < 2 ^ 8 /\ 0 <= status c < 2 ^ 8.

(** the codes that [Session::start] can meet: no state sets [send] or [recv] *)
Definition main_code (c : stateCodes) : bool :=
  match c with s_send | s_recv => false | _ => true end.

Record session_ok (ss : session) : Prop := {
  sess_conns : map_Forall (fun _ c => connection_ok c) (connections ss);
  sess_count : in_i32 (connection_count ss);
  sess_next : main_code (next ss) = true;
  sess_win : 0 <= winSize ss < 2 ^ 16;
  sess_capsule : in_i32 (capsuleId ss);
  sess_src : 0 <= prevSrcid ss < 2 ^ 8;
  sess_connid : 0 <= prevConnid ss < 2 ^ 16
}.

Record gateway_ok (g : gateway) : Prop := {
  gate_count : in_i32 (peer_addressCount g);
  gate_sel : in_i32 (sel_i g);
  gate_sent : in_i32 (send_counter g) /\ in_i32 (send_ttlsent g);
  gate_pull : in_i32 (pull_counter g)
}.

Lemma in_i32_i32 z : in_i32 (i32 z).
Proof. apply i32_range. Qed.
#[export] Hint Resolve in_i32_i32 u16_range u8_range u32_range : safety.

Section Process.
Context {Q : Type} {fifo : Fifo Q ptr} {laws : FifoLaws Q ptr} {mal : Malloc} {os : OS}.
(** the direction of the session: the side whose factory has a source or sink *)
Variable Dir : stateDirection.
Implicit Types s : proc Q.
Abbreviation Mp := (M (proc Q)).

Record factory_ok (f : factory Q) : Prop := {
  fac_chunk : in_i32 (chunkSize f);
  fac_sizes : in_i32 (curSize f) /\ in_i32 (curPos f) /\ in_i32 (curWritePos f)
}.

(** the buffer [p] is in the queue of a factory *)
Definition queued d s (p : ptr) : Prop := exists l, q_rep (buffer (factory_of d s)) l /\ p ∈ l.

Record window_ok (h : store) (w : list (Z * ptr)) : Prop := {
  win_sorted : om_ok w;
  win_keys : Forall (fun k => 0 <= k < 2 ^ 16) (w.*1);
  win_ptrs : Forall (ptr_ok h) (w.*2)
}.

Record proc_ok s : Prop := {
  ok_store : store_ok (heap s);
  ok_fac d : factory_ok (factory_of d s);
  ok_queue d : exists l, q_rep (buffer (factory_of d s)) l /\ NoDup l /\ Forall (live (heap s)) l;
  ok_apart p : queued TX s p -> ~ queued RX s p;
  ok_source d : is_Some (sourceData (factory_of d s)) <-> d = Dir;
  ok_window : window_ok (heap s) (rxcurrentWindow s);
  ok_gw : gateway_ok (gw s);
  ok_ses : session_ok (ses s);
  ok_pool : q_rep (work_queue (pool s)) []
}.

Lemma queued_in d s l p : q_rep (buffer (factory_of d s)) l -> queued d s p <-> p ∈ l.
Proof.
  intros Hl. split; [|by exists l]. intros (l' & Hl' & Hp). by rewrite (q_rep_unique _ _ _ Hl Hl').
Qed.

Lemma queued_live d s p : proc_ok s -> queued d s p -> live (heap s) p.
Proof.
  intros Hs Hp. destruct (ok_queue _ Hs d) as (l & Hl & _ & Hf).
  rewrite Forall_forall in Hf. apply Hf. by apply (queued_in d s l p Hl).
Qed.

Lemma live_old h p : store_ok h -> live h p -> (p < next_ptr h)%nat.
Proof. intros Hh (b & Hb & _). apply (store_bufs _ Hh _ _ Hb). Qed.

Lemma queued_old d s p : proc_ok s -> queued d s p -> (p < next_ptr (heap s))%nat.
Proof. intros Hs Hp. eapply live_old; [apply Hs|by eapply queued_live]. Qed.

Lemma queued_apart d p s : proc_ok s -> queued d s p -> forall d', queued d' s p -> d' = d.
Proof. intros Hs H1 d' H2. destruct d, d'; try done; exfalso; by eapply ok_apart. Qed.

Lemma window_ok_le h h' w : heap_le h h' -> window_ok h w -> window_ok h' w.
Proof.
  intros Hle [Hs Hk Hp]. split; [done..|]. eapply Forall_impl; [exact Hp|]. eauto with safety.
Qed.

(** what a part of the process may become *)
Lemma proc_ok_heap s h : proc_ok s -> store_ok h -> heap_le (heap s) h ->
  (forall d p, queued d s p -> live h p) -> proc_ok (s <| heap := h |>).
Proof.
  intros [] Hh Hle Hlive. split; cbn; eauto using window_ok_le.
  intros d. destruct (ok_queue0 d) as (l & Hl & Hnd & _). exists l. split; [by destruct d|]. split; [done|].
  apply Forall_forall. intros p Hp. apply (Hlive d). by exists l.
Qed.

Lemma proc_ok_gw s g : proc_ok s -> gateway_ok g -> proc_ok (s <| gw := g |>).
Proof. intros [] Hg. by split. Qed.

Lemma proc_ok_ses s ss : proc_ok s -> session_ok ss -> proc_ok (s <| ses := ss |>).
Proof. intros [] Hg. by split. Qed.

Lemma proc_ok_window s w : proc_ok s -> window_ok (heap s) w -> proc_ok (s <| rxcurrentWindow := w |>).
Proof. intros [] Hg. by split. Qed.

Lemma factory_set_same d f s : factory_of d (set_factory d f s) = f.
Proof. by destruct d. Qed.
Lemma factory_set_other d d' f s : d' <> d -> factory_of d' (set_factory d f s) = factory_of d' s.
Proof. by destruct d, d'. Qed.
Lemma heap_set_factory d f s : heap (set_factory d f s) = heap s.
Proof. by destruct d. Qed.

Lemma queued_set d f s l d' p : q_rep (buffer f) l ->
  queued d' (set_factory d f s) p <-> (d' = d /\ p ∈ l) \/ (d' <> d /\ queued d' s p).
Proof.
  intros Hl. destruct (decide (d' = d)) as [->|Hne].
  - rewrite (queued_in d (set_factory d f s) l) by by rewrite factory_set_same. naive_solver.
  - unfold queued. rewrite factory_set_other by done. naive_solver.
Qed.

(** a factory with another queue: its buffers are live, and none is the other
    factory's *)
Lemma proc_ok_factory s d f l : proc_ok s -> factory_ok f ->
  (is_Some (sourceData f) <-> is_Some (sourceData (factory_of d s))) ->
  q_rep (buffer f) l -> NoDup l -> Forall (live (heap s)) l ->
  (forall p d', p ∈ l -> d' <> d -> ~ queued d' s p) -> proc_ok (set_factory d f s).
Proof.
  intros Hs Hf Hsrc Hl Hnd Hlive Hap. pose proof Hs as [].
  split; rewrite ?heap_set_factory; try (by destruct d).
  - intros d'. destruct (decide (d' = d)) as [->|Hne]; [by rewrite factory_set_same|by rewrite factory_set_other].
  - intros d'. destruct (decide (d' = d)) as [->|Hne]; [|by rewrite factory_set_other].
    exists l. by rewrite factory_set_same.
  - intros p. rewrite !(queued_set d f s l) by done. destruct d; naive_solver.
  - intros d'. destruct (decide (d' = d)) as [->|Hne]; [by rewrite factory_set_same, Hsrc|by rewrite factory_set_other].
Qed.

Lemma window_ok_insert h w k p :
  window_ok h w -> 0 <= k < 2 ^ 16 -> ptr_ok h p -> window_ok h (om_insert k p w).
Proof.
  intros [Hs Hk Hp] Hk' Hp'. split; [by apply om_insert_ok|..].
  - rewrite Forall_forall in *. intros x Hx. apply om_insert_fst in Hx as [->|Hx]; auto.
  - clear Hs Hk Hk'. induction w as [|[k' p0] w IH]; [by apply Forall_singleton|].
    apply Forall_cons in Hp as [H1 H2]. cbn. repeat case_match; cbn; rewrite !Forall_cons; auto.
Qed.

Lemma window_ok_nil h : window_ok h [].
Proof. split; constructor. Qed.

(** [s'] is a later state of a well-formed process: its queues hold new buffers, or
    buffers they held before *)
Definition later s s' : Prop :=
  proc_ok s' /\ heap_le (heap s) (heap s') /\
  forall d p, (p < next_ptr (heap s))%nat -> queued d s' p -> queued d s p.

#[export] Instance later_trans : Transitive later.
Proof.
  intros s1 s2 s3 (_ & H1 & Hq1) (Hok & H2 & Hq2). split; [done|]. split; [by etrans|].
  intros d p Hp Hq. apply Hq1; [done|]. apply Hq2; [|done]. destruct H1. lia.
Qed.

Lemma later_refl s : proc_ok s -> later s s.
Proof. by split. Qed.

(** an allocated buffer that no queue holds stays out of the queues *)
Definition unqueued s (p : ptr) : Prop := (p < next_ptr (heap s))%nat /\ forall d, ~ queued d s p.

Lemma unqueued_later s s' p : later s s' -> unqueued s p -> unqueued s' p.
Proof.
  intros (_ & [Hn _] & Hq) [Hp Hd]. split; [lia|]. intros d Hd'. by apply (Hd d), Hq.
Qed.

(** a part of the process without queues changes *)
Lemma later_same s s' : proc_ok s' -> heap s' = heap s ->
  (forall d, buffer (factory_of d s') = buffer (factory_of d s)) -> later s s'.
Proof.
  intros Hs Hh Hb. split; [done|]. split; [by rewrite Hh|]. intros d p _ (l & Hl & Hp). exists l.
  by rewrite <- Hb.
Qed.

Lemma wp_seq {A B} (m : Mp A) (f : A -> Mp B) s R :
  wp m s (fun _ => later s) -> (forall a s', later s s' -> wp (f a) s' R) -> wp (m ≫= f) s R.
Proof. intros Hm Hf. apply wp_bind. eapply wp_mono; [exact Hm|done]. Qed.

(** the same when the program started in [s0] *)
Lemma wp_step {A B} (m : Mp A) (f : A -> Mp B) s0 s R :
  later s0 s -> wp m s (fun _ => later s) ->
  (forall a s', later s0 s' -> later s s' -> wp (f a) s' R) -> wp (m ≫= f) s R.
Proof. intros H0 Hm Hf. apply wp_seq; [done|]. intros a s' H. apply Hf; [by etrans|done]. Qed.

Lemma wp_last {A} (m : Mp A) s0 s :
  later s0 s -> wp m s (fun _ => later s) -> wp m s (fun _ => later s0).
Proof. intros H0 Hm. eapply wp_mono; [exact Hm|]. intros a s' H. by etrans. Qed.

Lemma wp_known {A B} (m : Mp A) (f : A -> Mp B) s a s' R :
  m s = Ret a s' -> wp (f a) s' R -> wp (m ≫= f) s R.
Proof. intros Hm. unfold wp, mbind, M_bind. by rewrite Hm. Qed.

(** ** Access to buffers *)

Lemma wp_read_capsule p s R :
  proc_ok s -> ptr_ok (heap s) p -> (forall c, hdr_ok (header c) -> R c s) ->
  wp (read_capsule p) s R.
Proof.
  intros Hs [_ Hp] HR. unfold read_capsule. apply wp_bind, wp_gets, wp_lift.
  unfold load_capsule, load. destruct (bufs (heap s) !! p) as [b|] eqn:Hb; [|done]. cbn.
  destruct (Hp b eq_refl) as [c Hc]. rewrite Hc. cbn. apply HR.
  by apply (store_bufs _ (ok_store _ Hs) _ _ Hb).
Qed.

Lemma wp_write_capsule p c s R :
  proc_ok s -> hdr_ok (header c) ->
  (forall h, store_ok h -> grows (heap s) h -> R tt (s <| heap := h |>)) ->
  wp (write_capsule p c) s R.
Proof.
  intros Hs Hc HR. unfold write_capsule. apply wp_bind, wp_gets, wp_bind, wp_lift.
  unfold put_capsule, load. destruct (bufs (heap s) !! p) as [b|] eqn:Hb; [|done]. cbn.
  apply wp_modify, HR.
  - eapply store_ok_put; [apply Hs|exact Hb|]. split; [|by intros c' [= <-]].
    apply (store_bufs _ (ok_store _ Hs) _ _ Hb).
  - eapply grows_put; [exact Hb|]. by eexists.
Qed.

Lemma wp_write_size p n s R :
  proc_ok s -> (forall h, store_ok h -> grows (heap s) h -> R tt (s <| heap := h |>)) ->
  wp (write_size p n) s R.
Proof.
  intros Hs HR. unfold write_size. apply wp_bind, wp_gets, wp_bind, wp_lift.
  unfold load. destruct (bufs (heap s) !! p) as [b|] eqn:Hb; [|done]. cbn.
  apply wp_modify, HR.
  - eapply store_ok_put; [apply Hs|exact Hb|]. split; [by eexists|].
    apply (store_bufs _ (ok_store _ Hs) _ _ Hb).
  - by eapply grows_put.
Qed.

Lemma wp_read_size p s R : proc_ok s -> (forall n, R n s) -> wp (read_size p) s R.
Proof.
  intros Hs HR. unfold read_size. apply wp_bind, wp_gets, wp_bind, wp_lift.
  unfold load. destruct (bufs (heap s) !! p) as [b|] eqn:Hb; [|done]. cbn. apply wp_lift.
  destruct (store_bufs _ (ok_store _ Hs) _ _ Hb) as [_ [[n Hn] _]]. rewrite Hn. apply HR.
Qed.

Lemma later_heap s h : proc_ok s -> store_ok h -> grows (heap s) h -> later s (s <| heap := h |>).
Proof.
  intros Hs Hh [Hle Hlive]. split; [|by split].
  apply proc_ok_heap; [done..|]. intros d p Hp. by eapply Hlive, queued_live.
Qed.

(** a buffer may be freed when no queue holds it *)
Lemma wp_release p s : proc_ok s -> unqueued s p -> wp (release (Some p)) s (fun _ => later s).
Proof.
  intros Hs [_ Hp]. apply wp_modify. split; [|split; [apply heap_le_drop|done]].
  apply (proc_ok_heap s (drop_shared p (heap s))); [done|apply store_ok_drop, Hs|apply heap_le_drop|].
  intros d q Hq. apply live_drop; [|by eapply queued_live]. intros ->. by apply (Hp d).
Qed.

(** the receive queue is not empty *)
Definition filled s : Prop := exists p l, q_rep (buffer (rxFactory s)) (p :: l).

(** a factory after a method, with the queue [l]: its pointers were in the queue *)
Lemma later_queue s d f l : proc_ok s -> factory_ok f ->
  (is_Some (sourceData f) <-> is_Some (sourceData (factory_of d s))) ->
  q_rep (buffer f) l -> NoDup l -> (forall p, p ∈ l -> queued d s p) -> later s (set_factory d f s).
Proof.
  intros Hs Hf Hsrc Hl Hnd Hin. split; [|split; [by rewrite heap_set_factory|]].
  - apply (proc_ok_factory s d f l); try done.
    + apply Forall_forall. intros p Hp. by eapply queued_live, Hin.
    + intros p d' Hp Hne Hq. by apply Hne, (queued_apart d p s); [|apply Hin|].
  - intros d' p _ [[-> Hp]|[_ Hp]]%(queued_set d f s l d' p Hl); [by apply Hin|done].
Qed.

(** a method that leaves the queue alone *)
Lemma later_factory s d f : proc_ok s -> factory_ok f -> buffer f = buffer (factory_of d s) ->
  (is_Some (sourceData f) <-> is_Some (sourceData (factory_of d s))) -> later s (set_factory d f s).
Proof.
  intros Hs Hf Hb Hsrc. destruct (ok_queue _ Hs d) as (l & Hl & Hnd & _).
  apply (later_queue s d f l); try done; [by rewrite Hb|]. intros p Hp. by exists l.
Qed.

(** a pop: the head, which no queue holds any more *)
Lemma wp_pop_buffer d s (R : option ptr -> proc Q -> Prop) :
  proc_ok s ->
  (forall o s', later s s' -> (forall p, o = Some p -> ptr_ok (heap s') p /\ unqueued s' p) ->
     (d = RX -> filled s -> is_Some o) -> R o s') ->
  wp (pop_buffer d) s R.
Proof.
  intros Hs HR. unfold pop_buffer. apply wp_bind, wp_gets.
  destruct (ok_queue _ Hs d) as (l & Hl & Hnd & Hlive).
  assert (forall q l', q_rep q l' -> NoDup l' -> l' ⊆ l ->
    later s (set_factory d (factory_of d s <| buffer := q |>) s)) as Hset.
  { intros q l' Hq' Hnd' Hsub. destruct (ok_fac _ Hs d) as [Hc Hz].
    apply (later_queue s d (factory_of d s <| buffer := q |>) l'); try done.
    intros p Hp. exists l. split; [done|]. by apply Hsub. }
  destruct l as [|p l].
  - rewrite (q_try_pop_nil _ Hl). apply wp_bind, wp_lift. cbn. apply wp_bind, wp_modify, wp_ret.
    apply HR; [by eapply Hset|done|]. intros -> (p & l & Hp).
    discriminate (q_rep_unique _ _ _ Hl Hp).
  - destruct (q_try_pop_cons _ _ _ Hl) as (q & Hpop & Hq'). rewrite Hpop.
    apply NoDup_cons in Hnd as [Hp Hnd]. assert (queued d s p) as Hqp by (exists (p :: l); set_solver).
    apply wp_bind, wp_lift. cbn. apply wp_bind, wp_modify, wp_ret.
    apply HR; [eapply Hset; set_solver| |by eexists]. intros ? [= <-]. rewrite heap_set_factory. split.
    + apply live_ptr_ok; [apply Hs|]. by eapply queued_live.
    + split; [rewrite heap_set_factory; by eapply queued_old|]. intros d' Hin.
      pose proof (queued_set d (factory_of d s <| buffer := q |>) s l d' p Hq') as Hiff.
      apply Hiff in Hin as [[_ Hin]|[Hne Hin]]; [done|].
      by apply Hne, (queued_apart d p s).
Qed.

Lemma wp_discard_popped d s : proc_ok s -> wp (discard_popped d) s (fun _ => later s).
Proof.
  intros Hs. unfold discard_popped. apply wp_bind, wp_pop_buffer; [done|]. intros [p|] s' Hs' Hp _.
  - eapply wp_last; [exact Hs'|]. apply wp_release; [apply Hs'|by apply Hp].
  - by apply wp_ret.
Qed.

Lemma wp_with_popped f s : proc_ok s -> filled s ->
  (forall p s', proc_ok s' -> ptr_ok (heap s') p -> wp (f p) s' (fun _ => later s')) ->
  wp (with_popped f) s (fun _ => later s).
Proof.
  intros Hs Hfill Hf. unfold with_popped. apply wp_bind, wp_pop_buffer; [done|].
  intros o s1 H1 Hp Hsome. destruct (Hsome eq_refl Hfill) as [p ->]. destruct (Hp p eq_refl) as [Hok Hun].
  apply wp_bind, wp_lift. cbn [orelse]. eapply wp_step; [exact H1|by apply Hf; [apply H1|]|].
  intros _ s2 H2 H12. eapply wp_last; [exact H2|]. apply wp_release; [apply H2|]. by eapply unqueued_later.
Qed.

(** ** New buffers *)

(** a new buffer at the end of a queue; the heap is otherwise the same *)
Definition with_new s (d : stateDirection) (q : Q) (b : memBuff) (n : nat) (i : Z) : proc Q :=
  set_factory d (factory_of d s <| buffer := q |>) s
    <| heap := mkStore (<[next_ptr (heap s) := b]> (bufs (heap s))) (S (next_ptr (heap s))) n i |>.

Lemma later_new s d q b n i l :
  proc_ok s -> q_rep (buffer (factory_of d s)) l -> q_rep q (l ++ [next_ptr (heap s)]) ->
  buff_ok b -> is_Some (mb_data b) -> 0 <= i < 2 ^ 32 ->
  later s (with_new s d q b n i) /\ ptr_ok (heap (with_new s d q b n i)) (next_ptr (heap s)) /\
  (d = RX -> filled (with_new s d q b n i)).
Proof.
  intros Hs Hl Hq Hb Hd Hi. pose proof (ok_store _ Hs) as Hh.
  pose proof (store_ok_new (heap s) b n i Hh Hb Hi) as Hh'.
  pose proof (grows_new (heap s) b n i Hh) as Hle.
  pose proof (ptr_ok_new (heap s) b n i Hd) as Hp. pose proof (live_fresh (heap s) b n i Hd) as Hlf.
  unfold with_new. set (h := mkStore _ _ _ _) in *. set (f := factory_of d s <| buffer := q |>).
  assert (set_factory d f s <| heap := h |> = set_factory d f (s <| heap := h |>)) as -> by by destruct d.
  pose proof (later_heap s h Hs Hh' Hle) as Hsh.
  assert (forall d' p, queued d' (s <| heap := h |>) p <-> queued d' s p) as Hqs by (by intros []).
  assert (forall p, p ∈ l -> queued d s p) as Hin by (by exists l).
  destruct (ok_queue _ Hs d) as (l0 & Hl0 & Hnd & Hlive). rewrite (q_rep_unique _ _ _ Hl0 Hl) in Hnd, Hlive.
  destruct (ok_fac _ Hs d) as [Hc Hz]. split; [|split; [by rewrite heap_set_factory|]].
  - split; [apply (proc_ok_factory (s <| heap := h |>) d f (l ++ [next_ptr (heap s)]))|].
    + apply Hsh.
    + done.
    + by destruct d.
    + done.
    + apply NoDup_app. split; [done|]. split; [|apply NoDup_singleton].
      intros p Hpl ->%list_elem_of_singleton. pose proof (queued_old d s _ Hs (Hin _ Hpl)). lia.
    + apply Forall_app. split; [|by apply Forall_singleton].
      eapply Forall_impl; [exact Hlive|]. apply Hle.
    + intros p d' [Hpl| ->%list_elem_of_singleton]%elem_of_app Hne; rewrite Hqs; intros Hqp.
      * by apply Hne, (queued_apart d p s); [|apply Hin|].
      * pose proof (queued_old d' s _ Hs Hqp). lia.
    + split; [rewrite heap_set_factory; apply Hle|]. intros d' p Hold.
      rewrite (queued_set d f (s <| heap := h |>) (l ++ [next_ptr (heap s)])) by done.
      intros [[-> [Hpl| ->%list_elem_of_singleton]%elem_of_app]|[_ Hqp]]; [by apply Hin|lia|by apply Hqs].
  - intros ->. destruct l as [|p l]; by eexists _, _.
Qed.

Lemma wp_newBuffer d s (R : ptr -> proc Q -> Prop) :
  proc_ok s ->
  (forall p s', later s s' -> ptr_ok (heap s') p -> (d = RX -> filled s') -> R p s') ->
  wp (newBuffer d) s R.
Proof.
  intros Hs HR. destruct (ok_queue _ Hs d) as (l & Hq & _).
  destruct (newBuffer_exec d l s Hq) as (q & Hq' & Hnew). unfold wp. rewrite Hnew. cbn [ends admits].
  destruct (later_new s d q (new_buff (mallocs (heap s)) (hdrid (heap s)) (chunkSize (factory_of d s)))
    (S (mallocs (heap s))) (u32 (hdrid (heap s) + 1)) l) as (H1 & H2 & H3); try done.
  - split; [by eexists|]. intros c [= <-]. unfold hdr_ok. cbn. pose proof (u16_range (hdrid (heap s))). lia.
  - apply u32_range.
  - by destruct d; apply HR.
Qed.

(** a buffer of the session's own *)
Lemma wp_new_memBuff s : proc_ok s ->
  wp new_memBuff s (fun p s' => later s s' /\ unqueued s' p).
Proof.
  intros Hs. unfold new_memBuff. apply wp_bind, wp_gets. cbn [make_shared]. apply wp_bind, wp_modify, wp_ret.
  pose proof (ok_store _ Hs) as Hh. split.
  - apply later_heap; [done| |by apply grows_new]. apply store_ok_new; [done|by split; [eexists|]|apply Hh].
  - split; [cbn; lia|]. intros d Hq. assert (queued d s (next_ptr (heap s))) as Hq' by by destruct d.
    pose proof (queued_old d s _ Hs Hq'). lia.
Qed.

(** ** The gateway *)

Lemma later_gw s g : proc_ok s -> gateway_ok g -> later s (s <| gw := g |>).
Proof. intros. apply later_same; [by apply proc_ok_gw|done|by intros []]. Qed.

(** a received datagram in a block: any bytes, of any length *)
Lemma recv_into_res b len dgram : res_ok (fun _ => True) (recv_into b len dgram).
Proof.
  unfold recv_into. eapply (res_ok_bind _ _ (fun _ => True)); [|done].
  unfold buf_write. eapply (res_ok_bind _ _ (fun _ => True)); [|done]. by apply res_ok_bounds.
Qed.

Lemma stripHeader_res c : res_ok (fun c' => hdr_ok (header c')) (stripHeader c).
Proof.
  unfold stripHeader. eapply (res_ok_bind _ _ (fun _ => True)).
  - by apply res_ok_bounds.
  - intros bs _. cbn. apply decode_hdr_ok.
Qed.

Lemma header_to_body_res c : hdr_ok (header c) -> res_ok (fun c' => hdr_ok (header c')) (header_to_body c).
Proof.
  intros Hc. unfold header_to_body. eapply (res_ok_bind _ _ (fun _ => True)); [|done].
  unfold buf_write. eapply (res_ok_bind _ _ (fun _ => True)); [|done]. by apply res_ok_bounds.
Qed.

Lemma datagram_res c : res_ok (fun _ => True) (datagram c).
Proof. by apply res_ok_bounds. Qed.

Lemma select_addr_res l count i : res_ok (fun r => in_i32 r.2) (select_addr l count i).
Proof.
  unfold select_addr. case_match; [done|]. case_match; [done|].
  eapply (res_ok_bind _ _ (fun _ => True)); [by apply res_ok_bounds|]. intros a _.
  eapply (res_ok_bind _ _ (fun _ => True)); [by apply res_ok_bounds|]. intros str _. cbn.
  apply in_i32_i32.
Qed.

Lemma wp_selectAddr s : proc_ok s -> wp selectAddrFromList s (fun _ => later s).
Proof.
  intros Hs. unfold selectAddrFromList. apply wp_bind, wp_gets. case_match; [|by apply wp_ret, later_refl].
  apply wp_bind. eapply wp_res; [apply select_addr_res|]. intros [a i] Hi. cbn in Hi.
  apply wp_bind, wp_modify, wp_ret. apply later_gw; [done|]. destruct (ok_gw _ Hs). by split.
Qed.

Lemma wp_chunkWrite p s : proc_ok s -> ptr_ok (heap s) p -> wp (chunkWrite p) s (fun _ => later s).
Proof.
  intros Hs Hp. unfold chunkWrite. apply wp_bind, wp_read_capsule; [done..|]. intros c Hc.
  apply wp_bind. eapply wp_res; [by apply header_to_body_res|]. intros c' Hc'.
  apply wp_bind, wp_write_capsule; [done..|]. intros h Hh Hle.
  pose proof (later_heap s h Hs Hh Hle) as H1.
  eapply wp_step; [exact H1|apply wp_selectAddr, H1|]. intros a s2 H2 _.
  apply wp_bind. eapply wp_res; [apply datagram_res|]. intros bs _. apply wp_bind, wp_sendto.
  intros r. apply wp_ret, H2.
Qed.

Lemma wp_send p s : proc_ok s -> ptr_ok (heap s) p -> wp (send p) s (fun _ => later s).
Proof.
  intros Hs Hp. unfold send. apply wp_seq; [by apply wp_selectAddr|]. intros a s1 H1.
  apply wp_bind, wp_read_capsule; [apply H1|eapply ptr_ok_le; [apply H1|done]|]. intros c Hc.
  apply wp_bind. eapply wp_res; [by apply header_to_body_res|]. intros c' Hc'.
  apply wp_bind, wp_write_capsule; [apply H1|done|]. intros h Hh Hle.
  assert (later s (s1 <| heap := h |>)) as H2 by (etrans; [exact H1|]; by apply later_heap, Hle; [apply H1|]).
  apply wp_bind. eapply wp_res; [apply datagram_res|]. intros bs _. apply wp_bind, wp_sendto.
  intros r. case_match; [apply wp_exit|]. apply wp_bind, wp_modify, wp_modify.
  etrans; [exact H2|]. destruct (ok_gw _ (proj1 H2)) as [? ? [] ?].
  apply (later_gw (s1 <| heap := h |>)
    (gw s1 <| send_ttlsent ::= fun t => i32 (t + r) |> <| send_counter ::= fun t => i32 (t + 1) |>));
    [apply H2|]. split; cbn; auto with safety.
Qed.

(** what is left in [emptyChunk] when [pull] returns *)
Lemma pull_buff_ok n c : hdr_ok (header c) -> buff_ok (mkMemBuff (Some n) (Some c)).
Proof. intros Hc. split; [by eexists|]. by intros c' [= <-]. Qed.

Lemma wp_pull s (R : ptr -> proc Q -> Prop) : proc_ok s ->
  (forall p s', later s s' -> ptr_ok (heap s') p -> filled s' -> R p s') -> wp pull s R.
Proof.
  intros Hs HR. destruct (ok_queue _ Hs RX) as (l & Hq & _).
  destruct (makeChunkforRx_spec (rxFactory s) (heap s) l Hq) as (q & Hq' & Hmk).
  set (p := next_ptr (heap s)) in *. unfold pull.
  eapply wp_known.
  { unfold make_chunk. m_unfold. cbn [factory_of]. rewrite Hmk. reflexivity. }
  eapply wp_known; [eapply read_capsule_exec; cbn; by rewrite lookup_insert_eq|].
  apply wp_bind, wp_gets, wp_bind, wp_recvfrom. intros [|src dgram]; [apply wp_exit|].
  apply wp_bind. eapply wp_res; [apply recv_into_res|]. intros [nread b] _.
  apply wp_bind, wp_modify. eapply wp_known; [eapply write_size_exec; cbn; by rewrite lookup_insert_eq|].
  apply wp_bind. eapply wp_res; [apply stripHeader_res|]. intros c Hcap.
  eapply wp_known; [eapply write_capsule_exec; cbn; by rewrite lookup_insert_eq|].
  apply wp_bind, wp_modify, wp_ret.
  destruct (later_new s RX q (mkMemBuff (Some nread) (Some c)) (S (mallocs (heap s)))
    (u32 (hdrid (heap s) + 1)) l) as (H1 & H2 & H3); try done.
  { by apply pull_buff_ok. } { apply u32_range. }
  set (g := gw s <| peer_addr := src |> <| pull_counter ::= fun t => i32 (t + 1) |>).
  assert (gateway_ok g) as Hg.
  { destruct (ok_gw _ Hs) as [? ? [] ?]. split; cbn; auto with safety. }
  pose proof (later_gw _ g (proj1 H1) Hg) as H4.
  assert (forall s', s' = with_new s RX q (mkMemBuff (Some nread) (Some c)) (S (mallocs (heap s)))
    (u32 (hdrid (heap s) + 1)) <| gw := g |> -> R p s') as HR'.
  { intros s' ->. apply HR; [by etrans|exact H2|by apply H3]. }
  apply HR'. unfold with_new. cbn. unfold put. cbn. by rewrite !insert_insert_eq.
Qed.

(** [receive] on a buffer that the caller has made *)
Lemma wp_receive p s (R : unit -> proc Q -> Prop) : proc_ok s -> ptr_ok (heap s) p ->
  (forall s', later s s' -> rxFactory s' = rxFactory s -> R tt s') -> wp (receive p) s R.
Proof.
  intros Hs Hp HR. unfold receive. apply wp_bind, wp_read_capsule; [done..|]. intros c Hc.
  apply wp_bind, wp_read_size; [done|]. intros n. apply wp_bind, wp_recvfrom.
  intros [|src dgram]; [apply wp_exit|].
  apply wp_bind. eapply wp_res; [apply recv_into_res|]. intros [nread b] _.
  apply wp_bind, wp_modify. case_match; [|apply wp_exit].
  assert (later s (s <| gw ::= upd peer_addr (fun _ => src) |>)) as H1.
  { apply (later_gw s (gw s <| peer_addr := src |>)); [done|]. destruct (ok_gw _ Hs). by split. }
  apply wp_bind, wp_write_size; [apply H1|]. intros h2 Hh2 Hle2.
  pose proof (later_heap _ h2 (proj1 H1) Hh2 Hle2) as H2.
  apply wp_bind. eapply wp_res; [apply stripHeader_res|]. intros c' Hc'.
  apply wp_write_capsule; [apply H2|done|]. intros h3 Hh3 Hle3. apply HR; [|done].
  etrans; [exact H1|]. etrans; [exact H2|]. apply later_heap; [apply H2|done|done].
Qed.

(** ** Factories and the presentation stage *)

Lemma write2Source_res c n f : is_Some (sourceData f) ->
  res_ok (fun f' => buffer f' = buffer f /\ chunkSize f' = chunkSize f /\ curSize f' = curSize f /\
            curPos f' = curPos f /\ (in_i32 (curWritePos f) -> in_i32 (curWritePos f')) /\
            is_Some (sourceData f'))
    (@write2Source Q c n f).
Proof.
  intros [src Hsrc]. unfold write2Source. rewrite Hsrc. cbn [orelse mbind res_bind].
  case_match; [by cbn; eauto 10|]. case_match; [done|].
  eapply (res_ok_bind _ _ (fun _ => True)); [by apply res_ok_bounds|]. intros bs _.
  destruct (writeStream src bs) as [w src']. cbn.
  split_and!; try done. intros _. apply in_i32_i32.
Qed.

Lemma wp_write2Souce p s : Dir = RX -> proc_ok s -> ptr_ok (heap s) p ->
  wp (write2Souce p) s (fun _ => later s).
Proof.
  intros HD Hs Hp. unfold write2Souce. apply wp_bind, wp_read_capsule; [done..|]. intros c Hc.
  apply wp_bind, wp_read_size; [done|]. intros n. apply wp_bind, wp_gets.
  pose proof (proj2 (ok_source _ Hs RX) (eq_sym HD)) as Hsrc.
  apply wp_bind. eapply wp_res; [by apply write2Source_res|].
  intros f (Hb & Hch & Hcs & Hcp & Hw & Hsrc'). apply wp_modify.
  destruct (ok_fac _ Hs RX) as [Hc' (H1 & H2 & H3)]. cbn in Hc', H1, H2, H3.
  apply (later_factory s RX); [done| | |].
  - assert (in_i32 0) by (unfold in_i32; lia).
    case_match; split; cbn; rewrite ?Hch, ?Hcs, ?Hcp; split_and?; auto with safety.
  - by case_match.
  - by case_match.
Qed.

Lemma wp_write_window w s : Dir = RX -> proc_ok s -> Forall (ptr_ok (heap s)) (w.*2) ->
  wp (write_window w) s (fun _ => later s).
Proof.
  intros HD. revert s. induction w as [|[k p] w IH]; intros s Hs Hw; [by apply wp_ret, later_refl|].
  apply Forall_cons in Hw as [Hp Hw]. cbn [write_window].
  apply wp_bind, wp_read_capsule; [done..|]. intros c Hc.
  apply wp_seq; [case_match; [by apply wp_ret, later_refl|by apply wp_write2Souce]|].
  intros _ s1 H1. eapply wp_last; [exact H1|]. apply IH; [apply H1|].
  eapply Forall_impl; [exact Hw|]. intros q. apply ptr_ok_le, H1.
Qed.

Lemma wp_presentation_params p s : proc_ok s -> ptr_ok (heap s) p ->
  wp (PresentationProcessor_setCapParams p) s (fun _ => later s).
Proof.
  intros Hs Hp. unfold PresentationProcessor_setCapParams.
  apply wp_bind, wp_read_capsule; [done..|]. intros c Hc.
  apply wp_bind. eapply wp_res; [by apply header_to_body_res|]. intros c' Hc'.
  apply wp_write_capsule; [done..|]. intros h Hh Hle. by apply later_heap.
Qed.

Lemma wp_constructChunk s (R : ptr -> proc Q -> Prop) : proc_ok s ->
  (forall p s', later s s' -> ptr_ok (heap s') p -> unqueued s' p -> R p s') -> wp constructChunk s R.
Proof.
  intros Hs HR. unfold constructChunk. apply wp_bind, wp_gets, wp_bind, wp_lift.
  destruct (ok_queue _ Hs TX) as (l & Hl & Hnd & Hlive). cbn [factory_of] in Hl.
  destruct l as [|p l]; [by rewrite fetchChunk_nil|].
  destruct (fetchChunk_cons _ _ _ Hl) as (q & -> & Hq'). apply NoDup_cons in Hnd as [Hp Hnd].
  assert (queued TX s p) as Hqp by (exists (p :: l); split; [done|set_solver]).
  destruct (ok_fac _ Hs TX) as [Hc Hz].
  apply wp_bind, wp_modify, wp_ret. apply HR.
  - apply (later_queue s TX (txFactory s <| buffer := q |>) l); try done.
    intros p' Hp'. exists (p :: l). split; [done|by right].
  - apply live_ptr_ok; [apply Hs|]. by apply (queued_live TX s).
  - split; [by apply (queued_old TX s)|]. intros d' Hin.
    pose proof (queued_set TX (txFactory s <| buffer := q |>) s l d' p Hq') as Hiff.
    apply Hiff in Hin as [[_ Hin]|[Hne Hin]]; [done|].
    by apply Hne, (queued_apart TX p s).
Qed.

(** the next chunk of any source: one that is empty, short, unreadable or larger
    than an [int] can count.  A new buffer is queued, or none. *)
Lemma updateDataSource_res f h l : store_ok h -> factory_ok f -> q_rep (buffer f) l -> is_Some (sourceData f) ->
  res_ok (fun r => store_ok r.2 /\ grows h r.2 /\ factory_ok r.1 /\ is_Some (sourceData r.1) /\
            (q_rep (buffer r.1) l \/ q_rep (buffer r.1) (l ++ [next_ptr h]) /\ live r.2 (next_ptr h)))
    (updateDataSource f h).
Proof.
  intros Hh [Hc (Hz1 & Hz2 & Hz3)] Hq [src Hsrc].
  assert (grows h h) as Hrefl by by split.
  assert (forall b, factory_ok (f <| fin := b |>)) as Hf by (by intros b; split).
  unfold updateDataSource. rewrite Hsrc. cbn [orelse mbind res_bind]. unfold _inputFromSource.
  destruct (fmode src).
  2: { cbn. split_and!; try done. by left. }
  case_match; [cbn; split_and!; try done; try apply Hf; by left|].
  destruct (readStream src _) as [[bs n] src'].
  eapply (res_ok_bind _ _ (fun _ => True)).
  { unfold buf_write. eapply (res_ok_bind _ _ (fun _ => True)); [by apply res_ok_bounds|done]. }
  intros block _. cbn [make_shared]. destruct (q_push_rep _ _ (next_ptr h) Hq) as (q & Hpush & Hq').
  match goal with |- res_ok _ (orelse BadQueue (q_push ?p (buffer ?g)) ≫= _) =>
    replace (q_push p (buffer g)) with (Some q) by (by case_match) end.
  cbn [orelse mbind res_bind res_ok fst snd].
  match goal with |- context [<[_ := ?b]>] => set (b0 := b) end.
  assert (buff_ok b0) as Hb.
  { apply pull_buff_ok. apply hdr_zero_size_ok. }
  split; [apply (store_ok_new h b0); [done|done|apply Hh]|]. split; [by apply (grows_new h b0)|]. split; [|split].
  - split; case_match; cbn; auto with safety.
  - case_match; by eexists.
  - right. split; [done|]. apply (live_fresh h b0). by eexists.
Qed.

(** ** The session's own operations *)

Lemma later_ses s f : proc_ok s -> session_ok (f (ses s)) -> later s (s <| ses ::= f |>).
Proof. intros. apply later_same; [by apply proc_ok_ses|done|by intros []]. Qed.

Lemma connection_zero_ok : connection_ok connection_zero.
Proof. unfold connection_ok, connection_zero. cbn. lia. Qed.

Lemma session_ok_insert k c ss :
  session_ok ss -> connection_ok c -> session_ok (ss <| connections ::= <[k := c]> |>).
Proof. intros [] Hc. split; cbn; try done. by apply map_Forall_insert_2. Qed.

Lemma session_ok_touch ss : session_ok ss -> session_ok (touch ss).
Proof.
  intros Hs. unfold touch. case_match; [done|]. apply session_ok_insert, connection_zero_ok. done.
Qed.

Lemma cur_ok ss : session_ok ss -> connection_ok (cur ss).
Proof.
  intros Hs. unfold cur. destruct (connections ss !! connection_count ss) as [c|] eqn:Hc.
  - apply (sess_conns _ Hs _ _ Hc).
  - apply connection_zero_ok.
Qed.

Lemma session_ok_added ss : session_ok ss -> session_ok (added ss).
Proof.
  intros Hs. unfold added. pose proof (u8_range (prevSrcid ss + 1)) as Hr.
  pose proof (session_ok_insert (connection_count ss) (mkConnection 0 (u8 (prevSrcid ss + 1)) 0 0) ss Hs) as Hi.
  destruct Hi as [? ? ? ? ? ? ?]; [unfold connection_ok; cbn; lia|].
  split; cbn in *; auto with safety.
Qed.

Lemma wp_add_connection s : proc_ok s -> wp add_connection s (fun _ => later s).
Proof.
  intros Hs. unfold wp. rewrite add_connection_eq. apply later_ses; [done|]. apply session_ok_added, Hs.
Qed.

Lemma wp_conn_params t s : proc_ok s -> wp (conn_params t) s (fun _ => later s).
Proof.
  intros Hs. unfold wp. rewrite conn_params_eq. apply later_ses; [done|]. apply session_ok_touch, Hs.
Qed.

Lemma wp_set_cur_conn f s : proc_ok s -> (forall c, connection_ok c -> connection_ok (f c)) ->
  wp (set_cur_conn f) s (fun _ => later s).
Proof.
  intros Hs Hf. unfold wp. rewrite set_cur_conn_eq. apply (later_ses s (fun ss => _)); [done|].
  apply session_ok_insert; [apply session_ok_touch, Hs|apply Hf, cur_ok, Hs].
Qed.

Lemma connection_ok_dst n c : connection_ok c -> connection_ok (c <| dst := n |>).
Proof. unfold connection_ok. cbn. pose proof (u8_range n). lia. Qed.
Lemma connection_ok_id n c : connection_ok c -> connection_ok (c <| id := n |>).
Proof. unfold connection_ok. cbn. pose proof (u16_range n). lia. Qed.

Lemma wp_set_next c s : proc_ok s -> main_code c = true -> wp (set_next c) s (fun _ => later s).
Proof.
  intros Hs Hc. apply wp_modify, (later_ses s (upd next (fun _ => c))); [done|].
  destruct (ok_ses _ Hs). by split.
Qed.

Lemma wp_winSize f s : proc_ok s -> wp (with_ses (upd winSize f)) s (fun _ => later s).
Proof.
  intros Hs. apply wp_modify, (later_ses s (upd winSize f)); [done|].
  destruct (ok_ses _ Hs). split; cbn; auto with safety.
Qed.

(** the kernel's answer to SIOCGIFCONF, if there is one, is not absurdly long *)
Definition few_interfaces : Prop :=
  match ifconf with Some l => Z.of_nat (length l) < 2 ^ 25 | None => True end.
Hypothesis Hif : few_interfaces.

Lemma getInfCount_res : res_ok (fun _ => True) getInfCount.
Proof using Hif.
  unfold few_interfaces in Hif. destruct ifconf as [l|] eqn:Hl.
  - by rewrite (getInfCount_spec l Hl Hif).
  - unfold getInfCount, _noOfInterfaces, ifconf_fuel. cbn. unfold ioctl_ifconf. by rewrite Hl.
Qed.

Lemma buf_write_res b n bs : res_ok (fun _ => True) (buf_write b n bs).
Proof. unfold buf_write. eapply (res_ok_bind _ _ (fun _ => True)); [by apply res_ok_bounds|done]. Qed.

Lemma pack_addresses_res l k : forall i b, res_ok (fun _ => True) (pack_addresses i k l b).
Proof.
  induction k as [|k IH]; intros i b; [done|]. cbn [pack_addresses].
  eapply (res_ok_bind _ _ (fun _ => True)); [by apply res_ok_bounds|]. intros a _.
  eapply (res_ok_bind _ _ (fun _ => True)); [apply buf_write_res|]. intros b' _. apply IH.
Qed.

Lemma write_interfaces_res l cap : hdr_ok (header cap) ->
  res_ok (fun cap' => hdr_ok (header cap')) (write_interfaces l cap).
Proof using Hif.
  intros Hc. unfold write_interfaces. eapply res_ok_bind; [apply getInfCount_res|]. intros n _.
  eapply res_ok_bind; [apply pack_addresses_res|]. intros b _. cbn.
  unfold hdr_ok in *. cbn in *. pose proof (u16_range (ADDR_LEN * n)). lia.
Qed.

Lemma hdr_ok_win n h : hdr_ok h -> hdr_ok (h <| capWinSiz := n |>).
Proof. unfold hdr_ok. cbn. pose proof (bitf_range 4 n). lia. Qed.

Lemma setCapParams_case_res l cap win code : hdr_ok (header cap) ->
  res_ok (fun r => hdr_ok (header r.1)) (setCapParams_case l cap win code).
Proof using Hif.
  intros Hc. pose proof (hdr_ok_win WIN_SIZ _ Hc) as Hw.
  destruct code; cbn [setCapParams_case]; try done.
  - eapply res_ok_bind; [by apply write_interfaces_res|]. done.
  - eapply res_ok_bind; [by apply write_interfaces_res|]. done.
Qed.

Lemma wp_setCapParams p pr code s : proc_ok s -> wp (setCapParams p pr code) s (fun _ => later s).
Proof using laws Hif.
  intros Hs. unfold setCapParams. apply wp_bind, wp_gets, wp_bind, wp_lift.
  unfold load. destruct (bufs (heap s) !! p) as [b|] eqn:Hb; [|done]. cbn [orelse].
  destruct (store_bufs _ (ok_store _ Hs) _ _ Hb) as [_ [_ Hd]].
  destruct (mb_data b) as [cap|]; [|by apply wp_ret, later_refl].
  apply wp_bind, wp_gets, wp_bind, wp_gets, wp_bind.
  eapply wp_res; [by apply setCapParams_case_res, Hd|]. intros [cap' win] Hc.
  apply wp_seq; [by apply wp_winSize|]. intros _ s1 H1.
  eapply wp_step; [exact H1| |].
  { apply wp_modify, (later_ses s1 (upd capsuleId (fun i => i + 1))); [apply H1|].
    destruct (ok_ses _ (proj1 H1)). split; cbn; auto with safety. }
  intros _ s2 H2 _. apply wp_write_capsule; [apply H2|by apply set_common_ok|].
  intros h Hh Hle. etrans; [exact H2|]. by apply later_heap; [apply H2|..].
Qed.

Lemma shift_loopback_count past l : forall found n, in_i32 n ->
  in_i32 (shift_loopback past found n l).2.
Proof.
  induction l as [|a l IH]; intros found n Hn; [done|]. cbn [shift_loopback].
  specialize (IH (is_loopback a || found) (if is_loopback a then i32 (n - 1) else n)).
  destruct (shift_loopback _ _ _ l). apply IH. case_match; auto with safety.
Qed.

Lemma drop_loopback_res n k found c l : in_i32 c ->
  res_ok (fun r => in_i32 r.2) (drop_loopback (read_past n k) found c l).
Proof.
  intros Hc. unfold read_past. destruct (behind n).
  - rewrite drop_loopback_shift. by apply shift_loopback_count.
  - rewrite drop_loopback_fault. by case_decide.
Qed.

Lemma peer_list_res n size bs : 0 <= size < 2 ^ 16 ->
  res_ok (fun r => in_i32 r.2) (peer_list n size bs).
Proof.
  intros Hsize. unfold peer_list. eapply (res_ok_bind _ _ (fun _ => True)).
  - pose proof (unpack_total n (Z.to_nat (size / ADDR_LEN)) 0 bs) as Hu.
    case_decide; [by destruct Hu as (l & -> & _)|by rewrite Hu].
  - intros l _. apply drop_loopback_res. unfold in_i32, ADDR_LEN. mod_lia.
Qed.

Lemma wp_read_peer_list cap s : proc_ok s -> hdr_ok (header cap) ->
  wp (read_peer_list cap) s (fun _ => later s).
Proof using laws.
  intros Hs Hc. unfold read_peer_list. apply wp_bind, wp_gets, wp_bind.
  eapply wp_res; [apply peer_list_res; apply Hc|]. intros [l n] Hn.
  apply wp_seq; [apply wp_modify, later_heap; [done|by destruct (ok_store _ Hs)|]|].
  { split; [by split; eauto|done]. }
  intros _ s1 H1. apply wp_bind, wp_modify, wp_modify. etrans; [exact H1|].
  apply (later_gw s1 (gw s1 <| peer_addressList := Some l |> <| peer_addressCount := n |>)); [apply H1|].
  destruct (ok_gw _ (proj1 H1)). by split.
Qed.

Lemma wp_window_insert k p s : proc_ok s -> 0 <= k < 2 ^ 16 -> ptr_ok (heap s) p ->
  wp (modify (upd rxcurrentWindow (om_insert k p))) s (fun _ s' => later s s' /\ rxFactory s' = rxFactory s).
Proof.
  intros Hs Hk Hp. apply wp_modify. split; [|done]. apply later_same; [|done|by intros []].
  apply (proc_ok_window s (om_insert k p (rxcurrentWindow s))); [done|].
  by apply window_ok_insert; [apply Hs|..].
Qed.

Lemma wp_set_fin s : proc_ok s ->
  wp (modify (upd rxFactory (upd fin (fun _ => true)))) s (fun _ => later s).
Proof.
  intros Hs. apply wp_modify. destruct (ok_fac _ Hs RX) as [Hc Hz].
  by apply (later_factory s RX (rxFactory s <| fin := true |>)).
Qed.

Lemma wp_process p code s : proc_ok s -> ptr_ok (heap s) p -> wp (process p code) s (fun _ => later s).
Proof using laws.
  intros Hs Hp. unfold process. apply wp_bind, wp_read_capsule; [done..|]. intros cap Hc.
  case_match; [|by apply wp_ret, later_refl].
  destruct code; try by apply wp_ret, later_refl.
  - by apply wp_read_peer_list.
  - apply wp_seq; [by apply wp_winSize|]. intros _ s1 H1. eapply wp_last; [exact H1|].
    apply wp_read_peer_list; [apply H1|done].
  - apply wp_seq.
    { case_match; [|by apply wp_ret, later_refl].
      eapply wp_mono; [by apply wp_window_insert; [|apply Hc|]|]. by intros _ s1 [H1 _]. }
    intros _ s1 H1. case_match; [|by apply wp_ret].
    eapply wp_last; [exact H1|]. apply wp_set_fin, H1.
Qed.

(** ** The states *)

Lemma wp_sendState c d p s : proc_ok s -> ptr_ok (heap s) p -> wp (sendState c d p) s (fun _ => later s).
Proof. intros Hs Hp. destruct d; [by apply wp_send|by apply wp_chunkWrite]. Qed.

(** in every state but [open] a buffer is pulled, which fills the queue *)
Lemma wp_receiveState c d p s : c <> s_open -> proc_ok s ->
  wp (receiveState c d p) s (fun _ s' => later s s' /\ filled s').
Proof.
  intros Hc Hs. unfold receiveState. rewrite decide_False by done.
  apply wp_bind, wp_pull; [done|]. intros res s1 H1 Hp Hf. apply wp_bind, wp_gets, wp_bind, wp_lift.
  unfold load. destruct (bufs (heap s1) !! res) as [b|] eqn:Hb; [|done]. cbn [orelse].
  destruct (store_bufs _ (ok_store _ (proj1 H1)) _ _ Hb) as [_ [_ Hd]].
  destruct (mb_data b) as [cap|]; [|apply wp_exit]. case_match; [|by apply wp_ret].
  eapply wp_mono; [apply wp_window_insert; [apply H1|by apply (Hd cap)|done]|].
  intros _ s2 [H2 Hrx]. split; [by etrans|]. unfold filled. by rewrite Hrx.
Qed.

(** hear a capsule, process it, and change the connection *)
Lemma wp_hear code (f : capsule -> connection -> connection) s : proc_ok s -> filled s ->
  (forall cap c, connection_ok c -> connection_ok (f cap c)) ->
  wp (with_popped (fun p => process p code;; cap ← read_capsule p; set_cur_conn (f cap))) s
    (fun _ => later s).
Proof using laws.
  intros Hs Hfill Hf. apply wp_with_popped; [done..|]. intros p s1 H1 Hp.
  apply wp_seq; [by apply wp_process|]. intros _ s2 H2.
  apply wp_bind, wp_read_capsule; [apply H2|eapply ptr_ok_le; [apply H2|done]|]. intros cap _.
  eapply wp_last; [exact H2|]. apply wp_set_cur_conn; [apply H2|apply Hf].
Qed.

(** announce: a new buffer becomes a capsule, is sent and discarded *)
Lemma wp_tell t code c d p s : proc_ok s -> ptr_ok (heap s) p ->
  wp (pr ← conn_params t; setCapParams p pr code;; sendState c d p;; discard_popped TX) s
    (fun _ => later s).
Proof using laws Hif.
  intros Hs Hp. apply wp_seq; [by apply wp_conn_params|]. intros pr s1 H1.
  eapply wp_step; [exact H1|apply wp_setCapParams, H1|]. intros _ s2 H2 _.
  eapply wp_step; [exact H2|apply wp_sendState; [apply H2|eapply ptr_ok_le; [apply H2|done]]|].
  intros _ s3 H3 _. eapply wp_last; [exact H3|]. apply wp_discard_popped, H3.
Qed.

(** the end of a state *)
Lemma wp_then_next (m : Mp unit) c s : proc_ok s -> main_code c = true ->
  wp m s (fun _ => later s) -> wp (m;; set_next c) s (fun _ => later s).
Proof.
  intros Hs Hc Hm. apply wp_seq; [done|]. intros _ s1 H1. eapply wp_last; [exact H1|].
  by apply wp_set_next; [apply H1|].
Qed.

Lemma wp_openState p s : proc_ok s -> wp (openState s_open Dir p) s (fun _ => later s).
Proof using laws Hif.
  intros Hs. apply wp_then_next; [done..|]. destruct Dir eqn:HD.
  - apply wp_seq; [by apply wp_add_connection|]. intros _ s1 H1.
    apply wp_bind, wp_newBuffer; [apply H1|]. intros q s2 H2 Hq Hf. specialize (Hf eq_refl).
    apply wp_bind. unfold receiveState. rewrite decide_True by done.
    apply wp_receive; [apply H2|done|]. intros s3 H3 Hrx. eapply wp_last; [do 2 (etrans; [eassumption|]); exact H3|].
    apply (wp_hear s_open (fun cap => upd dst (fun _ => srcid (header cap)))); [apply H3| |].
    + unfold filled. by rewrite Hrx.
    + intros cap c. apply connection_ok_dst.
  - apply wp_bind, wp_newBuffer; [done|]. intros q s1 H1 Hq _.
    eapply wp_step; [exact H1|apply wp_add_connection, H1|]. intros _ s2 H2 H12.
    eapply wp_last; [exact H2|]. apply wp_tell; [apply H2|]. eapply ptr_ok_le; [apply H12|done].
Qed.

Lemma wp_setupState p s : proc_ok s -> wp (setupState s_setup Dir p) s (fun _ => later s).
Proof using laws Hif.
  intros Hs. apply wp_then_next; [done..|]. destruct Dir eqn:HD.
  - apply wp_bind, wp_newBuffer; [done|]. intros q s1 H1 Hq _.
    eapply wp_last; [exact H1|]. by apply wp_tell; [apply H1|].
  - apply wp_bind. eapply wp_mono; [by apply wp_receiveState|]. intros _ s1 [H1 Hf].
    eapply wp_last; [exact H1|].
    apply (wp_hear s_setup (fun cap => upd dst (fun _ => srcid (header cap)))); [apply H1|done|].
    intros cap c. apply connection_ok_dst.
Qed.

Lemma wp_connectedState p s : proc_ok s -> wp (connectedState s_connected Dir p) s (fun _ => later s).
Proof using laws Hif.
  intros Hs. apply wp_then_next; [done..|]. destruct Dir eqn:HD.
  - apply wp_bind. eapply wp_mono; [by apply wp_receiveState|]. intros _ s1 [H1 Hf].
    eapply wp_last; [exact H1|].
    apply (wp_hear s_connected (fun cap => upd id (fun _ => connid (header cap)))); [apply H1|done|].
    intros cap c. apply connection_ok_id.
  - apply wp_seq.
    { unfold wp. rewrite genConnId_eq. apply (later_ses s (upd prevConnid (fun n => n + 1))); [done|].
      destruct (ok_ses _ Hs). split; cbn; auto with safety. }
    intros i s1 H1. eapply wp_step; [exact H1|apply wp_set_cur_conn; [apply H1|intros c; apply connection_ok_id]|].
    intros _ s2 H2 _. apply wp_bind, wp_newBuffer; [apply H2|]. intros q s3 H3 Hq _.
    eapply wp_last; [etrans; [exact H2|exact H3]|]. by apply wp_tell; [apply H3|].
Qed.

(** [updateDataSource] on the process *)
Lemma later_update s f h l : proc_ok s -> q_rep (buffer (txFactory s)) l ->
  store_ok h -> grows (heap s) h -> factory_ok f ->
  (is_Some (sourceData f) <-> is_Some (sourceData (txFactory s))) ->
  q_rep (buffer f) l \/ q_rep (buffer f) (l ++ [next_ptr (heap s)]) /\ live h (next_ptr (heap s)) ->
  later s (s <| txFactory := f |> <| heap := h |>).
Proof.
  intros Hs Hl Hh Hle Hf Hsrc Hq. pose proof (later_heap s h Hs Hh Hle) as Hsh.
  destruct (ok_queue _ Hs TX) as (l0 & Hl0 & Hnd & Hlive). rewrite (q_rep_unique _ _ _ Hl0 Hl) in Hnd, Hlive.
  assert (forall p, p ∈ l -> queued TX s p) as Hin by (by exists l).
  change (later s (set_factory TX f (s <| heap := h |>))).
  destruct Hq as [Hq|[Hq Hnew]].
  { etrans; [exact Hsh|]. apply (later_queue (s <| heap := h |>) TX f l); try done; apply Hsh. }
  assert (forall d p, queued d s p -> p <> next_ptr (heap s)) as Hold.
  { intros d p Hp ->. pose proof (queued_old d s _ Hs Hp). lia. }
  split; [apply (proc_ok_factory (s <| heap := h |>) TX f (l ++ [next_ptr (heap s)])); try done|].
  - apply Hsh.
  - apply NoDup_app. split; [done|]. split; [|apply NoDup_singleton].
    intros p Hp ->%list_elem_of_singleton. by apply (Hold TX _ (Hin _ Hp)).
  - apply Forall_app. split; [|by apply Forall_singleton]. eapply Forall_impl; [exact Hlive|]. apply Hle.
  - intros p [] [Hp| ->%list_elem_of_singleton]%elem_of_app Hne Hqp; try done.
    + by apply (ok_apart _ Hs p (Hin _ Hp)).
    + by apply (Hold RX (next_ptr (heap s))).
  - split; [apply Hle|]. intros d p Hlt Hp.
    apply (queued_set TX f (s <| heap := h |>) (l ++ [next_ptr (heap s)]) d p Hq) in Hp
      as [[-> [Hp| ->%list_elem_of_singleton]%elem_of_app]|[Hne Hp]]; [by apply Hin|lia|by destruct d].
Qed.

Lemma wp_submit_TX s : Dir = TX -> proc_ok s -> wp (submit_TX s_closed) s (fun _ => later s).
Proof using laws Hif.
  intros HD Hs. destruct (ok_queue _ Hs TX) as (l & Hl & _).
  unfold submit_TX. apply wp_bind, wp_gets, wp_bind, wp_gets, wp_bind.
  eapply wp_res; [apply (updateDataSource_res _ _ l); [apply Hs|exact (ok_fac _ Hs TX)|exact Hl|]|].
  { exact (proj2 (ok_source _ Hs TX) (eq_sym HD)). }
  intros [f h] (Hh & Hle & Hf & Hsrc & Hq). cbn [fst snd] in *. apply wp_bind, wp_modify, wp_bind, wp_modify.
  assert (later s (s <| txFactory := f |> <| heap := h |>)) as H1.
  { apply (later_update s f h l); try done. split; [|done]. intros _. exact (proj2 (ok_source _ Hs TX) (eq_sym HD)). }
  apply wp_bind, wp_constructChunk; [apply H1|]. intros p s2 H2 Hp Hun.
  apply wp_bind, wp_gets. destruct (ok_queue _ (proj1 H2) TX) as (l2 & Hl2 & _). cbn [factory_of] in Hl2.
  apply wp_bind, wp_lift. rewrite (q_isEmpty_rep _ _ Hl2). cbn [orelse].
  assert (later s s2) as H12 by by etrans.
  eapply wp_step; [exact H12| |].
  { case_match; [|by apply wp_ret, later_refl, H2].
    apply wp_bind, wp_read_capsule; [apply H2|done|]. intros cap Hc.
    apply wp_bind, wp_write_capsule; [apply H2|by apply hdr_flags_ok|]. intros h3 Hh3 Hle3.
    pose proof (later_heap _ h3 (proj1 H2) Hh3 Hle3) as H3.
    eapply wp_last; [exact H3|]. apply wp_winSize, H3. }
  intros _ s3 H3 H23. assert (ptr_ok (heap s3) p) as Hp3 by (eapply ptr_ok_le; [apply H23|done]).
  eapply wp_step; [exact H3|apply wp_conn_params, H3|]. intros pr s4 H4 H34.
  eapply wp_step; [exact H4|apply wp_presentation_params; [apply H4|eapply ptr_ok_le; [apply H34|done]]|].
  intros _ s5 H5 H45. eapply wp_step; [exact H5|apply wp_setCapParams, H5|]. intros _ s6 H6 H56.
  assert (later s3 s6) as H36 by (etrans; [exact H34|]; by etrans).
  eapply wp_step; [exact H6|apply wp_sendState; [apply H6|eapply ptr_ok_le; [apply H36|done]]|].
  intros _ s7 H7 H67. eapply wp_last; [exact H7|]. apply wp_release; [apply H7|].
  eapply unqueued_later; [|exact Hun]. etrans; [exact H23|]. by etrans.
Qed.

Lemma window_rbegin_ok h w p : window_ok h w -> om_rbegin w = Some p -> ptr_ok h p.
Proof.
  intros [_ _ Hp] Hl. unfold om_rbegin in Hl. apply fmap_Some in Hl as (e & He & ->).
  rewrite Forall_forall in Hp. apply Hp. apply list_elem_of_fmap. exists e. split; [done|].
  by apply last_Some_elem_of.
Qed.

Lemma wp_submit_RX cb s : proc_ok s -> wp (submit_RX s_closed cb) s (fun _ => later s).
Proof using laws.
  intros Hs. unfold submit_RX. apply wp_bind. eapply wp_mono; [by apply wp_new_memBuff|].
  intros buf s1 [H1 Hun]. apply wp_bind.
  eapply wp_mono; [apply wp_receiveState; [done|apply H1]|]. intros _ s2 [H2 _].
  apply wp_bind, wp_gets. pose proof (unqueued_later _ _ _ H2 Hun) as Hun2. assert (later s s2) as H12 by by etrans.
  eapply wp_step; [exact H12| |].
  2: { intros _ s3 H3 H23. eapply wp_last; [exact H3|]. apply wp_release; [apply H3|by eapply unqueued_later]. }
  destruct (om_rbegin (rxcurrentWindow s2)) as [p|] eqn:Hr; [|by apply wp_ret, later_refl, H2].
  pose proof (window_rbegin_ok _ _ _ (ok_window _ (proj1 H2)) Hr) as Hp.
  apply wp_seq; [by apply wp_process; [apply H2|]|]. intros _ s3 H3.
  apply wp_bind, wp_gets. eapply wp_step; [exact H3| |].
  { case_match; [by apply wp_winSize, H3|by apply wp_ret, later_refl, H3]. }
  intros _ s4 H4 H34. apply wp_bind, wp_read_capsule; [apply H4| |].
  { eapply ptr_ok_le; [etrans; [apply H3|apply H34]|done]. }
  intros cap _. case_match; [|by apply wp_ret].
  apply wp_bind, wp_gets, wp_bind, wp_lift. unfold load.
  destruct (bufs (heap s4) !! cb) as [b|] eqn:Hb; [|done]. cbn [orelse].
  destruct (store_bufs _ (ok_store _ (proj1 H4)) _ _ Hb) as [_ [_ Hd]].
  destruct (mb_data b) as [c|]; [|by apply wp_ret].
  apply wp_write_capsule; [apply H4|by apply hdr_flags_ok, Hd|]. intros h Hh Hle.
  etrans; [exact H4|]. by apply later_heap; [apply H4|..].
Qed.

Lemma wp_closed_loop cb fuel : forall s, proc_ok s ->
  wp (closed_loop fuel s_closed Dir cb) s (fun _ => later s).
Proof using laws Hif.
  induction fuel as [|fuel IH]; intros s Hs; cbn [closed_loop]; apply wp_bind, wp_gets;
    (case_match; [|by apply wp_ret, later_refl]); [apply wp_out_of_fuel|].
  apply wp_seq.
  { destruct Dir eqn:HD; [by apply wp_submit_TX|by apply wp_submit_RX]. }
  intros _ s1 H1. apply wp_bind, wp_gets. eapply wp_step; [exact H1| |].
  { case_match; [by apply wp_ret, later_refl, H1|apply wp_winSize, H1]. }
  intros _ s2 H2 _. eapply wp_last; [exact H2|]. apply IH, H2.
Qed.

Lemma wp_closedState p s : proc_ok s -> wp (closedState s_closed Dir p) s (fun _ => later s).
Proof using laws Hif.
  intros Hs. unfold closedState. apply wp_bind, wp_gets, wp_seq; [by apply wp_closed_loop|].
  intros _ s1 H1. apply wp_bind, wp_gets, wp_bind, wp_lift. unfold workdone.
  rewrite (q_isEmpty_rep _ _ (ok_pool _ (proj1 H1))). cbn [orelse]. rewrite bool_decide_true by done.
  eapply wp_last; [exact H1|]. apply wp_set_next; [apply H1|done].
Qed.

Lemma wp_pop_window n : forall s, proc_ok s -> wp (pop_window n) s (fun _ => later s).
Proof.
  induction n as [|n IH]; intros s Hs; [by apply wp_ret, later_refl|]. cbn [pop_window].
  apply wp_seq; [by apply wp_discard_popped|]. intros _ s1 H1. eapply wp_last; [exact H1|].
  apply IH, H1.
Qed.

Lemma wp_next_window b s : proc_ok s -> wp (next_window b) s (fun _ => later s).
Proof.
  intros Hs. destruct b; cbn [next_window]; [by apply wp_set_next|].
  apply wp_then_next; [done..|]. by apply wp_winSize.
Qed.

Lemma wp_doneState p s : proc_ok s -> wp (doneState s_done Dir p) s (fun _ => later s).
Proof using laws Hif.
  intros Hs. unfold doneState. apply wp_seq.
  2: { intros _ s1 H1. eapply wp_step; [exact H1| |].
    { apply wp_modify, (later_ses s1 (upd is_done (fun _ => true))); [apply H1|].
      destruct (ok_ses _ (proj1 H1)). by split. }
    intros _ s2 H2 _. eapply wp_last; [exact H2|].
    apply wp_modify, (later_ses s2 (upd complete (fun _ => true))); [apply H2|].
    destruct (ok_ses _ (proj1 H2)). by split. }
  destruct Dir eqn:HD.
  - apply wp_bind. eapply wp_mono; [by apply wp_receiveState|]. intros _ s1 [H1 Hf].
    eapply wp_last; [exact H1|]. apply wp_with_popped; [apply H1|done|]. intros q s2 H2 Hq.
    apply wp_seq; [by apply wp_process|]. intros _ s3 H3. apply wp_bind, wp_gets.
    eapply wp_last; [exact H3|]. apply wp_next_window, H3.
  - apply wp_bind, wp_gets, wp_bind, wp_gets, wp_seq; [apply wp_write_window; [done..|apply Hs]|].
    intros _ s1 H1. apply wp_bind, wp_newBuffer; [apply H1|]. intros q s2 H2 Hq _.
    assert (later s s2) as H12 by by etrans.
    eapply wp_step; [exact H12|apply wp_pop_window, H2|]. intros _ s3 H3 H23.
    eapply wp_step; [exact H3| |].
    { apply wp_modify, later_same; [|done|by intros []].
      apply (proc_ok_window s3 []); [apply H3|apply window_ok_nil]. }
    intros _ s4 H4 H34. eapply wp_step; [exact H4|apply wp_conn_params, H4|]. intros pr s5 H5 H45. cbv zeta.
    eapply wp_step; [exact H5|apply wp_setCapParams, H5|]. intros _ s6 H6 H56.
    eapply wp_step; [exact H6|apply wp_sendState; [apply H6|]|].
    { eapply ptr_ok_le; [etrans; [apply H23|etrans; [apply H34|etrans; [apply H45|apply H56]]]|done]. }
    intros _ s7 H7 _. apply wp_bind, wp_gets. eapply wp_last; [exact H7|]. apply wp_next_window, H7.
Qed.

(** ** The session *)

Lemma wp_states p s : proc_ok s ->
  wp (states (next (ses s)) (next (ses s)) Dir p) s (fun _ => later s).
Proof using laws Hif.
  intros Hs. pose proof (sess_next _ (ok_ses _ Hs)) as Hc. destruct (next (ses s)); try done.
  - by apply wp_openState.
  - by apply wp_setupState.
  - by apply wp_connectedState.
  - by apply wp_closedState.
  - by apply wp_doneState.
Qed.

Lemma wp_start_loop p fuel : forall s, proc_ok s -> wp (start_loop fuel Dir p) s (fun _ => later s).
Proof using laws Hif.
  induction fuel as [|fuel IH]; intros s Hs; cbn [start_loop]; apply wp_bind, wp_gets;
    (case_match; [|by apply wp_ret, later_refl]); [apply wp_out_of_fuel|].
  apply wp_seq; [apply wp_bind, wp_gets; by apply wp_states|].
  intros _ s1 H1. eapply wp_last; [exact H1|]. apply IH, H1.
Qed.

Lemma wp_start fuel s : proc_ok s -> wp (start fuel Dir) s (fun _ => later s).
Proof using laws Hif.
  intros Hs. unfold start. apply wp_bind. eapply wp_mono; [by apply wp_new_memBuff|].
  intros p s1 [H1 Hun]. apply wp_bind, wp_gets. eapply wp_step; [exact H1| |].
  { case_match; [by apply wp_set_next; [apply H1|]|by apply wp_ret, later_refl, H1]. }
  intros _ s2 H2 H12. eapply wp_step; [exact H2|apply wp_start_loop, H2|].
  intros _ s3 H3 H23. eapply wp_last; [exact H3|]. apply wp_release; [apply H3|].
  eapply unqueued_later; [|exact Hun]. by etrans.
Qed.

(** C5: whatever the network does, the state function that [Session::start]
    calls next keeps the process well formed: the fields of all headers, of the
    connections and of the counters stay within their widths, the window stays
    sorted, and the two queues hold buffers that have not been freed and have
    data, none of them twice and none in both.  No buffer that was freed or lost
    its data comes back, and none that left the queues returns to one. *)
Theorem states_keep_ok p s tr s' : proc_ok s ->
  runs (states (next (ses s)) (next (ses s)) Dir p s) tr (Ret tt s') ->
  proc_ok s' /\ heap_le (heap s) (heap s') /\
  forall d q, (q < next_ptr (heap s))%nat -> queued d s' q -> queued d s q.
Proof using laws Hif. intros Hs Hr. exact (wp_runs _ _ _ _ _ (wp_states p s Hs) Hr eq_refl). Qed.

(** C6: whatever the network does, a session that starts in a well-formed process
    ends in one, terminates the process with status 1, or faults in one of four
    ways: it uses a freed buffer of the window, accesses memory behind a block,
    divides by an empty address list, or writes a negative count.  It never
    dereferences a null pointer, reads an uninitialised size, breaks a queue or
    spins. *)
Theorem session_faults fuel s tr p : proc_ok s ->
  runs (start fuel Dir s) tr p -> final p = true ->
  match p with
  | Ret _ s' => proc_ok s'
  | Fault e => e = UseAfterFree \/ e = OutOfBounds \/ e = DivByZero \/ e = NegativeCount
  | Exit c _ => c = 1
  | _ => True
  end.
Proof using laws Hif.
  intros Hs Hr Hf. pose proof (wp_runs _ _ _ _ _ (wp_start fuel s Hs) Hr Hf) as Hp.
  destruct p as [[] s'| | | |e|]; cbn in Hp; try done; [apply Hp|].
  destruct e; try discriminate Hp; auto.
Qed.

End Process.

(** ** What [run] builds is well formed *)

Section Run.
Context {Q : Type} {fifo : Fifo Q ptr} {laws : FifoLaws Q ptr} {mal : Malloc} {os : OS}.

Lemma factory_new_ok siz : factory_ok (DataFactory_new (Q:=Q) siz).
Proof. split; cbn; [apply in_i32_i32|unfold in_i32; lia]. Qed.

Lemma run_ok hw (io : io_context Q) s : run hw io = Done s ->
  factory_ok (txFac io) -> factory_ok (rxFac io) -> q_rep (buffer (txFac io)) [] ->
  q_rep (buffer (rxFac io)) [] -> (forall d, is_Some (sourceData (match d with TX => txFac io | RX => rxFac io end)) <-> d = dir io) ->
  proc_ok (dir io) s.
Proof.
  intros Hrun Hft Hfr Ht Hr Hsrc. unfold run in Hrun.
  destruct (gateway_new (io_peer io) 0) as [g| |] eqn:Hg; try done. injection Hrun as <-.
  split; cbn [heap txFactory rxFactory rxcurrentWindow gw ses pool].
  - split; cbn; [|lia]. intros p b Hb. by rewrite lookup_empty in Hb.
  - by intros [].
  - intros []; exists []; split_and!; done || constructor.
  - intros p (l & Hl & Hp). rewrite (q_rep_unique _ _ _ Hl Ht) in Hp. by apply not_elem_of_nil in Hp.
  - intros []; [exact (Hsrc TX)|exact (Hsrc RX)].
  - apply window_ok_nil.
  - unfold gateway_new in Hg. destruct (ifc_new 0); try done. cbn in Hg.
    destruct _noOfInterfaces; try done. cbn in Hg.
    destruct (interfacesToIpV4addr 1) as [[n l]| |]; try done. injection Hg as <-.
    split; cbn; unfold in_i32; try split; lia.
  - split; cbn; unfold in_i32; try lia. apply map_Forall_empty.
  - apply q_new_rep.
Qed.

(** the two contexts of the programs *)
Lemma server_io_ok hw file peer fd s : run hw (server_io file peer fd) = Done s -> proc_ok TX s.
Proof.
  intros Hr. apply (run_ok hw (server_io file peer fd) s Hr).
  - destruct (factory_new_ok ALLOC_SIZE). by split.
  - apply factory_new_ok.
  - apply q_new_rep.
  - apply q_new_rep.
  - by intros []; cbn; split.
Qed.

Lemma client_io_ok hw peer fd s : run hw (client_io peer fd) = Done s -> proc_ok RX s.
Proof.
  intros Hr. apply (run_ok hw (client_io peer fd) s Hr).
  - apply factory_new_ok.
  - destruct (factory_new_ok ALLOC_SIZE). by split.
  - apply q_new_rep.
  - apply q_new_rep.
  - by intros []; cbn; split.
Qed.

(** a session leaves one of its factories without a source *)
Lemma destroy_null {plat : Platform} Dir s : null_member = false -> proc_ok Dir s ->
  destroy s = Fault NullDeref.
Proof.
  intros Hn Hs. pose proof (ok_source _ _ Hs TX) as Ht. pose proof (ok_source _ _ Hs RX) as Hr.
  cbn in Ht, Hr. unfold destroy, DataFactory_destroy. m_unfold. rewrite Hn.
  destruct (sourceData (txFactory s)) as [d|]; cbn [lift pbind]; [|done].
  destruct (sourceData (rxFactory s)) as [d'|]; cbn [lift pbind]; [|done].
  exfalso. assert (TX = Dir) as <- by (apply Ht; by eexists). assert (RX = TX) by (apply Hr; by eexists). done.
Qed.

(** C14: on a platform where a call through a null pointer faults, no session
    returns to its caller, be it the server's or the client's, and whatever the
    network does: when the session is over, [destroy] is called through the
    [sourceData] of the factory that has none. *)
Theorem strict_never_returns {plat : Platform} fuel hw file peer fd tr s :
  null_member = false -> few_interfaces ->
  ~ runs (udm_start fuel hw (server_io file peer fd)) tr (Ret tt s) /\
  ~ runs (udm_start fuel hw (client_io peer fd)) tr (Ret tt s).
Proof.
  intros Hn Hif.
  assert (forall Dir p, proc_ok Dir p -> ~ runs ((start fuel Dir;; destroy) p) tr (Ret tt s)) as Hnone.
  { intros Dir p Hp Hr. apply runs_bind_inv in Hr as (tr1 & tr2 & [] & s1 & -> & H1 & H2).
    pose proof (wp_runs _ _ _ _ _ (wp_start Dir Hif fuel p Hp) H1 eq_refl) as [Hs1 _].
    rewrite (destroy_null Dir s1 Hn Hs1) in H2. inversion H2 as [|? ? ? ? ? Hs]. inversion Hs. }
  assert (forall (io : io_context Q), (forall p, run hw io = Done p -> proc_ok (dir io) p) ->
    ~ runs (udm_start fuel hw io) tr (Ret tt s)) as Hio.
  { intros io Hok Hr. unfold udm_start in Hr. destruct (run hw io) as [p|c|e].
    - by apply (Hnone (dir io) p (Hok p eq_refl)).
    - inversion Hr as [|? ? ? ? ? Hs]. inversion Hs.
    - inversion Hr as [|? ? ? ? ? Hs]. inversion Hs. }
  split; apply Hio; intros p; [apply server_io_ok|apply client_io_ok].
Qed.

End Run.

(** ** Every listed fault is reached *)

#[local] Existing Instances Linked.linked_fifo Linked.linked_laws.

(** a client with chunks of 64 bytes, on a host without interfaces of its own *)
Definition attacked (answers : list recv_result) : prog (proc buffer_queue) unit :=
  (feed (@start buffer_queue Linked.linked_fifo demo_malloc demo_offline 8 RX (machine_host RX)) answers).2.

(** the answer to the hello, with [size] and the type [t]; a payload capsule; and
    the ten bytes of a header that ends after its flags *)
Definition answer_hi (size t : Z) (bs : list byte) : recv_result :=
  RecvOk server_addr (encode_hdr (mkHdr 0 0 0 9 size t 0 0 0 0) ++ bs).
Definition answer_payload (cid : Z) : recv_result :=
  RecvOk server_addr (encode_hdr (mkHdr 0 0 1 cid 1 3 0 0 0 0) ++ [Byte.x41]).
Definition answer_runt : recv_result :=
  RecvOk server_addr (take 10 (encode_hdr (mkHdr 0 0 1 1 1 3 0 0 1 0))).

Definition attack (e : fault) : list recv_result :=
  match e with
  | OutOfBounds => [answer_hi 60 0 []]
  | DivByZero => [answer_hi 0 0 []]
  | UseAfterFree => [answer_hi 15 3 (lan_addr ++ replicate 7 NUL); answer_payload 1]
  | NegativeCount => [answer_hi 15 0 (lan_addr ++ replicate 7 NUL); answer_runt]
  | _ => []
  end.

Lemma machine_host_ok : proc_ok RX (machine_host RX).
Proof.
  split; cbn [heap txFactory rxFactory rxcurrentWindow gw ses pool machine_host].
  - split; cbn; [|lia]. intros p b Hb. apply lookup_singleton_Some in Hb as [<- <-].
    split; [lia|]. by split; [eexists|].
  - intros []; split; cbn; try apply in_i32_i32; unfold in_i32; lia.
  - intros []; exists []; (split; [apply Linked.threadsafe_queue_rep|split; constructor]).
  - intros p (l & Hl & Hp). rewrite (q_rep_unique _ l [] Hl (Linked.threadsafe_queue_rep _)) in Hp.
    by apply not_elem_of_nil in Hp.
  - by intros []; cbn; split.
  - apply window_ok_nil.
  - split; cbn; unfold in_i32; try split; lia.
  - split; cbn; unfold in_i32; try lia. apply map_Forall_empty.
  - apply Linked.threadsafe_queue_rep.
Qed.

(** C13: the list of the faults a network can provoke is exact: each is reached by
    that client, when the first answers it gets are not the server's, and no
    other fault is, whatever the answers. *)
Theorem fault_reached e :
  (e = UseAfterFree \/ e = OutOfBounds \/ e = DivByZero \/ e = NegativeCount) <->
  exists answers, attacked answers = Fault e.
Proof.
  split.
  - intros He. exists (attack e). destruct He as [->|[->|[->| ->]]]; vm_compute; reflexivity.
  - intros [answers Ha].
    assert (wp (@start buffer_queue Linked.linked_fifo demo_malloc demo_offline 8 RX) (machine_host RX)
      (fun _ => later RX (machine_host RX))) as Hw.
    { apply wp_start; [|apply machine_host_ok]. unfold few_interfaces. cbn. lia. }
    pose proof (wp_runs _ _ _ _ _ Hw (feed_runs _ answers)) as Hp. unfold attacked in Ha.
    rewrite Ha in Hp. specialize (Hp eq_refl). cbn in Hp. destruct e; try discriminate Hp; auto.
Qed.

(** the opening state of that client *)
Definition opening : prog (proc buffer_queue) unit :=
  @states buffer_queue Linked.linked_fifo demo_malloc demo_offline s_open s_open RX 0%nat (machine_host RX).

Lemma states_keep_ok_witness :
  exists tr s', runs opening tr (Ret tt s') /\ proc_ok RX s' /\ heap_le (heap (machine_host RX)) (heap s') /\
    forall d q, (q < next_ptr (heap (machine_host RX)))%nat -> queued d s' q -> queued d (machine_host RX) q.
Proof.
  exists (feed opening []).1, (match (feed opening []).2 with Ret _ s => s | _ => machine_host RX end).
  assert (runs opening (feed opening []).1
    (Ret tt (match (feed opening []).2 with Ret _ s => s | _ => machine_host RX end))) as Hr.
  { eapply eq_rect; [apply feed_runs|]. vm_compute. reflexivity. }
  split; [exact Hr|].
  apply (states_keep_ok (mal:=demo_malloc) (os:=demo_offline) RX ltac:(done) 0%nat (machine_host RX)
    (feed opening []).1); [exact machine_host_ok|exact Hr].
Defined.

Lemma session_faults_witness :
  final (attacked (attack UseAfterFree)) = true /\
  match attacked (attack UseAfterFree) with
  | Ret _ s' => proc_ok RX s'
  | Fault e => e = UseAfterFree \/ e = OutOfBounds \/ e = DivByZero \/ e = NegativeCount
  | Exit c _ => c = 1
  | _ => True
  end.
Proof.
  split; [vm_compute; reflexivity|].
  apply (session_faults (mal:=demo_malloc) (os:=demo_offline) RX ltac:(done) 8 (machine_host RX)
    (feed (@start buffer_queue Linked.linked_fifo demo_malloc demo_offline 8 RX (machine_host RX))
       (attack UseAfterFree)).1).
  - exact machine_host_ok.
  - unfold attacked. apply feed_runs.
  - vm_compute. reflexivity.
Defined.

(** a session of the demonstration host, on the platform of the C++ standard *)
Lemma strict_never_returns_witness :
  ~ runs (@udm_start buffer_queue Linked.linked_fifo demo_malloc demo_os strict_platform 5 4
            (server_io demo_file client_addr 3)) [] (Ret tt (machine_host TX)) /\
  ~ runs (@udm_start buffer_queue Linked.linked_fifo demo_malloc demo_os strict_platform 5 4
            (client_io client_addr 3)) [] (Ret tt (machine_host TX)).
Proof.
  apply (strict_never_returns (mal:=demo_malloc) (os:=demo_os) (plat:=strict_platform) 5 4 demo_file client_addr 3
    [] (machine_host TX)); [done|]. unfold few_interfaces. cbn. lia.
Defined.
