(* ===== verification/Status.v ===== *)
(** * How the client's program ends (udmuser_cl.cpp)

    The branches of the client's [main], one by one, and the statuses it can end
    with, whatever the network does.  The second part needs that a session ends
    the process with status 1 or not at all (Safety.v). *)

From S2P Require Import Prelude Wire OrdMap Queue Stream Program Platform Factory Interfaces Strings.
From S2P Require Import Pool State Gateway Presentation Session SessionFacts.
From S2P Require Import ClientRun ServerRun Handshake Network Transfer UserApi Main Concrete Safety.

(** ** Code that ends the process with status 1 or not at all *)

Definition exits_one {A} (r : res A) : Prop := match r with Exits c => c = 1 | _ => True end.

Lemma exits_bind {A B} (r : res A) (f : A -> res B) :
  exits_one r -> (forall a, exits_one (f a)) -> exits_one (r ≫= f).
Proof. destruct r; cbn; auto. Qed.

Lemma exits_orelse {A} e (o : option A) : exits_one (orelse e o).
Proof. by destruct o. Qed.

Lemma done_bind {A B} (r : res A) (f : A -> res B) b :
  r ≫= f = Done b -> exists a, r = Done a /\ f a = Done b.
Proof. destruct r; cbn; try done. eauto. Qed.

Create HintDb exits.
#[local] Hint Resolve exits_bind exits_orelse : exits.

Section Exits.
Context {Q : Type} {fifo : Fifo Q ptr} {laws : FifoLaws Q ptr} {mal : Malloc} {os : OS}.

Lemma exits_int_mul a b : exits_one (int_mul a b).
Proof. unfold int_mul. by case_match. Qed.
#[local] Hint Resolve exits_int_mul : exits.

Lemma exits_noOfInterfaces fuel : forall n, exits_one (_noOfInterfaces_loop fuel n).
Proof.
  induction fuel as [|fuel IH]; intros n; [done|]. cbn [_noOfInterfaces_loop].
  case_match; [|done]. apply exits_bind; [apply exits_int_mul|]. intros room. case_match; [apply IH|done].
Qed.

Lemma exits_fill_list n l : forall i, exits_one (fill_list n i l).
Proof.
  induction l as [|a l IH]; intros i; [done|]. cbn [fill_list].
  apply exits_bind; [apply exits_bind; [apply exits_orelse|done]|]. intros e. by apply exits_bind.
Qed.

Lemma exits_run hw (io : io_context Q) : exits_one (run hw io).
Proof.
  unfold run, gateway_new, interfacesToIpV4addr, _noOfInterfaces. apply exits_bind; [|done].
  apply exits_bind; [unfold ifc_new; by case_decide|]. intros _.
  apply exits_bind; [apply exits_noOfInterfaces|]. intros _. apply exits_bind; [|by intros []].
  apply exits_bind; [apply exits_noOfInterfaces|]. intros [n reqs].
  apply exits_bind; [apply exits_orelse|]. intros l. by apply exits_bind; [apply exits_fill_list|].
Qed.

End Exits.

Section Setup.
Context {Q : Type} {fifo : Fifo Q ptr} {laws : FifoLaws Q ptr} {mal : Malloc} {os : OS}.
Context {plat : Platform} {net : Net}.
Implicit Types io : io_context Q.

Lemma exits_copy_cstr s : exits_one (copy_cstr s).
Proof. unfold copy_cstr. eauto with exits. Qed.

Lemma exits_resolve a s io : exits_one (resolve a s io).
Proof.
  unfold resolve. apply exits_bind; [apply exits_copy_cstr|]. intros ip.
  apply exits_bind; [apply exits_copy_cstr|]. intros srv.
  apply exits_bind; [unfold obtainAddresses; by case_match|]. intros l.
  apply exits_bind; [apply exits_orelse|]. intros r. by case_match.
Qed.

Lemma exits_socket l fd io : exits_one (udm_socket l fd io).
Proof. unfold udm_socket. by repeat case_match. Qed.

Lemma exits_client_setup junk_fd argv io : exits_one (client_setup junk_fd argv io).
Proof.
  unfold client_setup. do 3 (apply exits_bind; [apply exits_orelse|]; intros ?).
  apply exits_bind; [apply exits_resolve|]. intros [l io']. by apply exits_bind; [apply exits_socket|intros []].
Qed.

(** a context whose factories are as they were made *)
Definition fresh io : Prop :=
  dir io = RX /\ txFac io = DataFactory_new ALLOC_SIZE /\ rxFac io = DataFactory_new ALLOC_SIZE.

Lemma client_setup_fresh junk_fd argv io fd io' name :
  fresh io -> client_setup junk_fd argv io = Done (fd, io', name) -> fresh io'.
Proof.
  intros Hio Hs. unfold client_setup, resolve, udm_socket in Hs.
  apply done_bind in Hs as (addr & _ & Hs). apply done_bind in Hs as (service & _ & Hs).
  apply done_bind in Hs as (file & _ & Hs). apply done_bind in Hs as ([l io1] & Hres & Hs).
  apply done_bind in Hres as (ip & _ & Hres). apply done_bind in Hres as (srv & _ & Hres).
  apply done_bind in Hres as (al & _ & Hres). apply done_bind in Hres as (r & _ & Hres).
  destruct over_read; [|done]. injection Hres as <- <-.
  destruct (socket_loop al junk_fd) as [fd' []]; [|done]. by injection Hs as <- <- <-.
Qed.

Lemma sink_io_ok hw io src s : fresh io -> run hw (set_sink src io) = Done s -> proc_ok RX s.
Proof.
  intros (Hd & Ht & Hr) Hrun. rewrite <- Hd. change (dir io) with (dir (set_sink src io)).
  apply (run_ok hw (set_sink src io) s Hrun); cbn; rewrite ?Ht, ?Hr.
  - apply factory_new_ok.
  - destruct (factory_new_ok ALLOC_SIZE). by split.
  - apply q_new_rep.
  - apply q_new_rep.
  - rewrite Hd. intros []; cbn; rewrite ?Ht; by split; try (intros [x [=]]).
Qed.

(** a run ends the process with status 1 or not at all *)
Definition quiet {A} (p : prog (proc Q) A) : Prop :=
  ends (fun p' => match p' with Exit c _ => c = 1 | _ => True end) p.

Lemma quiet_bind {A B} (p : prog (proc Q) A) (f : A -> proc Q -> prog (proc Q) B) :
  quiet p -> (forall a s, quiet (f a s)) -> quiet (pbind p f).
Proof. unfold quiet. intros Hp Hf. induction p; cbn in *; auto. Qed.

Lemma quiet_wp {A} (m : M (proc Q) A) s R : wp m s R -> quiet (m s).
Proof. unfold wp, quiet. generalize (m s). intros p Hp. induction p; cbn in *; auto. Qed.

Lemma quiet_session fuel hw io src : few_interfaces -> fresh io ->
  quiet (udm_start fuel hw (set_sink src io)).
Proof.
  intros Hif Hio. pose proof (exits_run hw (set_sink src io)) as Hx. unfold udm_start.
  destruct (run hw (set_sink src io)) as [p|c|e] eqn:Hr; [|exact Hx|done].
  apply quiet_bind.
  - replace (dir (set_sink src io)) with RX by by destruct Hio.
    eapply quiet_wp, (wp_start RX Hif). by eapply sink_io_ok.
  - intros [] s. unfold destroy. m_unfold.
    apply quiet_bind; [|intros [] s']; unfold DataFactory_destroy; (case_match; [done|by case_match]).
Qed.

End Setup.

(** ** The client's [main] *)

Section Client.
Context {Q : Type} {fifo : Fifo Q ptr} {laws : FifoLaws Q ptr} {mal : Malloc} {os : OS}.
Context {plat : Platform} {net : Net} {files : Files}.
Variables (hw : nat) (junk_peer : sockaddr) (junk_fd : Z).
Abbreviation client_main := (client_main (Q:=Q) hw junk_peer junk_fd).

(** the status that a final state of the client's process has; [argc] arguments *)
Definition client_ends (argc : nat) (p : prog (proc Q) Z) : Prop :=
  match p with
  | Ret c _ => c = if decide (argc = 4%nat) then 0 else 1
  | Exit c _ => c = 1
  | _ => True
  end.

Lemma client_main_ends fuel argv : few_interfaces -> ends (client_ends (length argv)) (client_main fuel argv).
Proof.
  intros Hif. unfold Main.client_main. destruct (decide (length argv = 4%nat)) as [H4|H4].
  2: { rewrite bool_decide_false by done. cbn. by rewrite decide_False. }
  rewrite bool_decide_true by done. cbn [negb].
  pose proof (exits_client_setup junk_fd argv (io_context_new (Q:=Q) RX junk_peer junk_fd)) as Hx.
  destruct (client_setup _ _ _) as [[[fd io] name]|c|e] eqn:Hs; [|exact Hx|done].
  apply client_setup_fresh in Hs; [|done].
  assert (forall s, client_ends (length argv) (Ret 0 s)) as Hz by (intros s; cbn; by rewrite decide_True).
  case_match; [apply Hz|]. unfold client_session. destruct (source_new name OUT) as [src|]; [|apply Hz].
  pose proof (quiet_session fuel hw io src Hif Hs) as Hq. unfold udm_rxstart.
  revert Hq. unfold quiet. generalize (udm_start fuel hw (set_sink src io)). intros p Hq.
  induction p; cbn in *; auto.
Qed.

(** C35: the client's [main], branch by branch.  Without three arguments it returns
    1.  With three, it faults where the two strings or the first address do not fit
    the memory they are copied from and to; it ends the process with status 1 when
    [getaddrinfo] fails or no address has a socket; it returns 0, and sends nothing,
    when the first socket there is is 0 or negative; and otherwise there is one
    session, with the named file as its sink, be it open or not.  Whatever the
    network does then, the process returns 0, ends with status 1 in a failed system
    call, faults or never ends: the exception for a failed session, which would
    abort it, is never thrown. *)
Theorem client_main_branches fuel name host service file :
  few_interfaces -> no_nul host -> no_nul service ->
  let io : io_context Q := io_context_new RX junk_peer junk_fd in
  (forall argv, length argv <> 4%nat -> client_main fuel argv = Ret 1 (no_proc io)) /\
  client_main fuel [name; host; service; file] =
    (if decide (length host < usable (length host) /\ length service < usable (length service))%nat then
       match getaddrinfo (Some host) service with
       | None => Exit 1 (no_proc io)
       | Some [] => Fault NullDeref
       | Some (a :: l) =>
           if over_read then
             match list_find (fun b => socket b <> -1) (a :: l) with
             | None => Exit 1 (no_proc io)
             | Some (_, b) =>
                 let io := setfd (socket b) (set_peer (ai_addr a) io) in
                 if socket b <=? 0 then Ret 0 (no_proc io)
                 else pbind (udm_rxstart fuel hw (set_sink
                   (mkSource OUT (if can_create file then fs_opened [] else fs_unopened) 0) io) error_new)
                   client_status
             end
           else Fault OutOfBounds
       end
     else Fault OutOfBounds) /\
  forall argv tr p, runs (client_main fuel argv) tr p -> final p = true ->
    match p with
    | Ret c _ => c = if decide (length argv = 4%nat) then 0 else 1
    | Exit c _ => c = 1
    | _ => True
    end.
Proof.
  intros Hif Hh Hs io. split; [|split].
  - intros argv H4. unfold Main.client_main. by rewrite bool_decide_false.
  - unfold Main.client_main, client_setup. rewrite bool_decide_true by done.
    cbn [negb lookup list_lookup orelse mbind res_bind]. rewrite resolve_eq by done.
    case_decide; [|done]. destruct (getaddrinfo (Some host) service) as [[|a l]|]; [done| |done].
    destruct over_read; [|done]. cbn [mbind res_bind]. unfold udm_socket. rewrite socket_loop_spec.
    destruct (list_find _ (a :: l)) as [[i b]|]; [|done]. cbn [mbind res_bind].
    case_match; [done|]. unfold client_session, source_new, DataSource_new. by destruct (can_create file).
  - intros argv tr p. apply (proj1 (ends_runs _ _) (client_main_ends fuel argv Hif)).
Qed.

End Client.

(** ** A client without a server *)

#[local] Existing Instances Linked.linked_fifo Linked.linked_laws.

Definition demo_sink : DataSource := mkSource OUT (fs_opened []) 0.
Definition demo_rx : io_context buffer_queue := io_context_new RX server_addr 0.

(** the demonstration client on its command line starts a session with the server;
    every end of it has one of the two statuses *)
Lemma client_main_branches_witness :
  demo_client 5 =
    pbind (@udm_rxstart _ Linked.linked_fifo demo_malloc demo_os_c rounding_platform 5 4
      (set_sink demo_sink (setfd 3 (set_peer server_addr demo_rx))) error_new) client_status /\
  forall tr p, runs (demo_client 5) tr p -> final p = true ->
    match p with Ret c _ => c = 0 | Exit c _ => c = 1 | _ => True end.
Proof.
  destruct (client_main_branches (mal:=demo_malloc) (os:=demo_os_c) (plat:=rounding_platform) (net:=main_net)
    (files:=disk []) (fifo:=Linked.linked_fifo) 4 server_addr 0 5 prog_name [Byte.x68] (to_string 9000) [Byte.x67])
    as (_ & Heq & Hends).
  - unfold few_interfaces. cbn. lia.
  - unfold no_nul. apply (bool_decide_unpack _). done.
  - apply to_string_no_nul.
  - split; [exact Heq|]. exact (Hends client_argv).
Defined.
